(* ===== verification/_CoqProject ===== *)
-Q . S2P
Prelude.v
Dfs.v
Json.v
Error.v
Utf8.v
Envelope.v
Scope.v
Tool.v
Guard.v
Expr.v
Workflow.v
Template.v
Config.v
Schema.v
Validator.v
Compiler.v
Executor.v
Dag.v
Table.v
Journal.v
Storage.v
Stream.v
Engine.v
Builtins.v
SystemTools.v
Events.v
Interactions.v
Bisimulation.v
Scheduler.v
ScheduleTool.v
Dispatch.v
Agent.v
Mcp.v
MemoryTools.v
Fanout.v
Surreal.v
Connect.v
Runtime.v
Monitor.v
Budget.v
Intents.v
Runner.v
WorkflowTool.v
Server.v
Boot.v
Startup.v
Auth.v
Backend.v
Isolation.v
