(* ===== verification/Prelude.v ===== *)
(** * konf: agents under capabilities, in Rocq

    konf runs workflows of tools on behalf of tenants.  A workflow is a YAML
    graph whose nodes call tools; a run is an asynchronous process with an
    identity, a set of granted tools, limits, a journal and a place in a process
    tree.  The code is Rust; everything below is a shallow embedding of it.
    Paths are relative to [src/crates/] of the repository; a definition
    keeps the source's name where it can.

    ** The program and where it is modelled

    The substrate ([konflux-substrate/src]) knows tools, envelopes and
    workflows:
    - [Envelope]: [envelope.rs], [capability.rs]; the pattern lattice, its
      attenuation, the envelope every tool receives.
    - [Error], [Json], [Stream], [Tool], [Config]: [error.rs], [serde_json]'s
      values and numbers, [stream.rs], [tool.rs], the configuration of
      [engine.rs].
    - [Expr]: [expr.rs], the condition language.  [Template]: [template.rs].
    - [Workflow]: [workflow.rs], the IR and its validation.  [Schema],
      [Validator], [Compiler]: [parser/schema.rs], [parser/validator.rs],
      [parser/graph.rs], [parser/compiler.rs], [parser.rs].
    - [Executor]: [executor.rs] below the scheduler (edges, backoff, retries,
      one step).  [Dag]: [Executor::execute], node tasks and the main loop.
    - [Engine]: [engine.rs], [resource.rs], [prompt.rs].  [Builtins]:
      [builtin.rs].

    The runtime ([konf-runtime/src]) gives runs identities, limits and memory:
    - [Scope]: [scope.rs].  [Guard]: [guard.rs], [context.rs], the wrappers of
      every dispatched tool.
    - [Dispatch]: [dispatcher.rs], the scoped engines and metadata of
      [runtime.rs].  [Runtime]: the process life cycle of [runtime.rs],
      [process.rs], [hooks.rs], [monitor.rs].  [Budget]: [budget.rs].
    - [Journal]: [journal/redb.rs] against the contract of the substrate's
      [journal.rs].  [Fanout]: [journal/fanout.rs], [journal/subscribe.rs].
    - [Scheduler]: [scheduler.rs], the durable timers.  [Events]:
      [event_bus.rs], [execution_context.rs], [interaction.rs],
      [process.rs] of the substrate.  [Interactions]: reading interactions back.
    - [Intents], [Runner]: [runner_intents.rs] and
      [konf-tool-runner/src/{registry,runners/inline}.rs].
    - [WorkflowTool]: [workflow_tool.rs] and [konf-tool-runner/src/tools.rs].

    Tools and boot:
    - [Agent]: [konf-tool-llm/src].  [SystemTools]: [konf-tool-http],
      [konf-tool-shell], [konf-tool-secret].  [ScheduleTool]:
      [konf-init/src/schedule.rs] and [register_schedules].
      [SystemTools] also holds [konf-tool-embed/src].
    - [MemoryTools]: [konf-tool-memory/src], the tools over any backend.
      [Surreal]: [konf-tool-memory-surreal/src], the backend that shares one
      database between namespaces, and the journal's mirror in it.  [Connect]:
      its schema and how it is opened.
    - [Mcp]: [konf-tool-mcp/src], the servers whose tools konf calls.
    - [Boot]: [konf-init/src/lib.rs], [config.rs]: what is registered when, with
      which guards, and what a reload of the configuration replaces.
      [Startup]: the rest of [boot]: the journal of the runtime, its repair, the
      replay of unfinished runs, the schedules.
    - [Storage]: [konf-runtime/src/storage.rs] and [journal/sweep.rs].
      [Monitor]: process trees and the views of [monitor.rs].  [Bisimulation]:
      [projection.rs] and [bisimulation.rs], the oracle over recorded traces.

    What clients reach:
    - [Server]: [konf-mcp/src/lib.rs], tools and resources for MCP clients.
    - [Auth]: [konf-backend/src/auth], who a request comes from.  [Backend]: the
      rest of [konf-backend/src], the HTTP endpoints over [Runtime].

    What runs side by side:
    - [Isolation]: [Runtime::start] from a scope to the context of the run, and
      any number of such runs, interleaved, over one memory database.

    [Prelude] (this file), [Dfs], [Table] and [Utf8] are what the components
    share: results and machine integers, depth-first search, redb's tables as
    type classes with finite maps as instances, UTF-8.

    ** How the parts meet

    A trigger (a client, a timer, a tool) asks [Runtime.start] for a run with a
    [Scope].  The runtime builds the scoped registry ([Dispatch.scoped_registry]:
    granted tools only, wrapped by [Guard]'s two wrappers) and hands workflow,
    envelope and registry to the engine, whose executor is [Dag] over
    [Executor].  Each step checks the envelope's capabilities ([Envelope]) and
    invokes a tool; tools that start further runs are [WorkflowTool], the runner
    tools and the schedule tools, which is where authority could grow and where
    the theorems show it does not.  The journal records what happened, and
    decides what a restart repairs ([Journal.reconcile_zombies],
    [Runner.replay_set]).

    Interfaces are type classes and records of operations: [Table.LogTable] and
    [Table.IndexTable] (redb), [Dispatch.StoreLaws] (what the dispatcher needs of
    a journal, discharged by the redb model and shown to fail for the fan-out),
    [Fanout.JournalView] (what subscriptions need), [Surreal.SessionDb] (the
    session table), [Boot.outside] (what boot takes from elsewhere), [Intents] and [Runner]'s
    tables, [WorkflowTool.runner_ops].

    ** Conventions

    - [Result<A, E>] is [Prelude.result E A] with its monad; a panic or an error
      the source does not distinguish is [None].
    - Machine integers are [Z] with their wrap-around or saturation written out;
      [f64] is binary64 ([Json.f64]); text is a [string] of UTF-8 bytes.
    - Objects are association lists sorted by key ([BTreeMap]); maps whose order
      cannot show are [gmap]s, and a [HashMap] whose iteration order shows is
      listed through a parameter that is a permutation of its entries.
    - What is outside the repository is a parameter: clocks, ids, redb, postcard,
      [serde_json]'s printer, minijinja, the [cron], [url], [reqwest] and [rig]
      crates, processes.  Stateful ones act on a world [W] that is threaded
      through calls.  What theorems assume of them is a hypothesis with a name,
      and each such theorem has an instance in the [Demo] module of its file.
    - Concurrency is interleaving: the steps are the pieces of code between two
      suspension points (or under one lock), reachability is a run of labelled
      steps ([Dag.exec], [Scheduler.sched_step], [Runtime], [Runner],
      [Fanout.fan_step]), and invariants are proved by induction on runs.

    ** What the theorems say

    - Authority: the cover test is inclusion of granted names, delegation never
      amplifies, child scopes attenuate, every dispatch of every interleaving of
      a workflow and every single-tool dispatch is authorised, guarded tools
      refuse without effect or run with every bound key forced, agents invoke
      only what their caller may (but see the guards they escape).  A child
      scope carries the bindings its request names: nothing compares them with
      its parent's.
    - Parsing: the validator accepts exactly the valid schemas, whatever is
      compiled is well formed and every tool its nodes name is granted (the
      implicit ones wait for dispatch), cycle checks are complete; printed
      conditions evaluate to their meaning; globs match what they denote.
    - Execution: concurrency limit, joins and accounting of the workflow
      scheduler, no deadlock, attempts, pauses and backoff of a dispatch; where a
      concurrency limit loses nodes.
    - Storage: the journal and the timers keep their tables consistent in every
      reachable state and refine lists of rows and of timers; what a tick of the
      scheduler does to every timer; what a crash leaves, what a restart adds or replays, what fan-out and subscriptions deliver.
    - Processes: the table shows a run as running exactly while its task runs,
      budgets are conserved, runner records are terminal exactly when their runs
      are over.
    - Tools: which requests the schedule tools accept and what they store for
      each, which addresses the HTTP filter refuses, what bounds an agent's loop
      and what it sends and counts.
    - Memory: a namespace never sees or changes another's nodes and session
      state, and the session tools refine a finite map whose entries expire.
    - Tenants: whatever runs share the process and however they interleave, a run
      whose scope binds a namespace asks the memory database for that namespace
      only; a workflow called from it starts a run without the binding, which does
      not keep to it ([Isolation.Demo.nested_run_escapes]).
    - Boot: a reload leaves exactly the configured workflows beside the tools it
      does not own, and repeats what boot did.
    - Clients: what an MCP client sends invokes at most the one wrapped tool its
      session covers, in MCP's own namespace, down to the statements that reach
      the memory database; a request passes authentication only as the claims of
      a token checked against a trusted key; apart from profile and chat the HTTP
      API answers everyone alike; chat runs have no namespace bound, so where the
      session tools have no guard, any user reads and overwrites the memory of
      any other.
    - Restart: a process that dies while it replays loses no unfinished run, and a
      boot that comes to its end has resumed exactly the runnable ones, under
      their stored authority; recorded interactions read back as they were.
    - Upkeep: sweeping removes exactly the rows expired when a sweep ran; the
      queries of live rows answer as before, [recent] may gain older rows and a
      key look-up may find an older live row; the trace oracle decides equality
      of the sequences of state hashes.
    Where a theorem says what an operation does on every branch, the promise is
    written apart from the operation, as definitions that do not mention it:
    [Guard.guard_denial] and [Guard.bound_call], [Dispatch.guarded_call] and the
    [expected_*] records, [Scheduler.fires] to [Scheduler.timer_left],
    [ScheduleTool.requested_record] and its parts, [Agent.loop_ok].
    Theorems that state a defect say so in their comments, and are repeated in
    the findings of the manifest.

    ** Fuel

    Recursion that is not structural takes fuel, and a lemma of the same file
    shows that the fuel given is enough, so that no answer is lost:
    [Expr.eval_fuel] (the length of the text), [Guard.glob_loop]
    ([glob_fuel]: the measure of two positions and the backtrack point),
    [Dfs.dfs], [Workflow.dfs_detect_cycle] and [Validator.v_dfs] (one more than
    the nodes), [Compiler.extract_fuel] and the loops of [Utf8] (the length of
    the text), [Runtime.cancel] and [Monitor.get_tree] (the size of the process
    table).  The retry loop
    and the agent's loop recurse on the number of attempts left, as the code
    counts them.

    ** Not modelled

    - Logging, tracing spans and metrics export; [tracing_layer.rs].
    - Deserialisation by serde and the reading of files: models start from the
      deserialised value (interactions excepted).
    - The wire: the protocol and transports of [rmcp], routing, request bodies
      and frames of [axum]; the command lines and embedded texts of the binaries.
    - Panics of tasks, and failures of the disk in the middle of a transaction
      (redb's transactions are atomic).
    - Interleavings inside three handlers.  [Dag.recv_message] with
      [Dag.spawn_reachable] is the body of one turn of the executor's main loop
      and [Runtime]'s [finish] the end of a run's task; each is one step, although
      the code awaits locks, or updates the table, the counter and the bus one
      after the other.  In the executor the main task alone marks nodes reachable
      and spawns them, so a task that stores its result meanwhile is seen one
      message later or earlier; in the runtime a reader of metrics may for a
      moment see the table and the counter disagree.
    - The results of tools inside a schedule: [Dag] lets a tool call return
      anything, and [Isolation] lets an attempt start in any world and stop after
      any statement; both allow every execution of the program, and more. *)

From stdpp Require Export base tactics option list gmap strings sorting.
From Stdlib Require Export ZArith Lia.
From Stdlib Require Import Ascii.

#[export] Set Default Goal Selector "!".
#[global] Arguments String.append !_ _ : simpl nomatch.

(** * Results and the error monad *)

(** Rust's [Result<A, E>]. *)
Inductive result (E A : Type) : Type :=
  | Ok (a : A)
  | Err (e : E).
Arguments Ok {E A} a.
Arguments Err {E A} e.

#[export] Instance result_ret E : MRet (result E) := fun A a => Ok a.
#[export] Instance result_bind E : MBind (result E) := fun A B f m =>
  match m with Ok a => f a | Err e => Err e end.
#[export] Instance result_fmap E : FMap (result E) := fun A B f m =>
  match m with Ok a => Ok (f a) | Err e => Err e end.

#[export] Instance result_eq_dec {E A} `{EqDecision E, EqDecision A} : EqDecision (result E A).
Proof. solve_decision. Defined.

Definition is_ok {E A} (r : result E A) : bool :=
  match r with Ok _ => true | Err _ => false end.

(** [Result::ok]. *)
Definition to_option {E A} (r : result E A) : option A :=
  match r with Ok a => Some a | Err _ => None end.

(** [Option::ok_or]. *)
Definition ok_or {E A} (o : option A) (e : E) : result E A :=
  match o with Some a => Ok a | None => Err e end.

(** [Result::map_err]. *)
Definition map_err {E F A} (f : E -> F) (r : result E A) : result F A :=
  match r with Ok a => Ok a | Err e => Err (f e) end.

(** A [for] loop whose body can leave with [?]. *)
Fixpoint try_each {A E} (f : A -> result E unit) (l : list A) : result E unit :=
  match l with
  | [] => Ok tt
  | x :: l' => _ ← f x; try_each f l'
  end.

(** [iter().map(f).collect::<Result<Vec<_>, _>>()]. *)
Fixpoint try_map {A B E} (f : A -> result E B) (l : list A) : result E (list B) :=
  match l with
  | [] => Ok []
  | x :: l' => y ← f x; ys ← try_map f l'; Ok (y :: ys)
  end.

(** [sort_by_key]: stable. *)
Fixpoint insert_by_key {A} (key : A -> Z) (x : A) (l : list A) : list A :=
  match l with
  | [] => [x]
  | y :: l' => if (key y <=? key x)%Z then y :: insert_by_key key x l' else x :: l
  end.
Definition sort_by_key {A} (key : A -> Z) (l : list A) : list A :=
  fold_left (fun acc x => insert_by_key key x acc) l [].

(** * Machine integers

    Integers are [Z]; the arithmetic that Rust leaves unchecked in a release
    build wraps, and the saturating operations saturate. *)

Definition u32_max : Z := 2 ^ 32 - 1.
Definition u64_max : Z := 2 ^ 64 - 1.
Definition i64_min : Z := - 2 ^ 63.
Definition i64_max : Z := 2 ^ 63 - 1.

Definition wrap_u32 (z : Z) : Z := z mod 2 ^ 32.
Definition wrap_u64 (z : Z) : Z := z mod 2 ^ 64.
Definition wrap_i64 (z : Z) : Z := (z + 2 ^ 63) mod 2 ^ 64 - 2 ^ 63.

Definition in_u32 (z : Z) : Prop := (0 <= z <= u32_max)%Z.
Definition in_u64 (z : Z) : Prop := (0 <= z <= u64_max)%Z.
Definition in_i64 (z : Z) : Prop := (i64_min <= z <= i64_max)%Z.

Definition saturating_add_u64 (a b : Z) : Z := Z.min (a + b) u64_max.
Definition saturating_mul_u64 (a b : Z) : Z := Z.min (a * b) u64_max.
Definition saturating_pow_u64 (a e : Z) : Z := Z.min (a ^ e) u64_max.

(** * Strings

    A Rust [str] is its UTF-8 bytes, a Stdlib [string]. *)

Definition starts_with (s p : string) : bool := String.prefix p s.

Fixpoint strip_prefix (p s : string) : option string :=
  match p with
  | EmptyString => Some s
  | String a p' =>
      match s with
      | EmptyString => None
      | String b s' => if Ascii.eqb a b then strip_prefix p' s' else None
      end
  end.

Fixpoint strip_suffix (p s : string) : option string :=
  if String.eqb s p then Some EmptyString else
  match s with
  | EmptyString => None
  | String c s' => String c <$> strip_suffix p s'
  end.

Definition ends_with (s p : string) : bool := bool_decide (is_Some (strip_suffix p s)).

(** [s.find(sep)] together with the two slices around the match. *)
Fixpoint split_once (sep s : string) : option (string * string) :=
  match strip_prefix sep s with
  | Some r => Some (EmptyString, r)
  | None =>
      match s with
      | EmptyString => None
      | String c s' => (fun ab => (String c ab.1, ab.2)) <$> split_once sep s'
      end
  end.

(** [s.rfind(sep)] together with the two slices around the match. *)
Fixpoint rsplit_once (sep s : string) : option (string * string) :=
  match s with
  | EmptyString =>
      match sep with EmptyString => Some (EmptyString, EmptyString) | _ => None end
  | String c s' =>
      match rsplit_once sep s' with
      | Some (a, b) => Some (String c a, b)
      | None => pair EmptyString <$> strip_prefix sep s
      end
  end.

Definition str_contains (s p : string) : bool := bool_decide (is_Some (split_once p s)).

(** [s.split(c)] for an ASCII separator: never empty. *)
Fixpoint split_on (c : ascii) (s : string) : list string :=
  match s with
  | EmptyString => [EmptyString]
  | String a s' =>
      if Ascii.eqb a c then EmptyString :: split_on c s'
      else match split_on c s' with
           | [] => [String a EmptyString]
           | x :: xs => String a x :: xs
           end
  end.

Definition byte_of (a : ascii) : N := N_of_ascii a.

(** The multi-byte encodings of the [White_Space] code points, by length. *)
Definition is_ws1 (a : ascii) : bool :=
  let n := byte_of a in (N.leb 9 n && N.leb n 13 || N.eqb n 32)%bool.

Definition is_ws2 (a b : ascii) : bool :=
  (N.eqb (byte_of a) 194 && (N.eqb (byte_of b) 133 || N.eqb (byte_of b) 160))%bool.

Definition is_ws3 (a b c : ascii) : bool :=
  let x := byte_of a in let y := byte_of b in let z := byte_of c in
  (N.eqb x 225 && N.eqb y 154 && N.eqb z 128
   || N.eqb x 226 && N.eqb y 128 &&
      (N.leb 128 z && N.leb z 138 || N.eqb z 168 || N.eqb z 169 || N.eqb z 175)
   || N.eqb x 226 && N.eqb y 129 && N.eqb z 159
   || N.eqb x 227 && N.eqb y 128 && N.eqb z 128)%bool.

(** [str::trim_start]. *)
Fixpoint trim_start (s : string) : string :=
  match s with
  | EmptyString => EmptyString
  | String a s1 =>
      if is_ws1 a then trim_start s1 else
      match s1 with
      | EmptyString => s
      | String b s2 =>
          if is_ws2 a b then trim_start s2 else
          match s2 with
          | EmptyString => s
          | String c s3 => if is_ws3 a b c then trim_start s3 else s
          end
      end
  end.

(** [str::trim_end]: cut where the rest is white space only. *)
Fixpoint trim_end (s : string) : string :=
  match trim_start s with
  | EmptyString => EmptyString
  | _ => match s with
         | EmptyString => EmptyString
         | String c s' => String c (trim_end s')
         end
  end.

Definition trim (s : string) : string := trim_end (trim_start s).

(** [str::chars]: decoding of a well-formed UTF-8 string to scalar values. *)
Fixpoint chars (s : string) : list N :=
  match s with
  | EmptyString => []
  | String a s1 =>
      let x := byte_of a in
      if N.ltb x 128 then x :: chars s1 else
      match s1 with
      | EmptyString => [x]
      | String b s2 =>
          let y := (byte_of b mod 64)%N in
          if N.ltb x 224 then ((x mod 32) * 64 + y)%N :: chars s2 else
          match s2 with
          | EmptyString => [x]
          | String c s3 =>
              let z := (byte_of c mod 64)%N in
              if N.ltb x 240 then (((x mod 16) * 64 + y) * 64 + z)%N :: chars s3 else
              match s3 with
              | EmptyString => [x]
              | String d s4 =>
                  let w := (byte_of d mod 64)%N in
                  ((((x mod 8) * 64 + y) * 64 + z) * 64 + w)%N :: chars s4
              end
          end
      end
  end.

Definition is_digit (a : ascii) : bool :=
  let n := byte_of a in (N.leb 48 n && N.leb n 57)%bool.

Definition lower_ascii (a : ascii) : ascii :=
  let n := byte_of a in
  if (N.leb 65 n && N.leb n 90)%bool then ascii_of_N (n + 32) else a.

(** [str::to_ascii_lowercase]. *)
Fixpoint to_ascii_lowercase (s : string) : string :=
  match s with
  | EmptyString => EmptyString
  | String a s' => String (lower_ascii a) (to_ascii_lowercase s')
  end.

(** Value of a run of decimal digits, [None] on any other byte. *)
Fixpoint digits_value (acc : Z) (s : string) : option Z :=
  match s with
  | EmptyString => Some acc
  | String a s' =>
      if is_digit a then digits_value (acc * 10 + Z.of_N (byte_of a - 48)) s' else None
  end.

(** [str::parse::<u64>]: an optional [+], then at least one digit, in range. *)
Definition parse_u64 (s : string) : option Z :=
  let body := match s with
              | String a s' => if Ascii.eqb a "+" then s' else s
              | _ => s
              end in
  match body with
  | EmptyString => None
  | _ => n ← digits_value 0 body; if (n <=? u64_max)%Z then Some n else None
  end.

(** [str::parse::<i64>]. *)
Definition parse_i64 (s : string) : option Z :=
  let '(neg, body) := match s with
                      | String a s' =>
                          if Ascii.eqb a "-" then (true, s')
                          else if Ascii.eqb a "+" then (false, s') else (false, s)
                      | _ => (false, s)
                      end in
  match body with
  | EmptyString => None
  | _ => n ← digits_value 0 body;
         let z := if neg : bool then Z.opp n else n in
         if ((i64_min <=? z) && (z <=? i64_max))%Z%bool then Some z else None
  end.

(** * Lemmas on strings *)

Create HintDb rust.

Lemma app_EmptyString_r s : String.append s EmptyString = s.
Proof. induction s as [|c s IH]; [done|]. cbn. by rewrite IH. Qed.

Lemma append_assoc a b c : String.append a (String.append b c) = String.append (String.append a b) c.
Proof. induction a as [|x a IH]; [done|]. cbn. by rewrite IH. Qed.

Lemma append_inv_l a b c : String.append a b = String.append a c -> b = c.
Proof. induction a as [|x a IH]; cbn; [done|]. intros [= H]. by apply IH. Qed.

Lemma append_length a b : String.length (String.append a b) = String.length a + String.length b.
Proof. induction a as [|x a IH]; cbn; [done|]. by rewrite IH. Qed.

Lemma append_inv_r a b c : String.append a c = String.append b c -> a = b.
Proof.
  revert b. induction a as [|x a IH]; intros [|y b]; cbn; [done| | |].
  - intros H. apply (f_equal String.length) in H. cbn in H.
    rewrite append_length in H. lia.
  - intros H. apply (f_equal String.length) in H. cbn in H.
    rewrite append_length in H. lia.
  - intros [= -> H]. f_equal. by apply IH.
Qed.

Lemma strip_prefix_Some p s r : strip_prefix p s = Some r <-> s = String.append p r.
Proof.
  revert s. induction p as [|a p IH]; intros s; cbn.
  - split; [by intros [= ->]|by intros ->].
  - destruct s as [|b s]; [done|].
    destruct (Ascii.eqb_spec a b) as [->|Hne].
    + rewrite IH. split; [by intros ->|by intros [= ->]].
    + split; [done|]. by intros [= -> _].
Qed.

Lemma strip_prefix_append p r : strip_prefix p (String.append p r) = Some r.
Proof. by apply strip_prefix_Some. Qed.

Lemma starts_with_strip s p : starts_with s p = bool_decide (is_Some (strip_prefix p s)).
Proof.
  unfold starts_with. revert s. induction p as [|a p IH]; intros [|b s]; [done..|]; cbn.
  destruct (Ascii.eqb_spec a b) as [->|Hne]; [|by destruct (ascii_dec a b)].
  destruct (ascii_dec b b) as [_|n]; [|done]. apply IH.
Qed.

Lemma starts_with_Some s p : starts_with s p = true <-> exists r, s = String.append p r.
Proof.
  rewrite starts_with_strip, bool_decide_eq_true. unfold is_Some.
  split; intros [r H]; exists r; by apply strip_prefix_Some.
Qed.

Lemma strip_suffix_Some p s r : strip_suffix p s = Some r <-> s = String.append r p.
Proof.
  revert r. induction s as [|c s IH]; intros r; cbn [strip_suffix].
  - destruct p as [|x p]; cbn.
    + split; [by intros [= <-]|]. by destruct r.
    + split; [done|]. by destruct r.
  - destruct (String.eqb_spec (String c s) p) as [<-|Hne].
    + split; [by intros [= <-]|]. intros H.
      destruct r as [|y r]; [done|].
      apply (f_equal String.length) in H. rewrite append_length in H. cbn in H. lia.
    + split.
      * intros (r' & Hr & ->)%fmap_Some. cbn. f_equal. by apply IH.
      * intros H. destruct r as [|y r]; [by subst|].
        injection H as -> H. apply IH in H. by rewrite H.
Qed.

Lemma strip_suffix_append r p : strip_suffix p (String.append r p) = Some r.
Proof. by apply strip_suffix_Some. Qed.

Lemma split_once_Some sep s a b :
  split_once sep s = Some (a, b) -> s = String.append a (String.append sep b).
Proof.
  revert a b. induction s as [|c s IH]; intros a b.
  - unfold split_once. destruct (strip_prefix sep EmptyString) as [r|] eqn:E; [|done].
    intros [= <- <-]. cbn [String.append]. by apply strip_prefix_Some.
  - cbn [split_once]. destruct (strip_prefix sep (String c s)) as [r|] eqn:E.
    + intros [= <- <-]. cbn [String.append]. by apply strip_prefix_Some.
    + intros ([a' b'] & H & [= -> ->])%fmap_Some. cbn. f_equal. by apply IH.
Qed.

Lemma rsplit_once_Some sep s a b :
  rsplit_once sep s = Some (a, b) -> s = String.append a (String.append sep b).
Proof.
  revert a b. induction s as [|c s IH]; intros a b; cbn [rsplit_once].
  - destruct sep; [|done]. by intros [= <- <-].
  - destruct (rsplit_once sep s) as [[a' b']|] eqn:E.
    + intros [= <- <-]. cbn. f_equal. by apply IH.
    + intros (r & H & [= -> ->])%fmap_Some. cbn [String.append]. by apply strip_prefix_Some.
Qed.

Lemma ends_with_Some s p : ends_with s p = true <-> exists r, s = String.append r p.
Proof.
  unfold ends_with. rewrite bool_decide_eq_true. unfold is_Some.
  split; intros [r H]; exists r; by apply strip_suffix_Some.
Qed.

Lemma split_on_nonempty c s : split_on c s <> [].
Proof. destruct s as [|a s]; cbn; [done|]. destruct (Ascii.eqb a c); [done|]. by destruct (split_on c s). Qed.

(** The white-space prefix removed by [trim_start] is a suffix computation. *)
Lemma trim_start_length_aux n s :
  String.length s <= n -> String.length (trim_start s) <= String.length s.
Proof.
  revert s. induction n as [|n IH]; intros s Hn.
  - destruct s; cbn in *; lia.
  - destruct s as [|a s]; cbn in *; [lia|].
    destruct (is_ws1 a); [specialize (IH s); lia|].
    destruct s as [|b s]; cbn in *; [lia|].
    destruct (is_ws2 a b); [specialize (IH s); lia|].
    destruct s as [|c s]; cbn in *; [lia|].
    destruct (is_ws3 a b c); [specialize (IH s); lia|]. cbn. lia.
Qed.

Lemma trim_start_length s : String.length (trim_start s) <= String.length s.
Proof. by eapply trim_start_length_aux. Qed.

Lemma trim_end_length s : String.length (trim_end s) <= String.length s.
Proof.
  induction s as [|c s IH]; [cbn; lia|].
  cbn [trim_end]. destruct (trim_start (String c s)); cbn; lia.
Qed.

Lemma trim_length s : String.length (trim s) <= String.length s.
Proof. unfold trim. etrans; [apply trim_end_length|apply trim_start_length]. Qed.

(** ** Characters of a string *)

Fixpoint str_forall (f : ascii -> bool) (s : string) : bool :=
  match s with EmptyString => true | String a s' => f a && str_forall f s' end.

Fixpoint str_count (x : ascii) (s : string) : nat :=
  match s with
  | EmptyString => 0
  | String a s' => (if Ascii.eqb a x then 1 else 0) + str_count x s'
  end.

Definition is_printable (a : ascii) : bool :=
  (N.leb 33 (byte_of a) && N.leb (byte_of a) 126)%bool.

Lemma str_count_append x a b : str_count x (String.append a b) = str_count x a + str_count x b.
Proof. induction a as [|c a IH]; cbn; [done|]. rewrite IH. lia. Qed.

Lemma str_forall_count f x s : str_forall f s = true -> f x = false -> str_count x s = 0.
Proof.
  intros Hs Hx. induction s as [|a s IH]; cbn in *; [done|].
  apply andb_prop in Hs as [Ha Hs]. rewrite IH by done.
  destruct (Ascii.eqb_spec a x) as [->|]; [congruence|done].
Qed.

Lemma rsplit_once_None x sep s :
  str_count x s < str_count x sep -> rsplit_once sep s = None.
Proof.
  intros H. destruct (rsplit_once sep s) as [[a b]|] eqn:E; [|done].
  apply rsplit_once_Some in E as ->. rewrite !str_count_append in H. lia.
Qed.

Lemma split_once_None x sep s :
  str_count x s < str_count x sep -> split_once sep s = None.
Proof.
  intros H. destruct (split_once sep s) as [[a b]|] eqn:E; [|done].
  apply split_once_Some in E as ->. rewrite !str_count_append in H. lia.
Qed.

Lemma strip_suffix_None x p s : str_count x s < str_count x p -> strip_suffix p s = None.
Proof.
  intros H. destruct (strip_suffix p s) as [r|] eqn:E; [|done].
  apply strip_suffix_Some in E as ->. rewrite str_count_append in H. lia.
Qed.

(** The first occurrence of a separator whose first character does not occur
    before it. *)
Lemma split_once_first x sep w r :
  str_count x w = 0 ->
  split_once (String x sep) (String.append w (String.append (String x sep) r)) = Some (w, r).
Proof.
  intros Hw. induction w as [|c w IH].
  - change (split_once (String x sep) (String.append (String x sep) r) = Some (EmptyString, r)).
    pose proof (strip_prefix_append (String x sep) r) as Hs. cbn [String.append] in Hs |- *.
    cbn [split_once]. by rewrite Hs.
  - cbn [str_count] in Hw. destruct (Ascii.eqb_spec c x) as [->|Hc]; [lia|].
    cbn [String.append split_once strip_prefix].
    destruct (Ascii.eqb_spec x c) as [<-|]; [done|].
    change (String x (String.append sep r)) with (String.append (String x sep) r).
    by rewrite IH by exact Hw.
Qed.

(** ** Strings that [trim] leaves alone *)

Definition tight (s : string) : Prop :=
  (exists a m, s = String a m /\ is_printable a = true) /\
  (exists p b, s = String.append p (String b EmptyString) /\ is_printable b = true).

Lemma printable_not_ws a :
  is_printable a = true ->
  is_ws1 a = false /\ (forall b, is_ws2 a b = false) /\ (forall b c, is_ws3 a b c = false) /\
  (forall b, is_ws2 b a = false) /\ (forall b c, is_ws3 b c a = false) /\
  (forall b c, is_ws3 b a c = false).
Proof.
  unfold is_printable, is_ws1, is_ws2, is_ws3. cbv zeta. intros H.
  apply andb_prop in H as [H1%N.leb_le H2%N.leb_le].
  assert (forall k, (byte_of a < k)%N -> N.eqb (byte_of a) k = false) as Hne
    by (intros k Hk; apply N.eqb_neq; lia).
  assert (forall k, (byte_of a < k)%N -> N.leb k (byte_of a) = false) as Hle
    by (intros k Hk; apply N.leb_gt; lia).
  split_and!; intros.
  - replace (N.leb (byte_of a) 13) with false by (symmetry; apply N.leb_gt; lia).
    rewrite andb_false_r. apply N.eqb_neq. lia.
  - by rewrite Hne by lia.
  - by rewrite !Hne by lia.
  - by rewrite !Hne, andb_false_r by lia.
  - by rewrite !Hne, Hle, !andb_false_r by lia.
  - by rewrite !Hne, !andb_false_r by lia.
Qed.

Lemma trim_start_printable a m : is_printable a = true -> trim_start (String a m) = String a m.
Proof.
  intros (H1 & H2 & H3 & _)%printable_not_ws. cbn [trim_start]. rewrite H1.
  destruct m as [|b m]; [done|]. rewrite H2. destruct m as [|c m]; [done|]. by rewrite H3.
Qed.

Lemma trim_start_nonempty n p b r :
  String.length p <= n -> is_printable b = true ->
  trim_start (String.append p (String b r)) <> EmptyString.
Proof.
  intros Hn Hb. destruct (printable_not_ws b Hb) as (_ & _ & _ & H2 & H3 & H4). revert p Hn.
  induction n as [|n IH]; intros [|a p] Hn; cbn in Hn; try (cbn [String.append];
    by rewrite trim_start_printable); [lia|].
  cbn [String.append trim_start]. destruct (is_ws1 a); [apply IH; lia|].
  destruct p as [|c p]; cbn [String.append]; [rewrite H2; destruct r; [done|by rewrite H4]|]. cbn in Hn.
  destruct (is_ws2 a c); [apply IH; lia|].
  destruct p as [|d p]; cbn [String.append]; [by rewrite H3|]. cbn in Hn.
  destruct (is_ws3 a c d); [apply IH; lia|done].
Qed.

Lemma trim_end_printable p b :
  is_printable b = true ->
  trim_end (String.append p (String b EmptyString)) = String.append p (String b EmptyString).
Proof.
  intros Hb. induction p as [|a p IH].
  - pose proof (trim_start_nonempty 0 EmptyString b EmptyString) as H. cbn [String.append trim_end] in *.
    destruct (trim_start (String b EmptyString)); [by destruct H|done].
  - pose proof (trim_start_nonempty _ (String a p) b EmptyString (le_n _) Hb) as H.
    cbn [String.append trim_end] in *.
    destruct (trim_start (String a (String.append p (String b EmptyString)))); [done|]. by rewrite IH.
Qed.

Lemma trim_tight s : tight s -> trim s = s.
Proof.
  intros [(a & m & Hs & Ha) (p & b & Hs' & Hb)]. unfold trim.
  rewrite Hs, trim_start_printable by done. rewrite <- Hs, Hs'. by apply trim_end_printable.
Qed.

Lemma tight_append x m y : tight x -> tight y -> tight (String.append x (String.append m y)).
Proof.
  intros [(a & m1 & -> & Ha) _] [_ (p & b & -> & Hb)]. split.
  - by exists a, (String.append m1 (String.append m (String.append p (String b EmptyString)))).
  - exists (String.append (String a m1) (String.append m p)), b. by rewrite <- !append_assoc.
Qed.

Lemma tight_suffix x p b :
  tight x -> is_printable b = true -> tight (String.append x (String.append p (String b EmptyString))).
Proof.
  intros [(a & m1 & -> & Ha) _] Hb. split.
  - by exists a, (String.append m1 (String.append p (String b EmptyString))).
  - exists (String.append (String a m1) p), b. by rewrite <- !append_assoc.
Qed.

(** A blank on both sides goes. *)
Lemma trim_end_blank p b :
  is_printable b = true ->
  trim_end (String.append p (String b " ")) = String.append p (String b EmptyString).
Proof.
  intros Hb. induction p as [|a p IH].
  - pose proof (trim_start_nonempty 0 EmptyString b " ") as H. cbn [String.append trim_end] in *.
    destruct (trim_start (String b " ")); [by destruct H|done].
  - pose proof (trim_start_nonempty _ (String a p) b " " (le_n _) Hb) as H.
    cbn [String.append trim_end] in *.
    destruct (trim_start (String a (String.append p (String b " ")))); [done|]. by rewrite IH.
Qed.

Lemma trim_padded s : tight s -> trim (String " " (String.append s " ")) = s.
Proof.
  intros [(a & m & Hs & Ha) (p & b & Hs' & Hb)]. unfold trim.
  change (trim_start (String " " (String.append s " "))) with (trim_start (String.append s " ")).
  rewrite Hs at 1. cbn [String.append]. rewrite trim_start_printable by done.
  change (String a (String.append m " ")) with (String.append (String a m) " ").
  rewrite <- Hs, Hs', <- append_assoc. cbn [String.append]. by apply trim_end_blank.
Qed.

(** ** Separated segments *)

Fixpoint join (c : ascii) (l : list string) : string :=
  match l with
  | [] => EmptyString
  | [x] => x
  | x :: l' => String.append x (String c (join c l'))
  end.

Lemma split_on_free c x : str_count c x = 0 -> split_on c x = [x].
Proof.
  induction x as [|a x IH]; cbn; [done|]. destruct (Ascii.eqb a c); [done|].
  intros H. by rewrite IH.
Qed.

Lemma split_on_append c x r :
  str_count c x = 0 -> split_on c (String.append x (String c r)) = x :: split_on c r.
Proof.
  induction x as [|a x IH]; cbn.
  - by rewrite Ascii.eqb_refl.
  - destruct (Ascii.eqb a c); [done|]. intros H. by rewrite IH.
Qed.

Lemma split_on_join c l :
  l <> [] -> Forall (fun x => str_count c x = 0) l -> split_on c (join c l) = l.
Proof.
  intros Hl Hf. induction Hf as [|x l Hx Hf IH]; [done|]. destruct l as [|y l].
  - by apply split_on_free.
  - change (join c (x :: y :: l)) with (String.append x (String c (join c (y :: l)))).
    rewrite split_on_append by done. by rewrite IH.
Qed.

Lemma str_contains_false x s p : str_count x s < str_count x p -> str_contains s p = false.
Proof.
  intros H. unfold str_contains. rewrite (split_once_None x) by done.
  by apply bool_decide_eq_false, is_Some_None.
Qed.

Lemma str_forall_impl (f g : ascii -> bool) s :
  (forall a, f a = true -> g a = true) -> str_forall f s = true -> str_forall g s = true.
Proof.
  intros Hfg. induction s as [|a s IH]; cbn; [done|]. rewrite !andb_true_iff. intuition.
Qed.

Lemma str_forall_append f a b :
  str_forall f (String.append a b) = (str_forall f a && str_forall f b)%bool.
Proof. induction a as [|c a IH]; cbn; [done|]. by rewrite IH, andb_assoc. Qed.

(** A string of printable characters is tight. *)
Lemma printable_tight s :
  s <> EmptyString -> str_forall is_printable s = true -> tight s.
Proof.
  destruct s as [|a s]; [done|]. intros _ Hs. split.
  - cbn in Hs. apply andb_prop in Hs as [Ha _]. by exists a, s.
  - revert a Hs. induction s as [|b s IH]; intros a Hs; cbn in Hs; apply andb_prop in Hs as [Ha Hs].
    + by exists EmptyString, a.
    + destruct (IH b Hs) as (p & c & E & Hc). exists (String a p), c. cbn. by rewrite E.
Qed.

(** * Lemmas on results and lists *)

Lemma try_each_Ok {A E} (f : A -> result E unit) l :
  try_each f l = Ok tt <-> Forall (fun x => f x = Ok tt) l.
Proof.
  induction l as [|x l IH]; cbn; [done|].
  rewrite Forall_cons, <- IH. destruct (f x) as [[]|]; cbn; [tauto|].
  split; [done|]. by intros [? _].
Qed.

Lemma try_each_Err {A E} (f : A -> result E unit) l e :
  try_each f l = Err e -> exists x, x ∈ l /\ f x = Err e.
Proof.
  induction l as [|x l IH]; cbn; [done|].
  destruct (f x) as [[]|e'] eqn:Hx; cbn.
  - intros (y & Hy & Hf)%IH. exists y. split; [by right|done].
  - intros [= <-]. exists x. split; [by left|done].
Qed.

Lemma try_map_Ok {A B E} (f : A -> result E B) l ys :
  try_map f l = Ok ys <-> Forall2 (fun x y => f x = Ok y) l ys.
Proof.
  revert ys. induction l as [|x l IH]; intros ys; cbn.
  - split; [by intros [= <-]|by intros ->%Forall2_nil_inv_l].
  - destruct (f x) as [y|e] eqn:Hx; cbn.
    + destruct (try_map f l) as [ys'|e] eqn:Hl; cbn.
      * split.
        -- intros [= <-]. constructor; [done|]. by apply IH.
        -- intros (y' & ys'' & Hy & Hys & ->)%Forall2_cons_inv_l.
           simplify_eq. apply IH in Hys. congruence.
      * split; [done|]. intros (y' & ys'' & Hy & Hys & ->)%Forall2_cons_inv_l.
        apply IH in Hys. congruence.
    + split; [done|]. intros (y' & ys'' & Hy & Hys & ->)%Forall2_cons_inv_l. congruence.
Qed.

Lemma try_map_Err {A B E} (f : A -> result E B) l e :
  try_map f l = Err e -> exists x, x ∈ l /\ f x = Err e.
Proof.
  induction l as [|x l IH]; cbn; [done|].
  destruct (f x) as [y|e'] eqn:Hx; cbn.
  - destruct (try_map f l) as [ys|e']; cbn; [done|]. intros [= <-].
    destruct IH as (z & Hz & Hf); [done|]. exists z. split; [by right|done].
  - intros [= <-]. exists x. split; [by left|done].
Qed.

Lemma insert_by_key_perm {A} (key : A -> Z) x l : insert_by_key key x l ≡ₚ x :: l.
Proof.
  induction l as [|y l IH]; cbn; [done|]. destruct (key y <=? key x)%Z; [|done].
  rewrite IH. constructor.
Qed.

Lemma sort_by_key_perm {A} (key : A -> Z) l : sort_by_key key l ≡ₚ l.
Proof.
  unfold sort_by_key. enough (forall acc, fold_left (fun acc x => insert_by_key key x acc) l acc ≡ₚ acc ++ l)
    as H by apply H.
  induction l as [|x l IH]; intros acc; cbn; [by rewrite app_nil_r|].
  rewrite IH, insert_by_key_perm. by rewrite <- Permutation_middle.
Qed.

Lemma insert_by_key_sorted {A} (key : A -> Z) x l :
  StronglySorted (fun a b => (key a <= key b)%Z) l ->
  StronglySorted (fun a b => (key a <= key b)%Z) (insert_by_key key x l).
Proof.
  induction 1 as [|y l Hs IH Hy]; cbn; [by repeat constructor|].
  destruct (Z.leb_spec (key y) (key x)) as [Hle|Hlt].
  - constructor; [done|]. rewrite Forall_forall in *. intros z.
    rewrite insert_by_key_perm. intros [->|Hz]%list_elem_of_In; [done|]. by apply Hy, list_elem_of_In.
  - constructor; [by constructor|]. constructor; [lia|]. eapply Forall_impl; [exact Hy|]. cbn. lia.
Qed.

Lemma sort_by_key_sorted {A} (key : A -> Z) l :
  StronglySorted (fun a b => (key a <= key b)%Z) (sort_by_key key l).
Proof.
  unfold sort_by_key. enough (forall acc, StronglySorted (fun a b => (key a <= key b)%Z) acc ->
    StronglySorted (fun a b => (key a <= key b)%Z) (fold_left (fun acc x => insert_by_key key x acc) l acc))
    as H by (apply H; constructor).
  induction l as [|x l IH]; intros acc Ha; cbn; [done|]. by apply IH, insert_by_key_sorted.
Qed.

#[export] Hint Resolve trim_length trim_start_length trim_end_length : rust.
Create Rewrite HintDb rust.
#[export] Hint Rewrite append_length app_EmptyString_r : rust.

(** Case analysis on the scrutinee of the first [match] of the goal or of a
    hypothesis, keeping its equation. *)
Ltac case_match_eq :=
  match goal with
  | |- context [match ?x with _ => _ end] => destruct x eqn:?
  | H : context [match ?x with _ => _ end] |- _ => destruct x eqn:?
  end.
