(* ===== verification/Dfs.v ===== *)
(** Depth-first search over string-named nodes: the search both cycle checks
    of the substrate perform ([Workflow::dfs_detect_cycle] with three colours,
    [Validator::dfs] with a visited set and a path), with the theory they
    share: what an [Ok] or an [Err] answer says of the graph, and the fuel
    that suffices. *)

From S2P Require Import Prelude.

Section Dfs.
Context (succ : string -> list string).

(** The edges of the graph, and walks along at least one. *)
Definition edge (x y : string) : Prop := y ∈ succ x.

Definition acyclic (D : string -> Prop) : Prop := forall x, D x -> ~ tc edge x x.

(** Search from [n]: [path] holds the open nodes, oldest first, [done] the
    finished ones.  The answer is the nodes finished so far, or the path to
    the node found open again. *)
Fixpoint dfs (fuel : nat) (path : list string) (finished : gset string) (n : string)
  : option (result (list string) (gset string)) :=
  match fuel with
  | O => None
  | S fuel =>
      if decide (n ∈ path) then Some (Err (path ++ [n]))
      else if decide (n ∈ finished) then Some (Ok finished)
      else
        match
          (fix visit (l : list string) (finished : gset string) :=
             match l with
             | [] => Some (Ok finished)
             | m :: l' =>
                 match dfs fuel (path ++ [n]) finished m with
                 | Some (Ok finished') => visit l' finished'
                 | other => other
                 end
             end) (succ n) finished
        with
        | Some (Ok finished') => Some (Ok ({[n]} ∪ finished'))
        | other => other
        end
  end.

(** The loop over the successors. *)
Fixpoint dfs_list (fuel : nat) (path : list string) (l : list string) (finished : gset string)
  : option (result (list string) (gset string)) :=
  match l with
  | [] => Some (Ok finished)
  | m :: l' =>
      match dfs fuel path finished m with
      | Some (Ok finished') => dfs_list fuel path l' finished'
      | other => other
      end
  end.

Lemma dfs_S fuel path finished n :
  dfs (S fuel) path finished n
  = if decide (n ∈ path) then Some (Err (path ++ [n]))
    else if decide (n ∈ finished) then Some (Ok finished)
    else match dfs_list fuel (path ++ [n]) (succ n) finished with
         | Some (Ok finished') => Some (Ok ({[n]} ∪ finished'))
         | other => other
         end.
Proof.
  cbn [dfs]. repeat case_decide; [done..|].
  enough (forall l f,
    (fix visit (l : list string) (finished : gset string) :=
       match l with
       | [] => Some (Ok finished)
       | m :: l' =>
           match dfs fuel (path ++ [n]) finished m with
           | Some (Ok finished') => visit l' finished'
           | other => other
           end
       end) l f = dfs_list fuel (path ++ [n]) l f) as -> by done.
  induction l as [|m l IH]; intros f; cbn [dfs_list]; [done|].
  destruct (dfs fuel (path ++ [n]) f m) as [[f'|]|]; auto.
Qed.

(** ** A finished search *)

(** What holds of the finished nodes: their successors are finished too, and
    none lies on a cycle. *)
Definition finished_ok (finished : gset string) : Prop :=
  (forall x y, x ∈ finished -> edge x y -> y ∈ finished) /\
  acyclic (fun x => x ∈ finished).

(** What a search may add: nodes reachable from [n] off the path. *)
Definition extends (path : list string) (finished : gset string) (n : string)
    (finished' : gset string) : Prop :=
  finished ⊆ finished' /\ (forall x, x ∈ path -> x ∉ finished') /\ finished_ok finished' /\
  (forall x, x ∈ finished' -> x ∈ finished \/ rtc edge n x).

Lemma closed_tc (finished : gset string) x y :
  (forall x y, x ∈ finished -> edge x y -> y ∈ finished) ->
  x ∈ finished -> tc edge x y -> y ∈ finished.
Proof. intros Hcl Hx Hxy. induction Hxy as [x y Hxy|x y z Hxy _ IH]; eauto. Qed.

(** Finishing a node whose successors are finished. *)
Lemma finish_node (path : list string) (finished : gset string) n :
  (forall x, x ∈ path ++ [n] -> x ∉ finished) -> finished_ok finished ->
  (forall y, edge n y -> y ∈ finished) -> finished_ok ({[n]} ∪ finished).
Proof.
  intros Hpath [Hcl Hac] Hn. assert (n ∉ finished) as Hnf by (apply Hpath; set_solver).
  split.
  - intros x y. rewrite !elem_of_union, !elem_of_singleton. intros [->|Hx] Hxy; eauto.
  - intros x [->%elem_of_singleton|Hx]%elem_of_union Hxx; [|by apply (Hac x)].
    apply Hnf. inversion Hxx as [? ? H|? y ? H H']; subst; [by apply Hn|].
    apply (closed_tc finished y); auto.
Qed.

Lemma dfs_Ok fuel : forall path finished n finished',
  (forall x, x ∈ path -> x ∉ finished) -> finished_ok finished ->
  dfs fuel path finished n = Some (Ok finished') ->
  n ∈ finished' /\ extends path finished n finished'.
Proof.
  induction fuel as [|fuel IH]; intros path finished n finished' Hpath Hok; [done|].
  assert (forall l f f', (forall x, x ∈ path ++ [n] -> x ∉ f) -> finished_ok f ->
    (forall m, m ∈ l -> edge n m) ->
    dfs_list fuel (path ++ [n]) l f = Some (Ok f') ->
    (forall m, m ∈ l -> m ∈ f') /\ extends (path ++ [n]) f n f') as Hlist.
  { induction l as [|m l IHl]; intros f f' Hp Hf Hl; cbn [dfs_list].
    - intros [= <-]. split; [set_solver|]. unfold extends. auto.
    - destruct (dfs fuel (path ++ [n]) f m) as [[f1|]|] eqn:Hm; [|done..].
      intros Hrest. apply IH in Hm as (Hm1 & Hs1 & Hp1 & Hf1 & Hr1); [|done..].
      apply IHl in Hrest as (Hl2 & Hs2 & Hp2 & Hf2 & Hr2); [|done|done|set_solver].
      split; [set_solver|]. split_and!; [set_solver|done|done|].
      intros x [[Hx|Hx]%Hr1|Hx]%Hr2; [by left| |by right].
      right. eapply rtc_l; [|exact Hx]. apply Hl. by left. }
  rewrite dfs_S. case_decide as Hnp; [done|]. case_decide as Hnf.
  - intros [= <-]. split; [done|]. unfold extends. auto.
  - destruct (dfs_list fuel (path ++ [n]) (succ n) finished) as [[f|]|] eqn:El; [|done..].
    intros [= <-]. apply Hlist in El as (Hl & Hs & Hp & Hf & Hr); [|set_solver|done|done].
    split; [set_solver|]. split_and!; [set_solver| | |].
    + intros x Hx. specialize (Hp x). set_solver.
    + by apply (finish_node path).
    + intros x [->%elem_of_singleton|Hx]%elem_of_union; [right; apply rtc_refl|by apply Hr].
Qed.

(** ** A search that answers with a path *)

(** Consecutive nodes of the list are joined by edges. *)
Fixpoint chain (l : list string) : Prop :=
  match l with
  | x :: (y :: _) as l' => edge x y /\ chain l'
  | _ => True
  end.

(** A walk that ends in a node it has visited before. *)
Definition closes_cycle (p : list string) : Prop :=
  chain p /\ exists q x, p = q ++ [x] /\ x ∈ q.

Lemma chain_snoc l x y : chain (l ++ [x]) -> edge x y -> chain ((l ++ [x]) ++ [y]).
Proof.
  induction l as [|z l IH]; [done|]. intros Hch Hxy.
  destruct l as [|z' l]; cbn in *; [tauto|]. destruct Hch as [H1 H2]. split; [done|]. by apply IH.
Qed.

Lemma chain_app_r l l' : chain (l ++ l') -> chain l'.
Proof.
  induction l as [|x l IH]; [done|]. cbn [app]. intros H. apply IH.
  destruct (l ++ l'); [done|]. by destruct H.
Qed.

Lemma chain_tc x l y : chain (x :: l ++ [y]) -> tc edge x y.
Proof.
  revert x. induction l as [|z l IH]; intros x; cbn.
  - intros [H _]. by apply tc_once.
  - intros [H Hch]. apply tc_l with z; [done|]. by apply IH.
Qed.

Lemma closes_cycle_tc p : closes_cycle p -> exists x, tc edge x x.
Proof.
  intros [Hch (q & x & -> & Hx)]. apply list_elem_of_split in Hx as (l1 & l2 & ->).
  exists x. rewrite <- app_assoc in Hch. cbn [app] in Hch. apply chain_app_r in Hch.
  by apply (chain_tc x l2).
Qed.

Lemma dfs_Err fuel : forall path finished n p,
  chain (path ++ [n]) -> dfs fuel path finished n = Some (Err p) -> closes_cycle p.
Proof.
  induction fuel as [|fuel IH]; intros path finished n p Hch; [done|].
  rewrite dfs_S. case_decide as Hnp.
  - intros [= <-]. split; [done|]. by exists path, n.
  - case_decide as Hnf; [done|]. clear Hnf.
    destruct (dfs_list fuel (path ++ [n]) (succ n) finished) as [[f|q]|] eqn:El; [done| |done].
    intros [= <-]. revert El. assert (forall m, m ∈ succ n -> edge n m) as Hin by done.
    revert Hin finished. generalize (succ n) as l.
    induction l as [|m l IHl]; intros Hl finished; cbn [dfs_list]; [done|].
    destruct (dfs fuel (path ++ [n]) finished m) as [[f1|q1]|] eqn:Hm; [| |done].
    + apply IHl. set_solver.
    + intros [= <-]. eapply IH; [|exact Hm]. apply chain_snoc; [done|]. apply Hl. by left.
Qed.

(** ** Fuel *)

(** The open nodes are distinct nodes of any finite set closed under
    successors, so its size bounds the depth. *)
Lemma dfs_total (U : gset string) fuel :
  (forall x y, x ∈ U -> edge x y -> y ∈ U) ->
  forall path finished n, NoDup path -> (forall x, x ∈ path -> x ∈ U) -> n ∈ U ->
  size U - length path < fuel -> dfs fuel path finished n <> None.
Proof.
  intros HU. induction fuel as [|fuel IH]; intros path finished n Hnd Hpath Hn Hfuel; [lia|].
  rewrite dfs_S. case_decide as Hnp; [done|]. case_decide; [done|].
  assert (NoDup (path ++ [n])) as Hnd'.
  { apply NoDup_app. split_and!; [done|set_solver|apply NoDup_singleton]. }
  assert (length (path ++ [n]) <= size U) as Hlen.
  { rewrite <- (size_list_to_set (C:=gset string) _ Hnd'). apply subseteq_size. set_solver. }
  assert (forall l f, (forall m, m ∈ l -> m ∈ U) -> dfs_list fuel (path ++ [n]) l f <> None) as Hlist.
  { induction l as [|m l IHl]; intros f Hl; cbn [dfs_list]; [done|].
    destruct (dfs fuel (path ++ [n]) f m) as [[f1|q1]|] eqn:Hm; [|done|].
    - apply IHl. set_solver.
    - exfalso. revert Hm. apply IH; [done|set_solver|set_solver|].
      rewrite length_app in *. cbn in *. lia. }
  destruct (dfs_list fuel (path ++ [n]) (succ n) finished) as [[f|q]|] eqn:El; [done..|].
  exfalso. revert El. apply Hlist. intros m Hm. by apply (HU n).
Qed.

(** ** The search from the root *)

Lemma finished_ok_empty : finished_ok ∅.
Proof. split; [set_solver|]. intros x Hx. set_solver. Qed.

Lemma dfs_root_Ok fuel n finished :
  dfs fuel [] ∅ n = Some (Ok finished) ->
  finished_ok finished /\ forall x, x ∈ finished <-> rtc edge n x.
Proof.
  intros H. apply dfs_Ok in H as (Hn & _ & _ & Hok & Hr); [|set_solver|apply finished_ok_empty].
  split; [done|]. intros x. split.
  - intros [Hx|Hx]%Hr; [set_solver|done].
  - intros Hx. destruct Hok as [Hcl _]. clear Hr. induction Hx as [|y z w Hyz _ IH]; [done|].
    apply IH, (Hcl y); done.
Qed.
End Dfs.
