(* ===== verification/Json.v ===== *)
(** Data of [serde_json]: binary64 numbers (the language's [f64]) and JSON
    values, with the accessors the program uses ([get], [as_str], [as_array],
    [as_object], [as_i64], [as_u64], [as_f64], [==]).  An object is a
    [BTreeMap<String, Value>]: an association list sorted by key. *)

From S2P Require Import Prelude.
From Stdlib Require Import SpecFloat Ascii.

Local Open Scope Z_scope.

(** * [f64] *)

Definition f64 : Type := spec_float.

Definition f64_prec : Z := 53.
Definition f64_emax : Z := 1024.

(** [i as f64]: round to nearest, ties to even. *)
Definition f64_of_Z (z : Z) : f64 := binary_normalize f64_prec f64_emax z 0 false.

Definition f64_sub : f64 -> f64 -> f64 := SFsub f64_prec f64_emax.
Definition f64_abs : f64 -> f64 := SFabs.
Definition f64_lt (a b : f64) : bool := SFltb a b.
Definition f64_eq (a b : f64) : bool := SFeqb a b.

(** [f64::EPSILON] is 2^-52. *)
Definition f64_epsilon : f64 := S754_finite false 4503599627370496 (-104).

(** The binary64 value nearest to [m * 10^e]. *)
Definition f64_of_decimal (neg : bool) (m e : Z) : f64 :=
  match m with
  | Zpos p =>
      if 0 <=? e then
        match Zpos p * 10 ^ e with
        | Zpos q => binary_round f64_prec f64_emax neg q 0
        | _ => S754_zero neg
        end
      else
        match 10 ^ (- e) with
        | Zpos d =>
            let '(q, e', l) := SFdiv_core_binary f64_prec f64_emax (Zpos p) 0 (Zpos d) 0 in
            binary_round_aux f64_prec f64_emax neg q e' l
        | _ => S754_zero neg
        end
  | _ => S754_zero neg
  end.

(** Split a maximal run of decimal digits off the front:
    its value appended to [acc], its length, the rest. *)
Fixpoint take_digits (acc : Z) (n : Z) (s : string) : Z * Z * string :=
  match s with
  | String a s' =>
      if is_digit a then take_digits (acc * 10 + Z.of_N (byte_of a - 48)) (n + 1) s'
      else (acc, n, s)
  | EmptyString => (acc, n, s)
  end.

Definition take_sign (s : string) : bool * string :=
  match s with
  | String a s' =>
      if Ascii.eqb a "-" then (true, s') else if Ascii.eqb a "+" then (false, s') else (false, s)
  | EmptyString => (false, s)
  end.

(** The exponent part of a float literal: absent, or [e], a sign and digits. *)
Definition parse_exponent (s : string) : option Z :=
  match s with
  | EmptyString => Some 0
  | String a s' =>
      if (Ascii.eqb a "e" || Ascii.eqb a "E")%bool then
        let '(neg, body) := take_sign s' in
        let '(v, n, rest) := take_digits 0 0 body in
        match rest with
        | EmptyString => if n =? 0 then None else Some (if neg : bool then - v else v)
        | _ => None
        end
      else None
  end.

(** [str::parse::<f64>]. *)
Definition parse_f64 (s : string) : option f64 :=
  let '(neg, body) := take_sign s in
  let low := to_ascii_lowercase body in
  if (String.eqb low "inf" || String.eqb low "infinity")%bool then Some (S754_infinity neg)
  else if String.eqb low "nan" then Some S754_nan
  else
    let '(ip, ni, rest) := take_digits 0 0 body in
    let '(m, nf, rest') :=
      match rest with
      | String a r => if Ascii.eqb a "." then take_digits ip 0 r else (ip, 0, rest)
      | EmptyString => (ip, 0, rest)
      end in
    if ni + nf =? 0 then None
    else e ← parse_exponent rest'; Some (f64_of_decimal neg m (e - nf)).

(** * JSON values *)

(** [serde_json::Number]: a [u64], a negative [i64], or a finite [f64]. *)
Inductive number : Type :=
  | PosInt (n : Z)
  | NegInt (n : Z)
  | NFloat (f : f64).

#[local] Unset Elimination Schemes.

(** [serde_json::Value]. *)
Inductive json : Type :=
  | JNull
  | JBool (b : bool)
  | JNumber (n : number)
  | JString (s : string)
  | JArray (l : list json)
  | JObject (m : list (string * json)).

#[local] Set Elimination Schemes.

Definition number_as_i64 (n : number) : option Z :=
  match n with
  | PosInt z => if z <=? i64_max then Some z else None
  | NegInt z => Some z
  | NFloat _ => None
  end.

Definition number_as_u64 (n : number) : option Z :=
  match n with PosInt z => Some z | _ => None end.

Definition number_as_f64 (n : number) : option f64 :=
  match n with
  | PosInt z | NegInt z => Some (f64_of_Z z)
  | NFloat f => Some f
  end.

(** [Number: PartialEq]: the variants never equal each other. *)
Definition number_eqb (a b : number) : bool :=
  match a, b with
  | PosInt x, PosInt y | NegInt x, NegInt y => x =? y
  | NFloat x, NFloat y => f64_eq x y
  | _, _ => false
  end.

Definition as_str (j : json) : option string :=
  match j with JString s => Some s | _ => None end.
Definition as_bool (j : json) : option bool :=
  match j with JBool b => Some b | _ => None end.
Definition as_array (j : json) : option (list json) :=
  match j with JArray l => Some l | _ => None end.
Definition as_object (j : json) : option (list (string * json)) :=
  match j with JObject m => Some m | _ => None end.
Definition as_u64 (j : json) : option Z :=
  match j with JNumber n => number_as_u64 n | _ => None end.
Definition as_i64 (j : json) : option Z :=
  match j with JNumber n => number_as_i64 n | _ => None end.
Definition as_f64 (j : json) : option f64 :=
  match j with JNumber n => number_as_f64 n | _ => None end.

(** [json!] of a float: infinities and NaN become [null]. *)
Definition json_of_f64 (f : f64) : json :=
  match f with
  | SpecFloat.S754_finite _ _ _ | SpecFloat.S754_zero _ => JNumber (NFloat f)
  | _ => JNull
  end.
Definition is_null (j : json) : bool :=
  match j with JNull => true | _ => false end.

(** [BTreeMap::get]. *)
Fixpoint obj_get (k : string) (m : list (string * json)) : option json :=
  match m with
  | [] => None
  | (k', v) :: m' => if String.eqb k k' then Some v else obj_get k m'
  end.

(** [Value::get(&str)]: [None] on anything but an object. *)
Definition get (k : string) (j : json) : option json :=
  match j with JObject m => obj_get k m | _ => None end.

(** [BTreeMap::insert], keeping the keys in byte order. *)
Fixpoint obj_insert (k : string) (v : json) (m : list (string * json)) : list (string * json) :=
  match m with
  | [] => [(k, v)]
  | (k', v') :: m' =>
      match String.compare k k' with
      | Lt => (k, v) :: m
      | Eq => (k, v) :: m'
      | Gt => (k', v') :: obj_insert k v m'
      end
  end.

(** Collecting an iterator of pairs into a map: later pairs win. *)
Definition obj_of_list (l : list (string * json)) : list (string * json) :=
  fold_left (fun m kv => obj_insert kv.1 kv.2 m) l [].

(** [Value: PartialEq]. *)
Fixpoint json_eqb (a b : json) {struct a} : bool :=
  match a, b with
  | JNull, JNull => true
  | JBool x, JBool y => Bool.eqb x y
  | JNumber x, JNumber y => number_eqb x y
  | JString x, JString y => String.eqb x y
  | JArray x, JArray y =>
      (fix go (x y : list json) : bool :=
         match x, y with
         | [], [] => true
         | u :: x', v :: y' => (json_eqb u v && go x' y')%bool
         | _, _ => false
         end) x y
  | JObject x, JObject y =>
      (fix go (x y : list (string * json)) : bool :=
         match x, y with
         | [], [] => true
         | (k, u) :: x', (k', v) :: y' => (String.eqb k k' && json_eqb u v && go x' y')%bool
         | _, _ => false
         end) x y
  | _, _ => false
  end.

(** * Induction on values *)

Section JsonInd.
Variable P : json -> Prop.
Hypothesis Hnull : P JNull.
Hypothesis Hbool : forall b, P (JBool b).
Hypothesis Hnumber : forall n, P (JNumber n).
Hypothesis Hstring : forall s, P (JString s).
Hypothesis Harray : forall l, Forall P l -> P (JArray l).
Hypothesis Hobject : forall m, Forall (fun kv => P kv.2) m -> P (JObject m).

Fixpoint json_strong_ind (j : json) : P j :=
  match j with
  | JNull => Hnull
  | JBool b => Hbool b
  | JNumber n => Hnumber n
  | JString s => Hstring s
  | JArray l =>
      Harray l ((fix go (l : list json) : Forall P l :=
                   match l with
                   | [] => Forall_nil_2 P
                   | x :: l' => Forall_cons_2 P x l' (json_strong_ind x) (go l')
                   end) l)
  | JObject m =>
      Hobject m ((fix go (m : list (string * json)) : Forall (fun kv => P kv.2) m :=
                    match m with
                    | [] => Forall_nil_2 _
                    | kv :: m' => Forall_cons_2 _ kv m' (json_strong_ind kv.2) (go m')
                    end) m)
  end.
End JsonInd.

(** * Laws of the object map *)

Lemma compare_refl s : String.compare s s = Eq.
Proof. pose proof (String.compare_antisym s s) as H. by destruct (String.compare s s). Qed.

Lemma obj_get_insert_eq k v m : obj_get k (obj_insert k v m) = Some v.
Proof.
  induction m as [|[k' v'] m IH]; cbn [obj_insert obj_get].
  - by rewrite String.eqb_refl.
  - destruct (String.compare k k') eqn:E; cbn [obj_get].
    + by rewrite String.eqb_refl.
    + by rewrite String.eqb_refl.
    + destruct (String.eqb_spec k k') as [->|]; [|done]. by rewrite compare_refl in E.
Qed.

Lemma obj_get_insert_ne k k' v m : k <> k' -> obj_get k' (obj_insert k v m) = obj_get k' m.
Proof.
  intros Hne. induction m as [|[k0 v0] m IH]; cbn [obj_insert obj_get].
  - by destruct (String.eqb_spec k' k).
  - destruct (String.compare k k0) eqn:E; cbn [obj_get].
    + apply String.compare_eq_iff in E as ->.
      by destruct (String.eqb_spec k' k0); [subst|].
    + by destruct (String.eqb_spec k' k); [subst|].
    + by rewrite IH.
Qed.

Lemma obj_get_insert k k' v m :
  obj_get k' (obj_insert k v m) = if decide (k = k') then Some v else obj_get k' m.
Proof.
  case_decide as Hk; [subst; apply obj_get_insert_eq|by apply obj_get_insert_ne].
Qed.

#[export] Hint Rewrite obj_get_insert_eq : rust.

(** The entry of the last pair with a key is what a folded insertion leaves. *)
Lemma obj_get_fold_insert k l m :
  obj_get k (fold_left (fun m kv => obj_insert kv.1 kv.2 m) l m)
  = match list_find (fun kv => kv.1 = k) (rev l) with
    | Some (_, kv) => Some kv.2
    | None => obj_get k m
    end.
Proof.
  revert m. induction l as [|[k0 v0] l IH]; intros m; [done|].
  cbn [fold_left rev]. rewrite IH. clear IH.
  destruct (list_find _ (rev l)) as [[i kv]|] eqn:E.
  - by rewrite (list_find_app_l _ _ [_] _ _ E).
  - rewrite list_find_app_r by done. cbn. rewrite obj_get_insert.
    by case_decide.
Qed.

(** ** Equality of the language on values free of floats is Leibniz equality *)

Fixpoint float_free (j : json) : bool :=
  match j with
  | JNumber (NFloat _) => false
  | JArray l => (fix go (l : list json) := match l with [] => true | x :: l' => float_free x && go l' end)%bool l
  | JObject m => (fix go (m : list (string * json)) :=
                    match m with [] => true | kv :: m' => float_free kv.2 && go m' end)%bool m
  | _ => true
  end.

Lemma json_eqb_eq a b : float_free a = true -> json_eqb a b = true <-> a = b.
Proof.
  revert b. induction a as [|x|n|s|l IH|m IH] using json_strong_ind; intros b Hf;
    destruct b as [|y|n'|s'|l'|m']; try (split; [done|congruence]); try done.
  - cbn. rewrite Bool.eqb_true_iff. split; congruence.
  - destruct n as [z|z|f], n' as [z'|z'|f']; cbn; try (split; [done|congruence]); try done;
      rewrite Z.eqb_eq; split; congruence.
  - cbn. rewrite String.eqb_eq. split; congruence.
  - enough (json_eqb (JArray l) (JArray l') = true <-> l = l') as -> by (split; congruence).
    revert l' Hf. cbn. induction IH as [|x l Hx _ IHl]; intros [|y l'] Hf; try done.
    apply andb_prop in Hf as [Hfx Hfl].
    rewrite andb_true_iff, (Hx y Hfx), (IHl l' Hfl). split; [by intros [-> ->]|by intros [= -> ->]].
  - enough (json_eqb (JObject m) (JObject m') = true <-> m = m') as -> by (split; congruence).
    revert m' Hf. cbn. induction IH as [|[k x] m Hx _ IHm]; intros [|[k' y] m'] Hf; try done.
    cbn in Hx. apply andb_prop in Hf as [Hfx Hfl].
    rewrite !andb_true_iff, String.eqb_eq, (Hx y Hfx), (IHm m' Hfl).
    split; [by intros [[-> ->] ->]|by intros [= -> -> ->]].
Qed.
