(* ===== verification/Error.v ===== *)
(** The error types of the substrate ([konflux-substrate/src/error.rs]). *)

From S2P Require Import Prelude.

(** [ToolError]. *)
Inductive tool_error : Type :=
  | InvalidInput (message : string) (field : option string)
  | ExecutionFailed (message : string) (retryable : bool)
  | ToolTimeout (after_ms : Z)
  | ToolCapabilityDenied (capability : string)
  | AccessDenied (message : string)
  | ToolNotFound (tool_id : string).

(** [ParseError]. *)
Inductive parse_error : Type :=
  | InvalidYaml (message : string)
  | MissingField (field context : string)
  | InvalidValue (field message : string).

(** [ValidationError]. *)
Inductive validation_error : Type :=
  | CycleDetected (path : list string)
  | OrphanedNode (node : string)
  | UnknownNode (node from : string)
  | UnknownTool (tool node : string)
  | MissingCapability (capability : string)
  | NoEntryNode
  | NoReturnNode.

(** [ExecutionError]. *)
Inductive execution_error : Type :=
  | NodeFailed (workflow_id node message : string)
  | Timeout (workflow_id node : string) (timeout_ms : Z)
  | MaxStepsExceeded (workflow_id : string) (max : Z)
  | JoinFailed (workflow_id node message : string)
  | Cancelled (workflow_id : string).

(** [KonfluxError]. *)
Inductive konflux_error : Type :=
  | EParse (e : parse_error)
  | EValidation (e : validation_error)
  | EExecution (e : execution_error)
  | ETool (e : tool_error)
  | ECapabilityDenied (message : string).

(** The [#[error("...")]] renderings of [ToolError], which end up in messages,
    in the process table and in the journal. *)
Section Display.
Local Open Scope string_scope.
Local Open Scope list_scope.
Variable show_u64 : Z -> string.

Definition tool_error_to_string (e : tool_error) : string :=
  match e with
  | InvalidInput m _ => String.append "invalid input: " m
  | ExecutionFailed m _ => String.append "execution failed: " m
  | ToolTimeout ms =>
      String.append "timeout after " (String.append (show_u64 ms) "ms")
  | ToolCapabilityDenied c => String.append "capability denied: " c
  | AccessDenied m => String.append "access denied: " m
  | ToolNotFound t => String.append "tool not found: " t
  end.

Definition parse_error_to_string (e : parse_error) : string :=
  match e with
  | InvalidYaml m => String.append "invalid YAML: " m
  | MissingField f c =>
      String.append "missing required field '" (String.append f (String.append "' in " c))
  | InvalidValue f m =>
      String.append "invalid value for '" (String.append f (String.append "': " m))
  end.

(** [join] of the path, with arrows. *)
Fixpoint join_arrows (l : list string) : string :=
  match l with
  | [] => EmptyString
  | [x] => x
  | x :: l' => String.append x (String.append " → " (join_arrows l'))
  end.

Definition validation_error_to_string (e : validation_error) : string :=
  match e with
  | CycleDetected path => String.append "cycle detected: " (join_arrows path)
  | OrphanedNode n =>
      String.append "orphaned node '" (String.append n "' — not reachable from entry")
  | UnknownNode n f =>
      String.append "unknown node '"
        (String.append n (String.append "' referenced in edge from '" (String.append f "'")))
  | UnknownTool t n =>
      String.append "unknown tool '" (String.append t (String.append "' in node '" (String.append n "'")))
  | MissingCapability c =>
      String.append "capability '" (String.append c "' required but not granted")
  | NoEntryNode => "no entry node found"
  | NoReturnNode => "no return node found"
  end.

Definition in_workflow (id rest : string) : string :=
  String.append "[" (String.append id (String.append "] " rest)).

Definition execution_error_to_string (e : execution_error) : string :=
  match e with
  | NodeFailed w n m =>
      in_workflow w (String.append "node '" (String.append n (String.append "' failed: " m)))
  | Timeout w n ms =>
      in_workflow w (String.append "node '" (String.append n
        (String.append "' timed out after " (String.append (show_u64 ms) "ms"))))
  | MaxStepsExceeded w max =>
      in_workflow w (String.append "max steps exceeded (" (String.append (show_u64 max) ")"))
  | JoinFailed w n m =>
      in_workflow w (String.append "join failed on node '" (String.append n (String.append "': " m)))
  | Cancelled w => in_workflow w "workflow cancelled"
  end.

Definition konflux_error_to_string (e : konflux_error) : string :=
  match e with
  | EParse e => String.append "parse error: " (parse_error_to_string e)
  | EValidation e => String.append "validation error: " (validation_error_to_string e)
  | EExecution e => String.append "execution error: " (execution_error_to_string e)
  | ETool e => String.append "tool error: " (tool_error_to_string e)
  | ECapabilityDenied m => String.append "capability denied: " m
  end.
End Display.

#[export] Instance tool_error_eq_dec : EqDecision tool_error.
Proof. solve_decision. Defined.
#[export] Instance validation_error_eq_dec : EqDecision validation_error.
Proof. solve_decision. Defined.
#[export] Instance execution_error_eq_dec : EqDecision execution_error.
Proof. solve_decision. Defined.

(** [JournalError] ([konflux-substrate/src/journal.rs]); the boxed causes are
    kept as their rendering. *)
Inductive journal_error : Type :=
  | JStorage (cause : string)
  | JSerialization (cause : string)
  | JNotFound.

(** [RuntimeError] ([konf-runtime/src/error.rs]). *)
Inductive runtime_error : Type :=
  | RNotFound (run : N)
  | RNotRunning (run : N)
  | RResourceLimit (limit : string) (value : Z)
  | RCapabilityDenied (message : string)
  | RDeadlineExceeded (tool : string)
  | RTool (tool message : string)
  | REngine (e : konflux_error)
  | RJoinFailed (message : string)
  | RJournal (e : journal_error).
