(* ===== verification/Utf8.v ===== *)
(** UTF-8 as Rust's standard library reads it: [String::from_utf8] and
    [String::from_utf8_lossy] over the bytes of a process's output or of a
    response's body. *)

From Stdlib Require Import Ascii.
From S2P Require Import Prelude.

Local Open Scope Z_scope.

(** What the next sequence of bytes is: a well-formed one of some length, an
    ill-formed one whose maximal prefix has some length, or one the input cuts
    short. *)
Inductive chunk : Type := Valid (len : nat) | Invalid (len : nat) | Incomplete.

Definition between (lo hi b : Z) : bool := (lo <=? b) && (b <=? hi).

(** After a leading byte: how many bytes follow, and the range of the first. *)
Definition follows (b0 : Z) : option (nat * Z * Z) :=
  if between 194 223 b0 then Some (1%nat, 128, 191)
  else if b0 =? 224 then Some (2%nat, 160, 191)
  else if between 225 236 b0 || between 238 239 b0 then Some (2%nat, 128, 191)
  else if b0 =? 237 then Some (2%nat, 128, 159)
  else if b0 =? 240 then Some (3%nat, 144, 191)
  else if between 241 243 b0 then Some (3%nat, 128, 191)
  else if b0 =? 244 then Some (3%nat, 128, 143)
  else None.

Fixpoint continuation (n : nat) (lo hi : Z) (l : list Z) (seen : nat) : chunk :=
  match n with
  | O => Valid seen
  | S n' =>
      match l with
      | [] => Incomplete
      | b :: l' => if between lo hi b then continuation n' 128 191 l' (S seen) else Invalid seen
      end
  end.

Definition next_chunk (b0 : Z) (l : list Z) : chunk :=
  if b0 <? 128 then Valid 1
  else match follows b0 with
       | Some (n, lo, hi) => continuation n lo hi l 1
       | None => Invalid 1
       end.

(** [Utf8Error]: where the valid part ends, and the length of the bad
    sequence. *)
Record utf8_error : Type := Utf8Error { valid_up_to : nat; error_len : option nat }.

(** [from_utf8] and [from_utf8_lossy]; every chunk takes at least one byte, so
    the length of the input is enough fuel. *)
Fixpoint validate_loop (fuel : nat) (at_ : nat) (l : list Z) : result utf8_error unit :=
  match fuel, l with
  | _, [] => Ok tt
  | O, _ => Ok tt
  | S fuel', b0 :: l' =>
      match next_chunk b0 l' with
      | Valid k => validate_loop fuel' (at_ + k) (drop k l)
      | Invalid k => Err (Utf8Error at_ (Some k))
      | Incomplete => Err (Utf8Error at_ None)
      end
  end.

Definition from_utf8 (l : list Z) : result utf8_error (list Z) :=
  _ ← validate_loop (length l) 0 l; Ok l.

Definition replacement : list Z := [239; 191; 189].

Fixpoint lossy_loop (fuel : nat) (l : list Z) : list Z :=
  match fuel, l with
  | _, [] => []
  | O, _ => []
  | S fuel', b0 :: l' =>
      match next_chunk b0 l' with
      | Valid k => take k l ++ lossy_loop fuel' (drop k l)
      | Invalid k => replacement ++ lossy_loop fuel' (drop k l)
      | Incomplete => replacement
      end
  end.

Definition from_utf8_lossy (l : list Z) : list Z := lossy_loop (length l) l.

(** Bytes as a string. *)
Definition byte_string (l : list Z) : string :=
  String.string_of_list_ascii (map (fun b => ascii_of_N (Z.to_N b)) l).

(** * Theory *)

Lemma continuation_Valid n lo hi l seen k :
  continuation n lo hi l seen = Valid k -> k = (seen + n)%nat /\ (n <= length l)%nat.
Proof.
  revert lo hi l seen. induction n as [|n IH]; intros lo hi l seen; cbn.
  { intros [= ->]. split; lia. }
  destruct l as [|b l]; [done|]. destruct (between lo hi b); [|done].
  intros [-> ?]%IH. cbn. split; lia.
Qed.

Lemma continuation_app n lo hi l seen l' :
  (n <= length l)%nat -> continuation n lo hi (l ++ l') seen = continuation n lo hi l seen.
Proof.
  revert lo hi l seen. induction n as [|n IH]; intros lo hi l seen Hn; [done|].
  destruct l as [|b l]; cbn in Hn |- *; [lia|]. destruct (between lo hi b); [|done]. apply IH. lia.
Qed.

Lemma continuation_take n lo hi l seen :
  (n <= length l)%nat -> continuation n lo hi (take n l) seen = continuation n lo hi l seen.
Proof.
  intros Hn. rewrite <- (take_drop n l) at 2. symmetry. apply continuation_app. rewrite length_take. lia.
Qed.

Lemma continuation_Invalid n lo hi l seen k :
  continuation n lo hi l seen = Invalid k -> (seen <= k)%nat /\ (k < seen + length l)%nat.
Proof.
  revert lo hi l seen. induction n as [|n IH]; intros lo hi l seen; cbn; [done|].
  destruct l as [|b l]; [done|]. cbn. destruct (between lo hi b).
  - intros Hk. apply IH in Hk. lia.
  - intros [= ->]. lia.
Qed.

(** A well-formed sequence is recognised whatever comes after it. *)
Lemma next_chunk_Valid b0 l k :
  next_chunk b0 l = Valid k ->
  (1 <= k <= S (length l))%nat /\ forall l', next_chunk b0 (take (k - 1) l ++ l') = Valid k.
Proof.
  unfold next_chunk. destruct (b0 <? 128).
  { intros [= <-]. split; [lia|done]. }
  destruct (follows b0) as [[[n lo] hi]|]; [|done]. intros Hv.
  destruct (continuation_Valid _ _ _ _ _ _ Hv) as [-> Hn]. split; [lia|]. intros l'.
  replace (1 + n - 1)%nat with n by lia.
  rewrite continuation_app by (rewrite length_take; lia). by rewrite continuation_take.
Qed.

Lemma next_chunk_Invalid b0 l k : next_chunk b0 l = Invalid k -> (1 <= k)%nat.
Proof.
  unfold next_chunk. destruct (b0 <? 128); [done|]. destruct (follows b0) as [[[n lo] hi]|].
  - intros Hk%continuation_Invalid. lia.
  - intros [= <-]. lia.
Qed.

(** More fuel than bytes changes nothing. *)
Lemma validate_loop_fuel fuel at_ at' l :
  (length l <= fuel)%nat ->
  is_ok (validate_loop fuel at_ l) = is_ok (validate_loop (length l) at' l).
Proof.
  revert fuel at_ at'. induction (length l) as [n IH] eqn:Hn using (well_founded_induction lt_wf) in l |- *.
  intros fuel at_ at' Hf. destruct l as [|b0 l]; cbn in Hn; [by destruct fuel, n|].
  destruct n as [|n]; [done|]. destruct fuel as [|fuel]; [lia|]. cbn [validate_loop].
  destruct (next_chunk b0 l) as [k|k|] eqn:Hc; [|done..].
  destruct (next_chunk_Valid _ _ _ Hc) as [Hk _].
  assert (length (drop k (b0 :: l)) < S n)%nat as Hlt by (rewrite length_drop; cbn; lia).
  rewrite (IH _ Hlt _ eq_refl fuel _ 0%nat) by (rewrite length_drop in *; cbn in *; lia).
  by rewrite (IH _ Hlt _ eq_refl n _ 0%nat) by (rewrite length_drop in *; cbn in *; lia).
Qed.

(** Well-formed bytes. *)
Definition utf8 (l : list Z) : Prop := is_ok (from_utf8 l) = true.

Lemma utf8_validate fuel at_ l :
  (length l <= fuel)%nat -> utf8 l <-> is_ok (validate_loop fuel at_ l) = true.
Proof.
  intros Hf. rewrite (validate_loop_fuel fuel at_ 0) by done. unfold utf8, from_utf8.
  by destruct (validate_loop (length l) 0 l).
Qed.

Lemma utf8_cons b0 l :
  utf8 (b0 :: l) <-> exists k, next_chunk b0 l = Valid k /\ utf8 (drop k (b0 :: l)).
Proof.
  rewrite (utf8_validate (S (length l)) 0) by done. cbn [validate_loop].
  destruct (next_chunk b0 l) as [k|k|] eqn:Hc; cbn [is_ok]; [|naive_solver..].
  destruct (next_chunk_Valid _ _ _ Hc) as [Hk _].
  rewrite <- utf8_validate by (rewrite length_drop; cbn; lia).
  split; [by exists k|]. by intros (k' & [= <-] & ?).
Qed.

Lemma utf8_app a b : utf8 a -> utf8 b -> utf8 (a ++ b).
Proof.
  induction (length a) as [n IH] eqn:Hn using (well_founded_induction lt_wf) in a |- *.
  destruct a as [|b0 a]; [done|]. intros (k & Hc & Ha)%utf8_cons Hb.
  destruct (next_chunk_Valid _ _ _ Hc) as [Hk Happ].
  cbn [app]. apply utf8_cons. exists k. split.
  - rewrite <- (take_drop (k - 1) a), <- app_assoc. apply Happ.
  - change (b0 :: a ++ b) with ((b0 :: a) ++ b). rewrite drop_app_le by (cbn; lia).
    apply (IH (length (drop k (b0 :: a)))); [rewrite length_drop; cbn in *; lia|done..].
Qed.

Lemma utf8_chunk b0 l k : next_chunk b0 l = Valid k -> utf8 (take k (b0 :: l)).
Proof.
  intros Hc. destruct (next_chunk_Valid _ _ _ Hc) as [Hk Happ]. destruct k as [|k]; [lia|].
  cbn [firstn]. apply utf8_cons. exists (S k). split.
  - specialize (Happ []). rewrite app_nil_r in Happ. by replace (S k - 1)%nat with k in Happ by lia.
  - cbn [skipn]. rewrite drop_ge by (rewrite length_take; lia). reflexivity.
Qed.

Lemma lossy_loop_spec fuel l :
  (length l <= fuel)%nat ->
  utf8 (lossy_loop fuel l) /\ (utf8 l -> lossy_loop fuel l = l).
Proof.
  revert fuel. induction (length l) as [n IH] eqn:Hn using (well_founded_induction lt_wf) in l |- *.
  intros fuel Hf. destruct l as [|b0 l]; [by destruct fuel|]. cbn in Hn.
  destruct fuel as [|fuel]; [lia|]. cbn [lossy_loop].
  assert (forall k, (1 <= k)%nat ->
    utf8 (lossy_loop fuel (drop k (b0 :: l))) /\
    (utf8 (drop k (b0 :: l)) -> lossy_loop fuel (drop k (b0 :: l)) = drop k (b0 :: l))) as Hrest.
  { intros k Hk. apply (IH (length (drop k (b0 :: l)))); [|done|]; rewrite length_drop; cbn; lia. }
  destruct (next_chunk b0 l) as [k|k|] eqn:Hc.
  - destruct (next_chunk_Valid _ _ _ Hc) as [Hk _]. destruct (Hrest k) as [Hu Hid]; [lia|]. split.
    + apply utf8_app; [by apply utf8_chunk|done].
    + intros (k' & Hc' & Hd)%utf8_cons. assert (k' = k) as -> by congruence.
      rewrite Hid by done. apply take_drop.
  - pose proof (next_chunk_Invalid _ _ _ Hc). destruct (Hrest k) as [Hu _]; [lia|]. split.
    + by apply utf8_app.
    + intros (k' & Hc' & _)%utf8_cons. congruence.
  - split; [done|]. intros (k' & Hc' & _)%utf8_cons. congruence.
Qed.

(** The lossy reading is always well formed, and is the identity on what is. *)
Lemma from_utf8_lossy_utf8 l : utf8 (from_utf8_lossy l).
Proof. by apply lossy_loop_spec. Qed.
Lemma from_utf8_lossy_id l : utf8 l -> from_utf8_lossy l = l.
Proof. by apply lossy_loop_spec. Qed.
Lemma from_utf8_Ok l l' : from_utf8 l = Ok l' <-> utf8 l /\ l' = l.
Proof.
  unfold utf8, from_utf8. destruct (validate_loop (length l) 0 l) as [[]|e]; cbn; naive_solver.
Qed.

(** A stray byte, a surrogate, a cut sequence. *)
Example lossy_examples :
  from_utf8_lossy [104; 255; 105] = [104; 239; 191; 189; 105] /\
  from_utf8_lossy [237; 160; 128] = replacement ++ replacement ++ replacement /\
  from_utf8_lossy [226; 130] = replacement /\
  from_utf8_lossy [226; 130; 172] = [226; 130; 172] /\
  from_utf8 [97; 226; 40; 161] = Err (Utf8Error 1 (Some 1%nat)).
Proof. repeat split; reflexivity. Qed.
