(* ===== verification/Envelope.v ===== *)
(** The typed envelope and its authority: [Capability], [CapSet], [Envelope]
    ([konflux-substrate/src/envelope.rs]) and the legacy wrappers of
    [konflux-substrate/src/capability.rs].

    A capability is a pattern string; [matches] decides which tool names it
    grants.  The theorems show that the cover test used when authority is
    handed to a child is inclusion of the granted names, so authority only
    attenuates. *)

From S2P Require Import Prelude Json Error.
From Stdlib Require Import Ascii.

Local Open Scope string_scope.

(** * Identities *)

(** [Uuid]: 128 bits. *)
Abbreviation uuid := N.
(** [chrono::DateTime<Utc>]: nanoseconds since the epoch. *)
Abbreviation datetime := Z.

Inductive qos_class : Type := QCritical | QNormal | QBestEffort.

(** * Capabilities *)

(** [Capability(String)]. *)
Record capability : Type := Capability { pattern : string }.

(** [Capability::matches]. *)
Definition matches (c : capability) (tool_name : string) : bool :=
  if String.eqb (pattern c) "*" then true else
  match strip_suffix ":*" (pattern c) with
  | Some prefix =>
      (starts_with tool_name prefix
       && bool_decide (String.get (String.length prefix) tool_name = Some ":"%char))%bool
  | None => String.eqb (pattern c) tool_name
  end.

(** [CapSet(Vec<Capability>)]. *)
Definition capset : Type := list capability.

(** [CapSet::from_patterns]. *)
Definition from_patterns (patterns : list string) : capset := map Capability patterns.

(** [CapSet::to_patterns], [CapSet::patterns]. *)
Definition to_patterns (cs : capset) : list string := map pattern cs.

(** [CapSet::check_access]. *)
Definition check_access (cs : capset) (tool_name : string) : result tool_error unit :=
  match cs with
  | [] => Err (ToolCapabilityDenied "ALL (empty capability set)")
  | _ =>
      if existsb (fun c => matches c tool_name) cs then Ok tt
      else Err (ToolCapabilityDenied tool_name)
  end.

(** The message [attenuate] fails with on a pattern the parent lacks. *)
Definition cannot_grant (pat : string) : string :=
  String.append "capability '"
    (String.append pat "' cannot be granted — parent does not have it").

(** The body of the loop of [attenuate]. *)
Definition grant_pattern (cs : capset) (pat : string) : result string unit :=
  if existsb (fun parent => matches parent pat) cs then Ok tt else Err (cannot_grant pat).

(** [CapSet::attenuate]. *)
Definition attenuate (cs : capset) (child_patterns : list string) : result string capset :=
  match child_patterns with
  | [] => Ok []
  | _ =>
      match cs with
      | [] => Err "parent has no capabilities to grant from"
      | _ =>
          _ ← try_each (grant_pattern cs) child_patterns;
          Ok (from_patterns child_patterns)
      end
  end.

(** [capability::check_tool_access]. *)
Definition check_tool_access (tool_name : string) (capabilities : list string)
  : result tool_error unit :=
  check_access (from_patterns capabilities) tool_name.

(** [capability::validate_grant]. *)
Definition validate_grant (grant parent_capabilities : list string) : result string unit :=
  _ ← attenuate (from_patterns parent_capabilities) grant; Ok tt.

(** * Envelopes *)

(** [Envelope<P>]. *)
Record envelope (P : Type) : Type := Envelope {
  env_id : uuid;
  env_trace_id : uuid;
  env_parent_id : option uuid;
  env_actor_id : string;
  env_namespace : string;
  env_capabilities : capset;
  env_target : string;
  env_payload_type : string;
  env_payload : P;
  env_emitted_at : datetime;
  env_step_index : Z;
  env_stream_id : string;
  env_deadline : option datetime;
  env_idempotency_key : option string;
  env_qos_class : option qos_class;
  env_references : option (list uuid);
  env_metadata : list (string * json);
}.
Arguments Envelope {P}.
Arguments env_id {P}. Arguments env_trace_id {P}. Arguments env_parent_id {P}.
Arguments env_actor_id {P}. Arguments env_namespace {P}. Arguments env_capabilities {P}.
Arguments env_target {P}. Arguments env_payload_type {P}. Arguments env_payload {P}.
Arguments env_emitted_at {P}. Arguments env_step_index {P}. Arguments env_stream_id {P}.
Arguments env_deadline {P}. Arguments env_idempotency_key {P}. Arguments env_qos_class {P}.
Arguments env_references {P}. Arguments env_metadata {P}.

(** [Envelope::respond]; [fresh] is the new random id and [now] the clock. *)
Definition respond {P Q} (fresh : uuid) (now : datetime) (e : envelope P) (payload : Q)
  : envelope Q := {|
  env_id := fresh;
  env_trace_id := env_trace_id e;
  env_parent_id := Some (env_id e);
  env_actor_id := env_actor_id e;
  env_namespace := env_namespace e;
  env_capabilities := env_capabilities e;
  env_target := env_target e;
  env_payload_type := env_payload_type e;
  env_payload := payload;
  env_emitted_at := now;
  env_step_index := wrap_u64 (env_step_index e + 1);
  env_stream_id := env_stream_id e;
  env_deadline := env_deadline e;
  env_idempotency_key := None;
  env_qos_class := env_qos_class e;
  env_references := None;
  env_metadata := env_metadata e;
|}.

(** [Envelope::for_tool_dispatch]. *)
Definition for_tool_dispatch (fresh : uuid) (now : datetime)
    (target : string) (payload : json) (capabilities : list string) (trace_id : uuid)
    (namespace actor_id stream_id : string) : envelope json := {|
  env_id := fresh;
  env_trace_id := trace_id;
  env_parent_id := None;
  env_actor_id := actor_id;
  env_namespace := namespace;
  env_capabilities := from_patterns capabilities;
  env_target := target;
  env_payload_type := "tool_input";
  env_payload := payload;
  env_emitted_at := now;
  env_step_index := 0;
  env_stream_id := stream_id;
  env_deadline := None;
  env_idempotency_key := None;
  env_qos_class := None;
  env_references := None;
  env_metadata := [];
|}.

#[global] Arguments check_access : simpl never.

(** * What a pattern grants *)

(** The names a pattern grants: everything for ["*"], the names below
    ["p:"] for ["p:*"], itself otherwise. *)
Inductive grants : string -> string -> Prop :=
  | grants_all t : grants "*" t
  | grants_prefix p r : grants (String.append p ":*") (String.append p (String.append ":" r))
  | grants_exact t : grants t t.

Lemma get_append_colon p r :
  String.get (String.length p) (String.append p r) = Some ":"%char
  <-> exists r', r = String.append ":" r'.
Proof.
  induction p as [|c p IH]; [|done]. cbn. destruct r as [|a r]; cbn.
  - split; [done|]. by intros [? [=]].
  - split; [intros [= ->]; by exists r|by intros (r' & [= -> ->])].
Qed.

Lemma star_not_prefix p : String.append p ":*" <> "*".
Proof. destruct p as [|a p]; cbn; [done|]. by destruct p. Qed.

Lemma matches_grants pat t : matches (Capability pat) t = true <-> grants pat t.
Proof.
  unfold matches. cbn. destruct (String.eqb_spec pat "*") as [->|Hstar].
  { split; [constructor|done]. }
  destruct (strip_suffix ":*" pat) as [p|] eqn:Hsuf.
  - apply strip_suffix_Some in Hsuf as ->.
    rewrite andb_true_iff, starts_with_Some, bool_decide_eq_true. split.
    + intros [[r ->] (r' & ->)%get_append_colon]. constructor.
    + inversion 1 as [t' Heq|p' r Heq Ht|t' Heq Ht]; subst.
      * by destruct (star_not_prefix p).
      * apply append_inv_r in Heq as ->. split; [by eexists|].
        apply get_append_colon. by exists r.
      * split; [by eexists|]. apply get_append_colon. by exists "*".
  - rewrite String.eqb_eq. split; [intros ->; constructor|].
    inversion 1; subst; [done| |done]. by rewrite strip_suffix_append in Hsuf.
Qed.

Lemma matches_refl c : matches c (pattern c) = true.
Proof. destruct c as [p]. apply matches_grants. constructor. Qed.

(** Two prefixes of one string that are both followed by a separator. *)
Lemma append_prefix_cases p q x y :
  String.append p x = String.append q y ->
  (exists w, q = String.append p w /\ x = String.append w y)
  \/ (exists w, p = String.append q w /\ y = String.append w x).
Proof.
  revert q. induction p as [|a p IH]; intros q; cbn.
  - intros ->. left. by exists q.
  - destruct q as [|b q]; cbn.
    + intros <-. right. by exists (String a p).
    + intros [= -> [(w & -> & ->)|(w & -> & ->)]%IH]; [left|right]; by exists w.
Qed.

Lemma grants_trans p c t : grants p c -> grants c t -> grants p t.
Proof.
  intros Hpc Hct. inversion Hpc as [|p' r Hp Hc|]; subst; [constructor| |done].
  inversion Hct as [t' Heq|c' r' Heq Ht|t' Heq Ht]; subst.
  - destruct p' as [|a p']; cbn in *; [done|]. by destruct p'.
  - apply (append_prefix_cases c' p') in Heq as [(w & -> & Hx)|(w & -> & Hx)].
    + (* c' is a prefix of p' *)
      rewrite <- append_assoc. destruct w as [|a w]; cbn in *.
      * constructor.
      * exfalso. injection Hx as _ Hx. destruct w as [|b w]; cbn in *; [done|].
        injection Hx as _ Hx. by destruct w.
    + rewrite <- append_assoc. destruct w as [|a w]; cbn in *.
      * constructor.
      * injection Hx as <- Hx. apply (grants_prefix p').
  - constructor.
Qed.

Lemma matches_trans p c t :
  matches p (pattern c) = true -> matches c t = true -> matches p t = true.
Proof.
  destruct p as [p], c as [c]. rewrite !matches_grants. apply grants_trans.
Qed.

Lemma existsb_matches (cs : capset) t :
  existsb (fun c => matches c t) cs = true <-> exists c, c ∈ cs /\ matches c t = true.
Proof.
  rewrite existsb_exists. by setoid_rewrite list_elem_of_In.
Qed.

Lemma check_access_Ok cs t :
  check_access cs t = Ok tt <-> exists c, c ∈ cs /\ matches c t = true.
Proof.
  rewrite <- existsb_matches. unfold check_access. destruct cs as [|c cs]; [done|].
  by destruct (existsb _ _).
Qed.

(** A child pattern set is covered when every pattern is granted, as a name,
    by the parent. *)
Definition covered_by (parent : capset) (pats : list string) : Prop :=
  Forall (fun pat => check_access parent pat = Ok tt) pats.

Lemma grant_pattern_Ok cs pat : grant_pattern cs pat = Ok tt <-> check_access cs pat = Ok tt.
Proof.
  rewrite check_access_Ok, <- existsb_matches. unfold grant_pattern. by destruct (existsb _ _).
Qed.

Lemma grant_pattern_Err cs pat :
  check_access cs pat <> Ok tt -> grant_pattern cs pat = Err (cannot_grant pat).
Proof. rewrite <- grant_pattern_Ok. unfold grant_pattern. by destruct (existsb _ _). Qed.

Lemma attenuate_Ok parent pats child :
  attenuate parent pats = Ok child <-> child = from_patterns pats /\ covered_by parent pats.
Proof.
  unfold attenuate, covered_by. destruct pats as [|pat pats].
  - split; [by intros [= <-]|by intros [-> _]].
  - destruct parent as [|c parent].
    + split; [done|]. intros [_ H]. by inversion H.
    + destruct (try_each (grant_pattern (c :: parent)) (pat :: pats)) as [[]|e] eqn:E; cbn.
      * apply try_each_Ok in E. split; [intros [= <-]|by intros [-> _]].
        split; [done|]. eapply Forall_impl; [exact E|]. intros p. apply grant_pattern_Ok.
      * split; [done|]. intros [_ H].
        enough (try_each (grant_pattern (c :: parent)) (pat :: pats) = Ok tt) by congruence.
        apply try_each_Ok. eapply Forall_impl; [exact H|]. intros p. apply grant_pattern_Ok.
Qed.

(** ** Properties *)

(** C1: The cover test of the capability lattice is exactly inclusion of
    authority: the parent pattern matches the child pattern, taken as a name,
    if and only if every tool the child pattern grants is granted by the
    parent pattern. *)
Theorem matches_iff_inclusion (p c : capability) :
  matches p (pattern c) = true
  <-> forall t, matches c t = true -> matches p t = true.
Proof.
  split; [intros Hpc t; by apply matches_trans|].
  intros H. apply H, matches_refl.
Qed.

(** One hand-over of authority: [child] is what [attenuate] returned for
    some requested patterns. *)
Definition delegates (parent child : capset) : Prop :=
  exists pats, attenuate parent pats = Ok child.

(** A parent with the full wildcard may grant anything. *)
Lemma validate_grant_star grant : validate_grant grant ["*"] = Ok tt.
Proof.
  unfold validate_grant, attenuate. destruct grant as [|g gs]; [done|]. cbn [from_patterns map].
  assert (try_each (grant_pattern [Capability "*"]) (g :: gs) = Ok tt) as ->; [|done].
  apply try_each_Ok. by apply Forall_forall.
Qed.

Lemma attenuate_narrows parent child t :
  delegates parent child -> check_access child t = Ok tt -> check_access parent t = Ok tt.
Proof.
  intros (pats & [-> Hcov]%attenuate_Ok) (c & Hc & Hm)%check_access_Ok.
  unfold from_patterns in Hc. apply list_elem_of_fmap in Hc as (pat & -> & Hpat).
  apply check_access_Ok. unfold covered_by in Hcov. rewrite Forall_forall in Hcov.
  destruct (proj1 (check_access_Ok _ _) (Hcov pat Hpat)) as (p & Hp & Hpp).
  exists p. split; [done|]. by apply (matches_trans p (Capability pat)).
Qed.

(** C2: Capabilities only attenuate.  Whatever chain of [CapSet::attenuate]
    calls leads from a root set to a leaf set, every tool access the leaf set
    allows is allowed by the root set. *)
Theorem delegation_never_amplifies (root leaf : capset) (t : string) :
  rtc delegates root leaf ->
  check_access leaf t = Ok tt -> check_access root t = Ok tt.
Proof.
  intros H. revert t. induction H as [|a b c Hab _ IH]; intros t Ht; [done|].
  eapply attenuate_narrows; [exact Hab|by apply IH].
Qed.

Lemma delegation_never_amplifies_witness :
  check_access (from_patterns ["memory:*"; "ai:complete"]) "memory:kv:get" = Ok tt.
Proof.
  apply (delegation_never_amplifies
           (from_patterns ["memory:*"; "ai:complete"]) (from_patterns ["memory:kv:get"])).
  - eapply rtc_l; [exists ["memory:kv:*"]; reflexivity|].
    eapply rtc_l; [exists ["memory:kv:get"]; reflexivity|apply rtc_refl].
  - reflexivity.
Defined.

(** [CapSet::attenuate] on every branch.  It returns exactly the requested
    patterns when each is covered; it fails on an empty parent; otherwise the
    error names the first requested pattern the parent lacks. *)
Theorem attenuate_spec (parent : capset) (pats : list string) :
  attenuate parent pats =
    match list_find (fun p => check_access parent p <> Ok tt) pats, parent with
    | None, _ => Ok (from_patterns pats)
    | Some _, [] => Err "parent has no capabilities to grant from"
    | Some (_, p), _ => Err (cannot_grant p)
    end.
Proof.
  destruct (list_find _ pats) as [[i p]|] eqn:E.
  - apply list_find_Some in E as (Hi & Hp & Hlt).
    destruct pats as [|q pats]; [done|]. destruct parent as [|c parent]; [done|].
    unfold attenuate.
    enough (try_each (grant_pattern (c :: parent)) (q :: pats) = Err (cannot_grant p)) as -> by done.
    revert i Hi Hlt. generalize (q :: pats). clear q pats.
    induction l as [|q l IH]; intros i Hi Hlt; [done|]. cbn [try_each].
    destruct i as [|i]; cbn in Hi.
    + injection Hi as ->. by rewrite grant_pattern_Err.
    + assert (grant_pattern (c :: parent) q = Ok tt) as ->.
      { apply grant_pattern_Ok, dec_stable, (Hlt 0 q eq_refl). lia. }
      apply (IH i); [done|]. intros j y Hj ?. apply (Hlt (S j) y Hj). lia.
  - apply list_find_None in E.
    destruct (attenuate parent pats) as [child|e] eqn:Ha.
    + by apply attenuate_Ok in Ha as [-> _].
    + assert (attenuate parent pats = Ok (from_patterns pats)) as H'; [|congruence].
      apply attenuate_Ok. split; [done|]. eapply Forall_impl; [exact E|].
      intros x Hx. by apply dec_stable in Hx.
Qed.
