(* ===== verification/Scope.v ===== *)
(** Execution scopes ([konf-runtime/src/scope.rs]): grants with bindings,
    resource limits, actors, child scopes, and the passage of a scope through
    an envelope. *)

From S2P Require Import Prelude Json Error Envelope.
From Stdlib Require Import Ascii.

Local Open Scope string_scope.

(** * Data *)

(** [CapabilityGrant]. *)
Record capability_grant : Type := CapabilityGrant {
  g_pattern : string;
  g_bindings : gmap string json;
}.

(** [CapabilityGrant::new]. *)
Definition grant_new (pat : string) : capability_grant := CapabilityGrant pat ∅.

(** [ResourceLimits]. *)
Record resource_limits : Type := ResourceLimits {
  max_steps : Z;
  max_workflow_timeout_ms : Z;
  max_concurrent_nodes : Z;
  max_child_depth : Z;
  max_active_runs_per_namespace : Z;
  event_bus_capacity : Z;
}.

(** [ResourceLimits::default]. *)
Definition limits_default : resource_limits := {|
  max_steps := 1000;
  max_workflow_timeout_ms := 300000;
  max_concurrent_nodes := 50;
  max_child_depth := 10;
  max_active_runs_per_namespace := 20;
  event_bus_capacity := 1024;
|}.

(** [ResourceLimits::validate]. *)
Definition limits_validate (l : resource_limits) : result string unit :=
  if (max_steps l =? 0)%Z then Err "max_steps must be > 0 (prevents infinite loops)"
  else if (max_workflow_timeout_ms l =? 0)%Z then
    Err "max_workflow_timeout_ms must be > 0 (prevents runaway workflows)"
  else if (max_concurrent_nodes l =? 0)%Z then Err "max_concurrent_nodes must be > 0"
  else if (max_child_depth l =? 0)%Z then Err "max_child_depth must be > 0"
  else if (max_active_runs_per_namespace l =? 0)%Z then
    Err "max_active_runs_per_namespace must be > 0"
  else if (event_bus_capacity l =? 0)%Z then Err "event_bus_capacity must be > 0"
  else Ok tt.

(** [ActorRole]. *)
Inductive actor_role : Type :=
  | InfraAdmin | ProductAdmin | User | InfraAgent | ProductAgent | UserAgent | System.

#[export] Instance actor_role_eq_dec : EqDecision actor_role.
Proof. solve_decision. Defined.

(** [Actor]. *)
Record actor : Type := Actor { actor_id : string; role : actor_role }.

(** [ExecutionScope]. *)
Record execution_scope : Type := ExecutionScope {
  namespace : string;
  capabilities : list capability_grant;
  limits : resource_limits;
  scope_actor : actor;
  depth : Z;
}.

(** * Operations *)

(** [CapabilityGrant::matches]. *)
Definition grant_matches (g : capability_grant) (tool_name : string)
  : option (gmap string json) :=
  if matches (Capability (g_pattern g)) tool_name then Some (g_bindings g) else None.

(** [ExecutionScope::capability_patterns]. *)
Definition capability_patterns (s : execution_scope) : list string :=
  map g_pattern (capabilities s).

(** [ExecutionScope::check_tool]. *)
Definition check_tool (s : execution_scope) (tool_name : string)
  : result runtime_error (gmap string json) :=
  (fix go (grants : list capability_grant) :=
     match grants with
     | [] =>
         Err (RCapabilityDenied
                (String.append "tool '" (String.append tool_name
                  (String.append "' not granted in scope '" (String.append (namespace s) "'")))))
     | g :: rest =>
         match grant_matches g tool_name with
         | Some bindings => Ok bindings
         | None => go rest
         end
     end) (capabilities s).

(** The closure of [child_scope] deciding whether one parent grant covers one
    child grant. *)
Definition parent_covers (parent_grant child_grant : capability_grant) : bool :=
  if String.eqb (g_pattern parent_grant) "*" then true
  else if String.eqb (g_pattern parent_grant) (g_pattern child_grant) then true
  else
    match strip_suffix ":*" (g_pattern parent_grant) with
    | Some parent_prefix =>
        if negb (ends_with (g_pattern child_grant) ":*") then
          matches (Capability (g_pattern parent_grant)) (g_pattern child_grant)
        else
          match strip_suffix ":*" (g_pattern child_grant) with
          | Some child_prefix =>
              (starts_with child_prefix parent_prefix
               && (String.eqb child_prefix parent_prefix
                   || bool_decide (String.get (String.length parent_prefix) child_prefix
                                   = Some ":"%char)))%bool
          | None => false
          end
    | None => false
    end.

(** [ExecutionScope::child_scope]. *)
Definition child_scope (s : execution_scope) (child_capabilities : list capability_grant)
    (child_namespace : option string) : result runtime_error execution_scope :=
  _ ← try_each (fun child_grant =>
        if existsb (fun parent_grant => parent_covers parent_grant child_grant) (capabilities s)
        then Ok tt
        else Err (RCapabilityDenied
                    (String.append "capability '" (String.append (g_pattern child_grant)
                      (String.append "' cannot be granted — parent scope '"
                        (String.append (namespace s) "' does not have it"))))))
      child_capabilities;
  Ok {| namespace := default (namespace s) child_namespace;
        capabilities := child_capabilities;
        limits := limits s;
        scope_actor := scope_actor s;
        depth := wrap_u64 (depth s + 1) |}.

(** The snake_case name of a role, written into envelope metadata. *)
Definition role_to_string (r : actor_role) : string :=
  match r with
  | InfraAdmin => "infra_admin"
  | ProductAdmin => "product_admin"
  | User => "user"
  | InfraAgent => "infra_agent"
  | ProductAgent => "product_agent"
  | UserAgent => "user_agent"
  | System => "system"
  end.

(** The role an envelope's metadata names. *)
Definition role_of_string (s : string) : actor_role :=
  if String.eqb s "infra_admin" then InfraAdmin
  else if String.eqb s "product_admin" then ProductAdmin
  else if String.eqb s "user" then User
  else if String.eqb s "infra_agent" then InfraAgent
  else if String.eqb s "product_agent" then ProductAgent
  else if String.eqb s "user_agent" then UserAgent
  else if String.eqb s "system" then System
  else User.

(** [ExecutionScope::from_envelope]. *)
Definition from_envelope (env : envelope json) : execution_scope := {|
  namespace := env_namespace env;
  capabilities := map grant_new (to_patterns (env_capabilities env));
  limits := limits_default;
  scope_actor := {|
    actor_id := env_actor_id env;
    role := match obj_get "actor_role" (env_metadata env) ≫= as_str with
            | Some s => role_of_string s
            | None => System
            end |};
  depth := default 0%Z (obj_get "depth" (env_metadata env) ≫= as_u64);
|}.

(** [ExecutionScope::to_envelope]. *)
Definition to_envelope (fresh : uuid) (now : datetime) (s : execution_scope)
    (target : string) (payload : json) (trace_id : uuid) (stream_id : string) : envelope json :=
  for_tool_dispatch fresh now target payload (capability_patterns s) trace_id
    (namespace s) (actor_id (scope_actor s)) stream_id.

(** [scope_from_role]. *)
Definition scope_from_role (id role_name product_namespace : string)
    (role_capabilities : list string) (namespace_suffix : option string)
    (lim : resource_limits) : execution_scope := {|
  namespace := match namespace_suffix with
               | Some suffix => String.append product_namespace (String.append ":" suffix)
               | None => product_namespace
               end;
  capabilities := map grant_new role_capabilities;
  limits := lim;
  scope_actor := {|
    actor_id := id;
    role := if String.eqb role_name "infra_admin" then InfraAdmin
            else if (String.eqb role_name "product_admin" || String.eqb role_name "admin")%bool
            then ProductAdmin
            else if String.eqb role_name "user" then User
            else if String.eqb role_name "infra_agent" then InfraAgent
            else if (String.eqb role_name "product_agent" || String.eqb role_name "agent")%bool
            then ProductAgent
            else if String.eqb role_name "user_agent" then UserAgent
            else if String.eqb role_name "system" then System
            else User |};
  depth := 0;
|}.

(** [dev_scope]. *)
Definition dev_scope (product_namespace : string) : execution_scope :=
  scope_from_role "dev_user" "infra_admin" product_namespace ["*"] None limits_default.

(** * Covering *)

Lemma prefix_of_prefix_pattern pp cc :
  (exists r, String.append cc ":*" = String.append pp (String.append ":" r))
  <-> cc = pp \/ exists r', cc = String.append pp (String.append ":" r').
Proof.
  split.
  - intros (r & H). apply append_prefix_cases in H as [(w & -> & H)|(w & -> & H)].
    + left. destruct w as [|a w]; [by rewrite app_EmptyString_r|].
      injection H as _ H. destruct w as [|b w]; [done|]. injection H as _ H. by destruct w.
    + destruct w as [|a w]; [left; by rewrite app_EmptyString_r|].
      right. injection H as <- _. by exists w.
  - intros [->|(r' & ->)]; [by exists "*"|].
    exists (String.append r' ":*"). by rewrite <- append_assoc.
Qed.

(** The closure of [child_scope] computes [Capability::matches]. *)
Lemma parent_covers_matches p c :
  parent_covers p c = matches (Capability (g_pattern p)) (g_pattern c).
Proof.
  unfold parent_covers. destruct p as [p bp], c as [c bc]; cbn.
  destruct (String.eqb_spec p "*") as [->|Hstar]; [done|].
  destruct (String.eqb_spec p c) as [->|Hne]; [symmetry; apply (matches_refl (Capability c))|].
  destruct (strip_suffix ":*" p) as [pp|] eqn:Hp.
  - destruct (ends_with c ":*") eqn:Hc; cbn; [|done].
    apply ends_with_Some in Hc as [cc ->]. rewrite strip_suffix_append.
    apply eq_iff_eq_true. rewrite matches_grants.
    apply strip_suffix_Some in Hp as ->.
    rewrite andb_true_iff, orb_true_iff, starts_with_Some, String.eqb_eq, bool_decide_eq_true.
    assert (grants (String.append pp ":*") (String.append cc ":*")
            <-> exists r, String.append cc ":*" = String.append pp (String.append ":" r)) as ->.
    { split; [|by intros (r & ->); constructor].
      inversion 1 as [t Ht|q r Hq Hr|t Ht]; subst.
      - by destruct (star_not_prefix pp).
      - apply append_inv_r in Hq as ->. by exists r.
      - done. }
    rewrite prefix_of_prefix_pattern. split.
    + intros [[r ->] [Heq|(r' & ->)%get_append_colon]]; [by left|right; by exists r'].
    + intros [->|(r' & ->)].
      * split; [exists EmptyString; by rewrite app_EmptyString_r|by left].
      * split; [by eexists|right]. apply get_append_colon. by exists r'.
  - unfold matches. cbn. rewrite Hp. destruct (String.eqb_spec p "*"); [done|].
    by destruct (String.eqb_spec p c).
Qed.

Lemma scope_covers s c :
  existsb (fun p => parent_covers p c) (capabilities s) = true
  <-> check_access (from_patterns (capability_patterns s)) (g_pattern c) = Ok tt.
Proof.
  rewrite check_access_Ok, existsb_exists. unfold from_patterns, capability_patterns. split.
  - intros (p & Hp & Hc). rewrite parent_covers_matches in Hc.
    exists (Capability (g_pattern p)). split; [|done].
    apply list_elem_of_In, in_map_iff. exists (g_pattern p). split; [done|]. by apply in_map.
  - intros (cap & Hin & Hm). apply list_elem_of_In, in_map_iff in Hin as (pat & <- & Hin).
    apply in_map_iff in Hin as (p & <- & Hin). exists p. by rewrite parent_covers_matches.
Qed.

Lemma child_scope_Ok s gs ns c :
  child_scope s gs ns = Ok c <->
  c = {| namespace := default (namespace s) ns; capabilities := gs; limits := limits s;
         scope_actor := scope_actor s; depth := wrap_u64 (depth s + 1) |}
  /\ covered_by (from_patterns (capability_patterns s)) (map g_pattern gs).
Proof.
  unfold child_scope, covered_by. rewrite Forall_map. cbn [compose].
  set (f := fun g => if existsb _ _ then _ else _).
  assert (Hf : forall g, f g = Ok tt <->
            check_access (from_patterns (capability_patterns s)) (g_pattern g) = Ok tt).
  { intros g. rewrite <- scope_covers. unfold f. by destruct (existsb _ _). }
  rewrite <- (Forall_iff _ _ _ Hf), <- try_each_Ok.
  destruct (try_each f gs) as [[]|e]; cbn.
  - split; [intros [= <-]; done|by intros [-> _]].
  - split; [done|by intros [_ ?]].
Qed.

Lemma check_tool_Ok s t :
  is_ok (check_tool s t) = true
  <-> check_access (from_patterns (capability_patterns s)) t = Ok tt.
Proof.
  rewrite check_access_Ok. unfold check_tool, capability_patterns, from_patterns.
  induction (capabilities s) as [|g gs IH]; cbn.
  - split; [done|]. intros (c & Hc & _). by inversion Hc.
  - unfold grant_matches at 1. destruct (matches (Capability (g_pattern g)) t) eqn:E; cbn.
    + split; [|done]. intros _. exists (Capability (g_pattern g)). split; [by left|done].
    + rewrite IH. split; intros (c & Hc & Hm).
      * exists c. split; [by right|done].
      * inversion Hc; subst; [congruence|]. by exists c.
Qed.

Lemma scope_covers_check s c :
  existsb (fun p => parent_covers p c) (capabilities s) = is_ok (check_tool s (g_pattern c)).
Proof.
  apply eq_true_iff_eq. by rewrite check_tool_Ok, scope_covers.
Qed.

(** A refusal names the first requested grant the parent does not cover. *)
Lemma child_scope_Err s gs ns e :
  child_scope s gs ns = Err e ->
  exists pre g post, gs = (pre ++ g :: post)%list /\
    Forall (fun h => is_ok (check_tool s (g_pattern h)) = true) pre /\
    is_ok (check_tool s (g_pattern g)) = false /\
    e = RCapabilityDenied (String.concat EmptyString
          ["capability '"; g_pattern g; "' cannot be granted — parent scope '"; namespace s;
           "' does not have it"]).
Proof.
  unfold child_scope. set (f := fun g => if existsb _ _ then _ else _).
  destruct (try_each f gs) as [[]|e'] eqn:Hf; [done|]. intros [= <-].
  revert Hf. induction gs as [|g gs IH]; [done|]. cbn [try_each].
  destruct (f g) as [[]|e''] eqn:Hg; unfold f in Hg; rewrite scope_covers_check in Hg;
    destruct (is_ok (check_tool s (g_pattern g))) eqn:Hok; try done.
  - cbn [mbind result_bind]. intros (pre & h & post & -> & Hpre & Hh)%IH.
    exists (g :: pre), h, post. split_and!; [done|by constructor|apply Hh..].
  - injection Hg as <-. intros [= <-]. exists [], g, gs. split_and!; [done|constructor|done|].
    cbn [String.concat]. by rewrite ?app_EmptyString_r.
Qed.

(** The bindings of a granted tool are those of a grant that matches it. *)
Lemma check_tool_grant s t b :
  check_tool s t = Ok b ->
  exists g, g ∈ capabilities s /\ matches (Capability (g_pattern g)) t = true /\ g_bindings g = b.
Proof.
  unfold check_tool. induction (capabilities s) as [|g gs IH]; [done|].
  unfold grant_matches at 1. destruct (matches (Capability (g_pattern g)) t) eqn:E.
  - intros [= <-]. exists g. split; [by left|done].
  - intros H. destruct (IH H) as (g' & Hin & Hg'). exists g'. split; [by right|done].
Qed.

(** ** Properties *)

(** The runtime's child-scope validation and the substrate's
    [CapSet::attenuate] are the same decision: for every parent scope and every
    list of requested grants, one succeeds exactly when the other does. *)
Theorem child_scope_agrees_with_attenuate (s : execution_scope)
    (gs : list capability_grant) (ns : option string) :
  is_ok (child_scope s gs ns)
  = is_ok (attenuate (from_patterns (capability_patterns s)) (map g_pattern gs)).
Proof.
  apply eq_iff_eq_true.
  destruct (child_scope s gs ns) as [c|e] eqn:Hc, (attenuate _ _) as [a|e'] eqn:Ha; [done| | |done].
  - apply child_scope_Ok in Hc as [_ Hc].
    enough (attenuate (from_patterns (capability_patterns s)) (map g_pattern gs)
            = Ok (from_patterns (map g_pattern gs))) by congruence.
    by apply attenuate_Ok.
  - apply attenuate_Ok in Ha as [_ Ha].
    set (c := ExecutionScope (default (namespace s) ns) gs (limits s) (scope_actor s)
                (wrap_u64 (depth s + 1))).
    enough (child_scope s gs ns = Ok c) by congruence.
    by apply child_scope_Ok.
Qed.

(** C3: a child scope exists exactly when every requested grant is covered by
    the parent: it then carries those grants, with the bindings the request
    gives them, and can use no tool its parent cannot; it acts for the same
    actor under the same limits, one level deeper, in the parent's namespace
    unless another is asked for.  Otherwise the first grant that is not covered
    is refused by name. *)
Theorem child_scope_attenuates (s : execution_scope) (gs : list capability_grant)
    (ns : option string) :
  match child_scope s gs ns with
  | Ok c =>
      capabilities c = gs /\
      (forall t, is_ok (check_tool c t) = true -> is_ok (check_tool s t) = true) /\
      (forall t b, check_tool c t = Ok b ->
         exists g, g ∈ gs /\ matches (Capability (g_pattern g)) t = true /\ b = g_bindings g) /\
      scope_actor c = scope_actor s /\ limits c = limits s /\
      namespace c = match ns with Some n => n | None => namespace s end /\
      depth c = ((depth s + 1) mod 2 ^ 64)%Z
  | Err e =>
      exists pre g post, gs = (pre ++ g :: post)%list /\
        Forall (fun h => is_ok (check_tool s (g_pattern h)) = true) pre /\
        is_ok (check_tool s (g_pattern g)) = false /\
        e = RCapabilityDenied (String.concat EmptyString
              ["capability '"; g_pattern g; "' cannot be granted — parent scope '"; namespace s;
               "' does not have it"])
  end.
Proof.
  destruct (child_scope s gs ns) as [c|e] eqn:Hc.
  - apply child_scope_Ok in Hc as [-> Hcov]. cbn [capabilities scope_actor limits namespace depth].
    split; [done|]. split; [|split; [|by destruct ns]].
    + intros t. rewrite !check_tool_Ok. apply attenuate_narrows.
      exists (map g_pattern gs). by apply attenuate_Ok.
    + intros t b (g & Hg & Hm & <-)%check_tool_grant. by exists g.
  - by apply child_scope_Err in Hc.
Qed.

Lemma child_scope_attenuates_witness :
  let s := scope_from_role "u" "user" "konf:p" ["memory:*"] None limits_default in
  let c := {| namespace := "konf:p"; capabilities := [grant_new "memory:search"];
              limits := limits_default; scope_actor := Actor "u" User; depth := 1 |} in
  child_scope s [grant_new "memory:search"] None = Ok c /\
  is_ok (check_tool s "memory:search") = true.
Proof.
  intros s c. split; [reflexivity|].
  pose proof (child_scope_attenuates s [grant_new "memory:search"] None) as H.
  change (child_scope s [grant_new "memory:search"] None) with (@Ok runtime_error _ c) in H.
  apply (proj1 (proj2 H) "memory:search"). reflexivity.
Defined.
