(* ===== verification/Tool.v ===== *)
(** Tools and their registry ([konflux-substrate/src/tool.rs]).

    A tool is a piece of code outside the engine: here a function that takes
    the world and an envelope to a new world and a response.  The registry is
    the map the engine dispatches from. *)

From S2P Require Import Prelude Json Error Envelope.

Local Open Scope string_scope.

(** [ToolAnnotations]. *)
Record tool_annotations : Type := ToolAnnotations {
  read_only : bool;
  destructive : bool;
  idempotent : bool;
  open_world : bool;
}.

(** [ToolAnnotations::default]. *)
Definition annotations_default : tool_annotations := ToolAnnotations false false false false.

(** [ToolInfo]. *)
Record tool_info : Type := ToolInfo {
  ti_name : string;
  ti_description : string;
  ti_input_schema : json;
  ti_output_schema : option json;
  ti_capabilities : list string;
  ti_supports_streaming : bool;
  ti_annotations : tool_annotations;
}.

Section Tools.
Context {W : Type}.

(** [dyn Tool]: the metadata and the invocation. *)
Record tool : Type := Tool {
  info : tool_info;
  invoke : W -> envelope json -> W * result tool_error (envelope json);
}.

(** [ToolRegistry]: [HashMap<String, Arc<dyn Tool>>]. *)
Definition tool_registry : Type := gmap string tool.

(** [ToolRegistry::register]. *)
Definition register (reg : gmap string tool) (t : tool) : gmap string tool :=
  <[ti_name (info t) := t]> reg.

(** [ToolRegistry::remove]: whether the tool was present, and the registry. *)
Definition remove (reg : gmap string tool) (name : string) : bool * gmap string tool :=
  (bool_decide (is_Some (reg !! name)), delete name reg).

(** [ToolRegistry::contains]. *)
Definition contains (reg : gmap string tool) (name : string) : bool :=
  bool_decide (is_Some (reg !! name)).

(** Every tool sits under the name it publishes. *)
Definition registry_ok (reg : gmap string tool) : Prop :=
  forall name t, reg !! name = Some t -> ti_name (info t) = name.

Lemma registry_ok_empty : registry_ok ∅.
Proof. intros name t H. by rewrite lookup_empty in H. Qed.

Lemma registry_ok_register reg t : registry_ok reg -> registry_ok (register reg t).
Proof.
  intros H name t'. unfold register. rewrite lookup_insert. case_decide as Hn.
  - intros [= <-]. done.
  - apply H.
Qed.

Lemma registry_ok_remove reg name : registry_ok reg -> registry_ok (remove reg name).2.
Proof. intros H name' t'. cbn. rewrite lookup_delete_Some. intros [_ ?]. by apply H. Qed.
End Tools.
Arguments tool W : clear implicits.
Arguments Tool {W}.
