(* ===== verification/Guard.v ===== *)
(** Tool guards and namespace injection ([konf-runtime/src/guard.rs],
    [konf-runtime/src/context.rs]): the predicate language of guard rules, the
    glob matcher, rule evaluation, and the two wrappers a tool is dispatched
    through, [GuardedTool(VirtualizedTool(inner))]. *)

From S2P Require Import Prelude Json Error Envelope Tool.
From Stdlib Require Import Ascii.

Local Open Scope string_scope.
Local Open Scope list_scope.

(** * The glob matcher *)

Definition c_star : N := 42.
Definition c_question : N := 63.

(** The [while] loop of [glob_matches].  [Some (Some pi)]: the text is used up
    with the pattern at [pi]; [Some None]: [return false]; [None]: out of
    fuel. *)
Fixpoint glob_loop (fuel : nat) (p t : list N) (pi ti : nat)
    (star_p star_t : option nat) : option (option nat) :=
  match fuel with
  | O => None
  | S fuel =>
      match t !! ti with
      | None => Some (Some pi)
      | Some c =>
          if bool_decide (p !! pi = Some c_question \/ p !! pi = Some c) then
            glob_loop fuel p t (S pi) (S ti) star_p star_t
          else if bool_decide (p !! pi = Some c_star) then
            glob_loop fuel p t (S pi) ti (Some (S pi)) (Some ti)
          else
            match star_p, star_t with
            | Some sp, Some st => glob_loop fuel p t sp (S st) star_p (Some (S st))
            | _, _ => Some None
            end
      end
  end.

(** Steps the loop can take: each start of the text part after a [*] costs at
    most one pass over the pattern. *)
Definition glob_fuel (p t : list N) : nat := length t * S (length p) + length p + 1.

(** [glob_matches]. *)
Definition glob_matches (pattern text : string) : bool :=
  let p := chars pattern in
  let t := chars text in
  match glob_loop (glob_fuel p t) p t 0 0 None None with
  | Some (Some pi) => forallb (N.eqb c_star) (drop pi p)
  | _ => false
  end.

(** * Predicates *)

#[local] Unset Elimination Schemes.

(** [Predicate]. *)
Inductive predicate : Type :=
  | PContains (path value : string)
  | PMatches (path pattern : string)
  | PEquals (path : string) (value : json)
  | PExists (path : string)
  | PNot (p : predicate)
  | PAll (predicates : list predicate)
  | PAny (predicates : list predicate).

#[local] Set Elimination Schemes.

(** [resolve_path]: objects by key, arrays by index. *)
Fixpoint resolve_segments (value : json) (segments : list string) : option json :=
  match segments with
  | [] => Some value
  | segment :: rest =>
      match value with
      | JObject m => v ← obj_get segment m; resolve_segments v rest
      | JArray l => i ← parse_u64 segment; v ← l !! Z.to_nat i; resolve_segments v rest
      | _ => None
      end
  end.

Definition resolve_path (value : json) (path : string) : option json :=
  resolve_segments value (split_on "."%char path).

(** [Predicate::matches]. *)
Fixpoint pred_matches (p : predicate) (input : json) : bool :=
  match p with
  | PContains path value =>
      match resolve_path input path ≫= as_str with
      | Some s => str_contains s value
      | None => false
      end
  | PMatches path pat =>
      match resolve_path input path ≫= as_str with
      | Some s => glob_matches pat s
      | None => false
      end
  | PEquals path value =>
      match resolve_path input path with Some v => json_eqb v value | None => false end
  | PExists path =>
      match resolve_path input path with Some v => negb (is_null v) | None => false end
  | PNot q => negb (pred_matches q input)
  | PAll ps => forallb (fun q => pred_matches q input) ps
  | PAny ps => existsb (fun q => pred_matches q input) ps
  end.

(** * Rules *)

(** [Rule]. *)
Inductive rule : Type :=
  | Deny (p : predicate) (message : string)
  | Allow (p : predicate).

(** [DefaultAction]; the default of the type is [DefaultDeny]. *)
Inductive default_action : Type := DefaultAllow | DefaultDeny.

(** [GuardedTool::evaluate]. *)
Definition evaluate (tool_name : string) (rules : list rule) (act : default_action)
    (input : json) : result tool_error unit :=
  (fix go (rules : list rule) :=
     match rules with
     | [] =>
         match act with
         | DefaultAllow => Ok tt
         | DefaultDeny =>
             Err (ToolCapabilityDenied
                    (String.append "guard denied: no rule matched for tool '"
                      (String.append tool_name "' (default: deny)")))
         end
     | Deny p message :: rest =>
         if pred_matches p input then
           Err (ToolCapabilityDenied (String.append "guard denied: " message))
         else go rest
     | Allow p :: rest => if pred_matches p input then Ok tt else go rest
     end) rules.

(** * The wrappers *)

(** [VirtualizedTool::inject_bindings] on the payload.  The bindings are a
    [HashMap]; its iteration order is [order], a listing of its entries. *)
Definition inject_bindings (order : list (string * json)) (payload : json)
  : result tool_error json :=
  match order with
  | [] => Ok payload
  | _ =>
      match payload with
      | JObject m => Ok (JObject (fold_left (fun m kv => obj_insert kv.1 kv.2 m) order m))
      | _ =>
          Err (InvalidInput "payload must be a JSON object when bindings are present" None)
      end
  end.

Definition set_payload (env : envelope json) (v : json) : envelope json := {|
  env_id := env_id env; env_trace_id := env_trace_id env; env_parent_id := env_parent_id env;
  env_actor_id := env_actor_id env; env_namespace := env_namespace env;
  env_capabilities := env_capabilities env; env_target := env_target env;
  env_payload_type := env_payload_type env; env_payload := v;
  env_emitted_at := env_emitted_at env; env_step_index := env_step_index env;
  env_stream_id := env_stream_id env; env_deadline := env_deadline env;
  env_idempotency_key := env_idempotency_key env; env_qos_class := env_qos_class env;
  env_references := env_references env; env_metadata := env_metadata env |}.

Section Wrappers.
Context {W : Type}.

(** [GuardedTool] as a [Tool]: same metadata, rules first. *)
Definition guarded_tool (inner : tool W) (rules : list rule) (act : default_action) : tool W := {|
  info := info inner;
  invoke := fun w env =>
    match evaluate (ti_name (info inner)) rules act (env_payload env) with
    | Err e => (w, Err e)
    | Ok _ => invoke inner w env
    end;
|}.

(** [VirtualizedTool] as a [Tool]: same metadata, bindings written into the
    payload. *)
Definition virtualized_tool (inner : tool W) (order : list (string * json)) : tool W := {|
  info := info inner;
  invoke := fun w env =>
    match inject_bindings order (env_payload env) with
    | Err e => (w, Err e)
    | Ok payload => invoke inner w (set_payload env payload)
    end;
|}.
End Wrappers.

(** * What a glob means

    [*] stands for any run of characters, [?] for one, anything else for
    itself. *)

Inductive glob_spec : list N -> list N -> Prop :=
  | glob_nil : glob_spec [] []
  | glob_star_skip p t : glob_spec p t -> glob_spec (c_star :: p) t
  | glob_star_take p c t : glob_spec (c_star :: p) t -> glob_spec (c_star :: p) (c :: t)
  | glob_any p c t : glob_spec p t -> glob_spec (c_question :: p) (c :: t)
  | glob_char p c t : c <> c_star -> c <> c_question -> glob_spec p t -> glob_spec (c :: p) (c :: t).

#[local] Hint Constructors glob_spec : core.

Lemma glob_spec_star p t : glob_spec (c_star :: p) t <-> exists n, n <= length t /\ glob_spec p (drop n t).
Proof.
  split.
  - intros H. remember (c_star :: p) as q eqn:Hq.
    induction H as [|p' t H|p' c t H IH|p' c t H|p' c t Hs Hq' H]; simplify_eq.
    + exists 0. split; [lia|done].
    + destruct IH as (n & Hn & IH); [done|]. exists (S n). split; [cbn; lia|done].
  - intros (n & Hn & H). revert n Hn H. induction t as [|c t IH]; intros n Hn H.
    + rewrite drop_nil in H. by constructor.
    + destruct n as [|n]; [by constructor|]. apply glob_star_take, (IH n); [cbn in *; lia|done].
Qed.

Lemma glob_spec_star_intro n p t : glob_spec p (drop n t) -> glob_spec (c_star :: p) t.
Proof.
  intros H. apply glob_spec_star. destruct (decide (n <= length t)); [by exists n|].
  exists (length t). rewrite drop_ge in H by lia. by rewrite drop_ge by lia.
Qed.

Lemma glob_spec_nil p : glob_spec p [] <-> forallb (N.eqb c_star) p = true.
Proof.
  induction p as [|c p IH]; cbn [forallb]; [by split|].
  rewrite andb_true_iff, N.eqb_eq, <- IH. split.
  - inversion 1; subst; auto.
  - intros [<- H]. by constructor.
Qed.

(** One character of the text against one of the pattern. *)
Lemma glob_spec_step_intro x c p t :
  x = c_question \/ x = c -> glob_spec p t -> glob_spec (x :: p) (c :: t).
Proof.
  intros [->| ->] H; [by constructor|].
  destruct (decide (c = c_star)) as [->|]; [by apply glob_star_take, glob_star_skip|].
  destruct (decide (c = c_question)) as [->|]; by constructor.
Qed.

Lemma glob_spec_step_elim x c p t :
  x <> c_star -> glob_spec (x :: p) (c :: t) -> (x = c_question \/ x = c) /\ glob_spec p t.
Proof. intros Hx. inversion 1; subst; auto; done. Qed.

(** A star-free front of the pattern consumes exactly its own length. *)
Lemma glob_spec_star_free seg p t :
  c_star ∉ seg -> glob_spec (seg ++ p) t -> length seg <= length t /\ glob_spec p (drop (length seg) t).
Proof.
  revert t. induction seg as [|x seg IH]; intros t Hs H; [split; [cbn; lia|done]|].
  rewrite not_elem_of_cons in Hs. destruct Hs as [Hx Hs]. cbn in H.
  destruct t as [|c t]; [apply glob_spec_nil in H; cbn [forallb] in H;
    apply andb_prop in H as [H _]; apply N.eqb_eq in H; done|].
  apply glob_spec_step_elim in H as [_ H]; [|done].
  destruct (IH t Hs H) as [Hl Hd]. split; [cbn; lia|done].
Qed.

Lemma drop_lookup {A} (l : list A) i x : l !! i = Some x -> drop i l = x :: drop (S i) l.
Proof. intros H. by rewrite (drop_S l x i H). Qed.

Lemma drop_lookup_None {A} (l : list A) i : l !! i = None -> drop i l = [].
Proof. intros H. apply drop_ge, lookup_ge_None, H. Qed.

(** ** The loop terminates within its fuel *)

Definition glob_measure (p t : list N) (pi : nat) (star_t : option nat) : nat :=
  (length t - default 0 star_t) * S (length p) + (length p - pi).

(** Both backtrack points are set together, in range and behind the scan. *)
Definition glob_state_ok (p t : list N) (pi ti : nat) (star_p star_t : option nat) : Prop :=
  pi <= length p /\ default 0 star_t <= ti /\ ti <= length t /\
  match star_p, star_t with
  | None, None => True
  | Some sp, Some st => sp <= pi /\ ti = st + (pi - sp)
  | _, _ => False
  end.

(** The loop steps preserve the shape of the state; the four cases of the body. *)
Lemma glob_loop_total p t fuel : forall pi ti star_p star_t,
  glob_state_ok p t pi ti star_p star_t ->
  glob_measure p t pi star_t < fuel ->
  glob_loop fuel p t pi ti star_p star_t <> None.
Proof.
  unfold glob_measure. induction fuel as [|fuel IH]; intros pi ti star_p star_t Hok Hm;
    [by apply Nat.nlt_0_r in Hm|].
  destruct Hok as (Hpi & Hst & Hti & Hstar). cbn [glob_loop].
  destruct (t !! ti) as [c|] eqn:Ht; [|done].
  pose proof (lookup_lt_Some _ _ _ Ht) as Htl.
  case_bool_decide as Hchar.
  - assert (pi < length p) by (destruct Hchar as [H|H]; exact (lookup_lt_Some _ _ _ H)).
    apply IH; [|lia].
    split_and!; [lia|lia|lia|]. destruct star_p, star_t; try done. lia.
  - case_bool_decide as Hs.
    + pose proof (lookup_lt_Some _ _ _ Hs).
      pose proof (Nat.mul_le_mono_r (length t - ti) (length t - default 0 star_t) (S (length p))).
      apply IH; [split_and!; cbn; lia|cbn [default from_option]; unfold id in *; lia].
    + destruct star_p as [sp|], star_t as [st|]; [|done..].
      cbn [default from_option] in *; unfold id in *.
      replace (length t - st) with (S (length t - S st)) in Hm by lia.
      apply IH; [split_and!; cbn; lia|cbn [default from_option]; unfold id; lia].
Qed.

(** ** What it returns *)

Definition glob_accepts (p : list N) (r : option (option nat)) : bool :=
  match r with Some (Some pi) => forallb (N.eqb c_star) (drop pi p) | _ => false end.

Lemma glob_loop_sound p t fuel : forall pi ti star_p star_t,
  (glob_spec (drop pi p) (drop ti t) -> glob_spec p t) ->
  (forall sp st j, star_p = Some sp -> star_t = Some st -> st <= j ->
     glob_spec (drop sp p) (drop j t) -> glob_spec p t) ->
  glob_accepts p (glob_loop fuel p t pi ti star_p star_t) = true -> glob_spec p t.
Proof.
  induction fuel as [|fuel IH]; intros pi ti star_p star_t Hcur Hstar; [done|].
  cbn [glob_loop]. destruct (t !! ti) as [c|] eqn:Ht.
  - case_bool_decide as Hchar; [|case_bool_decide as Hs].
    + apply IH; [|done]. intros H. apply Hcur.
      destruct Hchar as [Hp|Hp]; rewrite (drop_lookup _ _ _ Hp), (drop_lookup _ _ _ Ht);
        apply glob_spec_step_intro; auto.
    + assert (Hj : forall j, ti <= j -> glob_spec (drop (S pi) p) (drop j t) -> glob_spec p t).
      { intros j Hj H. apply Hcur. rewrite (drop_lookup _ _ _ Hs).
        apply (glob_spec_star_intro (j - ti)). rewrite drop_drop.
        by replace (ti + (j - ti)) with j by lia. }
      apply IH; [apply Hj; lia|]. intros sp st j [= <-] [= <-]. apply Hj.
    + destruct star_p as [sp|], star_t as [st|]; [|done..].
      apply IH; [apply (Hstar sp st (S st)); auto; lia|].
      intros sp' st' j [= <-] [= <-] Hj. apply (Hstar sp st j); auto; lia.
  - cbn [glob_accepts]. intros H. apply Hcur. rewrite (drop_lookup_None _ _ Ht). by apply glob_spec_nil.
Qed.

(** The pattern between the last [*] and the scan is free of [*], so when the
    text is as well the last backtrack point decides. *)
Definition glob_segment_ok (p : list N) (pi : nat) (star_p : option nat) : Prop :=
  match star_p with
  | Some sp => c_star ∉ take (pi - sp) (drop sp p)
  | None => True
  end.

Lemma glob_segment_ok_step p pi sp x :
  sp <= pi -> p !! pi = Some x -> x <> c_star ->
  glob_segment_ok p pi (Some sp) -> glob_segment_ok p (S pi) (Some sp).
Proof.
  cbn. intros Hle Hx Hne Hseg. replace (S pi - sp) with (S (pi - sp)) by lia.
  rewrite (take_S_r _ _ x) by (rewrite lookup_drop, <- Hx; f_equal; lia).
  rewrite elem_of_app, list_elem_of_singleton. naive_solver.
Qed.

(** A match from an earlier backtrack point carries over to the scan. *)
Lemma glob_segment_forward p t pi ti sp st j :
  glob_state_ok p t pi ti (Some sp) (Some st) ->
  glob_segment_ok p pi (Some sp) ->
  st < j -> glob_spec (drop sp p) (drop j t) -> j <= length t ->
  ti < j + (pi - sp) /\ j + (pi - sp) <= length t /\ glob_spec (drop pi p) (drop (j + (pi - sp)) t).
Proof.
  intros (Hpi & _ & _ & Hsp & Hti) Hseg Hj H Hjl.
  rewrite <- (take_drop (pi - sp) (drop sp p)), drop_drop in H.
  replace (sp + (pi - sp)) with pi in H by lia.
  apply glob_spec_star_free in H as [Hl H]; [|exact Hseg].
  rewrite length_take, !length_drop, Nat.min_l in Hl by lia.
  rewrite length_take, length_drop, Nat.min_l, drop_drop in H by lia.
  split_and!; [lia|lia|done].
Qed.

Lemma glob_loop_complete p t fuel : forall pi ti star_p star_t,
  c_star ∉ t ->
  glob_state_ok p t pi ti star_p star_t ->
  glob_segment_ok p pi star_p ->
  (glob_spec (drop pi p) (drop ti t) \/
   exists sp st j, star_p = Some sp /\ star_t = Some st /\ st < j /\ j <= length t /\
     glob_spec (drop sp p) (drop j t)) ->
  glob_loop fuel p t pi ti star_p star_t <> None ->
  glob_accepts p (glob_loop fuel p t pi ti star_p star_t) = true.
Proof.
  induction fuel as [|fuel IH]; intros pi ti star_p star_t Hfree Hok Hseg Halt Hn; [done|].
  revert Hn. cbn [glob_loop]. pose proof Hok as (Hpi & Hst & Htl & Hstar).
  destruct (t !! ti) as [c|] eqn:Ht.
  - pose proof (lookup_lt_Some _ _ _ Ht) as Hlt.
    assert (c <> c_star) as Hc by (intros ->; by eapply Hfree, list_elem_of_lookup_2).
    case_bool_decide as Hchar; [|case_bool_decide as Hs].
    + assert (exists x, p !! pi = Some x /\ x <> c_star) as (x & Hx & Hxs)
        by (destruct Hchar as [H|H]; rewrite H; eauto; by eexists).
      pose proof (lookup_lt_Some _ _ _ Hx) as Hpl. apply IH; [done| | |].
      * split_and!; [lia|lia|lia|]. destruct star_p, star_t; try done. lia.
      * destruct star_p as [sp|], star_t as [st|]; try done.
        apply (glob_segment_ok_step _ _ _ x); auto; lia.
      * destruct Halt as [H|H]; [left|right; exact H].
        rewrite (drop_lookup _ _ _ Hx), (drop_lookup _ _ _ Ht) in H.
        by apply glob_spec_step_elim in H as [_ ?].
    + pose proof (lookup_lt_Some _ _ _ Hs) as Hpl. apply IH; [done| | |].
      * split_and!; cbn; lia.
      * cbn. rewrite Nat.sub_diag, take_0. set_solver.
      * assert (exists k, ti <= k /\ k <= length t /\ glob_spec (drop pi p) (drop k t)) as (k & Hk & Hkl & H).
        { destruct Halt as [H|(sp & st & j & -> & -> & Hj & Hjl & H)]; [by exists ti|].
          apply (glob_segment_forward _ _ pi ti sp st j) in H as (? & ? & ?); auto.
          exists (j + (pi - sp)). split_and!; auto; lia. }
        rewrite (drop_lookup _ _ _ Hs) in H. apply glob_spec_star in H as (n & Hnl & H).
        rewrite drop_drop in H. rewrite length_drop in Hnl.
        destruct (decide (k + n = ti)) as [<-|]; [by left|].
        right. exists (S pi), ti, (k + n). split_and!; auto; lia.
    + assert (~ glob_spec (drop pi p) (drop ti t)) as Hno.
      { rewrite (drop_lookup _ _ _ Ht). destruct (p !! pi) as [x|] eqn:Hx.
        - rewrite (drop_lookup _ _ _ Hx). intros Hm.
          assert (x <> c_star) as Hxs by congruence.
          apply glob_spec_step_elim in Hm as [[->| ->] _]; naive_solver.
        - rewrite (drop_lookup_None _ _ Hx). by inversion 1. }
      destruct Halt as [H|(sp & st & j & -> & -> & Hj & Hjl & H)]; [done|].
      destruct Hstar as [Hsp Hti]. cbn in Hst. apply IH; [done| | |].
      * split_and!; cbn; lia.
      * cbn. rewrite Nat.sub_diag, take_0. set_solver.
      * destruct (decide (j = S st)) as [->|]; [by left|].
        right. exists sp, (S st), j. split_and!; auto; lia.
  - intros _. cbn [glob_accepts]. apply glob_spec_nil.
    rewrite <- (drop_lookup_None _ _ Ht).
    destruct Halt as [H|(sp & st & j & -> & -> & Hj & Hjl & H)]; [done|].
    apply (glob_segment_forward _ _ pi ti sp st j) in H as (? & ? & ?); auto.
    apply lookup_ge_None in Ht. lia.
Qed.

Lemma glob_init_ok p t : glob_state_ok p t 0 0 None None.
Proof. split_and!; cbn; lia. Qed.

Lemma glob_fuel_enough p t : glob_loop (glob_fuel p t) p t 0 0 None None <> None.
Proof.
  apply glob_loop_total; [apply glob_init_ok|].
  unfold glob_measure, glob_fuel. cbn [default from_option]. unfold id. lia.
Qed.

Lemma glob_matches_accepts pattern text :
  glob_matches pattern text
  = glob_accepts (chars pattern)
      (glob_loop (glob_fuel (chars pattern) (chars text)) (chars pattern) (chars text) 0 0 None None).
Proof. unfold glob_matches. by case_match. Qed.

(** C4: the glob matcher terminates on every input (its fuel is never used
    up), answers [true] only for texts the pattern denotes, and on texts
    without a [*] of their own answers [true] for all of them. *)
Theorem glob_matches_correct pattern text :
  let p := chars pattern in
  let t := chars text in
  glob_loop (glob_fuel p t) p t 0 0 None None <> None /\
  (glob_matches pattern text = true -> glob_spec p t) /\
  (c_star ∉ t -> glob_spec p t -> glob_matches pattern text = true).
Proof.
  intros p t. rewrite glob_matches_accepts. split_and!.
  - apply glob_fuel_enough.
  - by apply glob_loop_sound.
  - intros Hfree H. apply glob_loop_complete; [done|apply glob_init_ok|done|by left|apply glob_fuel_enough].
Qed.

Lemma glob_matches_correct_witness :
  glob_matches "*sudo*" "run sudo rm" = true /\ glob_spec (chars "*sudo*") (chars "run sudo rm") /\
  glob_matches "rm -?f *" "rm -rf /" = true.
Proof.
  split; [reflexivity|split].
  - apply (glob_matches_correct "*sudo*" "run sudo rm"). reflexivity.
  - apply (glob_matches_correct "rm -?f *" "rm -rf /"); [by apply (bool_decide_unpack _); vm_compute|].
    apply (glob_matches_correct "rm -?f *" "rm -rf /"). reflexivity.
Defined.

(** * What the rules decide *)

Definition rule_predicate (r : rule) : predicate :=
  match r with Deny p _ | Allow p => p end.

Definition rule_fires (input : json) (r : rule) : bool := pred_matches (rule_predicate r) input.

Lemma evaluate_cons name r rules act input :
  evaluate name (r :: rules) act input
  = if rule_fires input r then
      match r with
      | Deny _ message => Err (ToolCapabilityDenied (String.append "guard denied: " message))
      | Allow _ => Ok tt
      end
    else evaluate name rules act input.
Proof. by destruct r. Qed.

Lemma evaluate_skip name pre rules act input :
  Forall (fun r => rule_fires input r = false) pre ->
  evaluate name (pre ++ rules) act input = evaluate name rules act input.
Proof. induction 1 as [|r pre Hr _ IH]; [done|]. cbn [app]. by rewrite evaluate_cons, Hr. Qed.

Lemma first_firing input rules :
  Forall (fun r => rule_fires input r = false) rules \/
  exists pre r post, rules = pre ++ r :: post /\
    Forall (fun r => rule_fires input r = false) pre /\ rule_fires input r = true.
Proof.
  induction rules as [|r rules IH]; [by left|].
  destruct (rule_fires input r) eqn:Hr; [right; by exists [], r, rules|].
  destruct IH as [H|(pre & r' & post & -> & Hpre & H)]; [left; by constructor|].
  right. exists (r :: pre), r', post. split_and!; [done|by constructor|done].
Qed.

(** The guard decides by the first rule that fires, and by the default
    action when none does: it admits an input exactly when the first firing
    rule is an [Allow] (or none fires and the default is to allow), and a
    denial carries the message of the first firing [Deny]. *)
Theorem evaluate_first_match name rules act input :
  (evaluate name rules act input = Ok tt <->
     (exists pre p post, rules = pre ++ Allow p :: post /\ pred_matches p input = true /\
        Forall (fun r => rule_fires input r = false) pre) \/
     (act = DefaultAllow /\ Forall (fun r => rule_fires input r = false) rules)) /\
  (forall pre p message post,
     rules = pre ++ Deny p message :: post -> pred_matches p input = true ->
     Forall (fun r => rule_fires input r = false) pre ->
     evaluate name rules act input
     = Err (ToolCapabilityDenied (String.append "guard denied: " message))).
Proof.
  split.
  - split.
    + intros He. destruct (first_firing input rules) as [H|(pre & r & post & -> & Hpre & Hr)].
      * right. rewrite <- (app_nil_r rules), evaluate_skip in He by done.
        split; [by destruct act|done].
      * left. rewrite evaluate_skip, evaluate_cons, Hr in He by done.
        destruct r as [p message|p]; [done|]. by exists pre, p, post.
    + intros [(pre & p & post & -> & Hp & Hpre)|[-> H]].
      * rewrite evaluate_skip, evaluate_cons by done. unfold rule_fires. cbn. by rewrite Hp.
      * by rewrite <- (app_nil_r rules), evaluate_skip.
  - intros pre p message post -> Hp Hpre.
    rewrite evaluate_skip, evaluate_cons by done. unfold rule_fires. cbn. by rewrite Hp.
Qed.

Definition guard_example_rules : list rule :=
  [Deny (PMatches "command" "*sudo*") "no sudo"; Allow (PExists "command")].

Lemma evaluate_first_match_witness :
  evaluate "shell" guard_example_rules DefaultDeny (JObject [("command", JString "sudo ls")])
  = Err (ToolCapabilityDenied "guard denied: no sudo") /\
  evaluate "shell" guard_example_rules DefaultDeny (JObject [("command", JString "ls")]) = Ok tt.
Proof.
  split.
  - apply (proj2 (evaluate_first_match "shell" guard_example_rules DefaultDeny _)
             [] (PMatches "command" "*sudo*") "no sudo" [Allow (PExists "command")]);
      [reflexivity|vm_compute; reflexivity|constructor].
  - apply evaluate_first_match. left.
    exists [Deny (PMatches "command" "*sudo*") "no sudo"], (PExists "command"), [].
    split; [reflexivity|split; [reflexivity|]]. repeat constructor.
Defined.

(** A [matches] rule does not see every text its pattern denotes: a text
    that itself starts with [*] consumes the star of the pattern, so a deny
    rule on [*sudo*] lets the command [* ; sudo rm] pass although the pattern
    denotes it. *)
Theorem guard_glob_bypass :
  let input := JObject [("command", JString "* ; sudo rm")] in
  glob_spec (chars "*sudo*") (chars "* ; sudo rm") /\
  evaluate "shell" [Deny (PMatches "command" "*sudo*") "no sudo"] DefaultAllow input = Ok tt.
Proof.
  split; [|vm_compute; reflexivity].
  apply (glob_spec_star_intro 4). vm_compute.
  do 4 (apply glob_char; [done|done|]).
  apply (glob_spec_star_intro 3), glob_nil.
Qed.

(** * The dispatch stack *)

(** The listing of a [HashMap] its iteration yields. *)
Definition listing (order : list (string * json)) (bindings : gmap string json) : Prop :=
  order ≡ₚ map_to_list bindings.

Lemma fold_bindings_lookup order bindings m k :
  listing order bindings ->
  obj_get k (fold_left (fun m kv => obj_insert kv.1 kv.2 m) order m)
  = match bindings !! k with Some v => Some v | None => obj_get k m end.
Proof.
  intros Hperm. rewrite obj_get_fold_insert.
  assert (NoDup (rev order).*1) as Hnd.
  { rewrite <- (Permutation_rev order), Hperm. apply NoDup_fst_map_to_list. }
  assert (forall v, (k, v) ∈ rev order <-> bindings !! k = Some v) as Hin.
  { intros v. by rewrite <- (Permutation_rev order), Hperm, elem_of_map_to_list. }
  destruct (list_find _ (rev order)) as [[i [k' v]]|] eqn:E.
  - apply list_find_Some in E as (Hi & Hk & _). cbn in Hk. subst k'.
    apply list_elem_of_lookup_2, Hin in Hi. by rewrite Hi.
  - destruct (bindings !! k) as [v|]; [|done]. exfalso.
    destruct (Hin v) as [_ Hv]. specialize (Hv eq_refl). apply list_find_None in E. rewrite Forall_forall in E.
    by apply (E _ Hv).
Qed.

(** The bindings written into an object: each bound key has its value, every
    other key keeps the caller's. *)
Lemma inject_bindings_object order bindings m payload :
  listing order bindings -> inject_bindings order (JObject m) = Ok payload ->
  exists m', payload = JObject m' /\
    forall k, obj_get k m' = match bindings !! k with Some v => Some v | None => obj_get k m end.
Proof.
  intros Hl Hp. exists (fold_left (fun m kv => obj_insert kv.1 kv.2 m) order m). split.
  - destruct order; [by injection Hp|]. by injection Hp.
  - intros k. by apply fold_bindings_lookup.
Qed.

(** The message a guard denies an input with, if it does: the first rule
    whose predicate holds decides, and the default action when none does. *)
Definition guard_denial (name : string) (rules : list rule) (act : default_action) (input : json)
  : option string :=
  match List.find (rule_fires input) rules with
  | Some (Deny _ message) => Some message
  | Some (Allow _) => None
  | None =>
      match act with
      | DefaultAllow => None
      | DefaultDeny =>
          Some (String.concat EmptyString ["no rule matched for tool '"; name; "' (default: deny)"])
      end
  end.

(** What a call on a tool with bindings must come to: without bindings the
    call itself; with bindings the call with every bound key forced to the
    bound value and every other key as the caller wrote it, and an error when
    the payload is not an object. *)
Definition bound_call {W} (inner : tool W) (bindings : gmap string json) (w : W) (env : envelope json)
    (out : W * result tool_error (envelope json)) : Prop :=
  if decide (bindings = ∅) then out = invoke inner w env
  else match env_payload env with
       | JObject m => exists m', out = invoke inner w (set_payload env (JObject m')) /\
           forall k, obj_get k m' = match bindings !! k with Some v => Some v | None => obj_get k m end
       | _ => out = (w, Err (InvalidInput "payload must be a JSON object when bindings are present" None))
       end.

Lemma evaluate_denial name rules act input :
  evaluate name rules act input =
    match guard_denial name rules act input with
    | Some message => Err (ToolCapabilityDenied (String.append "guard denied: " message))
    | None => Ok tt
    end.
Proof.
  unfold guard_denial. induction rules as [|r rules IH]; [by destruct act|].
  rewrite evaluate_cons, IH. cbn [List.find]. destruct (rule_fires input r); by destruct r.
Qed.

Lemma virtualized_invoke {W} (inner : tool W) order bindings (w : W) env :
  listing order bindings ->
  bound_call inner bindings w env (invoke (virtualized_tool inner order) w env).
Proof.
  intros Hord. unfold bound_call. cbn [invoke virtualized_tool]. destruct (decide (bindings = ∅)) as [->|Hne].
  - unfold listing in Hord. rewrite map_to_list_empty in Hord.
    apply Permutation_nil_r in Hord as ->. by destruct env.
  - destruct order as [|kv order].
    { destruct Hne. apply map_to_list_empty_iff. unfold listing in Hord. by apply Permutation_nil_l in Hord. }
    destruct (env_payload env) as [| | | | |m]; try done.
    eexists. split; [reflexivity|]. intros k. by apply fold_bindings_lookup.
Qed.

(** C5: the stack the runtime dispatches a bound tool through, the guard
    around the bindings around the tool, on every call.  The first rule whose
    predicate holds of the caller's payload decides, and the default action
    when none does.  A denied call, and an admitted one whose payload is not an
    object while there are bindings, leaves the world untouched and never
    reaches the tool.  Any other call reaches it: without bindings as it is, and
    with bindings with every bound key forced to the bound value (whatever the
    caller wrote there) and every other key as the caller wrote it. *)
Theorem guarded_virtualized_invoke {W} (inner : tool W) order bindings rules act (w : W) env :
  listing order bindings ->
  let stack := guarded_tool (virtualized_tool inner order) rules act in
  match guard_denial (ti_name (info inner)) rules act (env_payload env) with
  | Some message =>
      invoke stack w env = (w, Err (ToolCapabilityDenied (String.append "guard denied: " message)))
  | None => bound_call inner bindings w env (invoke stack w env)
  end.
Proof.
  intros Hord. cbn [invoke guarded_tool info]. change (info (virtualized_tool inner order)) with (info inner).
  rewrite evaluate_denial. destruct (guard_denial _ _ _ _) as [m|]; [done|]. by apply virtualized_invoke.
Qed.

Definition echo_tool : tool (list json) := {|
  info := ToolInfo "echo" "" JNull None ["echo"] false annotations_default;
  invoke := fun w env => (w ++ [env_payload env], Ok env);
|}.

Definition echo_call : envelope json :=
  for_tool_dispatch 0%N 0%Z "echo" (JObject [("ns", JString "evil"); ("q", JNull)])
    ["echo"] 0%N "konf:a" "agent" "stream".

Lemma guarded_virtualized_invoke_witness :
  let stack := guarded_tool (virtualized_tool echo_tool [("ns", JString "konf:a")]) [] DefaultAllow in
  (exists m',
    invoke stack [] echo_call = invoke echo_tool [] (set_payload echo_call (JObject m')) /\
    obj_get "ns" m' = Some (JString "konf:a") /\ obj_get "q" m' = Some JNull) /\
  invoke stack [] (set_payload echo_call (JString "raw")) =
    ([], Err (InvalidInput "payload must be a JSON object when bindings are present" None)).
Proof.
  assert (listing [("ns", JString "konf:a")] {["ns" := JString "konf:a"]}) as Hl.
  { unfold listing. rewrite map_to_list_singleton. reflexivity. }
  split.
  - destruct (guarded_virtualized_invoke echo_tool [("ns", JString "konf:a")]
      {["ns" := JString "konf:a"]} [] DefaultAllow ([] : list json) echo_call Hl) as (m' & Hinv & Hget).
    exists m'. split; [exact Hinv|]. split; rewrite Hget; reflexivity.
  - exact (guarded_virtualized_invoke echo_tool [("ns", JString "konf:a")]
      {["ns" := JString "konf:a"]} [] DefaultAllow ([] : list json)
      (set_payload echo_call (JString "raw")) Hl).
Defined.
