(* ===== verification/Expr.v ===== *)
(** The condition language ([konflux-substrate/src/expr.rs]).

    [eval_expr] recurses on slices of its argument; [eval_body] is one
    unfolding of it with the recursive calls abstracted, and [eval_expr] ties
    the knot with the length of the string as fuel.  The theorems show that
    the fuel is never used up, that [eval_expr] satisfies the recursive
    equation of the source, and that the printed form of a condition
    evaluates to its meaning. *)

From S2P Require Import Prelude Json.
From Stdlib Require Import Ascii.

Local Open Scope string_scope.
Local Open Scope list_scope.

#[local] Unset Elimination Schemes.

(** [ExprValue]. *)
Inductive expr_value : Type :=
  | VBool (b : bool)
  | VInt (n : Z)
  | VFloat (f : f64)
  | VString (s : string)
  | VList (l : list expr_value)
  | VMap (m : gmap string expr_value)
  | VJson (j : json)
  | VNull.

#[local] Set Elimination Schemes.

(** The [got] text of a type error, by what it renders: a value in [Debug]
    form, a string that does not parse as a float, a number. *)
Inductive got_text : Type :=
  | GotDebug (v : expr_value)
  | GotFloatParse (s : string)
  | GotNumber (n : number).

(** [ExprError]. *)
Inductive expr_error : Type :=
  | ExprParseError (s : string)
  | ExprTypeError (expected : string) (got : got_text)
  | ExprUnknownReference (s : string)
  | ExprDivisionByZero.

(** [ExprEvaluator::json_to_expr_value].  [as_f64] never fails, so the last
    branch of the source (the number as a string) is dead. *)
Fixpoint json_to_expr_value (j : json) : expr_value :=
  match j with
  | JNull => VNull
  | JBool b => VBool b
  | JNumber n =>
      match number_as_i64 n with
      | Some i => VInt i
      | None => match number_as_f64 n with Some f => VFloat f | None => VNull end
      end
  | JString s => VString s
  | JArray l => VList (map json_to_expr_value l)
  | JObject m =>
      VMap ((fix go (acc : gmap string expr_value) (m : list (string * json)) :=
               match m with
               | [] => acc
               | (k, v) :: m' => go (<[k := json_to_expr_value v]> acc) m'
               end) ∅ m)
  end.

(** [ExprEvaluator::to_bool]. *)
Definition to_bool (v : expr_value) : bool :=
  match v with
  | VBool b => b
  | VInt n => negb (n =? 0)%Z
  | VFloat f => negb (f64_eq f (f64_of_Z 0))
  | VString s => negb (String.eqb s EmptyString)
  | VList l => match l with [] => false | _ => true end
  | VMap m => negb (bool_decide (m = ∅))
  | VJson j =>
      match as_bool j with
      | Some b => b
      | None =>
          match as_str j with
          | Some s => negb (String.eqb s EmptyString)
          | None => negb (is_null j)
          end
      end
  | VNull => false
  end.

Definition opt_Z_eqb (a b : option Z) : bool :=
  match a, b with
  | Some x, Some y => (x =? y)%Z
  | None, None => true
  | _, _ => false
  end.

Definition opt_f64_eqb (a b : option f64) : bool :=
  match a, b with
  | Some x, Some y => f64_eq x y
  | None, None => true
  | _, _ => false
  end.

(** [ExprEvaluator::equals]. *)
Definition equals (a b : expr_value) : bool :=
  match a, b with
  | VBool a, VBool b => Bool.eqb a b
  | VInt a, VInt b => (a =? b)%Z
  | VFloat a, VFloat b => f64_lt (f64_abs (f64_sub a b)) f64_epsilon
  | VString a, VString b => String.eqb a b
  | VJson (JString s), VString b => String.eqb s b
  | VString a, VJson (JString s) => String.eqb a s
  | VJson (JNumber n), VInt b => opt_Z_eqb (number_as_i64 n) (Some b)
  | VInt a, VJson (JNumber n) => opt_Z_eqb (Some a) (number_as_i64 n)
  | VJson (JNumber n), VFloat b => opt_f64_eqb (number_as_f64 n) (Some b)
  | VFloat a, VJson (JNumber n) => opt_f64_eqb (Some a) (number_as_f64 n)
  | VJson a, VJson b => json_eqb a b
  | VNull, VNull => true
  | _, _ => false
  end.

(** [ExprEvaluator::to_float]. *)
Definition to_float (v : expr_value) : result expr_error f64 :=
  match v with
  | VInt i => Ok (f64_of_Z i)
  | VFloat f => Ok f
  | VString s => ok_or (parse_f64 s) (ExprTypeError "numeric string" (GotFloatParse s))
  | VJson (JNumber n) => ok_or (number_as_f64 n) (ExprTypeError "number" (GotNumber n))
  | VJson (JString s) => ok_or (parse_f64 s) (ExprTypeError "numeric string" (GotFloatParse s))
  | _ => Err (ExprTypeError "number" (GotDebug v))
  end.

(** [ExprEvaluator::compare]. *)
Definition compare (a b : expr_value) : result expr_error Z :=
  va ← to_float a;
  vb ← to_float b;
  Ok (if f64_lt va vb then -1 else if f64_lt vb va then 1 else 0)%Z.

Definition double_quote : string := String (ascii_of_nat 34) EmptyString.
Definition single_quote : string := String (ascii_of_nat 39) EmptyString.

(** A string between two quotes [q], without them. *)
Definition unquote (q s : string) : option string :=
  strip_prefix q s ≫= strip_suffix q.

Section Eval.
Context (context : gmap string expr_value).

(** The walk down a dotted reference. *)
Fixpoint eval_path (expr : string) (current : expr_value) (parts : list string)
  : result expr_error expr_value :=
  match parts with
  | [] => Ok current
  | part :: rest =>
      match current with
      | VMap m =>
          match m !! part with
          | Some v => eval_path expr v rest
          | None =>
              Err (ExprUnknownReference
                     (String.append expr (String.append ": field '" (String.append part "' not found"))))
          end
      | VJson j =>
          match get part j with
          | Some v => eval_path expr (json_to_expr_value v) rest
          | None =>
              Err (ExprUnknownReference
                     (String.append expr
                        (String.append ": field '" (String.append part "' not found in JSON"))))
          end
      | _ => Err (ExprTypeError "map or object" (GotDebug current))
      end
  end.

(** [ExprEvaluator::eval_value]. *)
Definition eval_value (expr : string) : result expr_error expr_value :=
  let expr := trim expr in
  if String.eqb expr "true" then Ok (VBool true)
  else if String.eqb expr "false" then Ok (VBool false)
  else if (String.eqb expr "null" || String.eqb expr "None")%bool then Ok VNull
  else
    match unquote double_quote expr, unquote single_quote expr with
    | Some s, _ | None, Some s => Ok (VString s)
    | None, None =>
        match parse_i64 expr with
        | Some n => Ok (VInt n)
        | None =>
            match parse_f64 expr with
            | Some f => Ok (VFloat f)
            | None =>
                match split_on "."%char expr with
                | root :: rest =>
                    match context !! root with
                    | Some v => eval_path expr v rest
                    | None => Err (ExprUnknownReference expr)
                    end
                | [] => Err (ExprUnknownReference expr)
                end
            end
        end
    end.

(** The emptiness test of [is empty]. *)
Definition is_empty_value (v : expr_value) : bool :=
  match v with
  | VString s | VJson (JString s) => String.eqb s EmptyString
  | VList [] | VJson (JArray []) | VJson (JObject []) | VNull => true
  | VMap m => bool_decide (m = ∅)
  | _ => false
  end.

(** [ExprEvaluator::try_keyword_op]. *)
Definition try_keyword_op (expr : string) : result expr_error (option expr_value) :=
  match strip_suffix " exists" expr with
  | Some stripped =>
      match eval_value (trim stripped) with
      | Ok v => Ok (Some (VBool (match v with VNull => false | _ => true end)))
      | Err _ => Ok (Some (VBool false))
      end
  | None =>
      match strip_suffix " is empty" expr with
      | Some stripped =>
          v ← eval_value (trim stripped);
          Ok (Some (VBool (is_empty_value v)))
      | None => Ok None
      end
  end.

(** The comparison operators, in the order the source tries them. *)
Inductive cmp_op : Type := OpEq | OpNe | OpGe | OpLe | OpGt | OpLt.

Definition cmp_sep (o : cmp_op) : string :=
  match o with
  | OpEq => " == " | OpNe => " != " | OpGe => " >= " | OpLe => " <= "
  | OpGt => " > " | OpLt => " < "
  end.

Definition cmp_ops : list cmp_op := [OpEq; OpNe; OpGe; OpLe; OpGt; OpLt].

Definition apply_cmp (o : cmp_op) (a b : expr_value) : result expr_error expr_value :=
  match o with
  | OpEq => Ok (VBool (equals a b))
  | OpNe => Ok (VBool (negb (equals a b)))
  | OpGt => c ← compare a b; Ok (VBool (0 <? c)%Z)
  | OpLt => c ← compare a b; Ok (VBool (c <? 0)%Z)
  | OpGe => c ← compare a b; Ok (VBool (0 <=? c)%Z)
  | OpLe => c ← compare a b; Ok (VBool (c <=? 0)%Z)
  end.

(** The first operator that occurs, with the slices around its first
    occurrence. *)
Fixpoint find_cmp (ops : list cmp_op) (expr : string) : option (cmp_op * string * string) :=
  match ops with
  | [] => None
  | o :: ops' =>
      match split_once (cmp_sep o) expr with
      | Some (l, r) => Some (o, l, r)
      | None => find_cmp ops' expr
      end
  end.

(** The body of [ExprEvaluator::eval_expr], its recursive calls to [rec]. *)
Definition eval_body (rec : string -> option (result expr_error expr_value)) (expr : string)
  : option (result expr_error expr_value) :=
  let expr := trim expr in
  let both l r (k : expr_value -> expr_value -> result expr_error expr_value) :=
    match rec l with
    | Some (Ok va) =>
        match rec r with
        | Some (Ok vb) => Some (k va vb)
        | other => other
        end
    | other => other
    end in
  match rsplit_once " || " expr with
  | Some (l, r) => both l r (fun a b => Ok (VBool (to_bool a || to_bool b)))
  | None =>
  match rsplit_once " && " expr with
  | Some (l, r) => both l r (fun a b => Ok (VBool (to_bool a && to_bool b)))
  | None =>
  match find_cmp cmp_ops expr with
  | Some (o, l, r) => both (trim l) (trim r) (apply_cmp o)
  | None =>
  match strip_prefix "!" expr with
  | Some stripped =>
      match rec stripped with
      | Some (Ok v) => Some (Ok (VBool (negb (to_bool v))))
      | other => other
      end
  | None =>
      Some (r ← try_keyword_op expr;
            match r with Some v => Ok v | None => eval_value expr end)
  end end end end.

Fixpoint eval_fuel (fuel : nat) (expr : string) : option (result expr_error expr_value) :=
  match fuel with
  | O => None
  | S fuel => eval_body (eval_fuel fuel) expr
  end.

(** [ExprEvaluator::eval_expr]. *)
Definition eval_expr (expr : string) : option (result expr_error expr_value) :=
  eval_fuel (S (String.length expr)) expr.

(** [ExprEvaluator::evaluate]; the fuel of [eval_expr] is enough
    ([eval_expr_total]), so the default is never taken. *)
Definition evaluate (expr : string) : result expr_error expr_value :=
  let expr := trim expr in
  if String.eqb expr EmptyString then Ok (VBool true)
  else default (Err (ExprParseError expr)) (eval_expr expr).

(** [ExprEvaluator::evaluate_as_bool]. *)
Definition evaluate_as_bool (expr : string) : result expr_error bool :=
  res ← evaluate expr; Ok (to_bool res).
End Eval.

(** * Termination: the slices are shorter than the string *)

Lemma slices_shorter sep e l r :
  0 < String.length sep -> trim e = String.append l (String.append sep r) ->
  String.length l < String.length e /\ String.length r < String.length e.
Proof.
  intros Hsep He. pose proof (trim_length e) as Ht. rewrite He, !append_length in Ht. lia.
Qed.

Lemma find_cmp_Some ops e o l r :
  find_cmp ops e = Some (o, l, r) -> e = String.append l (String.append (cmp_sep o) r).
Proof.
  induction ops as [|o' ops IH]; cbn; [done|].
  destruct (split_once (cmp_sep o') e) as [[l' r']|] eqn:E; [|done].
  intros [= <- <- <-]. by apply split_once_Some.
Qed.

(** Two recursive calls that agree on shorter strings are interchangeable. *)
Lemma eval_body_ext context rec rec' e :
  (forall s, String.length s < String.length e -> rec s = rec' s) ->
  eval_body context rec e = eval_body context rec' e.
Proof.
  intros Hrec. unfold eval_body. cbv zeta.
  destruct (rsplit_once " || " (trim e)) as [[l r]|] eqn:Hor;
    [|destruct (rsplit_once " && " (trim e)) as [[l r]|] eqn:Hand;
      [|destruct (find_cmp cmp_ops (trim e)) as [[[o l] r]|] eqn:Hcmp;
        [|destruct (strip_prefix "!" (trim e)) as [r|] eqn:Hnot; [|done]]]].
  - apply rsplit_once_Some, slices_shorter in Hor as [Hl Hr]; [|cbn; lia]. by rewrite !Hrec.
  - apply rsplit_once_Some, slices_shorter in Hand as [Hl Hr]; [|cbn; lia]. by rewrite !Hrec.
  - apply find_cmp_Some, slices_shorter in Hcmp as [Hl Hr]; [|destruct o; cbn; lia].
    pose proof (trim_length l). pose proof (trim_length r). rewrite !Hrec by lia. done.
  - apply strip_prefix_Some in Hnot. pose proof (slices_shorter "!" e EmptyString r) as [_ Hr];
      [cbn; lia|exact Hnot|]. by rewrite !Hrec.
Qed.

Lemma eval_body_total context rec e :
  (forall s, String.length s < String.length e -> rec s <> None) ->
  eval_body context rec e <> None.
Proof.
  intros Hrec.
  rewrite (eval_body_ext _ _ (fun s => Some (default (Ok VNull) (rec s)))).
  - unfold eval_body. cbv zeta. repeat case_match; simplify_eq; done.
  - intros s Hs. specialize (Hrec s Hs). by destruct (rec s).
Qed.

Lemma eval_fuel_total context fuel e : String.length e < fuel -> eval_fuel context fuel e <> None.
Proof.
  revert e. induction fuel as [|fuel IH]; intros e He; [lia|].
  cbn [eval_fuel]. apply eval_body_total. intros s Hs. apply IH. lia.
Qed.

Lemma eval_fuel_enough context fuel fuel' e :
  String.length e < fuel -> String.length e < fuel' ->
  eval_fuel context fuel e = eval_fuel context fuel' e.
Proof.
  revert fuel' e. induction fuel as [|fuel IH]; intros [|fuel'] e He He'; [lia..|].
  cbn [eval_fuel]. apply eval_body_ext. intros s Hs. apply IH; lia.
Qed.

Lemma eval_expr_unfold context e : eval_expr context e = eval_body context (eval_expr context) e.
Proof.
  unfold eval_expr at 1. cbn [eval_fuel]. apply eval_body_ext.
  intros s Hs. apply eval_fuel_enough; lia.
Qed.

Lemma eval_expr_Some context e : exists r, eval_expr context e = Some r.
Proof.
  destruct (eval_expr context e) as [r|] eqn:He; [by exists r|].
  exfalso. revert He. apply eval_fuel_total. lia.
Qed.

(** The result of the (total) recursion. *)
Definition eval_result (context : gmap string expr_value) (e : string)
  : result expr_error expr_value :=
  default (Err (ExprParseError e)) (eval_expr context e).

Lemma eval_expr_result context e : eval_expr context e = Some (eval_result context e).
Proof. unfold eval_result. destruct (eval_expr_Some context e) as [r ->]. done. Qed.

Lemma eval_result_unfold context e :
  eval_body context (fun s => Some (eval_result context s)) e = Some (eval_result context e).
Proof.
  rewrite <- eval_expr_result, eval_expr_unfold. apply eval_body_ext.
  intros s _. by rewrite eval_expr_result.
Qed.

(** Evaluation terminates on every string (the recursion on slices
    never uses up its fuel), and the value computed satisfies the recursive
    equation of the source. *)
Theorem eval_expr_total context e :
  eval_expr context e = Some (eval_result context e) /\
  eval_body context (fun s => Some (eval_result context s)) e = Some (eval_result context e).
Proof. split; [apply eval_expr_result|apply eval_result_unfold]. Qed.

(** One lemma per production of the recursion. *)
Section Productions.
Context (context : gmap string expr_value) (e : string).

Lemma eval_result_or l r :
  rsplit_once " || " (trim e) = Some (l, r) ->
  eval_result context e
  = (a ← eval_result context l; b ← eval_result context r; Ok (VBool (to_bool a || to_bool b))).
Proof.
  intros H. apply (inj Some). rewrite <- eval_result_unfold. unfold eval_body. cbv zeta. rewrite H.
  destruct (eval_result context l); [|done]. by destruct (eval_result context r).
Qed.

Hypothesis Hor : rsplit_once " || " (trim e) = None.

Lemma eval_result_and l r :
  rsplit_once " && " (trim e) = Some (l, r) ->
  eval_result context e
  = (a ← eval_result context l; b ← eval_result context r; Ok (VBool (to_bool a && to_bool b))).
Proof.
  intros H. apply (inj Some). rewrite <- eval_result_unfold. unfold eval_body. cbv zeta.
  rewrite Hor, H.
  destruct (eval_result context l); [|done]. by destruct (eval_result context r).
Qed.

Hypothesis Hand : rsplit_once " && " (trim e) = None.

Lemma eval_result_cmp o l r :
  find_cmp cmp_ops (trim e) = Some (o, l, r) ->
  eval_result context e
  = (a ← eval_result context (trim l); b ← eval_result context (trim r); apply_cmp o a b).
Proof.
  intros H. apply (inj Some). rewrite <- eval_result_unfold. unfold eval_body. cbv zeta.
  rewrite Hor, Hand, H.
  destruct (eval_result context (trim l)); [|done]. by destruct (eval_result context (trim r)).
Qed.

Hypothesis Hcmp : find_cmp cmp_ops (trim e) = None.

Lemma eval_result_not s :
  strip_prefix "!" (trim e) = Some s ->
  eval_result context e = (v ← eval_result context s; Ok (VBool (negb (to_bool v)))).
Proof.
  intros H. apply (inj Some). rewrite <- eval_result_unfold. unfold eval_body. cbv zeta.
  rewrite Hor, Hand, Hcmp, H. by destruct (eval_result context s).
Qed.

Lemma eval_result_base :
  strip_prefix "!" (trim e) = None ->
  eval_result context e
  = (r ← try_keyword_op context (trim e);
     match r with Some v => Ok v | None => eval_value context (trim e) end).
Proof.
  intros H. apply (inj Some). rewrite <- eval_result_unfold. unfold eval_body. cbv zeta.
  by rewrite Hor, Hand, Hcmp, H.
Qed.
End Productions.

(** * Conditions and their meaning

    The conditions the language is for: disjunctions of conjunctions of
    tests on words (references and literals). *)

Definition op_chars : list ascii := ["|"; "&"; "="; "<"; ">"; "!"]%char.

Definition is_word_char (a : ascii) : bool :=
  is_printable a && negb (existsb (Ascii.eqb a) op_chars).

Definition is_word (w : string) : bool :=
  negb (String.eqb w EmptyString) && str_forall is_word_char w.

Inductive test : Type :=
  | TWord (w : string)
  | TNot (w : string)
  | TExists (w : string)
  | TIsEmpty (w : string)
  | TCmp (o : cmp_op) (w1 w2 : string).

Inductive conj : Type := CTest (t : test) | CAnd (c : conj) (t : test).
Inductive cond : Type := DConj (c : conj) | DOr (d : cond) (c : conj).

Definition test_ok (t : test) : bool :=
  match t with
  | TWord w | TNot w | TExists w | TIsEmpty w => is_word w
  | TCmp _ w1 w2 => is_word w1 && is_word w2
  end.

Fixpoint conj_ok (c : conj) : bool :=
  match c with CTest t => test_ok t | CAnd c t => conj_ok c && test_ok t end.

Fixpoint cond_ok (d : cond) : bool :=
  match d with DConj c => conj_ok c | DOr d c => cond_ok d && conj_ok c end.

Definition print_test (t : test) : string :=
  match t with
  | TWord w => w
  | TNot w => String "!" w
  | TExists w => String.append w " exists"
  | TIsEmpty w => String.append w " is empty"
  | TCmp o w1 w2 => String.append w1 (String.append (cmp_sep o) w2)
  end.

Fixpoint print_conj (c : conj) : string :=
  match c with
  | CTest t => print_test t
  | CAnd c t => String.append (print_conj c) (String.append " && " (print_test t))
  end.

Fixpoint print_cond (d : cond) : string :=
  match d with
  | DConj c => print_conj c
  | DOr d c => String.append (print_cond d) (String.append " || " (print_conj c))
  end.

Section Meaning.
Context (context : gmap string expr_value).

Definition test_meaning (t : test) : result expr_error expr_value :=
  match t with
  | TWord w => eval_value context w
  | TNot w => v ← eval_value context w; Ok (VBool (negb (to_bool v)))
  | TExists w =>
      Ok (VBool (match eval_value context w with Ok VNull | Err _ => false | Ok _ => true end))
  | TIsEmpty w => v ← eval_value context w; Ok (VBool (is_empty_value v))
  | TCmp o w1 w2 => a ← eval_value context w1; b ← eval_value context w2; apply_cmp o a b
  end.

Fixpoint conj_meaning (c : conj) : result expr_error expr_value :=
  match c with
  | CTest t => test_meaning t
  | CAnd c t => a ← conj_meaning c; b ← test_meaning t; Ok (VBool (to_bool a && to_bool b))
  end.

Fixpoint cond_meaning (d : cond) : result expr_error expr_value :=
  match d with
  | DConj c => conj_meaning c
  | DOr d c => a ← cond_meaning d; b ← conj_meaning c; Ok (VBool (to_bool a || to_bool b))
  end.
End Meaning.

(** ** Occurrences *)

Lemma rsplit_once_cons sep c s :
  rsplit_once sep (String c s)
  = match rsplit_once sep s with
    | Some (a, b) => Some (String c a, b)
    | None => pair EmptyString <$> strip_prefix sep (String c s)
    end.
Proof. done. Qed.

(** The last occurrence of [" xx "] is the one not followed by an [x]. *)
Lemma rsplit_once_last x l r :
  x <> " "%char -> str_count x r = 0 ->
  let sep := String " " (String x (String x " ")) in
  rsplit_once sep (String.append l (String.append sep r)) = Some (l, r).
Proof.
  intros Hx Hr sep. induction l as [|c l IH].
  - change (rsplit_once sep (String " " (String x (String x (String " " r)))) = Some (EmptyString, r)).
    rewrite rsplit_once_cons.
    destruct (rsplit_once sep (String x (String x (String " " r)))) as [[a b]|] eqn:E.
    + exfalso. apply rsplit_once_Some in E. destruct a as [|c a]; [cbn in E; congruence|].
      cbn [String.append] in E. injection E as <- E.
      apply (f_equal (str_count x)) in E. unfold sep in E. rewrite !str_count_append in E.
      cbn [str_count] in E. rewrite Ascii.eqb_refl in E. lia.
    + pose proof (strip_prefix_append sep r) as Hs.
      change (String.append sep r) with (String " " (String x (String x (String " " r)))) in Hs.
      by rewrite Hs.
  - cbn [String.append]. by rewrite rsplit_once_cons, IH.
Qed.

Lemma word_char_printable a : is_word_char a = true -> is_printable a = true.
Proof. unfold is_word_char. by intros [? _]%andb_prop. Qed.

Lemma word_tight w : is_word w = true -> tight w.
Proof.
  unfold is_word. intros [Hne Hw]%andb_prop. apply printable_tight; [by intros ->|].
  by eapply str_forall_impl, Hw; apply word_char_printable.
Qed.

Lemma word_count x w : is_word w = true -> is_word_char x = false -> str_count x w = 0.
Proof. unfold is_word. intros [_ Hw]%andb_prop. by apply str_forall_count. Qed.

(** ** Evaluation of printed tests *)

Lemma word_no_blank w : is_word w = true -> str_count " " w = 0.
Proof. intros H. by apply word_count. Qed.

Lemma find_cmp_None s :
  str_count "=" s = 0 -> str_count "<" s = 0 -> str_count ">" s = 0 -> find_cmp cmp_ops s = None.
Proof.
  intros H1 H2 H3. unfold cmp_ops. cbn [find_cmp].
  rewrite !(split_once_None "=") by (rewrite H1; cbn; lia).
  rewrite (split_once_None ">") by (rewrite H3; cbn; lia).
  by rewrite (split_once_None "<") by (rewrite H2; cbn; lia).
Qed.

(** Skips an operator whose character [x] does not occur often enough. *)
Ltac none x Hc := rewrite (split_once_None x) by (rewrite Hc by done; cbn; lia).

Lemma find_cmp_test o w1 w2 :
  is_word w1 = true -> is_word w2 = true ->
  find_cmp cmp_ops (String.append w1 (String.append (cmp_sep o) w2)) = Some (o, w1, w2).
Proof.
  intros H1 H2.
  assert (forall x, is_word_char x = false ->
    str_count x (String.append w1 (String.append (cmp_sep o) w2)) = str_count x (cmp_sep o)) as Hc.
  { intros x Hx. rewrite !str_count_append, (word_count x w1), (word_count x w2) by done. lia. }
  assert (forall sep, cmp_sep o = String " " sep ->
    split_once (cmp_sep o) (String.append w1 (String.append (cmp_sep o) w2)) = Some (w1, w2)) as Hs.
  { intros sep ->. by apply split_once_first, word_no_blank. }
  unfold cmp_ops. cbn [find_cmp].
  destruct o.
  - by rewrite (Hs _ eq_refl).
  - none "="%char Hc. by rewrite (Hs _ eq_refl).
  - none "="%char Hc. none "!"%char Hc. by rewrite (Hs _ eq_refl).
  - none "="%char Hc. none "!"%char Hc. none ">"%char Hc. by rewrite (Hs _ eq_refl).
  - none "="%char Hc. none "!"%char Hc. none "="%char Hc. none "="%char Hc. by rewrite (Hs _ eq_refl).
  - none "="%char Hc. none "!"%char Hc. none "="%char Hc. none "="%char Hc. none ">"%char Hc.
    by rewrite (Hs _ eq_refl).
Qed.

Lemma print_test_tight t : test_ok t = true -> tight (print_test t).
Proof.
  destruct t as [w|w|w|w|o w1 w2]; cbn [test_ok print_test]; intros Hok.
  - by apply word_tight.
  - destruct (word_tight w Hok) as [_ (p & b & -> & Hb)]. split.
    + by exists "!"%char, (String.append p (String b EmptyString)).
    + by exists (String "!" p), b.
  - apply (tight_suffix w " exist" "s"); [by apply word_tight|done].
  - apply (tight_suffix w " is empt" "y"); [by apply word_tight|done].
  - apply andb_prop in Hok as [H1 H2]. apply tight_append; by apply word_tight.
Qed.

Lemma print_test_count t x :
  test_ok t = true -> x = "|"%char \/ x = "&"%char -> str_count x (print_test t) = 0.
Proof.
  intros Hok Hx. assert (is_word_char x = false) as Hxw by (by destruct Hx as [->| ->]).
  destruct t as [w|w|w|w|o w1 w2]; cbn [test_ok print_test] in *.
  - by apply word_count.
  - cbn [str_count]. rewrite word_count by done. by destruct Hx as [->| ->].
  - rewrite str_count_append, word_count by done. by destruct Hx as [->| ->].
  - rewrite str_count_append, word_count by done. by destruct Hx as [->| ->].
  - apply andb_prop in Hok as [H1 H2].
    rewrite !str_count_append, (word_count x w1), (word_count x w2) by done.
    by destruct Hx as [->| ->], o.
Qed.

Section PrintedTests.
Context (context : gmap string expr_value).

Lemma test_no_or t : test_ok t = true -> rsplit_once " || " (trim (print_test t)) = None.
Proof.
  intros Hok. rewrite trim_tight by by apply print_test_tight.
  apply (rsplit_once_None "|"). rewrite print_test_count by auto. cbn. lia.
Qed.

Lemma test_no_and t : test_ok t = true -> rsplit_once " && " (trim (print_test t)) = None.
Proof.
  intros Hok. rewrite trim_tight by by apply print_test_tight.
  apply (rsplit_once_None "&"). rewrite print_test_count by auto. cbn. lia.
Qed.

Lemma word_keywords w :
  is_word w = true -> try_keyword_op context w = Ok None.
Proof.
  intros Hw. unfold try_keyword_op.
  by rewrite !(strip_suffix_None " ") by (rewrite word_no_blank by done; cbn; lia).
Qed.

Lemma word_not_bang w r : is_word w = true -> strip_prefix "!" (String.append w r) = None.
Proof.
  unfold is_word. destruct w as [|a w]; [done|]. cbn. intros [Ha _]%andb_prop.
  destruct a as [[] [] [] [] [] [] [] []]; done.
Qed.

Lemma eval_test_word w : is_word w = true -> eval_result context w = eval_value context w.
Proof.
  intros Hw. rewrite eval_result_base.
  - rewrite trim_tight by by apply word_tight. by rewrite word_keywords.
  - by apply (test_no_or (TWord w)).
  - by apply (test_no_and (TWord w)).
  - rewrite trim_tight by by apply word_tight. apply find_cmp_None; by apply word_count.
  - rewrite trim_tight by by apply word_tight. rewrite <- (app_EmptyString_r w). by apply word_not_bang.
Qed.

(** A word with a blank-separated keyword behind it. *)
Lemma eval_keyword w k :
  is_word w = true -> tight (String.append w k) ->
  (forall x, In x op_chars -> str_count x k = 0) ->
  eval_result context (String.append w k)
  = (o ← try_keyword_op context (String.append w k);
     match o with Some v => Ok v | None => eval_value context (String.append w k) end).
Proof.
  intros Hw Ht Hk.
  assert (forall x, In x op_chars -> str_count x (String.append w k) = 0) as Hc.
  { intros x Hx. rewrite str_count_append, (Hk x Hx), word_count; [done|done|].
    repeat destruct Hx as [<-|Hx]; done. }
  rewrite eval_result_base; rewrite (trim_tight _ Ht).
  - done.
  - apply (rsplit_once_None "|"). rewrite Hc by (cbn; tauto). cbn. lia.
  - apply (rsplit_once_None "&"). rewrite Hc by (cbn; tauto). cbn. lia.
  - apply find_cmp_None; apply Hc; cbn; tauto.
  - by apply word_not_bang.
Qed.

Lemma append_last_inv a b x y :
  String.append a (String x EmptyString) = String.append b (String y EmptyString) -> x = y.
Proof.
  revert b. induction a as [|c a IH]; intros [|d b]; cbn; intros H.
  - by injection H.
  - injection H as _ H. by destruct b.
  - injection H as _ H. by destruct a.
  - injection H as _ H. by eapply IH.
Qed.

Lemma eval_test t : test_ok t = true -> eval_result context (print_test t) = test_meaning context t.
Proof.
  intros Hok. pose proof (test_no_or t Hok) as Hor. pose proof (test_no_and t Hok) as Hand.
  pose proof (print_test_tight t Hok) as Ht.
  destruct t as [w|w|w|w|o w1 w2]; cbn [test_ok print_test test_meaning] in *.
  - by apply eval_test_word.
  - rewrite (eval_result_not _ _ Hor Hand) with (s := w).
    + by rewrite eval_test_word.
    + rewrite trim_tight by done. apply find_cmp_None; cbn [str_count]; by rewrite word_count.
    + by rewrite trim_tight.
  - rewrite eval_keyword; [|done..|by intros x Hx; repeat destruct Hx as [<-|Hx]]. unfold try_keyword_op.
    rewrite strip_suffix_append, trim_tight by by apply word_tight.
    destruct (eval_value context w) as [[]|]; done.
  - rewrite eval_keyword; [|done..|by intros x Hx; repeat destruct Hx as [<-|Hx]]. unfold try_keyword_op.
    destruct (strip_suffix " exists" (String.append w " is empty")) as [r|] eqn:E.
    { exfalso. apply strip_suffix_Some in E.
      change " is empty" with (String.append " is empt" "y") in E.
      change " exists" with (String.append " exist" "s") in E.
      rewrite !append_assoc in E. by apply append_last_inv in E. }
    rewrite strip_suffix_append, trim_tight by by apply word_tight.
    by destruct (eval_value context w).
  - apply andb_prop in Hok as [H1 H2].
    rewrite (eval_result_cmp _ _ Hor Hand) with (o := o) (l := w1) (r := w2)
      by (rewrite trim_tight by done; by apply find_cmp_test).
    rewrite !trim_tight by by apply word_tight. by rewrite !eval_test_word.
Qed.

Lemma print_conj_tight c : conj_ok c = true -> tight (print_conj c).
Proof.
  induction c as [t|c IH t]; cbn [conj_ok print_conj]; [apply print_test_tight|].
  intros [Hc Ht]%andb_prop. apply tight_append; [by apply IH|by apply print_test_tight].
Qed.

Lemma print_conj_count c : conj_ok c = true -> str_count "|" (print_conj c) = 0.
Proof.
  induction c as [t|c IH t]; cbn [conj_ok print_conj]; [intros; apply print_test_count; auto|].
  intros [Hc Ht]%andb_prop. rewrite !str_count_append, IH, print_test_count by auto. done.
Qed.

Lemma eval_conj c : conj_ok c = true -> eval_result context (print_conj c) = conj_meaning context c.
Proof.
  induction c as [t|c IH t]; intros Hok; [by apply eval_test|].
  pose proof (print_conj_tight _ Hok) as Htight. pose proof (print_conj_count _ Hok) as Hcount.
  cbn [conj_ok print_conj conj_meaning] in *. apply andb_prop in Hok as [Hc Ht].
  erewrite eval_result_and; cycle 1.
  - rewrite trim_tight by done. apply (rsplit_once_None "|"). rewrite Hcount. cbn. lia.
  - rewrite trim_tight by done. apply (rsplit_once_last "&"); [done|]. apply print_test_count; auto.
  - by rewrite IH, eval_test.
Qed.

Lemma print_cond_tight d : cond_ok d = true -> tight (print_cond d).
Proof.
  induction d as [c|d IH c]; cbn [cond_ok print_cond]; [apply print_conj_tight|].
  intros [Hd Hc]%andb_prop. apply tight_append; [by apply IH|by apply print_conj_tight].
Qed.

Lemma eval_cond d : cond_ok d = true -> eval_result context (print_cond d) = cond_meaning context d.
Proof.
  induction d as [c|d IH c]; intros Hok; [by apply eval_conj|].
  pose proof (print_cond_tight _ Hok) as Htight.
  cbn [cond_ok print_cond cond_meaning] in *. apply andb_prop in Hok as [Hd Hc].
  erewrite eval_result_or; cycle 1.
  - rewrite trim_tight by done. apply (rsplit_once_last "|"); [done|]. by apply print_conj_count.
  - by rewrite IH, eval_conj.
Qed.
End PrintedTests.

(** C6: a condition evaluates to its meaning: [||] binds weaker than [&&],
    which binds weaker than the tests; every operand is evaluated from left
    to right and the first error is the result (there is no short circuit). *)
Theorem evaluate_print_cond context d :
  cond_ok d = true -> evaluate context (print_cond d) = cond_meaning context d.
Proof.
  intros Hok. pose proof (print_cond_tight d Hok) as Ht.
  unfold evaluate. rewrite trim_tight by done.
  destruct Ht as [(a & m & Hs & _) _]. rewrite Hs at 1. cbn [String.eqb].
  rewrite eval_expr_result. cbn [default]. by apply eval_cond.
Qed.

Definition example_context : gmap string expr_value :=
  {["score" := VInt 7; "plan" := VMap {["name" := VString "pro"]}]}.

Definition example_cond : cond :=
  DOr (DConj (CAnd (CTest (TCmp OpGt "score" "9")) (TExists "plan.name")))
      (CAnd (CTest (TCmp OpEq "plan.name" "'pro'")) (TNot "false")).

Lemma evaluate_print_cond_witness :
  print_cond example_cond = "score > 9 && plan.name exists || plan.name == 'pro' && !false" /\
  evaluate example_context (print_cond example_cond) = Ok (VBool true).
Proof.
  split; [reflexivity|].
  rewrite (evaluate_print_cond example_context example_cond) by reflexivity.
  vm_compute. reflexivity.
Defined.
