(* ===== verification/Workflow.v ===== *)
(** The workflow IR and its validation ([konflux-substrate/src/workflow.rs]).

    Identifiers are newtypes over [String] and are plain strings here; a
    [Duration] is a number of nanoseconds.  The cycle check is the source's
    three-colour search; it is related to the search of [Dfs]. *)

From S2P Require Import Prelude Dfs Json Error.

Local Open Scope string_scope.
Local Open Scope list_scope.

(** * Data *)

(** [std::time::Duration], in nanoseconds. *)
Abbreviation duration := Z.

Definition from_millis (ms : Z) : duration := (ms * 1000000)%Z.
Definition from_secs (s : Z) : duration := (s * 1000000000)%Z.
Definition duration_max : duration := (u64_max * 1000000000 + 999999999)%Z.

(** [Duration::as_millis], a [u128]. *)
Definition as_millis (d : duration) : Z := (d / 1000000)%Z.

(** [Expr]. *)
Inductive expr : Type :=
  | Literal (s : string)
  | Ref (path : string)
  | Template (tmpl : string)
  | Json (v : json).

(** [EdgeTarget]. *)
Inductive edge_target : Type := ToStep (id : string) | ToReturn.

#[export] Instance edge_target_eq_dec : EqDecision edge_target.
Proof. solve_decision. Defined.

(** [Edge]. *)
Record edge : Type := Edge {
  target : edge_target;
  condition : option string;
  priority : Z;
}.

(** [JoinPolicy]. *)
Inductive join_policy : Type := JoinAll | JoinAny | JoinQuorum (min : Z) | JoinLenient.

(** [ErrorAction]. *)
Inductive error_action : Type :=
  | ActFail
  | ActSkip
  | ActFallback (value : string)
  | ActGoto (step : string).

(** [BackoffStrategy]. *)
Inductive backoff_strategy : Type := Fixed | Exponential | Linear (increment : duration).

(** [RetryPolicy]. *)
Record retry_policy : Type := RetryPolicy {
  max_attempts : Z;
  backoff : backoff_strategy;
  base_delay : duration;
  max_delay : duration;
}.

(** [PipeStep]. *)
Record pipe_step : Type := PipeStep { ps_tool : string; ps_input : gmap string expr }.

(** [StreamMode]. *)
Inductive stream_mode : Type := StreamDefault | StreamPassthrough.

(** [RepeatConfig]. *)
Record repeat_config : Type := RepeatConfig {
  until : string;
  rep_max : Z;
  as_var : option string;
}.

(** [Step]. *)
Record step : Type := Step {
  st_id : string;
  st_tool : string;
  st_input : gmap string expr;
  st_edges : list edge;
  st_depends_on : list string;
  st_join : join_policy;
  st_on_error : error_action;
  st_retry : option retry_policy;
  st_timeout : option duration;
  st_credentials : gmap string string;
  st_grant : option (list string);
  st_pipe : list pipe_step;
  st_stream : stream_mode;
  st_repeat : option repeat_config;
}.

(** [Workflow]. *)
Record workflow : Type := Workflow {
  wf_id : string;
  wf_name : string;
  wf_version : string;
  wf_entry : string;
  wf_steps : list step;
  wf_capabilities : list string;
  wf_metadata : gmap string string;
  wf_description : option string;
  wf_input_schema : option json;
  wf_output_schema : option json;
  wf_register_as_tool : bool;
}.

(** [Step::new]. *)
Definition step_new (id tool : string) : step := {|
  st_id := id; st_tool := tool; st_input := ∅; st_edges := []; st_depends_on := [];
  st_join := JoinAll; st_on_error := ActFail; st_retry := None; st_timeout := None;
  st_credentials := ∅; st_grant := None; st_pipe := []; st_stream := StreamDefault;
  st_repeat := None |}.

(** [Workflow::new]. *)
Definition workflow_new (id name entry : string) : workflow := {|
  wf_id := id; wf_name := name; wf_version := "0.1.0"; wf_entry := entry; wf_steps := [];
  wf_capabilities := []; wf_metadata := ∅; wf_description := None; wf_input_schema := None;
  wf_output_schema := None; wf_register_as_tool := false |}.

(** [Workflow::get_step]: the first step with the id. *)
Definition get_step (w : workflow) (id : string) : option step :=
  List.find (fun s => String.eqb (st_id s) id) (wf_steps w).

(** * The cycle check *)

(** [Color]. *)
Inductive color : Type := Gray | Black.

(** The successors an edge list names. *)
Definition step_targets (s : step) : list string :=
  omap (fun e => match target e with ToStep id => Some id | ToReturn => None end) (st_edges s).

(** The adjacency map of [detect_cycles]. *)
Definition adjacency (w : workflow) : gmap string (list string) :=
  fold_left (fun adj s => <[st_id s := step_targets s]> adj) (wf_steps w) ∅.

Section Cycles.
Context (adj : gmap string (list string)).

(** The loop over the neighbours; [rec] is the recursive call. *)
Fixpoint visit
    (rec : string -> gmap string color -> list string -> option (bool * gmap string color * list string))
    (neighbors : list string) (colors : gmap string color) (path : list string)
  : option (bool * gmap string color * list string) :=
  match neighbors with
  | [] => Some (false, colors, path)
  | neighbor :: rest =>
      match colors !! neighbor with
      | Some Gray => Some (true, colors, path ++ [neighbor])
      | Some Black => visit rec rest colors path
      | None =>
          match rec neighbor colors path with
          | Some (false, colors, path) => visit rec rest colors path
          | other => other
          end
      end
  end.

(** [Workflow::dfs_detect_cycle]: whether a cycle was found, with the colours
    and the path it leaves; [None] when out of fuel. *)
Fixpoint dfs_detect_cycle (fuel : nat) (node : string) (colors : gmap string color)
    (path : list string) : option (bool * gmap string color * list string) :=
  match fuel with
  | O => None
  | S fuel =>
      match visit (dfs_detect_cycle fuel) (default [] (adj !! node))
              (<[node := Gray]> colors) (path ++ [node]) with
      | Some (false, colors, path) => Some (false, <[node := Black]> colors, removelast path)
      | other => other
      end
  end.

(** The searches [detect_cycles] makes from a list of roots: those already
    coloured are passed over. *)
Fixpoint detect_from (fuel : nat) (roots : list string) (colors : gmap string color)
    (path : list string) : option (result validation_error unit) :=
  match roots with
  | [] => Some (Ok tt)
  | root :: rest =>
      if bool_decide (is_Some (colors !! root)) then detect_from fuel rest colors path
      else
        match dfs_detect_cycle fuel root colors path with
        | Some (true, _, path) => Some (Err (CycleDetected path))
        | Some (false, colors, path) => detect_from fuel rest colors path
        | None => None
        end
  end.
End Cycles.

(** Each level of the recursion opens a node with outgoing edges, a key of
    the adjacency map, or a last node without. *)
Definition cycle_fuel (w : workflow) : nat := S (S (length (wf_steps w))).

(** [Workflow::detect_cycles]: the entry, then every step not yet coloured. *)
Definition detect_cycles (w : workflow) : option (result validation_error unit) :=
  detect_from (adjacency w) (cycle_fuel w) (wf_entry w :: map st_id (wf_steps w)) ∅ [].

(** * Validation *)

(** The checks of [Workflow::validate] on one edge and on one dependency. *)
Definition check_edge (w : workflow) (s : step) (e : edge) : result validation_error unit :=
  match target e with
  | ToStep target_id =>
      match get_step w target_id with
      | None => Err (UnknownNode target_id (st_id s))
      | Some _ => Ok tt
      end
  | ToReturn => Ok tt
  end.

Definition check_dependency (w : workflow) (s : step) (dep : string) : result validation_error unit :=
  match get_step w dep with
  | None => Err (UnknownNode dep (String.append "depends_on:" (st_id s)))
  | Some _ => Ok tt
  end.

Definition check_step (w : workflow) (s : step) : result validation_error unit :=
  _ ← try_each (check_edge w s) (st_edges s);
  try_each (check_dependency w s) (st_depends_on s).

Definition is_return (e : edge) : bool := match target e with ToReturn => true | _ => false end.

(** The [has_return] flag the loop leaves. *)
Definition has_return (w : workflow) : bool :=
  existsb (fun s => existsb is_return (st_edges s)) (wf_steps w).

(** [Workflow::validate]; [None] only if the cycle check ran out of fuel. *)
Definition validate (w : workflow) : option (result validation_error unit) :=
  match get_step w (wf_entry w) with
  | None => Some (Err NoEntryNode)
  | Some _ =>
      match try_each (check_step w) (wf_steps w) with
      | Err e => Some (Err e)
      | Ok _ => if has_return w then detect_cycles w else Some (Err NoReturnNode)
      end
  end.

(** * The search of [Dfs] and the coloured search *)

Section Simulation.
Context (adj : gmap string (list string)).

Definition successors (x : string) : list string := default [] (adj !! x).

(** Gray nodes are the open ones, black nodes the finished ones. *)
Definition colors_ok (colors : gmap string color) (path : list string) (finished : gset string) : Prop :=
  forall x, (colors !! x = Some Gray <-> x ∈ path) /\ (colors !! x = Some Black <-> x ∈ finished).

Definition simulates (colors : gmap string color) (path : list string)
    (r : result (list string) (gset string))
    (o : option (bool * gmap string color * list string)) : Prop :=
  match r with
  | Err p => exists c, o = Some (true, c, p)
  | Ok finished => exists c, o = Some (false, c, path) /\ colors_ok c path finished
  end.

Lemma colors_ok_open colors path finished n :
  colors_ok colors path finished -> n ∉ finished ->
  colors_ok (<[n := Gray]> colors) (path ++ [n]) finished.
Proof.
  intros HR Hn x. destruct (HR x) as [Hg Hb].
  rewrite elem_of_app, list_elem_of_singleton. destruct (decide (x = n)) as [->|Hne].
  - rewrite lookup_insert_eq. split; split; try done; tauto.
  - rewrite lookup_insert_ne by done. tauto.
Qed.

Lemma colors_ok_close colors path finished n :
  colors_ok colors (path ++ [n]) finished -> n ∉ path ->
  colors_ok (<[n := Black]> colors) path ({[n]} ∪ finished).
Proof.
  intros HR Hn x. destruct (HR x) as [Hg Hb].
  rewrite elem_of_app, list_elem_of_singleton in Hg.
  rewrite elem_of_union, elem_of_singleton. destruct (decide (x = n)) as [->|Hne].
  - rewrite lookup_insert_eq. split; split; try done; tauto.
  - rewrite lookup_insert_ne by done. tauto.
Qed.

Lemma dfs_detect_cycle_simulates fuel : forall n colors path finished r,
  colors_ok colors path finished -> n ∉ path -> n ∉ finished ->
  dfs successors fuel path finished n = Some r ->
  simulates colors path r (dfs_detect_cycle adj fuel n colors path).
Proof.
  induction fuel as [|fuel IH]; intros n colors path finished r HR Hnp Hnf; [done|].
  rewrite dfs_S, !decide_False by done. cbn [dfs_detect_cycle]. fold (successors n).
  assert (forall l c p f r, colors_ok c p f -> dfs_list successors fuel p l f = Some r ->
    simulates c p r (visit (dfs_detect_cycle adj fuel) l c p)) as Hvisit.
  { clear -IH. induction l as [|m l IHl]; intros c p f r HR; cbn [dfs_list visit].
    { intros [= <-]. by exists c. }
    destruct (dfs successors fuel p f m) as [rm|] eqn:Hm; [|done].
    destruct (HR m) as [Hg Hb]. destruct fuel as [|fuel']; [done|].
    destruct (c !! m) as [[]|] eqn:Hc.
    - rewrite dfs_S, decide_True in Hm by tauto. injection Hm as <-. intros [= <-]. by exists c.
    - rewrite dfs_S in Hm. rewrite decide_False in Hm by (intros Hp; by apply Hg in Hp).
      rewrite decide_True in Hm by tauto. injection Hm as <-. by apply IHl.
    - apply (IH m c) in Hm; [|done|intros Hp; by apply Hg in Hp|intros Hp; by apply Hb in Hp].
      destruct rm as [f'|p'].
      + destruct Hm as (c' & -> & HR'). by apply IHl.
      + destruct Hm as (c' & ->). intros [= <-]. by exists c'. }
  destruct (dfs_list successors fuel (path ++ [n]) (successors n) finished) as [rl|] eqn:El; [|done].
  apply (Hvisit _ (<[n := Gray]> colors)) in El; [|by apply colors_ok_open].
  destruct rl as [f|p]; intros [= <-]; cbn in El.
  - destruct El as (c & -> & HR'). exists (<[n := Black]> c). rewrite removelast_last.
    split; [done|]. by apply colors_ok_close.
  - destruct El as (c & ->). by exists c.
Qed.

Lemma detect_from_spec (U : gset string) fuel roots : forall colors finished,
  (forall x y, x ∈ U -> Dfs.edge successors x y -> y ∈ U) -> (forall r, r ∈ roots -> r ∈ U) ->
  size U < fuel -> colors_ok colors [] finished -> finished_ok successors finished ->
  match detect_from adj fuel roots colors [] with
  | Some (Ok _) => exists finished', finished_ok successors finished' /\
      finished ⊆ finished' /\ forall r, r ∈ roots -> r ∈ finished'
  | Some (Err e) => exists p, e = CycleDetected p /\ closes_cycle successors p
  | None => False
  end.
Proof.
  induction roots as [|r roots IH]; intros colors finished HU Hroots Hfuel HR Hok; cbn [detect_from].
  { exists finished. split_and!; [done|done|set_solver]. }
  assert (forall x, x ∈ roots -> x ∈ U) as Hroots' by (intros; apply Hroots; by right).
  destruct (HR r) as [Hg Hb]. case_bool_decide as Hc.
  - assert (r ∈ finished) as Hrf.
    { destruct Hc as [[] Hc]; [|by apply Hb]. apply Hg in Hc. by apply elem_of_nil in Hc. }
    specialize (IH colors finished HU Hroots' Hfuel HR Hok).
    destruct (detect_from adj fuel roots colors []) as [[u|e]|]; [|done|done].
    destruct IH as (f' & ? & ? & ?). exists f'. split_and!; [done|done|set_solver].
  - assert (r ∉ finished) as Hrf by (intros Hr; apply Hb in Hr; by apply Hc; rewrite Hr).
    pose proof (dfs_total successors U fuel HU [] finished r) as Ht.
    destruct (dfs successors fuel [] finished r) as [rr|] eqn:E;
      [|exfalso; apply Ht; [constructor|set_solver|apply Hroots; by left|cbn; lia|done]].
    pose proof (dfs_detect_cycle_simulates fuel r colors [] finished rr HR) as Hs.
    destruct rr as [f|p]; cbn in Hs.
    + destruct Hs as (c & -> & HR'); [set_solver|done|done|].
      apply dfs_Ok in E as (Hrf' & Hsub & _ & Hok' & _); [|set_solver|done].
      specialize (IH c f HU Hroots' Hfuel HR' Hok').
      destruct (detect_from adj fuel roots c []) as [[u|e]|]; [|done|done].
      destruct IH as (f' & Hf' & Hsub' & Hin). exists f'.
      split_and!; [done|set_solver|]. intros x [->|Hx]%elem_of_cons; set_solver.
    + destruct Hs as (c & ->); [set_solver|done|done|]. exists p. split; [done|].
      by apply (dfs_Err successors fuel [] finished r p).
Qed.
End Simulation.

(** * What validation decides *)

(** The ids of the steps, and the edges between steps. *)
Definition step_ids (w : workflow) : list string := map st_id (wf_steps w).

Definition step_edge (w : workflow) (x y : string) : Prop :=
  exists s, s ∈ wf_steps w /\ st_id s = x /\ y ∈ step_targets s.

(** A well-formed workflow: known entry, targets and dependencies, a way to
    return, no cycle. *)
Record well_formed (w : workflow) : Prop := {
  wf_entry_known : wf_entry w ∈ step_ids w;
  wf_targets_known : forall s t, s ∈ wf_steps w -> t ∈ step_targets s -> t ∈ step_ids w;
  wf_dependencies_known : forall s d, s ∈ wf_steps w -> d ∈ st_depends_on s -> d ∈ step_ids w;
  wf_returns : exists s e, s ∈ wf_steps w /\ e ∈ st_edges s /\ target e = ToReturn;
  wf_acyclic : forall x, ~ tc (step_edge w) x x;
}.

Lemma get_step_Some w id s : get_step w id = Some s -> s ∈ wf_steps w /\ st_id s = id.
Proof.
  unfold get_step. intros [Hin Heq%String.eqb_eq]%List.find_some.
  split; [by apply list_elem_of_In|done].
Qed.

Lemma get_step_known w id : is_Some (get_step w id) <-> id ∈ step_ids w.
Proof.
  unfold step_ids. rewrite list_elem_of_fmap. split.
  - intros [s (Hin & <-)%get_step_Some]. by exists s.
  - intros (s & -> & Hin). unfold get_step.
    destruct (List.find _ (wf_steps w)) as [s'|] eqn:E; [done|].
    apply List.find_none with (x := s) in E; [|by apply list_elem_of_In].
    by rewrite String.eqb_refl in E.
Qed.

Lemma get_step_None w id : get_step w id = None <-> id ∉ step_ids w.
Proof. by rewrite <- get_step_known, <- eq_None_not_Some. Qed.

Lemma elem_of_step_targets s t :
  t ∈ step_targets s <-> exists e, e ∈ st_edges s /\ target e = ToStep t.
Proof.
  unfold step_targets. rewrite list_elem_of_omap. split; intros (e & He & Ht); exists e;
    (split; [done|]); destruct (target e); by simplify_eq.
Qed.

Lemma find_app {A} (f : A -> bool) l l' :
  List.find f (l ++ l') = match List.find f l with Some x => Some x | None => List.find f l' end.
Proof. induction l as [|x l IH]; cbn; [done|]. by destruct (f x). Qed.

Lemma fold_adjacency_lookup steps (adj : gmap string (list string)) x :
  fold_left (fun adj s => <[st_id s := step_targets s]> adj) steps adj !! x
  = match List.find (fun s => String.eqb (st_id s) x) (rev steps) with
    | Some s => Some (step_targets s)
    | None => adj !! x
    end.
Proof.
  revert adj. induction steps as [|s steps IH]; intros adj; [done|].
  cbn [fold_left rev]. rewrite IH, find_app. destruct (List.find _ (rev steps)); [done|].
  cbn. destruct (String.eqb_spec (st_id s) x) as [->|Hne].
  - by rewrite lookup_insert_eq.
  - by rewrite lookup_insert_ne.
Qed.

Lemma find_unique (steps : list step) s :
  NoDup (map st_id steps) -> s ∈ steps ->
  List.find (fun s' => String.eqb (st_id s') (st_id s)) (rev steps) = Some s.
Proof.
  intros Hnd Hs.
  destruct (List.find _ (rev steps)) as [s'|] eqn:E.
  - apply List.find_some in E as [Hin Heq%String.eqb_eq]. apply in_rev, list_elem_of_In in Hin.
    f_equal. apply list_elem_of_lookup in Hin as [i Hi]. apply list_elem_of_lookup in Hs as [j Hj].
    assert (i = j) as ->; [|congruence].
    eapply NoDup_lookup; [exact Hnd| |]; rewrite list_lookup_fmap; [by rewrite Hi|by rewrite Hj, Heq].
  - apply List.find_none with (x := s) in E; [by rewrite String.eqb_refl in E|].
    apply -> in_rev. by apply list_elem_of_In.
Qed.

(** With distinct ids the adjacency map is the step relation. *)
Lemma successors_step_edge w x y :
  NoDup (step_ids w) -> y ∈ successors (adjacency w) x <-> step_edge w x y.
Proof.
  intros Hnd. unfold successors, adjacency, step_edge. rewrite fold_adjacency_lookup.
  split.
  - destruct (List.find _ (rev (wf_steps w))) as [s|] eqn:E; [|rewrite lookup_empty; cbn; set_solver].
    apply List.find_some in E as [Hin Heq%String.eqb_eq]. apply in_rev, list_elem_of_In in Hin.
    cbn. intros Hy. by exists s.
  - intros (s & Hs & <- & Hy). by rewrite find_unique.
Qed.

Lemma tc_ext {A} (R R' : A -> A -> Prop) x y : (forall x y, R x y <-> R' x y) -> tc R x y -> tc R' x y.
Proof.
  intros HR Hxy. induction Hxy as [x y H|x y z H _ IH].
  - by apply tc_once, HR.
  - apply tc_l with y; [by apply HR|done].
Qed.

Lemma check_steps_Ok w :
  try_each (check_step w) (wf_steps w) = Ok tt <->
  (forall s t, s ∈ wf_steps w -> t ∈ step_targets s -> t ∈ step_ids w) /\
  (forall s d, s ∈ wf_steps w -> d ∈ st_depends_on s -> d ∈ step_ids w).
Proof.
  assert (forall s, check_step w s = Ok tt <->
    (forall t, t ∈ step_targets s -> t ∈ step_ids w) /\
    (forall d, d ∈ st_depends_on s -> d ∈ step_ids w)) as Hstep.
  { intros s. unfold check_step.
    assert (try_each (check_edge w s) (st_edges s) = Ok tt <->
      forall t, t ∈ step_targets s -> t ∈ step_ids w) as He.
    { rewrite try_each_Ok, Forall_forall. setoid_rewrite elem_of_step_targets. split.
      - intros H t (e & He & Ht). specialize (H e He). unfold check_edge in H. rewrite Ht in H.
        apply get_step_known. destruct (get_step w t); [done|discriminate].
      - intros H e He. unfold check_edge. destruct (target e) as [t|] eqn:Ht; [|done].
        assert (t ∈ step_ids w) as Hk by (apply H; by exists e).
        by apply get_step_known in Hk as [s' ->]. }
    assert (try_each (check_dependency w s) (st_depends_on s) = Ok tt <->
      forall d, d ∈ st_depends_on s -> d ∈ step_ids w) as Hd.
    { rewrite try_each_Ok, Forall_forall. unfold check_dependency. split; intros H d Hin.
      - apply get_step_known. specialize (H d Hin). destruct (get_step w d); [done|discriminate].
      - specialize (H d Hin). by apply get_step_known in H as [s' ->]. }
    rewrite <- He, <- Hd. destruct (try_each (check_edge w s) (st_edges s)) as [[]|]; cbn; [tauto|].
    split; [done|]. by intros []. }
  rewrite try_each_Ok, Forall_forall. setoid_rewrite Hstep. naive_solver.
Qed.

Lemma has_return_spec w :
  has_return w = true <-> exists s e, s ∈ wf_steps w /\ e ∈ st_edges s /\ target e = ToReturn.
Proof.
  unfold has_return. rewrite existsb_exists. setoid_rewrite existsb_exists.
  setoid_rewrite <- list_elem_of_In. unfold is_return. split.
  - intros (s & Hs & e & He & Ht). exists s, e. by destruct (target e).
  - intros (s & e & Hs & He & Ht). exists s. split; [done|]. exists e. by rewrite Ht.
Qed.

Lemma detect_cycles_spec w :
  NoDup (step_ids w) -> wf_entry w ∈ step_ids w ->
  (forall s t, s ∈ wf_steps w -> t ∈ step_targets s -> t ∈ step_ids w) ->
  match detect_cycles w with
  | Some (Ok _) => forall x, ~ tc (step_edge w) x x
  | Some (Err e) => exists p, e = CycleDetected p /\ closes_cycle (successors (adjacency w)) p
  | None => False
  end.
Proof.
  intros Hnd Hentry Htargets. unfold detect_cycles.
  assert (forall x y, Dfs.edge (successors (adjacency w)) x y <-> step_edge w x y) as Hedge
    by (intros; by apply successors_step_edge).
  pose proof (detect_from_spec (adjacency w) (list_to_set (step_ids w)) (cycle_fuel w)
    (wf_entry w :: map st_id (wf_steps w)) ∅ ∅) as H. fold (step_ids w) in *.
  specialize (H ltac:(intros x y _ (s & Hs & _ & Hy)%Hedge; apply elem_of_list_to_set;
                      by eapply Htargets)).
  specialize (H ltac:(intros r; rewrite elem_of_list_to_set; set_solver)).
  specialize (H ltac:(rewrite size_list_to_set by done; unfold step_ids, cycle_fuel;
                      rewrite length_map; lia)).
  specialize (H ltac:(intros x; rewrite lookup_empty; set_solver) (finished_ok_empty _)).
  destruct (detect_from _ _ _ ∅ []) as [[u|e]|]; [|exact H|exact H].
  destruct H as (fin & [_ Hac] & _ & Hin). intros x Hxx. apply (Hac x).
  - apply Hin. right. inversion Hxx as [? ? (s & Hs & <- & _)|? y ? (s & Hs & <- & _) _]; subst;
      apply list_elem_of_fmap; by exists s.
  - by eapply tc_ext; [|exact Hxx].
Qed.

Lemma check_steps_not_cycle w l p : try_each (check_step w) l <> Err (CycleDetected p).
Proof.
  intros (s & _ & H)%try_each_Err. unfold check_step in H.
  destruct (try_each (check_edge w s) (st_edges s)) as [[]|e] eqn:E; cbn in H.
  - apply try_each_Err in H as (d & _ & H). unfold check_dependency in H. by destruct (get_step w d).
  - injection H as ->. apply try_each_Err in E as (e' & _ & H). unfold check_edge in H.
    destruct (target e') as [t|]; [|done]. by destruct (get_step w t).
Qed.

Lemma validate_spec w :
  NoDup (step_ids w) ->
  exists r, validate w = Some r /\ (r = Ok tt <-> well_formed w) /\
    forall p, r = Err (CycleDetected p) -> closes_cycle (successors (adjacency w)) p.
Proof.
  intros Hnd. unfold validate. destruct (get_step w (wf_entry w)) as [s|] eqn:He; cycle 1.
  { eexists. split_and!; [done| |done]. split; [done|]. intros [Hentry _ _ _ _].
    by apply get_step_None in He. }
  assert (wf_entry w ∈ step_ids w) as Hentry by (apply get_step_known; by rewrite He).
  destruct (try_each (check_step w) (wf_steps w)) as [[]|e] eqn:Hc; cycle 1.
  { eexists. split_and!; [done| |intros p [= ->]; by apply check_steps_not_cycle in Hc].
    split; [done|]. intros [_ Ht Hd _ _].
    assert (try_each (check_step w) (wf_steps w) = Ok tt) by by apply check_steps_Ok. congruence. }
  apply check_steps_Ok in Hc as [Ht Hd]. pose proof (detect_cycles_spec w Hnd Hentry Ht) as Hdc.
  destruct (has_return w) eqn:Hr; cycle 1.
  { eexists. split_and!; [done| |done]. split; [done|]. intros [_ _ _ Hret _].
    apply has_return_spec in Hret. congruence. }
  destruct (detect_cycles w) as [[[]|e]|]; [| |done].
  - exists (Ok tt). split_and!; [done| |done]. split; [|done]. intros _.
    by constructor; try apply has_return_spec.
  - destruct Hdc as (p & -> & Hp). eexists. split_and!; [done| |by intros p' [= <-]].
    split; [done|]. intros [_ _ _ _ Hac]. apply closes_cycle_tc in Hp as [x Hx].
    exfalso. apply (Hac x). eapply tc_ext; [|exact Hx]. intros. by apply successors_step_edge.
Qed.

(** C7: [Workflow::validate] terminates (its search never runs out of fuel)
    and, on a workflow whose step ids are distinct, accepts exactly the
    well-formed workflows; the path of a cycle error is a walk along edges
    that ends in a step it has visited before. *)
Theorem validate_iff_well_formed w :
  NoDup (step_ids w) ->
  exists r, validate w = Some r /\ (r = Ok tt <-> well_formed w) /\
    forall p, r = Err (CycleDetected p) -> closes_cycle (successors (adjacency w)) p.
Proof. apply validate_spec. Qed.

Definition with_edges (s : step) (es : list edge_target) : step := {|
  st_id := st_id s; st_tool := st_tool s; st_input := st_input s;
  st_edges := map (fun t => Edge t None 0) es; st_depends_on := st_depends_on s;
  st_join := st_join s; st_on_error := st_on_error s; st_retry := st_retry s;
  st_timeout := st_timeout s; st_credentials := st_credentials s; st_grant := st_grant s;
  st_pipe := st_pipe s; st_stream := st_stream s; st_repeat := st_repeat s |}.

Definition with_steps (w : workflow) (steps : list step) : workflow := {|
  wf_id := wf_id w; wf_name := wf_name w; wf_version := wf_version w; wf_entry := wf_entry w;
  wf_steps := steps; wf_capabilities := wf_capabilities w; wf_metadata := wf_metadata w;
  wf_description := wf_description w; wf_input_schema := wf_input_schema w;
  wf_output_schema := wf_output_schema w; wf_register_as_tool := wf_register_as_tool w |}.

Definition diamond (last : edge_target) : workflow :=
  with_steps (workflow_new "w" "w" "a")
    [with_edges (step_new "a" "echo") [ToStep "b"; ToStep "c"];
     with_edges (step_new "b" "echo") [ToStep "d"];
     with_edges (step_new "c" "echo") [ToStep "d"; ToReturn];
     with_edges (step_new "d" "echo") [last]].

Lemma validate_iff_well_formed_witness :
  well_formed (diamond ToReturn) /\
  closes_cycle (successors (adjacency (diamond (ToStep "b")))) ["a"; "b"; "d"; "b"].
Proof.
  split.
  - destruct (validate_iff_well_formed (diamond ToReturn)) as (r & Hr & Hwf & _).
    + apply (bool_decide_unpack _). vm_compute. exact I.
    + apply Hwf. vm_compute in Hr. congruence.
  - destruct (validate_iff_well_formed (diamond (ToStep "b"))) as (r & Hr & _ & Hcyc).
    + apply (bool_decide_unpack _). vm_compute. exact I.
    + apply Hcyc. vm_compute in Hr. congruence.
Defined.
