(* ===== verification/Template.v ===== *)
(** Template resolution ([konflux-substrate/src/template.rs]).

    [render] is the third-party template engine (minijinja in strict mode): a
    parameter.  Everything around it is the program's: which strings are
    templates, the pure-reference passthrough that keeps JSON types, the walk
    down a reference, and the recursion through arrays and objects. *)

From S2P Require Import Prelude Json Workflow.
From Stdlib Require Import Ascii.

Local Open Scope string_scope.
Local Open Scope list_scope.

(** [has_templates]. *)
Definition has_templates (s : string) : bool := str_contains s "{{" && str_contains s "}}".

Definition is_special (a : ascii) : bool :=
  existsb (Ascii.eqb a) ["|"; "("; ")"; "["; "]"; "+"; "-"; "="; "<"; ">"; ","]%char.

Definition is_ascii_alphanumeric (a : ascii) : bool :=
  let n := byte_of a in
  is_digit a || (N.leb 65 n && N.leb n 90) || (N.leb 97 n && N.leb n 122).

Fixpoint str_any (f : ascii -> bool) (s : string) : bool :=
  match s with EmptyString => false | String a s' => f a || str_any f s' end.

Definition is_ident_char (a : ascii) : bool := is_ascii_alphanumeric a || Ascii.eqb a "_".

(** A segment of a reference: an identifier. *)
Definition valid_segment (seg : string) : bool :=
  match seg with
  | EmptyString => false
  | String a _ => str_forall is_ident_char seg && negb (is_digit a)
  end.

(** [try_pure_ref]. *)
Definition try_pure_ref (s : string) : option string :=
  body ← strip_prefix "{{" (trim s);
  body' ← strip_suffix "}}" body;
  let inner := trim body' in
  if (str_contains inner "{{" || str_contains inner "}}")%bool then None
  else if str_any is_special inner then None
  else if String.eqb inner EmptyString then None
  else if forallb valid_segment (split_on "." inner) then Some inner
  else None.

(** The walk of [resolve_ref] below the root. *)
Fixpoint resolve_parts (current : json) (parts : list string) : option json :=
  match parts with
  | [] => Some current
  | part :: rest => v ← get part current; resolve_parts v rest
  end.

(** [resolve_ref]. *)
Definition resolve_ref (path : string) (state : gmap string json) : option json :=
  match split_on "." path with
  | root :: rest => v ← state !! root; resolve_parts v rest
  | [] => None
  end.

Section Resolve.
Context (render : string -> gmap string json -> result string string).
Context (state : gmap string json).

(** [resolve_json_templates]. *)
Fixpoint resolve_json_templates (val : json) : result string json :=
  match val with
  | JString s =>
      if has_templates s then
        match try_pure_ref s ≫= fun path => resolve_ref path state with
        | Some value => Ok value
        | None => rendered ← render s state; Ok (JString rendered)
        end
      else Ok val
  | JArray arr => l ← try_map resolve_json_templates arr; Ok (JArray l)
  | JObject obj =>
      m ← (fix go (obj acc : list (string * json)) : result string (list (string * json)) :=
             match obj with
             | [] => Ok acc
             | (k, v) :: obj' => v' ← resolve_json_templates v; go obj' (obj_insert k v' acc)
             end) obj [];
      Ok (JObject m)
  | other => Ok other
  end.

(** [resolve_expr]. *)
Definition resolve_expr (e : expr) : result string json :=
  match e with
  | Literal s => Ok (JString s)
  | Ref path =>
      ok_or (resolve_ref path state) (String.append "unresolved reference: " path)
  | Template tmpl => rendered ← render tmpl state; Ok (JString rendered)
  | Json val => resolve_json_templates val
  end.

(** The loop of [resolve_inputs] over a listing of the [HashMap]. *)
Fixpoint resolve_entries (entries : list (string * expr)) (resolved : gmap string json)
  : result string (gmap string json) :=
  match entries with
  | [] => Ok resolved
  | (key, e) :: rest => value ← resolve_expr e; resolve_entries rest (<[key := value]> resolved)
  end.

(** [resolve_inputs]; the iteration order of the map only matters for which
    of several errors is reported ([resolve_inputs_order]). *)
Definition resolve_inputs (inputs : gmap string expr) : result string (gmap string json) :=
  resolve_entries (map_to_list inputs) ∅.
End Resolve.

(** * Pure references *)

Lemma ident_char_cases a :
  is_ident_char a = true ->
  is_printable a = true /\ is_special a = false /\
  Ascii.eqb a "." = false /\ Ascii.eqb a "{" = false /\ Ascii.eqb a "}" = false.
Proof. destruct a as [[] [] [] [] [] [] [] []]; vm_compute; intuition congruence. Qed.

Lemma valid_segment_chars seg :
  valid_segment seg = true -> seg <> EmptyString /\ str_forall is_ident_char seg = true.
Proof. destruct seg as [|a seg]; [done|]. unfold valid_segment. intros [H _]%andb_prop. done. Qed.

Lemma str_any_forall f g s :
  (forall a, f a = true -> g a = false) -> str_forall f s = true -> str_any g s = false.
Proof.
  intros Hfg. induction s as [|a s IH]; cbn; [done|]. intros [Ha Hs]%andb_prop.
  by rewrite Hfg, IH.
Qed.

(** The characters of a dotted path. *)
Definition is_path_char (a : ascii) : bool := is_ident_char a || Ascii.eqb a ".".

Lemma path_char_cases a :
  is_path_char a = true ->
  is_printable a = true /\ is_special a = false /\
  Ascii.eqb a "{" = false /\ Ascii.eqb a "}" = false.
Proof.
  unfold is_path_char. intros [H|H]%orb_prop.
  - apply ident_char_cases in H. tauto.
  - apply Ascii.eqb_eq in H as ->. done.
Qed.

Lemma join_path_chars segs :
  forallb valid_segment segs = true -> str_forall is_path_char (join "." segs) = true.
Proof.
  induction segs as [|x segs IH]; [done|]. cbn [forallb]. intros [Hx Hs]%andb_prop.
  assert (str_forall is_path_char x = true) as Hxp.
  { eapply str_forall_impl; [|apply (valid_segment_chars x Hx)].
    intros a Ha. unfold is_path_char. by rewrite Ha. }
  destruct segs as [|y segs]; [done|].
  change (join "." (x :: y :: segs)) with (String.append x (String "." (join "." (y :: segs)))).
  rewrite str_forall_append, Hxp. cbn [str_forall andb]. by rewrite IH.
Qed.

Lemma join_nonempty x segs : valid_segment x = true -> join "." (x :: segs) <> EmptyString.
Proof. intros Hx. by destruct x as [|a x], segs. Qed.

Lemma segment_no_dot seg : valid_segment seg = true -> str_count "." seg = 0.
Proof.
  intros [_ H]%valid_segment_chars. by eapply str_forall_count.
Qed.

Lemma split_on_segments segs :
  segs <> [] -> forallb valid_segment segs = true -> split_on "." (join "." segs) = segs.
Proof.
  intros Hne Hs. apply split_on_join; [done|]. apply Forall_forall. intros x Hx.
  apply segment_no_dot. eapply forallb_forall in Hs; [done|]. by apply list_elem_of_In.
Qed.

Lemma path_facts segs :
  segs <> [] -> forallb valid_segment segs = true ->
  let path := join "." segs in
  tight path /\ str_count "{" path = 0 /\ str_count "}" path = 0 /\
  str_any is_special path = false /\ path <> EmptyString.
Proof.
  intros Hne Hs path. pose proof (join_path_chars segs Hs) as Hp.
  assert (path <> EmptyString) as Hpne.
  { destruct segs as [|x segs]; [done|]. apply andb_prop in Hs as [Hx _]. by apply join_nonempty. }
  split_and!; [|by eapply str_forall_count|by eapply str_forall_count| |done].
  - apply printable_tight; [done|]. eapply str_forall_impl, Hp. intros a Ha. by apply path_char_cases.
  - eapply str_any_forall, Hp. intros a Ha. by apply path_char_cases.
Qed.

(** The printed form of a reference. *)
Definition braces (path : string) : string :=
  String.append "{{ " (String.append path " }}").

Lemma try_pure_ref_braces segs :
  segs <> [] -> forallb valid_segment segs = true ->
  try_pure_ref (braces (join "." segs)) = Some (join "." segs).
Proof.
  intros Hne Hs. destruct (path_facts segs Hne Hs) as (Ht & Hl & Hr & Hsp & Hpne).
  set (path := join "." segs) in *. unfold try_pure_ref, braces.
  assert (tight (String.append "{{ " (String.append path " }}"))) as Hb.
  { split; [by eexists _, _|]. exists (String.append "{{ " (String.append path " }")), "}"%char.
    split; [|done]. by rewrite <- !append_assoc. }
  rewrite (trim_tight _ Hb).
  change (String.append "{{ " (String.append path " }}"))
    with (String.append "{{" (String " " (String.append path " }}"))).
  rewrite strip_prefix_append. cbn [mbind option_bind].
  change " }}" with (String.append " " "}}"). rewrite (append_assoc path).
  change (String " " (String.append (String.append path " ") "}}"))
    with (String.append (String " " (String.append path " ")) "}}").
  rewrite strip_suffix_append. cbn [mbind option_bind]. rewrite trim_padded by done.
  rewrite (str_contains_false "{") by (rewrite Hl; cbn; lia).
  rewrite (str_contains_false "}") by (rewrite Hr; cbn; lia). cbn [orb].
  rewrite Hsp. destruct (String.eqb_spec path EmptyString); [done|].
  unfold path. by rewrite split_on_segments, Hs.
Qed.

Lemma str_contains_append a p b : str_contains (String.append a (String.append p b)) p = true.
Proof.
  unfold str_contains. apply bool_decide_eq_true. induction a as [|c a IH].
  - cbn [String.append]. destruct (String.append p b) as [|c s] eqn:E.
    + destruct p; [by eexists|done].
    + cbn [split_once]. rewrite <- E, strip_prefix_append. by eexists.
  - cbn [String.append split_once]. destruct (strip_prefix p _); [by eexists|].
    destruct IH as [ab ->]. by eexists.
Qed.

Lemma has_templates_braces path : has_templates (braces path) = true.
Proof.
  unfold has_templates, braces. apply andb_true_intro. split.
  - apply (str_contains_append EmptyString "{{" (String " " (String.append path " }}"))).
  - change " }}" with (String.append " " (String.append "}}" EmptyString)).
    rewrite !append_assoc. rewrite <- (append_assoc _ "}}" EmptyString). apply str_contains_append.
Qed.

(** A string that is exactly one reference to a value of the state
    resolves to that very value, whatever its JSON type, without going
    through the template engine. *)
Theorem pure_reference_passthrough render state root rest w v :
  forallb valid_segment (root :: rest) = true ->
  state !! root = Some w -> resolve_parts w rest = Some v ->
  resolve_json_templates render state (JString (braces (join "." (root :: rest)))) = Ok v.
Proof.
  intros Hs Hw Hv. cbn [resolve_json_templates].
  rewrite has_templates_braces, try_pure_ref_braces by done. cbn [mbind option_bind].
  unfold resolve_ref. rewrite split_on_segments by done. rewrite Hw. cbn [mbind option_bind].
  by rewrite Hv.
Qed.

Lemma pure_reference_passthrough_witness :
  let history := JArray [JObject [("role", JString "user")]; JNumber (PosInt 3)] in
  resolve_json_templates (fun _ _ => Err "not called")
    {["node" := JObject [("messages", history)]]} (JString "{{ node.messages }}") = Ok history.
Proof.
  apply (pure_reference_passthrough (fun _ _ => Err "not called")
    {["node" := JObject [("messages", JArray [JObject [("role", JString "user")]; JNumber (PosInt 3)])]]}
    "node" ["messages"]
    (JObject [("messages", JArray [JObject [("role", JString "user")]; JNumber (PosInt 3)])]));
    reflexivity.
Defined.

(** * Values without templates *)

(** Keys in strictly increasing order, as a [BTreeMap] holds them. *)
Definition sorted_obj (m : list (string * json)) : Prop :=
  StronglySorted (fun a b => String.compare a.1 b.1 = Lt) m.

Fixpoint no_templates (j : json) : bool :=
  match j with
  | JString s => negb (has_templates s)
  | JArray l => forallb no_templates l
  | JObject m => forallb (fun kv => no_templates kv.2) m
  | _ => true
  end.

Fixpoint sorted_json (j : json) : Prop :=
  match j with
  | JArray l =>
      (fix go (l : list json) := match l with [] => True | x :: l' => sorted_json x /\ go l' end) l
  | JObject m =>
      sorted_obj m /\
      (fix go (m : list (string * json)) :=
         match m with [] => True | kv :: m' => sorted_json kv.2 /\ go m' end) m
  | _ => True
  end.

Lemma obj_insert_last k v acc :
  Forall (fun a => String.compare a.1 k = Lt) acc -> obj_insert k v acc = acc ++ [(k, v)].
Proof.
  induction 1 as [|[k' v'] acc Hk _ IH]; [done|]. cbn [obj_insert app]. cbn in Hk.
  rewrite String.compare_antisym, Hk. cbn. by rewrite IH.
Qed.

Lemma resolve_literal render state j :
  no_templates j = true -> sorted_json j -> resolve_json_templates render state j = Ok j.
Proof.
  induction j as [|b|n|s|l IH|m IH] using json_strong_ind; intros Hn Hs; try done.
  - cbn in *. by destruct (has_templates s).
  - cbn [resolve_json_templates]. enough (try_map (resolve_json_templates render state) l = Ok l) as -> by done.
    cbn in Hn, Hs. induction IH as [|x l Hx _ IHl]; [done|]. cbn [forallb] in Hn.
    apply andb_prop in Hn as [Hn1 Hn2]. destruct Hs as [Hs1 Hs2].
    cbn [try_map]. rewrite Hx by done. cbn. by rewrite IHl.
  - cbn in Hn, Hs. destruct Hs as [Hsort Hs]. cbn [resolve_json_templates].
    match goal with |- (mbind _ (?go m [])) = _ =>
      enough (forall m acc, Forall (fun kv => resolve_json_templates render state kv.2 = Ok kv.2) m ->
        sorted_obj (acc ++ m) -> go m acc = Ok (acc ++ m)) as Hgo
    end.
    + rewrite Hgo; [done| |done]. clear Hgo Hsort.
      induction IH as [|x l Hx _ IHl]; [constructor|]. cbn [forallb] in Hn.
      apply andb_prop in Hn as [Hn1 Hn2]. destruct Hs as [Hs1 Hs2].
      constructor; [by apply Hx|by apply IHl].
    + clear. intros m. induction m as [|[k v] m IHm]; intros acc Hm Hsorted.
      * by rewrite app_nil_r.
      * apply Forall_cons in Hm as [Hv Hm]. cbn in Hv. rewrite Hv. cbn [mbind result_bind].
        rewrite obj_insert_last, IHm; [by rewrite <- app_assoc|done|by rewrite <- app_assoc|].
        unfold sorted_obj in Hsorted. clear -Hsorted.
        induction acc as [|a acc IHa]; [constructor|].
        apply StronglySorted_inv in Hsorted as [Hsorted Ha]. constructor; [|by apply IHa].
        rewrite Forall_app, Forall_cons in Ha. apply Ha.
Qed.

(** * The inputs of a step *)

(** What [resolve_inputs] computes: every key with the value of its
    expression. *)
Definition resolved_by (f : expr -> result string json) (inputs : gmap string expr)
    (m : gmap string json) : Prop :=
  forall k, m !! k = inputs !! k ≫= fun e => to_option (f e).

Lemma resolve_entries_Ok render state l resolved m :
  NoDup l.*1 ->
  resolve_entries render state l resolved = Ok m <->
  Forall (fun ke => is_ok (resolve_expr render state ke.2) = true) l /\
  forall k, m !! k
    = match (list_to_map l : gmap string expr) !! k with
      | Some e => to_option (resolve_expr render state e)
      | None => resolved !! k
      end.
Proof.
  revert resolved. induction l as [|[k e] l IH]; intros resolved Hnd; cbn [resolve_entries].
  { split.
    - intros [= ->]. split; [constructor|]. intros k. by rewrite list_to_map_nil, lookup_empty.
    - intros [_ H]. f_equal. symmetry. apply map_eq. intros k. by rewrite H, list_to_map_nil, lookup_empty. }
  cbn in Hnd. apply NoDup_cons in Hnd as [Hk Hnd]. rewrite Forall_cons. rewrite list_to_map_cons. cbn [snd fst].
  destruct (resolve_expr render state e) as [v|err] eqn:He; cbn [mbind result_bind is_ok]; cycle 1.
  { split; [done|]. by intros [[? _] _]. }
  rewrite IH by done. split; intros [Hf H]; (split; [tauto|]); intros k'; rewrite H;
    (destruct (decide (k = k')) as [<-|Hne];
      [|by rewrite ?lookup_insert_ne by done]).
  - rewrite not_elem_of_list_to_map_1 by done. by rewrite !lookup_insert_eq, He.
  - rewrite lookup_insert_eq, He. rewrite not_elem_of_list_to_map_1 by done. by rewrite lookup_insert_eq.
Qed.

(** The inputs of a step resolve exactly when each of its expressions
    does, to the map of their values, and in whatever order the hash map is
    iterated. *)
Theorem resolve_inputs_order render state inputs l m :
  l ≡ₚ map_to_list inputs ->
  (resolve_entries render state l ∅ = Ok m <-> resolve_inputs render state inputs = Ok m) /\
  (resolve_inputs render state inputs = Ok m <->
     map_Forall (fun _ e => is_ok (resolve_expr render state e) = true) inputs /\
     resolved_by (resolve_expr render state) inputs m).
Proof.
  intros Hperm. assert (forall l, l ≡ₚ map_to_list inputs ->
    resolve_entries render state l ∅ = Ok m <->
    map_Forall (fun _ e => is_ok (resolve_expr render state e) = true) inputs /\
    resolved_by (resolve_expr render state) inputs m) as H.
  { clear l Hperm. intros l Hperm.
    assert (NoDup l.*1) as Hnd by (rewrite Hperm; apply NoDup_fst_map_to_list).
    rewrite resolve_entries_Ok by done.
    assert (list_to_map l = inputs) as -> by
      (rewrite <- (list_to_map_to_list inputs); by apply list_to_map_proper).
    rewrite (map_Forall_to_list _ inputs), <- Hperm. unfold resolved_by.
    enough ((forall k, m !! k = match inputs !! k with
        Some e => to_option (resolve_expr render state e) | None => (∅ : gmap string json) !! k end) <->
      forall k, m !! k = inputs !! k ≫= fun e => to_option (resolve_expr render state e)) as ->.
    { apply and_iff_compat_r. apply Forall_iff. by intros []. }
    split; intros Hk k; rewrite Hk; by destruct (inputs !! k). }
  unfold resolve_inputs. rewrite !H by done. done.
Qed.

Lemma resolve_inputs_order_witness :
  resolve_entries (fun _ _ => Err "not called") ∅ [("b", Literal "x"); ("a", Json JNull)] ∅
  = Ok {["a" := JNull; "b" := JString "x"]} /\
  resolve_inputs (fun _ _ => Err "not called") ∅ {["a" := Json JNull; "b" := Literal "x"]}
  = Ok {["a" := JNull; "b" := JString "x"]}.
Proof.
  assert (resolve_entries (fun _ _ => Err "not called") ∅ [("b", Literal "x"); ("a", Json JNull)] ∅
    = Ok {["a" := JNull; "b" := JString "x"]}) as H by (vm_compute; reflexivity).
  split; [exact H|].
  refine (proj1 (proj1 (resolve_inputs_order (fun _ _ => Err "not called") ∅
    {["a" := Json JNull; "b" := Literal "x"]} [("b", Literal "x"); ("a", Json JNull)] _ _)) H).
  rewrite map_to_list_insert by reflexivity. rewrite map_to_list_singleton. apply Permutation_swap.
Defined.
