(* ===== verification/Config.v ===== *)
(** The engine configuration ([konflux-substrate/src/engine.rs],
    [EngineConfig]). *)

From S2P Require Import Prelude.

Local Open Scope string_scope.
Local Open Scope Z_scope.

(** [EngineConfig]. *)
Record engine_config : Type := EngineConfig {
  max_steps : Z;
  default_timeout_ms : Z;
  max_workflow_timeout_ms : Z;
  stream_buffer : Z;
  finished_channel_size : Z;
  default_retry_backoff_ms : Z;
  max_yaml_size : Z;
  max_concurrent_nodes : Z;
  default_retry_base_delay_ms : Z;
  default_retry_max_delay_ms : Z;
}.

(** [EngineConfig::default]. *)
Definition config_default : engine_config := {|
  max_steps := 1000;
  default_timeout_ms := 30000;
  max_workflow_timeout_ms := 300000;
  stream_buffer := 256;
  finished_channel_size := 100;
  default_retry_backoff_ms := 250;
  max_yaml_size := 10485760;
  max_concurrent_nodes := 50;
  default_retry_base_delay_ms := 1000;
  default_retry_max_delay_ms := 30000;
|}.

(** [EngineConfig::validate]. *)
Definition config_validate (c : engine_config) : result string unit :=
  if max_steps c =? 0 then Err "max_steps must be > 0"
  else if default_timeout_ms c =? 0 then Err "default_timeout_ms must be > 0"
  else if stream_buffer c =? 0 then Err "stream_buffer must be > 0"
  else if finished_channel_size c =? 0 then Err "finished_channel_size must be > 0"
  else if max_yaml_size c =? 0 then Err "max_yaml_size must be > 0"
  else if max_concurrent_nodes c =? 0 then Err "max_concurrent_nodes must be > 0"
  else if default_retry_base_delay_ms c =? 0 then Err "default_retry_base_delay_ms must be > 0"
  else if default_retry_max_delay_ms c =? 0 then Err "default_retry_max_delay_ms must be > 0"
  else Ok tt.
