(* ===== verification/Schema.v ===== *)
(** The schema of workflow files ([konflux-substrate/src/parser/schema.rs]):
    what deserialisation of the YAML yields.  An [IndexMap] is the list of
    its entries in insertion order; a [HashMap] whose iteration order shows is
    the list of its entries in that order. *)

From S2P Require Import Prelude Json Workflow.

Local Open Scope string_scope.

(** [ParallelTaskConfig]. *)
Record parallel_task : Type := ParallelTask { pt_tool : string; pt_with : option json }.

(** [DoBlock]. *)
Inductive do_block : Type :=
  | DoSingle (tool : string)
  | DoParallel (tasks : list (list (string * parallel_task))).

(** [PipeStepSchema]. *)
Inductive pipe_step_schema : Type :=
  | PipeSimple (tool : string)
  | PipeWithArgs (m : list (string * json))
  | PipeFull (do_ : string) (with_ : option json).

(** [ThenBranchSchema]. *)
Record then_branch : Type := ThenBranch {
  tb_when : option string;
  tb_then : option string;
  tb_goto : option string;
  tb_else : option bool;
}.

(** [ThenBlock]. *)
Inductive then_block : Type :=
  | Unconditional (target : string)
  | Multiple (targets : list string)
  | Conditional (branches : list then_branch).

(** [CatchBranchSchema]. *)
Record catch_branch : Type := CatchBranch {
  cb_when : option json;
  cb_do : option string;
  cb_with : option json;
  cb_then : option string;
  cb_else : option bool;
}.

(** [CatchBlock]. *)
Inductive catch_block : Type :=
  | CatchSimple (target : string)
  | CatchBranches (branches : list catch_branch).

(** [CatchBlock::default]. *)
Definition catch_default : catch_block := CatchBranches [].

(** [CatchBranchSchema::is_match]. *)
Definition is_match (b : catch_branch) : bool :=
  if default false (cb_else b) then true
  else
    match cb_when b with
    | None => true
    | Some (JBool b) => b
    | Some (JString s) => String.eqb s "true"
    | _ => false
    end.

(** [RetryConfigSchema]. *)
Record retry_schema : Type := RetrySchema {
  rs_times : Z;
  rs_delay : option string;
  rs_backoff : option string;
  rs_max_delay : option string;
  rs_on : option (list string);
}.

(** [RepeatConfigSchema]. *)
Record repeat_schema : Type := RepeatSchema {
  rp_until : string;
  rp_max : Z;
  rp_as : option string;
}.

(** [JoinConfigSchema]. *)
Record join_schema : Type := JoinSchema {
  js_wait_for : list string;
  js_policy : option string;
}.

(** [StreamConfigSchema]. *)
Inductive stream_schema : Type :=
  | StreamNone
  | StreamEnabled (b : bool)
  | StreamModeName (s : string).

(** [StreamConfigSchema::to_mode].  The names are ASCII and no other letter
    lowercases to theirs, so lowercasing the ASCII letters is enough. *)
Definition to_mode (s : stream_schema) : stream_mode :=
  match s with
  | StreamNone => StreamDefault
  | StreamEnabled true => StreamPassthrough
  | StreamEnabled false => StreamDefault
  | StreamModeName s =>
      let l := to_ascii_lowercase s in
      if (String.eqb l "passthrough" || String.eqb l "pass" || String.eqb l "stream")%bool
      then StreamPassthrough else StreamDefault
  end.

(** [NodeSchema]. *)
Record node_schema : Type := NodeSchema {
  ns_do : option do_block;
  ns_with : option json;
  ns_pipe : list pipe_step_schema;
  ns_then : option then_block;
  ns_catch : catch_block;
  ns_retry : option retry_schema;
  ns_timeout : option string;
  ns_entry : option bool;
  ns_repeat : option repeat_schema;
  ns_stream : stream_schema;
  ns_return : option json;
  ns_join : option join_schema;
  ns_credentials : gmap string string;
  ns_grant : option (list string);
}.

(** [WorkflowSchema]. *)
Record workflow_schema : Type := WorkflowSchema {
  ws_workflow : string;
  ws_version : string;
  ws_description : option string;
  ws_capabilities : list string;
  ws_input_schema : option json;
  ws_output_schema : option json;
  ws_register_as_tool : bool;
  ws_nodes : list (string * node_schema);
}.

(** The keys of the node map. *)
Definition node_names (schema : workflow_schema) : list string := (ws_nodes schema).*1.

(** [IndexMap::get] on the nodes. *)
Definition get_node (schema : workflow_schema) (name : string) : option node_schema :=
  snd <$> List.find (fun kv => String.eqb kv.1 name) (ws_nodes schema).

(** The target of a conditional branch: [then], else [goto]. *)
Definition branch_target (b : then_branch) : option string :=
  match tb_then b with Some t => Some t | None => tb_goto b end.

(** A node with nothing but a tool, and the setters the examples use. *)
Definition node_of (tool : option string) (next : option then_block) (ret : option json) : node_schema := {|
  ns_do := DoSingle <$> tool; ns_with := None; ns_pipe := []; ns_then := next;
  ns_catch := catch_default; ns_retry := None; ns_timeout := None; ns_entry := None;
  ns_repeat := None; ns_stream := StreamNone; ns_return := ret; ns_join := None;
  ns_credentials := ∅; ns_grant := None |}.

Definition schema_of (name : string) (caps : list string) (nodes : list (string * node_schema))
  : workflow_schema := {|
  ws_workflow := name; ws_version := "0.1.0"; ws_description := None; ws_capabilities := caps;
  ws_input_schema := None; ws_output_schema := None; ws_register_as_tool := false;
  ws_nodes := nodes |}.
