(* ===== verification/Validator.v ===== *)
(** Validation of parsed workflows ([konflux-substrate/src/parser/validator.rs]):
    known targets, allowed tools, a search for cycles that also decides
    reachability, a node that returns. *)

From S2P Require Import Prelude Dfs Json Error Envelope Workflow Schema.
From Stdlib Require Import Ascii.

Local Open Scope string_scope.
Local Open Scope list_scope.

Section Validator.
Context (schema : workflow_schema).

(** [node_names.contains]. *)
Definition known (name : string) : bool := bool_decide (name ∈ node_names schema).

(** The test of [Validator::check_tool] on one declared capability. *)
Definition cap_allows (tool cap : string) : bool :=
  if String.eqb cap "*" then true
  else
    match strip_suffix ":*" cap with
    | Some prefix =>
        (starts_with tool prefix
         && bool_decide (String.get (String.length prefix) tool = Some ":"%char))%bool
    | None => String.eqb cap tool
    end.

(** [Validator::check_tool]. *)
Definition v_check_tool (tool : string) : result validation_error unit :=
  match ws_capabilities schema with
  | [] => Ok tt
  | caps => if existsb (cap_allows tool) caps then Ok tt else Err (MissingCapability tool)
  end.

(** A reference from node [from] to [target]. *)
Definition check_target (from target : string) : result validation_error unit :=
  if known target then Ok tt else Err (UnknownNode target from).

(** The inline tool of a catch branch. *)
Definition is_inline_action (do_ : string) : bool :=
  String.eqb do_ "skip" || String.eqb do_ "continue" || starts_with do_ "fallback:".

Definition validate_do (d : do_block) : result validation_error unit :=
  match d with
  | DoSingle tool => v_check_tool tool
  | DoParallel tasks => try_each (try_each (fun kt => v_check_tool (pt_tool kt.2))) tasks
  end.

Definition validate_pipe_step (p : pipe_step_schema) : result validation_error unit :=
  match p with
  | PipeSimple tool => v_check_tool tool
  | PipeWithArgs ((tool, _) :: _) => v_check_tool tool
  | PipeWithArgs [] => Ok tt
  | PipeFull do_ _ => v_check_tool do_
  end.

Definition validate_then (name : string) (t : then_block) : result validation_error unit :=
  match t with
  | Unconditional target => check_target name target
  | Multiple targets => try_each (check_target name) targets
  | Conditional branches =>
      try_each (fun b => match branch_target b with
                         | Some t => check_target name t
                         | None => Ok tt
                         end) branches
  end.

Definition validate_catch_branch (name : string) (b : catch_branch) : result validation_error unit :=
  _ ← match cb_then b with Some target => check_target name target | None => Ok tt end;
  match cb_do b with
  | Some do_ => if is_inline_action do_ then Ok tt else v_check_tool do_
  | None => Ok tt
  end.

Definition validate_catch (name : string) (c : catch_block) : result validation_error unit :=
  match c with
  | CatchSimple target => check_target name target
  | CatchBranches branches => try_each (validate_catch_branch name) branches
  end.

(** [Validator::validate_node]. *)
Definition validate_node (name : string) (node : node_schema) : result validation_error unit :=
  _ ← match ns_do node with Some d => validate_do d | None => Ok tt end;
  _ ← try_each validate_pipe_step (ns_pipe node);
  _ ← match ns_then node with Some t => validate_then name t | None => Ok tt end;
  validate_catch name (ns_catch node).

(** ** Reachability and cycles *)

Definition then_targets (t : then_block) : list string :=
  match t with
  | Unconditional target => [target]
  | Multiple targets => targets
  | Conditional branches => omap branch_target branches
  end.

Definition catch_targets (c : catch_block) : list string :=
  match c with
  | CatchSimple target => [target]
  | CatchBranches branches => omap cb_then branches
  end.

(** The nodes [Validator::dfs] goes on to from a node, in order: the targets
    of [then], then those of [catch]. *)
Definition node_successors (name : string) : list string :=
  match get_node schema name with
  | Some node =>
      match ns_then node with Some t => then_targets t | None => [] end
      ++ catch_targets (ns_catch node)
  | None => []
  end.

(** The three mutable arguments of the search. *)
Record search : Type := Search {
  visited : gset string;
  path : list string;
  reachable : gset string;
}.

(** The calls of [Validator::dfs] on a list of targets, each with [?]. *)
Fixpoint v_dfs_list
    (rec : string -> search -> option (result validation_error search))
    (targets : list string) (s : search) : option (result validation_error search) :=
  match targets with
  | [] => Some (Ok s)
  | t :: rest =>
      match rec t s with
      | Some (Ok s) => v_dfs_list rec rest s
      | other => other
      end
  end.

(** [Validator::dfs]. *)
Fixpoint v_dfs (fuel : nat) (current : string) (s : search)
  : option (result validation_error search) :=
  match fuel with
  | O => None
  | S fuel =>
      if bool_decide (current ∈ path s) then Some (Err (CycleDetected (path s ++ [current])))
      else
        let s := Search (visited s) (path s) ({[current]} ∪ reachable s) in
        if bool_decide (current ∈ visited s) then Some (Ok s)
        else
          let s := Search ({[current]} ∪ visited s) (path s ++ [current]) (reachable s) in
          match v_dfs_list (v_dfs fuel) (node_successors current) s with
          | Some (Ok s) => Some (Ok (Search (visited s) (removelast (path s)) (reachable s)))
          | other => other
          end
  end.

(** The open nodes are distinct names of nodes. *)
Definition v_fuel : nat := S (S (length (ws_nodes schema))).

(** [Validator::check_reachability_and_cycles].  The source goes through the
    hash set of the names; which of several orphans is reported depends on
    its order, here the order of the file. *)
Definition check_reachability_and_cycles (entry_id : string)
  : option (result validation_error unit) :=
  match v_dfs v_fuel entry_id (Search ∅ [] ∅) with
  | Some (Ok s) =>
      Some (try_each (fun n => if bool_decide (n ∈ reachable s) then Ok tt
                               else Err (OrphanedNode n)) (node_names schema))
  | Some (Err e) => Some (Err e)
  | None => None
  end.

(** [Validator::check_terminals]. *)
Definition check_terminals : result validation_error unit :=
  if existsb (fun kv => bool_decide (is_Some (ns_return kv.2))) (ws_nodes schema) then Ok tt
  else Err NoReturnNode.

(** [validator::validate]; [None] only if the search ran out of fuel. *)
Definition validate_schema : option (result validation_error unit) :=
  match ws_nodes schema with
  | [] => Some (Err NoEntryNode)
  | (entry_id, _) :: _ =>
      match try_each (fun kv => validate_node kv.1 kv.2) (ws_nodes schema) with
      | Err e => Some (Err e)
      | Ok _ =>
          match check_reachability_and_cycles entry_id with
          | Some (Ok _) => Some check_terminals
          | other => other
          end
      end
  end.
End Validator.

(** * The search, against [Dfs] *)

Section Search.
Context (schema : workflow_schema).
#[local] Abbreviation succ := (node_successors schema).

(** Visited nodes are the open and the finished ones; all are reachable. *)
Definition search_ok (s : search) (open : list string) (finished : gset string) : Prop :=
  path s = open /\
  (forall x, x ∈ visited s <-> x ∈ open \/ x ∈ finished) /\
  (forall x, x ∈ reachable s <-> x ∈ open \/ x ∈ finished).

Definition v_simulates (open : list string) (r : result (list string) (gset string))
    (o : option (result validation_error search)) : Prop :=
  match r with
  | Err p => o = Some (Err (CycleDetected p))
  | Ok finished => exists s, o = Some (Ok s) /\ search_ok s open finished
  end.

Lemma v_dfs_simulates fuel : forall n s open finished r,
  search_ok s open finished -> dfs succ fuel open finished n = Some r ->
  v_simulates open r (v_dfs schema fuel n s).
Proof.
  induction fuel as [|fuel IH]; intros n s open finished r HR; [done|].
  assert (forall l s open finished r, search_ok s open finished ->
    dfs_list succ fuel open l finished = Some r ->
    v_simulates open r (v_dfs_list (v_dfs schema fuel) l s)) as Hlist.
  { clear -IH. induction l as [|m l IHl]; intros s open finished r HR; cbn [dfs_list v_dfs_list].
    { intros [= <-]. by exists s. }
    destruct (dfs succ fuel open finished m) as [[f|p]|] eqn:Hm; [| |done].
    - apply (IH m s) in Hm as (s' & -> & HR'); [|done]. by apply IHl.
    - apply (IH m s) in Hm; [|done]. cbn in Hm. rewrite Hm. by intros [= <-]. }
  destruct HR as (Hp & Hv & Hr). rewrite dfs_S. cbn [v_dfs]. rewrite Hp.
  case_decide as Hopen.
  { rewrite bool_decide_eq_true_2 by done. by intros [= <-]. }
  rewrite bool_decide_eq_false_2 by done. cbn [visited path reachable].
  case_decide as Hfin.
  { rewrite bool_decide_eq_true_2 by (apply Hv; by right). intros [= <-].
    eexists. split; [done|]. split_and!; [done|exact Hv|]. cbn. set_solver. }
  rewrite bool_decide_eq_false_2 by (rewrite Hv; tauto).
  destruct (dfs_list succ fuel (open ++ [n]) (succ n) finished) as [rl|] eqn:El; [|done].
  apply (Hlist _ (Search ({[n]} ∪ visited s) (open ++ [n]) ({[n]} ∪ reachable s))) in El;
    [|split_and!; [done|cbn; set_solver|cbn; set_solver]].
  destruct rl as [f|p]; intros [= <-]; cbn in El; [|by rewrite El].
  destruct El as (s' & -> & Hp' & Hv' & Hr'). eexists. split; [done|].
  rewrite Hp', removelast_last. split_and!; cbn; [done|set_solver|set_solver].
Qed.

(** The search from the entry, on a schema whose targets are all known. *)
Lemma v_dfs_root entry :
  NoDup (node_names schema) -> entry ∈ node_names schema ->
  (forall x y, x ∈ node_names schema -> y ∈ succ x -> y ∈ node_names schema) ->
  match v_dfs schema (v_fuel schema) entry (Search ∅ [] ∅) with
  | Some (Ok s) =>
      acyclic succ (fun x => rtc (Dfs.edge succ) entry x) /\
      forall x, x ∈ reachable s <-> rtc (Dfs.edge succ) entry x
  | Some (Err e) => exists p, e = CycleDetected p /\ closes_cycle succ p
  | None => False
  end.
Proof.
  intros Hnd Hentry Hcl.
  pose proof (dfs_total succ (list_to_set (node_names schema)) (v_fuel schema)) as Ht.
  specialize (Ht ltac:(intros x y; rewrite !elem_of_list_to_set; apply Hcl) [] ∅ entry).
  specialize (Ht ltac:(constructor) ltac:(set_solver) ltac:(by apply elem_of_list_to_set)).
  specialize (Ht ltac:(rewrite size_list_to_set by done; unfold v_fuel, node_names;
                       rewrite length_fmap; lia)).
  generalize dependent (v_fuel schema). intros fuel Ht.
  destruct (dfs succ fuel [] ∅ entry) as [r|] eqn:E; [|done].
  assert (search_ok (Search ∅ [] ∅) [] ∅) as HR by (split_and!; [done|cbn; set_solver|cbn; set_solver]).
  pose proof (v_dfs_simulates _ _ _ _ _ _ HR E) as Hs.
  destruct r as [f|p]; cbn in Hs.
  - destruct Hs as (s & -> & _ & _ & Hr). apply dfs_root_Ok in E as [[_ Hac] Hf]. split.
    + intros x Hx. apply Hac. by apply Hf.
    + intros x. rewrite Hr, <- Hf. set_solver.
  - rewrite Hs. exists p. split; [done|]. by apply (dfs_Err succ fuel [] ∅ entry p).
Qed.
End Search.

(** * What validation decides *)

(** The tools a node names, and its successors by node. *)
Definition do_tools (d : do_block) : list string :=
  match d with
  | DoSingle tool => [tool]
  | DoParallel tasks => map (fun kt => pt_tool kt.2) (concat tasks)
  end.

Definition pipe_tools (p : pipe_step_schema) : list string :=
  match p with
  | PipeSimple tool | PipeFull tool _ => [tool]
  | PipeWithArgs m => match m with (tool, _) :: _ => [tool] | [] => [] end
  end.

Definition catch_tools (c : catch_block) : list string :=
  match c with
  | CatchSimple _ => []
  | CatchBranches branches =>
      omap (fun b => match cb_do b with
                     | Some do_ => if is_inline_action do_ then None else Some do_
                     | None => None
                     end) branches
  end.

Definition node_tools (node : node_schema) : list string :=
  match ns_do node with Some d => do_tools d | None => [] end
  ++ concat (map pipe_tools (ns_pipe node)) ++ catch_tools (ns_catch node).

Definition node_targets (node : node_schema) : list string :=
  match ns_then node with Some t => then_targets t | None => [] end
  ++ catch_targets (ns_catch node).

(** A tool is allowed when no capability is declared or one of the declared
    patterns grants it. *)
Definition tool_allowed (schema : workflow_schema) (tool : string) : Prop :=
  ws_capabilities schema = [] \/
  check_access (from_patterns (ws_capabilities schema)) tool = Ok tt.

Record valid_schema (schema : workflow_schema) : Prop := {
  vs_tools : forall name node tool, (name, node) ∈ ws_nodes schema ->
    tool ∈ node_tools node -> tool_allowed schema tool;
  vs_targets : forall name node t, (name, node) ∈ ws_nodes schema ->
    t ∈ node_targets node -> t ∈ node_names schema;
  vs_acyclic : forall x, ~ tc (Dfs.edge (node_successors schema)) x x;
  vs_reachable : exists entry, head (node_names schema) = Some entry /\
    forall x, x ∈ node_names schema -> rtc (Dfs.edge (node_successors schema)) entry x;
  vs_returns : exists name node, (name, node) ∈ ws_nodes schema /\ is_Some (ns_return node);
}.

Section Decides.
Context (schema : workflow_schema).

Lemma v_check_tool_Ok tool : v_check_tool schema tool = Ok tt <-> tool_allowed schema tool.
Proof.
  unfold v_check_tool, tool_allowed. rewrite check_access_Ok, <- existsb_matches.
  unfold from_patterns. destruct (ws_capabilities schema) as [|c caps]; [tauto|].
  assert (existsb (fun c => matches c tool) (map Capability (c :: caps))
    = existsb (cap_allows tool) (c :: caps)) as ->.
  { induction (c :: caps) as [|c' l IH]; [done|]. cbn [existsb map]. by rewrite IH. }
  destruct (existsb _ _); split; try done; [by right|by intros [|]].
Qed.

Lemma check_target_Ok name t : check_target schema name t = Ok tt <-> t ∈ node_names schema.
Proof. unfold check_target, known. case_bool_decide; by split. Qed.

Lemma bind_unit_Ok {E} (r r' : result E unit) :
  (r ≫= fun _ => r') = Ok tt <-> r = Ok tt /\ r' = Ok tt.
Proof. destruct r as [[]|]; cbn; [tauto|]. split; [done|by intros []]. Qed.

Lemma Forall_check {A E} (f : A -> result E unit) (P : A -> Prop) l :
  (forall x, f x = Ok tt <-> P x) -> try_each f l = Ok tt <-> Forall P l.
Proof. intros Hf. rewrite try_each_Ok. by apply Forall_iff. Qed.

Lemma Forall_omap {A B} (f : A -> option B) (P : B -> Prop) l :
  Forall P (omap f l) <-> Forall (fun x => match f x with Some y => P y | None => True end) l.
Proof.
  induction l as [|x l IH]; cbn; [by split|]. rewrite Forall_cons, <- IH.
  destruct (f x); [rewrite Forall_cons|]; tauto.
Qed.

Lemma Forall_one {A} (P : A -> Prop) x : Forall P [x] <-> P x.
Proof. rewrite Forall_cons. split; [tauto|]. intros. by split. Qed.

Lemma validate_do_Ok d : validate_do schema d = Ok tt <-> Forall (tool_allowed schema) (do_tools d).
Proof.
  destruct d as [tool|tasks]; cbn [validate_do do_tools].
  - by rewrite Forall_one, v_check_tool_Ok.
  - rewrite Forall_map. induction tasks as [|t tasks IH]; cbn [try_each concat]; [by split|].
    rewrite bind_unit_Ok, Forall_app, IH. apply and_iff_compat_r. apply Forall_check.
    intros kt. apply v_check_tool_Ok.
Qed.

Lemma validate_pipe_step_Ok p :
  validate_pipe_step schema p = Ok tt <-> Forall (tool_allowed schema) (pipe_tools p).
Proof.
  destruct p as [tool|[|[tool v] m]|tool w]; cbn [validate_pipe_step pipe_tools];
    [|by split|..]; by rewrite Forall_one, v_check_tool_Ok.
Qed.

Lemma validate_then_Ok name t :
  validate_then schema name t = Ok tt <-> Forall (fun t => t ∈ node_names schema) (then_targets t).
Proof.
  destruct t as [t|ts|bs]; cbn [validate_then then_targets].
  - by rewrite Forall_one, check_target_Ok.
  - apply Forall_check. intros. apply check_target_Ok.
  - rewrite Forall_omap. apply Forall_check. intros b. destruct (branch_target b); [|by split].
    apply check_target_Ok.
Qed.

Lemma validate_catch_Ok name c :
  validate_catch schema name c = Ok tt <->
  Forall (tool_allowed schema) (catch_tools c) /\
  Forall (fun t => t ∈ node_names schema) (catch_targets c).
Proof.
  destruct c as [t|bs]; cbn [validate_catch catch_tools catch_targets].
  - rewrite check_target_Ok, Forall_one. split; [by split|by intros [_ ?]].
  - rewrite !Forall_omap, <- Forall_and. apply Forall_check. intros b.
    unfold validate_catch_branch. rewrite bind_unit_Ok.
    destruct (cb_then b) as [t|], (cb_do b) as [d|]; try destruct (is_inline_action d);
      rewrite ?check_target_Ok, ?v_check_tool_Ok; intuition.
Qed.

Lemma validate_node_Ok name node :
  validate_node schema name node = Ok tt <->
  Forall (tool_allowed schema) (node_tools node) /\
  Forall (fun t => t ∈ node_names schema) (node_targets node).
Proof.
  unfold validate_node, node_tools, node_targets.
  rewrite !bind_unit_Ok, !Forall_app, validate_catch_Ok, (Forall_check _ _ _ validate_pipe_step_Ok).
  assert (Forall (tool_allowed schema) (concat (map pipe_tools (ns_pipe node))) <->
    Forall (fun p => Forall (tool_allowed schema) (pipe_tools p)) (ns_pipe node)) as ->.
  { by rewrite Forall_concat, Forall_map. }
  assert (match ns_do node with Some d => validate_do schema d | None => Ok tt end = Ok tt <->
    Forall (tool_allowed schema) match ns_do node with Some d => do_tools d | None => [] end) as ->
    by (destruct (ns_do node); [apply validate_do_Ok|by split]).
  assert (match ns_then node with Some t => validate_then schema name t | None => Ok tt end = Ok tt <->
    Forall (fun t => t ∈ node_names schema)
      match ns_then node with Some t => then_targets t | None => [] end) as ->
    by (destruct (ns_then node); [apply validate_then_Ok|by split]).
  tauto.
Qed.

Lemma get_node_In name node : get_node schema name = Some node -> (name, node) ∈ ws_nodes schema.
Proof.
  unfold get_node. intros ([k v] & Hf & [= <-])%fmap_Some.
  apply List.find_some in Hf as [Hin Hk%String.eqb_eq]. cbn in Hk. subst k. by apply list_elem_of_In.
Qed.

Lemma node_successors_targets name t :
  t ∈ node_successors schema name -> exists node, (name, node) ∈ ws_nodes schema /\ t ∈ node_targets node.
Proof.
  unfold node_successors. destruct (get_node schema name) as [node|] eqn:E; [|set_solver].
  intros Ht. exists node. split; [by apply get_node_In|done].
Qed.

Lemma validate_nodes_Ok :
  try_each (fun kv => validate_node schema kv.1 kv.2) (ws_nodes schema) = Ok tt <->
  (forall name node tool, (name, node) ∈ ws_nodes schema ->
     tool ∈ node_tools node -> tool_allowed schema tool) /\
  (forall name node t, (name, node) ∈ ws_nodes schema ->
     t ∈ node_targets node -> t ∈ node_names schema).
Proof.
  rewrite try_each_Ok, Forall_forall. setoid_rewrite validate_node_Ok.
  setoid_rewrite Forall_forall. split.
  - intros H. split; intros name node x Hin Hx; by apply (H (name, node) Hin).
  - intros [Ht Hn] [name node] Hin. split; intros x Hx; [by eapply Ht|by eapply Hn].
Qed.

Lemma check_terminals_Ok :
  check_terminals schema = Ok tt <->
  exists name node, (name, node) ∈ ws_nodes schema /\ is_Some (ns_return node).
Proof.
  assert (existsb (fun kv => bool_decide (is_Some (ns_return kv.2))) (ws_nodes schema) = true <->
    exists name node, (name, node) ∈ ws_nodes schema /\ is_Some (ns_return node)) as H.
  { rewrite existsb_exists. setoid_rewrite bool_decide_eq_true. setoid_rewrite <- list_elem_of_In.
    split; [intros ([name node] & ? & ?); by exists name, node|].
    intros (name & node & ? & ?). by exists (name, node). }
  rewrite <- H. unfold check_terminals. by destruct (existsb _ _).
Qed.

Lemma check_reachability_spec entry :
  NoDup (node_names schema) -> head (node_names schema) = Some entry ->
  (forall x y, x ∈ node_names schema -> y ∈ node_successors schema x -> y ∈ node_names schema) ->
  exists r, check_reachability_and_cycles schema entry = Some r /\
    (r = Ok tt <->
      (forall x, ~ tc (Dfs.edge (node_successors schema)) x x) /\
      forall x, x ∈ node_names schema -> rtc (Dfs.edge (node_successors schema)) entry x) /\
    (forall p, r = Err (CycleDetected p) -> closes_cycle (node_successors schema) p).
Proof.
  intros Hnd Hhead Hcl. unfold check_reachability_and_cycles.
  assert (entry ∈ node_names schema) as Hentry
    by (destruct (node_names schema); [done|injection Hhead as ->; by left]).
  pose proof (v_dfs_root schema entry Hnd Hentry Hcl) as Hv.
  destruct (v_dfs schema (v_fuel schema) entry (Search ∅ [] ∅)) as [[s|e]|]; [| |done].
  - destruct Hv as [Hac Hr]. eexists. split_and!; [done| |].
    + assert (forall n, (if bool_decide (n ∈ reachable s) then Ok tt else Err (OrphanedNode n)) = Ok tt <->
        n ∈ reachable s) as Hn by (intros n; case_bool_decide; by split).
      rewrite (Forall_check _ _ _ Hn), Forall_forall. setoid_rewrite Hr. split; [|tauto].
      intros Hall. split; [|done]. intros x Hx. apply (Hac x); [|done]. apply Hall.
      inversion Hx as [? y Hy|y ? ? Hy _]; subst; unfold Dfs.edge, node_successors in Hy;
        (destruct (get_node schema x) as [node|] eqn:E; [|set_solver]);
        apply get_node_In in E; apply list_elem_of_fmap; by exists (x, node).
    + intros p (n & _ & Hn)%try_each_Err. by case_bool_decide.
  - destruct Hv as (p & -> & Hp). eexists. split_and!; [done| |by intros p' [= <-]].
    split; [done|]. intros [Hac _]. apply closes_cycle_tc in Hp as [x Hx]. by destruct (Hac x).
Qed.
End Decides.

Lemma validate_schema_spec schema :
  NoDup (node_names schema) ->
  exists r, validate_schema schema = Some r /\ (r = Ok tt <-> valid_schema schema).
Proof.
  intros Hnd. unfold validate_schema.
  destruct (ws_nodes schema) as [|[entry node] nodes] eqn:Hnodes.
  { eexists. split; [done|]. split; [done|]. intros [_ _ _ _ (n & d & Hin & _)].
    rewrite Hnodes in Hin. set_solver. }
  rewrite <- Hnodes.
  assert (head (node_names schema) = Some entry) as Hhead by (unfold node_names; by rewrite Hnodes).
  destruct (try_each _ (ws_nodes schema)) as [[]|e] eqn:Hv; cycle 1.
  { eexists. split; [done|]. split; [done|]. intros [Ht Hg _ _ _].
    pose proof (proj2 (validate_nodes_Ok schema) (conj Ht Hg)). congruence. }
  apply validate_nodes_Ok in Hv as [Ht Hg].
  destruct (check_reachability_spec schema entry Hnd Hhead) as (r & -> & Hr & _).
  { intros x y _ (n & Hin & Hy)%node_successors_targets. by eapply Hg. }
  destruct r as [[]|e].
  - eexists. split; [done|]. rewrite check_terminals_Ok. destruct (proj1 Hr eq_refl) as [Hac Hre].
    split; [|by intros []]. intros Hret. constructor; [done..| |done]. by exists entry.
  - eexists. split; [done|]. split; [done|]. intros [_ _ Hac (entry' & Hhead' & Hre) _].
    simplify_eq. enough (Err e = Ok tt) by done. by apply Hr.
Qed.

(** C8: validation of a parsed workflow terminates and, node names being
    distinct (they are the keys of a map), accepts exactly the workflows all
    of whose tools the declared capabilities grant (in the sense of the
    dispatch-time check), whose targets exist, whose control flow is acyclic
    with every node reachable from the first one, and which return. *)
Theorem validate_schema_iff_valid schema :
  NoDup (node_names schema) ->
  exists r, validate_schema schema = Some r /\ (r = Ok tt <-> valid_schema schema).
Proof. apply validate_schema_spec. Qed.

Definition example_schema (last : option then_block) : workflow_schema :=
  schema_of "review" ["http:*"; "echo"]
    [("start", node_of (Some "http:get") (Some (Multiple ["left"; "right"])) None);
     ("left", node_of (Some "echo") (Some (Unconditional "end")) None);
     ("right", node_of (Some "http:post") (Some (Unconditional "end")) None);
     ("end", node_of None last (Some JNull))].

Lemma validate_schema_iff_valid_witness :
  valid_schema (example_schema None) /\
  ~ valid_schema (example_schema (Some (Unconditional "start"))).
Proof.
  split.
  - destruct (validate_schema_iff_valid (example_schema None)) as (r & Hr & Hv).
    + apply (bool_decide_unpack _). vm_compute. exact I.
    + apply Hv. vm_compute in Hr. congruence.
  - destruct (validate_schema_iff_valid (example_schema (Some (Unconditional "start")))) as (r & Hr & Hv).
    + apply (bool_decide_unpack _). vm_compute. exact I.
    + intros H. apply Hv in H. subst r. vm_compute in Hr. discriminate.
Defined.
