(* ===== verification/Compiler.v ===== *)
(** From the schema to the IR: the data-dependency graph
    ([konflux-substrate/src/parser/graph.rs]), the compiler
    ([parser/compiler.rs]) and the pipeline of [parser.rs]. *)

From S2P Require Import Prelude Dfs Json Error Envelope Workflow Template Config Schema Validator.
From Stdlib Require Import Ascii.

Local Open Scope string_scope.
Local Open Scope list_scope.

(** * The dependency graph *)

(** [extract_from_string]: the heads of the [{{ }}] expressions of a string.
    The scan goes on behind each closing brace; the length of the string is
    enough fuel. *)
Fixpoint extract_fuel (fuel : nat) (s : string) : list string :=
  match fuel with
  | O => []
  | S fuel =>
      match split_once "{{" s with
      | Some (_, after) =>
          match split_once "}}" after with
          | Some (body, rest) =>
              let inner := trim body in
              match split_once "." inner with
              | Some (root, _) => root :: extract_fuel fuel rest
              | None => inner :: extract_fuel fuel rest
              end
          | None => []
          end
      | None => []
      end
  end.

Definition extract_from_string (s : string) : list string := extract_fuel (String.length s) s.

(** [extract_references]. *)
Fixpoint extract_references (value : json) : gset string :=
  match value with
  | JString s => list_to_set (extract_from_string s)
  | JArray arr => foldr (fun v acc => extract_references v ∪ acc) ∅ arr
  | JObject m => foldr (fun kv acc => extract_references kv.2 ∪ acc) ∅ m
  | _ => ∅
  end.

(** [DependencyGraph]. *)
Abbreviation dependency_graph := (gmap string (gset string)).

(** [DependencyGraph::add_edge]. *)
Definition add_edge (graph : dependency_graph) (from to : string) : dependency_graph :=
  match graph !! to with
  | Some deps => <[to := {[from]} ∪ deps]> graph
  | None => graph
  end.

(** The loop of [build] over the references of one node. *)
Definition add_references (schema : workflow_schema) (graph : dependency_graph)
    (name : string) (refs : list string) : dependency_graph :=
  fold_left (fun g r => if bool_decide (r ∈ node_names schema /\ r <> name) then add_edge g r name else g)
    refs graph.

(** [DependencyGraph::build]. *)
Definition build_graph (schema : workflow_schema) : dependency_graph :=
  let init := fold_left (fun g kv => <[kv.1 := ∅]> g) (ws_nodes schema) ∅ in
  fold_left (fun g kv =>
    match ns_with kv.2 with
    | Some w => add_references schema g kv.1 (elements (extract_references w))
    | None => g
    end) (ws_nodes schema) init.

(** * The compiler *)

Definition duration_error (detail s : string) : parse_error :=
  InvalidValue "duration"
    (String.append detail
       (String.append " (expected Ns, Nms, or Nm, got '" (String.append s "')"))).

(** [parse_duration]; the product of the minutes wraps in a release build. *)
Definition parse_duration (s : string) : result parse_error duration :=
  let s := trim s in
  match strip_suffix "ms" s with
  | Some ms => n ← ok_or (parse_u64 (trim ms)) (duration_error "invalid milliseconds" s);
               Ok (from_millis n)
  | None =>
  match strip_suffix "s" s with
  | Some secs => n ← ok_or (parse_u64 (trim secs)) (duration_error "invalid seconds" s);
                 Ok (from_secs n)
  | None =>
  match strip_suffix "m" s with
  | Some mins => n ← ok_or (parse_u64 (trim mins)) (duration_error "invalid minutes" s);
                 Ok (from_secs (wrap_u64 (n * 60)))
  | None => n ← ok_or (parse_u64 s) (duration_error "invalid duration format" s);
            Ok (from_secs n)
  end end end.

(** The default target of a catch block. *)
Definition compile_catch (c : catch_block) : error_action :=
  match c with
  | CatchSimple target => ActGoto target
  | CatchBranches branches =>
      match List.find is_match branches with
      | Some branch =>
          match cb_then branch with
          | Some target => ActGoto target
          | None =>
              match cb_do branch with
              | Some do_ =>
                  if (String.eqb do_ "skip" || String.eqb do_ "continue")%bool then ActSkip
                  else match strip_prefix "fallback:" do_ with
                       | Some value => ActFallback value
                       | None => ActFail
                       end
              | None => ActFail
              end
          end
      | None => ActFail
      end
  end.

Definition unconditional (t : edge_target) : edge := Edge t None 0.

(** The edge of the [i]-th conditional branch. *)
Definition branch_edge (i : nat) (b : then_branch) : option edge :=
  let condition := if default false (tb_else b) then None else tb_when b in
  (fun t => Edge (ToStep t) condition (Z.of_nat i)) <$> branch_target b.

Definition compile_then (t : then_block) : list edge :=
  match t with
  | Unconditional target => [unconditional (ToStep target)]
  | Multiple targets => map (fun t => unconditional (ToStep t)) targets
  | Conditional branches => omap id (imap branch_edge branches)
  end.

Definition compile_edges (node : node_schema) : list edge :=
  (if bool_decide (is_Some (ns_return node)) then [unconditional ToReturn] else [])
  ++ match ns_then node with Some t => compile_then t | None => [] end.

Definition compile_retry (config : engine_config) (retry : retry_schema)
  : result parse_error retry_policy :=
  base ← match rs_delay retry with
         | Some d => parse_duration d
         | None => Ok (from_millis (default_retry_base_delay_ms config))
         end;
  max ← match rs_max_delay retry with
        | Some d => parse_duration d
        | None => Ok (from_millis (default_retry_max_delay_ms config))
        end;
  Ok (RetryPolicy (rs_times retry)
        (match rs_backoff retry with
         | Some s => if String.eqb s "fixed" then Fixed
                     else if String.eqb s "linear" then Linear base else Exponential
         | None => Exponential
         end) base max).

Section Compile.
(** [char::is_alphanumeric] above ASCII: the Unicode tables. *)
Context (unicode_alphanumeric : N -> bool).

Definition is_alphanumeric (c : N) : bool :=
  if N.ltb c 128 then is_digit (ascii_of_N c)
    || (N.leb 65 c && N.leb c 90) || (N.leb 97 c && N.leb c 122)
  else unicode_alphanumeric c.

(** A character of a reference: alphanumeric, [.] or [_]. *)
Definition is_ref_char (c : N) : bool := is_alphanumeric c || N.eqb c 46 || N.eqb c 95.

(** [value_to_expr].  The braces cannot overlap, so cutting the prefix and
    then the suffix is the slice [s[2..len-2]]. *)
Definition value_to_expr (value : json) : expr :=
  match value with
  | JString s =>
      let otherwise :=
        if (str_contains s "{{" && str_contains s "}}")%bool then Template s else Literal s in
      match strip_prefix "{{" s ≫= strip_suffix "}}" with
      | Some body =>
          if str_contains body "{{" then otherwise
          else
            let inner := trim body in
            if forallb is_ref_char (chars inner) then Ref inner else Template s
      | None => otherwise
      end
  | _ => Json value
  end.

Definition exprs_of (m : list (string * json)) : gmap string expr :=
  fold_left (fun acc kv => <[kv.1 := value_to_expr kv.2]> acc) m ∅.

Definition compile_input (node : node_schema) : gmap string expr :=
  match ns_with node with
  | Some (JObject m) => exprs_of m
  | _ =>
      match ns_do node, ns_return node with
      | None, Some ret => {["__return__" := value_to_expr ret]}
      | _, _ => ∅
      end
  end.

Definition compile_pipe_step (p : pipe_step_schema) : list pipe_step :=
  match p with
  | PipeSimple tool => [PipeStep tool ∅]
  | PipeWithArgs m =>
      match m with
      | (tool, JObject obj) :: _ => [PipeStep tool (exprs_of obj)]
      | (tool, _) :: _ => [PipeStep tool ∅]
      | [] => []
      end
  | PipeFull do_ (Some (JObject obj)) => [PipeStep do_ (exprs_of obj)]
  | PipeFull do_ _ => [PipeStep do_ ∅]
  end.

Definition compile_tool (name : string) (d : option do_block) : string :=
  match d with
  | Some (DoSingle tool) => tool
  | Some (DoParallel _) => String.append "internal_parallel_" name
  | None => "echo"
  end.

(** [compile_node], with the dependencies [compile] then writes. *)
Definition compile_node (config : engine_config) (name : string) (node : node_schema)
    (depends_on : list string) : result parse_error step :=
  retry ← match ns_retry node with
          | Some r => Some <$> compile_retry config r
          | None => Ok None
          end;
  timeout ← match ns_timeout node with
            | Some t => Some <$> parse_duration t
            | None => Ok None
            end;
  Ok {|
    st_id := name;
    st_tool := compile_tool name (ns_do node);
    st_input := compile_input node;
    st_edges := compile_edges node;
    st_depends_on := depends_on;
    st_join := JoinAll;
    st_on_error := compile_catch (ns_catch node);
    st_retry := retry;
    st_timeout := timeout;
    st_credentials := ns_credentials node;
    st_grant := ns_grant node;
    st_pipe := concat (map compile_pipe_step (ns_pipe node));
    st_stream := to_mode (ns_stream node);
    st_repeat := (fun r => RepeatConfig (rp_until r) (rp_max r) (rp_as r)) <$> ns_repeat node;
  |}.

(** The dependencies of a node; the source lists a [HashSet], in any order. *)
Definition dependencies_of (graph : dependency_graph) (name : string) : list string :=
  match graph !! name with Some deps => elements deps | None => [] end.

(** [compiler::compile]. *)
Definition compile (config : engine_config) (schema : workflow_schema) (graph : dependency_graph)
  : result parse_error workflow :=
  match ws_nodes schema with
  | [] => Err (InvalidYaml "Workflow must have at least one node")
  | (entry_id, _) :: _ =>
      steps ← try_map (fun kv => compile_node config kv.1 kv.2 (dependencies_of graph kv.1))
                (ws_nodes schema);
      Ok {|
        wf_id := ws_workflow schema;
        wf_name := ws_workflow schema;
        wf_version := ws_version schema;
        wf_entry := entry_id;
        wf_steps := steps;
        wf_capabilities := ws_capabilities schema;
        wf_metadata := ∅;
        wf_description := ws_description schema;
        wf_input_schema := ws_input_schema schema;
        wf_output_schema := ws_output_schema schema;
        wf_register_as_tool := ws_register_as_tool schema;
      |}
  end.

(** [parser::parse] from the deserialised schema on. *)
Definition parse (config : engine_config) (schema : workflow_schema)
  : result konflux_error workflow :=
  match validate_schema schema with
  | Some (Ok _) => map_err EParse (compile config schema (build_graph schema))
  | Some (Err e) => Err (EValidation e)
  | None => Err (EValidation NoEntryNode)
  end.
End Compile.

(** * The graph only names nodes *)

Definition graph_ok (schema : workflow_schema) (g : dependency_graph) : Prop :=
  forall name deps d, g !! name = Some deps -> d ∈ deps -> d ∈ node_names schema /\ d <> name.

Lemma add_references_ok schema g name refs :
  graph_ok schema g -> graph_ok schema (add_references schema g name refs).
Proof.
  unfold add_references. revert g. induction refs as [|r refs IH]; intros g Hg; [done|].
  cbn [fold_left]. apply IH. case_bool_decide as Hr; [|done]. unfold add_edge.
  destruct (g !! name) as [deps|] eqn:E; [|done]. intros n ds d.
  rewrite lookup_insert. case_decide as Hn; [|apply Hg]. subst n. intros [= <-].
  rewrite elem_of_union, elem_of_singleton. intros [->|Hd]; [tauto|by eapply Hg].
Qed.

Lemma build_graph_ok schema : graph_ok schema (build_graph schema).
Proof.
  unfold build_graph. cbv zeta.
  assert (forall (l : list (string * node_schema)) g, graph_ok schema g ->
    graph_ok schema (fold_left (fun g kv => <[kv.1 := ∅]> g) l g)) as Hinit.
  { induction l as [|[k v] l IH]; intros g Hg; [done|]. cbn [fold_left]. apply IH.
    intros n ds d. rewrite lookup_insert. case_decide; [intros [= <-]; set_solver|apply Hg]. }
  assert (forall (l : list (string * node_schema)) g,
    graph_ok schema g -> graph_ok schema (fold_left (fun g kv =>
    match ns_with kv.2 with
    | Some w => add_references schema g kv.1 (elements (extract_references w))
    | None => g
    end) l g)) as Hrefs.
  { induction l as [|[k v] l IH]; intros g Hg; [done|]. cbn [fold_left]. apply IH.
    cbn. destruct (ns_with v); [by apply add_references_ok|done]. }
  apply Hrefs, Hinit. intros n ds d. by rewrite lookup_empty.
Qed.

Lemma dependencies_known schema name d :
  d ∈ dependencies_of (build_graph schema) name -> d ∈ node_names schema.
Proof.
  unfold dependencies_of. destruct (_ !! name) as [deps|] eqn:E; [|set_solver].
  rewrite elem_of_elements. intros Hd. by eapply build_graph_ok.
Qed.

(** * Compiled edges are the node's targets *)

Definition edge_targets (es : list edge) : list string :=
  omap (fun e => match target e with ToStep id => Some id | ToReturn => None end) es.

Lemma compile_branches_targets i branches :
  edge_targets (omap id (imap (fun n b => branch_edge (i + n) b) branches)) = omap branch_target branches.
Proof.
  revert i. induction branches as [|b bs IH]; intros i; [done|].
  specialize (IH (S i)). cbn [imap omap list_omap].
  assert (omap id (imap ((fun n b => branch_edge (i + n) b) ∘ S) bs)
    = omap id (imap (fun n b => branch_edge (S i + n) b) bs)) as ->.
  { f_equal. apply imap_ext. intros n x _. cbn. f_equal. lia. }
  unfold branch_edge at 1. destruct (branch_target b) as [t|]; cbn; [by f_equal|done].
Qed.

Lemma compile_then_targets t : edge_targets (compile_then t) = then_targets t.
Proof.
  destruct t as [t|ts|bs]; [done| |].
  - cbn. induction ts as [|t ts IH]; cbn; [done|]. by f_equal.
  - apply (compile_branches_targets 0).
Qed.

Lemma compile_edges_targets node :
  edge_targets (compile_edges node)
  = match ns_then node with Some t => then_targets t | None => [] end.
Proof.
  unfold compile_edges, edge_targets. rewrite omap_app.
  assert (omap (fun e => match target e with ToStep id => Some id | ToReturn => None end)
    (if bool_decide (is_Some (ns_return node)) then [unconditional ToReturn] else []) = []) as ->
    by by case_bool_decide.
  destruct (ns_then node) as [t|]; [apply compile_then_targets|done].
Qed.

Section Compiled.
Context (unicode_alphanumeric : N -> bool) (config : engine_config).

(** What a compiled step keeps of its node. *)
Record compiled_from (name : string) (node : node_schema) (depends_on : list string) (s : step) : Prop := {
  cf_id : st_id s = name;
  cf_tool : st_tool s = compile_tool name (ns_do node);
  cf_edges : st_edges s = compile_edges node;
  cf_depends : st_depends_on s = depends_on;
  cf_pipe : st_pipe s = concat (map (compile_pipe_step unicode_alphanumeric) (ns_pipe node));
}.

Lemma compile_pipe_tools pipe :
  map ps_tool (concat (map (compile_pipe_step unicode_alphanumeric) pipe)) = concat (map pipe_tools pipe).
Proof.
  induction pipe as [|p pipe IH]; [done|]. cbn [map concat]. rewrite map_app, IH. f_equal.
  by destruct p as [t|[|[t []] m]|t [[]|]].
Qed.

Lemma compile_node_Ok name node deps s :
  compile_node unicode_alphanumeric config name node deps = Ok s -> compiled_from name node deps s.
Proof.
  unfold compile_node.
  destruct (match ns_retry node with Some r => Some <$> compile_retry config r | None => Ok None end);
    [|done].
  destruct (match ns_timeout node with Some t => Some <$> parse_duration t | None => Ok None end);
    [|done].
  cbn [mbind result_bind]. intros [= <-]. by constructor.
Qed.

Lemma compile_Ok schema graph w :
  compile unicode_alphanumeric config schema graph = Ok w ->
  head (node_names schema) = Some (wf_entry w) /\ wf_capabilities w = ws_capabilities schema /\
  Forall2 (fun kv s => compiled_from kv.1 kv.2 (dependencies_of graph kv.1) s) (ws_nodes schema) (wf_steps w).
Proof.
  unfold compile. destruct (ws_nodes schema) as [|[entry node] nodes] eqn:E; [done|].
  rewrite <- E. destruct (try_map _ (ws_nodes schema)) as [steps|] eqn:Hs; [|done].
  intros [= <-]. cbn. split_and!; [unfold node_names; by rewrite E|done|].
  apply try_map_Ok in Hs. eapply Forall2_impl; [exact Hs|]. intros kv s. apply compile_node_Ok.
Qed.

Lemma get_node_unique schema name node :
  NoDup (node_names schema) -> (name, node) ∈ ws_nodes schema -> get_node schema name = Some node.
Proof.
  unfold node_names, get_node. induction (ws_nodes schema) as [|[k v] l IH]; intros Hnd Hin; [set_solver|].
  cbn in Hnd. apply NoDup_cons in Hnd as [Hk Hnd]. cbn [List.find fst].
  destruct (String.eqb_spec k name) as [->|Hne].
  - apply elem_of_cons in Hin as [[= <-]|Hin]; [done|]. exfalso. apply Hk.
    apply list_elem_of_fmap. by exists (name, node).
  - apply elem_of_cons in Hin as [[= <- _]|Hin]; [done|]. by apply IH.
Qed.

Lemma compiled_step schema graph w s :
  compile unicode_alphanumeric config schema graph = Ok w -> s ∈ wf_steps w ->
  exists name node, (name, node) ∈ ws_nodes schema /\
    compiled_from name node (dependencies_of graph name) s.
Proof.
  intros (_ & _ & H)%compile_Ok Hs. apply list_elem_of_lookup in Hs as [i Hi].
  eapply Forall2_lookup_r in H as ([name node] & Hn & Hc); [|exact Hi].
  exists name, node. split; [by eapply list_elem_of_lookup_2|done].
Qed.

Lemma compiled_step_of schema graph w name node :
  compile unicode_alphanumeric config schema graph = Ok w -> (name, node) ∈ ws_nodes schema ->
  exists s, s ∈ wf_steps w /\ compiled_from name node (dependencies_of graph name) s.
Proof.
  intros (_ & _ & H)%compile_Ok Hn. apply list_elem_of_lookup in Hn as [i Hi].
  eapply Forall2_lookup_l in H as (s & Hs & Hc); [|exact Hi].
  exists s. split; [by eapply list_elem_of_lookup_2|done].
Qed.

Lemma compile_step_ids schema graph w :
  compile unicode_alphanumeric config schema graph = Ok w -> step_ids w = node_names schema.
Proof.
  intros (_ & _ & H)%compile_Ok. unfold step_ids, node_names.
  induction H as [|kv s l l' Hc _ IH]; [done|]. cbn. rewrite IH. by destruct Hc as [-> _ _ _ _].
Qed.
End Compiled.

Section Refinement.
Context (unicode_alphanumeric : N -> bool) (config : engine_config) (schema : workflow_schema)
  (w : workflow).
Hypothesis Hnodup : NoDup (node_names schema).
Hypothesis Hcompile : compile unicode_alphanumeric config schema (build_graph schema) = Ok w.

(** Edges of the compiled workflow are edges the validator has seen. *)
Lemma compiled_edge x y : step_edge w x y -> Dfs.edge (node_successors schema) x y.
Proof.
  intros (s & Hs & <- & Hy). eapply compiled_step in Hs as (name & node & Hn & [-> _ He _ _]); [|exact Hcompile].
  unfold Dfs.edge, node_successors. rewrite (get_node_unique schema name node) by done.
  unfold step_targets in Hy. rewrite He in Hy. fold (edge_targets (compile_edges node)) in Hy.
  rewrite compile_edges_targets in Hy. apply elem_of_app. by left.
Qed.

Lemma tc_mono {A} (R R' : A -> A -> Prop) x y : (forall x y, R x y -> R' x y) -> tc R x y -> tc R' x y.
Proof.
  intros HR Hxy. induction Hxy as [x y H|x y z H _ IH]; [by apply tc_once, HR|].
  apply tc_l with y; [by apply HR|done].
Qed.

Lemma compile_well_formed : valid_schema schema -> well_formed w.
Proof.
  intros [_ Htargets Hac _ (rn & rnode & Hrn & Hret)].
  pose proof (compile_step_ids _ _ _ _ _ Hcompile) as Hids.
  constructor; rewrite ?Hids.
  - pose proof (proj1 (compile_Ok _ _ _ _ _ Hcompile)) as Hhead.
    destruct (node_names schema); [done|]. injection Hhead as ->. by left.
  - intros s t Hs Ht.
    assert (Dfs.edge (node_successors schema) (st_id s) t) as He by (apply compiled_edge; by exists s).
    apply node_successors_targets in He as (node & Hn & Hin). by eapply Htargets.
  - intros s d Hs Hd. eapply compiled_step in Hs as (name & node & Hn & [_ _ _ Hdep _]); [|exact Hcompile].
    rewrite Hdep in Hd. by eapply dependencies_known.
  - eapply compiled_step_of in Hrn as (s & Hs & [_ _ He _ _]); [|exact Hcompile].
    exists s, (unconditional ToReturn). split_and!; [done| |done].
    rewrite He. unfold compile_edges. rewrite bool_decide_eq_true_2 by done. set_solver.
  - intros x Hx. apply (Hac x). eapply tc_mono; [|exact Hx]. apply compiled_edge.
Qed.
End Refinement.

Definition is_duration_error (e : parse_error) : Prop :=
  exists detail, e = InvalidValue "duration" detail.

Lemma parse_duration_Err s e : parse_duration s = Err e -> is_duration_error e.
Proof.
  unfold parse_duration, duration_error, is_duration_error. cbv zeta.
  repeat (match goal with |- context [match strip_suffix ?x ?y with _ => _ end] =>
            destruct (strip_suffix x y) end);
  match goal with |- context [parse_u64 ?x] => destruct (parse_u64 x) end; cbn; naive_solver.
Qed.

Lemma compile_node_Err alnum config name node deps e :
  compile_node alnum config name node deps = Err e -> is_duration_error e.
Proof.
  unfold compile_node.
  assert (forall r e, compile_retry config r = Err e -> is_duration_error e) as Hretry.
  { intros r e'. unfold compile_retry.
    destruct (match rs_delay r with Some d => parse_duration d | None => _ end) as [b|e1] eqn:E1;
      cbn [mbind result_bind].
    - destruct (match rs_max_delay r with Some d => parse_duration d | None => _ end) as [m|e2] eqn:E2;
        cbn [mbind result_bind]; [done|]. intros [= <-].
      destruct (rs_max_delay r); [by eapply parse_duration_Err|done].
    - intros [= <-]. destruct (rs_delay r); [by eapply parse_duration_Err|done]. }
  destruct (ns_retry node) as [r|]; [destruct (compile_retry config r) eqn:Er|];
    cbn [fmap result_fmap mbind result_bind]; try (intros [= <-]; by eapply Hretry);
    (destruct (ns_timeout node) as [t|]; [destruct (parse_duration t) eqn:Et|]);
    cbn [fmap result_fmap mbind result_bind]; try done; intros [= <-]; by eapply parse_duration_Err.
Qed.



(** * References from the file to the value *)

Lemma chars_ascii f (P : N -> bool) s :
  (forall a, f a = true -> (byte_of a < 128)%N /\ P (byte_of a) = true) ->
  str_forall f s = true -> forallb P (chars s) = true.
Proof.
  intros Hf. induction s as [|a s IH]; [done|]. cbn [str_forall]. intros [Ha Hs]%andb_prop.
  destruct (Hf a Ha) as [Hlt HP]. cbn [chars]. rewrite (proj2 (N.ltb_lt _ _) Hlt).
  cbn [forallb]. rewrite HP. by apply IH.
Qed.

Lemma path_char_ref alnum a :
  is_path_char a = true -> (byte_of a < 128)%N /\ is_ref_char alnum (byte_of a) = true.
Proof.
  destruct a as [[] [] [] [] [] [] [] []]; vm_compute; intuition congruence.
Qed.

Lemma braces_body path :
  strip_prefix "{{" (braces path) ≫= strip_suffix "}}" = Some (String " " (String.append path " ")).
Proof.
  unfold braces.
  change (String.append "{{ " (String.append path " }}"))
    with (String.append "{{" (String " " (String.append path (String.append " " "}}")))).
  rewrite strip_prefix_append. cbn [mbind option_bind]. rewrite append_assoc.
  apply (strip_suffix_append (String " " (String.append path " "))).
Qed.

Lemma value_to_expr_braces alnum segs :
  segs <> [] -> forallb valid_segment segs = true ->
  value_to_expr alnum (JString (braces (join "." segs))) = Ref (join "." segs).
Proof.
  intros Hne Hs. destruct (path_facts segs Hne Hs) as (Ht & Hl & _ & _ & _).
  cbn [value_to_expr]. rewrite braces_body.
  rewrite (str_contains_false "{"); cycle 1.
  { cbn [str_count]. rewrite str_count_append, Hl. cbn. lia. }
  rewrite trim_padded by done.
  by rewrite (chars_ascii is_path_char) by (apply path_char_ref || by apply join_path_chars).
Qed.

Lemma extract_braces root rest :
  forallb valid_segment (root :: rest) = true ->
  extract_from_string (braces (join "." (root :: rest))) = [root].
Proof.
  intros Hs. destruct (path_facts (root :: rest) ltac:(done) Hs) as (Ht & Hl & Hr & _ & _).
  set (path := join "." (root :: rest)) in *.
  unfold extract_from_string. destruct (String.length (braces path)) as [|fuel] eqn:Hlen; [done|].
  cbn [extract_fuel]. unfold braces at 1.
  change (String.append "{{ " (String.append path " }}"))
    with (String.append EmptyString (String.append "{{" (String " " (String.append path " }}")))).
  rewrite (split_once_first "{") by done.
  assert (String " " (String.append path " }}")
    = String.append (String " " (String.append path " ")) (String.append "}}" EmptyString)) as ->.
  { cbn [String.append]. by rewrite <- append_assoc. }
  rewrite (split_once_first "}"); cycle 1.
  { cbn [str_count]. rewrite str_count_append, Hr. done. }
  rewrite trim_padded by done.
  assert (extract_fuel fuel EmptyString = []) as -> by (by destruct fuel).
  apply andb_prop in Hs as [Hroot Hrest]. pose proof (segment_no_dot root Hroot) as Hdot.
  destruct rest as [|y rest].
  - unfold path. cbn [join]. by rewrite (split_once_None ".") by (rewrite Hdot; cbn; lia).
  - unfold path. change (join "." (root :: y :: rest))
      with (String.append root (String.append "." (join "." (y :: rest)))).
    by rewrite (split_once_first ".").
Qed.

Lemma add_references_lookup schema g name deps refs d :
  g !! name = Some deps ->
  exists deps', add_references schema g name refs !! name = Some deps' /\ deps ⊆ deps' /\
    (d ∈ refs -> d ∈ node_names schema -> d <> name -> d ∈ deps').
Proof.
  unfold add_references. revert g deps. induction refs as [|r refs IH]; intros g deps Hg; cbn [fold_left].
  { exists deps. split_and!; [done|done|set_solver]. }
  case_bool_decide as Hr.
  - destruct (IH (add_edge g r name) ({[r]} ∪ deps)) as (deps' & H & Hsub & Hd).
    { unfold add_edge. rewrite Hg. apply lookup_insert_eq. }
    exists deps'. split_and!; [done|set_solver|]. intros [->|Hin]%elem_of_cons Hk Hne; [set_solver|by apply Hd].
  - destruct (IH g deps Hg) as (deps' & H & Hsub & Hd). exists deps'. split_and!; [done|done|].
    intros [->|Hin]%elem_of_cons Hk Hne; [tauto|by apply Hd].
Qed.

Lemma add_references_ne schema g name refs n :
  n <> name -> add_references schema g name refs !! n = g !! n.
Proof.
  intros Hne. unfold add_references. revert g. induction refs as [|r refs IH]; intros g; [done|].
  cbn [fold_left]. rewrite IH. case_bool_decide; [|done]. unfold add_edge.
  destruct (g !! name); [|done]. by apply lookup_insert_ne.
Qed.

Lemma fold_references_lookup schema (l : list (string * node_schema)) g name deps :
  g !! name = Some deps ->
  exists deps', fold_left (fun g kv =>
      match ns_with kv.2 with
      | Some w => add_references schema g kv.1 (elements (extract_references w))
      | None => g
      end) l g !! name = Some deps' /\ deps ⊆ deps' /\
    forall node w d, (name, node) ∈ l -> ns_with node = Some w -> d ∈ extract_references w ->
      d ∈ node_names schema -> d <> name -> d ∈ deps'.
Proof.
  revert g deps. induction l as [|[k nd] l IH]; intros g deps Hg; cbn [fold_left fst snd].
  { exists deps. split_and!; [done|done|set_solver]. }
  destruct (ns_with nd) as [w|] eqn:Hw.
  - destruct (decide (k = name)) as [->|Hk].
    + destruct (add_references_lookup schema g name deps (elements (extract_references w)) EmptyString Hg)
        as (deps1 & H1 & Hsub1 & _).
      destruct (IH _ _ H1) as (deps2 & H2 & Hsub2 & Hd2). exists deps2.
      split_and!; [done|set_solver|]. intros node w' d Hin Hw' Hd Hk Hne.
      apply elem_of_cons in Hin as [[= <-]|Hin]; [|by eapply Hd2].
      destruct (add_references_lookup schema g name deps (elements (extract_references w)) d Hg)
        as (deps1' & H1' & _ & Hd1). simplify_eq. apply Hsub2, Hd1; [by apply elem_of_elements|done|done].
    + destruct (IH (add_references schema g k (elements (extract_references w))) deps)
        as (deps2 & H2 & Hsub2 & Hd2); [by rewrite add_references_ne|].
      exists deps2. split_and!; [done|done|]. intros node w' d Hin.
      apply elem_of_cons in Hin as [[= ? _]|Hin]; [congruence|by apply (Hd2 node)].
  - destruct (IH g deps Hg) as (deps2 & H2 & Hsub2 & Hd2). exists deps2. split_and!; [done|done|].
    intros node w' d Hin Hw'. apply elem_of_cons in Hin as [[= _ ->]|Hin]; [congruence|by apply (Hd2 node)].
Qed.

Lemma init_graph_lookup (l : list (string * node_schema)) (g : dependency_graph) name :
  name ∈ l.*1 -> fold_left (fun g kv => <[kv.1 := ∅]> g) l g !! name = Some ∅.
Proof.
  intros Hin. enough (forall l (g : dependency_graph), name ∈ l.*1 \/ g !! name = Some ∅ ->
    fold_left (fun g (kv : string * node_schema) => <[kv.1 := ∅]> g) l g !! name = Some ∅) as H
    by (apply H; by left).
  clear. induction l as [|[k v] l IH]; intros g [H|H]; cbn in *; [set_solver|done| |];
    apply IH; rewrite lookup_insert; case_decide; set_solver.
Qed.

Lemma build_graph_reference schema name node w d :
  (name, node) ∈ ws_nodes schema -> ns_with node = Some w -> d ∈ extract_references w ->
  d ∈ node_names schema -> d <> name -> d ∈ dependencies_of (build_graph schema) name.
Proof.
  intros Hn Hw Hd Hk Hne. unfold dependencies_of, build_graph. cbv zeta.
  destruct (fold_references_lookup schema (ws_nodes schema)
    (fold_left (fun g kv => <[kv.1 := ∅]> g) (ws_nodes schema) ∅) name ∅) as (deps & H & _ & Hin).
  { apply init_graph_lookup. apply list_elem_of_fmap. by exists (name, node). }
  rewrite H. apply elem_of_elements. by eapply Hin.
Qed.

Lemma exprs_of_lookup alnum m k v :
  NoDup m.*1 -> (k, v) ∈ m -> exprs_of alnum m !! k = Some (value_to_expr alnum v).
Proof.
  unfold exprs_of. intros Hnd Hin.
  enough (forall m (g : gmap string expr), NoDup (m.*1) ->
    ((k, v) ∈ m \/ (k ∉ m.*1) /\ g !! k = Some (value_to_expr alnum v)) ->
    fold_left (fun acc kv => <[kv.1 := value_to_expr alnum kv.2]> acc) m g !! k
    = Some (value_to_expr alnum v)) as H by (apply H; auto).
  clear. induction m as [|[k' v'] m IH]; intros g Hnd H; cbn in *.
  { destruct H as [H|[_ H]]; [set_solver|done]. }
  apply NoDup_cons in Hnd as [Hk Hnd]. apply IH; [done|]. destruct H as [H|[H Hg]].
  - apply elem_of_cons in H as [[= -> ->]|H]; [|by left]. right. split; [done|]. apply lookup_insert_eq.
  - apply not_elem_of_cons in H as [Hne H]. right. split; [done|]. by rewrite lookup_insert_ne.
Qed.

Lemma extract_references_member k v m :
  (k, v) ∈ m -> extract_references v ⊆ extract_references (JObject m).
Proof.
  induction m as [|[k' v'] m IH]; [set_solver|]. cbn [extract_references foldr].
  intros [[= -> ->]|Hin]%elem_of_cons; [set_solver|]. specialize (IH Hin). cbn in IH. set_solver.
Qed.

(** An input written as a reference [{{ node.path }}] compiles to a
    [Ref], makes its step wait for the node it names, and resolves, once that
    node has an output, to the value at the path. *)
Theorem reference_input alnum config schema name node m key root rest s render state o v :
  compile_node alnum config name node (dependencies_of (build_graph schema) name) = Ok s ->
  (name, node) ∈ ws_nodes schema -> ns_with node = Some (JObject m) -> NoDup m.*1 ->
  (key, JString (braces (join "." (root :: rest)))) ∈ m ->
  forallb valid_segment (root :: rest) = true -> root ∈ node_names schema -> root <> name ->
  state !! root = Some o -> resolve_parts o rest = Some v ->
  root ∈ st_depends_on s /\
  exists e, st_input s !! key = Some e /\ resolve_expr render state e = Ok v.
Proof.
  intros Hc Hn Hw Hnd Hin Hs Hk Hne Ho Hv.
  assert (st_input s = exprs_of alnum m) as Hinput.
  { revert Hc. unfold compile_node, compile_input. rewrite Hw.
    destruct (match ns_retry node with Some r => _ | None => _ end); [|done].
    destruct (match ns_timeout node with Some r => _ | None => _ end); [|done]. by intros [= <-]. }
  apply compile_node_Ok in Hc as [_ _ _ Hd]. split.
  - rewrite Hd. eapply build_graph_reference; [done..| |done|done].
    eapply extract_references_member; [done|]. cbn [extract_references].
    rewrite extract_braces by done. set_solver.
  - exists (Ref (join "." (root :: rest))). split.
    + rewrite Hinput, (exprs_of_lookup alnum m key _ Hnd Hin). by rewrite value_to_expr_braces.
    + cbn [resolve_expr]. unfold resolve_ref. rewrite split_on_segments by done.
      rewrite Ho. cbn [mbind option_bind]. by rewrite Hv.
Qed.

Definition reader_node : node_schema := {|
  ns_do := Some (DoSingle "echo"); ns_with := Some (JObject [("text", JString "{{ fetch.body }}")]);
  ns_pipe := []; ns_then := None; ns_catch := catch_default; ns_retry := None; ns_timeout := None;
  ns_entry := None; ns_repeat := None; ns_stream := StreamNone; ns_return := Some JNull;
  ns_join := None; ns_credentials := ∅; ns_grant := None |}.

Definition reader_schema : workflow_schema :=
  schema_of "reader" [] [("fetch", node_of (Some "http:get") (Some (Unconditional "read")) None);
                         ("read", reader_node)].

Lemma reference_input_witness :
  exists s,
    compile_node (fun _ => false) config_default "read" reader_node
      (dependencies_of (build_graph reader_schema) "read") = Ok s /\
    "fetch" ∈ st_depends_on s /\
    exists e, st_input s !! "text" = Some e /\
      resolve_expr (fun _ _ => Err "not called") {["fetch" := JObject [("body", JString "hi")]]} e
      = Ok (JString "hi").
Proof.
  eexists. split; [reflexivity|].
  eapply (reference_input (fun _ => false) config_default reader_schema "read" reader_node
    [("text", JString "{{ fetch.body }}")] "text" "fetch" ["body"]).
  - reflexivity.
  - right. left.
  - reflexivity.
  - apply (bool_decide_unpack _). vm_compute. exact I.
  - left.
  - reflexivity.
  - left.
  - discriminate.
  - reflexivity.
  - reflexivity.
Defined.

(** The product of the minutes wraps: a delay of five hundred billion years
    compiles to forty-four seconds. *)
Example parse_duration_minutes_wrap :
  parse_duration "307445734561825861m" = Ok (from_secs 44).
Proof. vm_compute. reflexivity. Qed.
