(* ===== verification/Executor.v ===== *)
(** Execution of one step ([konflux-substrate/src/executor.rs], the functions
    behind the scheduler): choosing the next edges, the backoff, the dispatch
    of a tool with its retries.

    The environment enters through the world [W]: a tool's invocation, the
    cancellation token, the clock, sleeping.  [timed_invoke] is
    [tokio::time::timeout] around [Tool::invoke_streaming]. *)

From S2P Require Import Prelude Json Error Envelope Tool Expr Workflow Template Config.
From Stdlib Require Import Ascii.

Local Open Scope string_scope.
Local Open Scope list_scope.

(** * Edges *)

(** [sort_by_key] on the priority: stable. *)
Fixpoint insert_edge (e : edge) (l : list edge) : list edge :=
  match l with
  | [] => [e]
  | x :: l' => if (priority x <=? priority e)%Z then x :: insert_edge e l' else e :: l
  end.

Definition sort_edges (es : list edge) : list edge := fold_left (fun acc e => insert_edge e acc) es [].

(** [to_expr_context]. *)
Definition to_expr_context (outputs : gmap string json) : gmap string expr_value :=
  json_to_expr_value <$> outputs.

(** The condition without its braces. *)
Definition clean_condition (condition : string) : string :=
  trim (default condition (strip_prefix "{{" (trim condition) ≫= strip_suffix "}}")).

Section Edges.
(** [Display] of an [ExprError]. *)
Context (show_expr_error : expr_error -> string).
Context (context : gmap string expr_value) (workflow_id node : string).

(** The loop of [evaluate_edges_targets] over the sorted edges. *)
Fixpoint edge_loop (branches : list edge) (targets : list edge_target)
  : result konflux_error (list edge_target) :=
  match branches with
  | [] => Ok (match targets with [] => [ToReturn] | _ => targets end)
  | e :: rest =>
      match condition e with
      | Some c =>
          match evaluate_as_bool context (clean_condition c) with
          | Ok true => Ok (targets ++ [target e])
          | Ok false => edge_loop rest targets
          | Err err =>
              Err (EExecution (NodeFailed workflow_id node
                     (String.append "Condition evaluation failed: " (show_expr_error err))))
          end
      | None => edge_loop rest (targets ++ [target e])
      end
  end.
End Edges.

(** [evaluate_edges_targets]. *)
Definition evaluate_edges_targets (show_expr_error : expr_error -> string)
    (s : step) (outputs : gmap string json) (workflow_id : string)
  : result konflux_error (list edge_target) :=
  match st_edges s with
  | [] => Ok [ToReturn]
  | es => edge_loop show_expr_error (to_expr_context outputs) workflow_id (st_id s) (sort_edges es) []
  end.

(** * Backoff *)

(** [calculate_backoff]; [None] is the panic of [Duration * u32] on overflow.
    [attempt - 1] is a [u32] subtraction. *)
Definition calculate_backoff (policy : option retry_policy) (attempt : Z) (config : engine_config)
  : option duration :=
  match policy with
  | None => Some (from_millis (default_retry_backoff_ms config))
  | Some p =>
      let n := wrap_u32 (attempt - 1) in
      delay ←
        match backoff p with
        | Fixed => Some (base_delay p)
        | Exponential =>
            let multiplier := saturating_pow_u64 2 n in
            Some (from_millis (saturating_mul_u64 (wrap_u64 (as_millis (base_delay p))) multiplier))
        | Linear increment =>
            let product := (increment * n)%Z in
            if (product <=? duration_max)%Z
            then Some (Z.min (base_delay p + product) duration_max)
            else None
        end;
      Some (Z.min delay (max_delay p))
  end.

(** * Dispatch with retries *)

(** The end of one attempt: the future finished, its time was up, it
    panicked. *)
Inductive attempt_outcome : Type :=
  | Finished (r : result tool_error (envelope json))
  | Elapsed
  | Panicked.

(** What the executor reports, and does, in order: lifecycle events
    ([ExecutorEvent]), progress events of the stream, sleeps. *)
Inductive event : Type :=
  | EvNodeStarted (node_id tool : string)
  | EvNodeCompleted (node_id tool : string) (output : json)
  | EvNodeFailed (node_id tool error : string)
  | EvToolRetry (node_id tool : string) (attempt : Z) (error : string)
  | EvToolStart (node_id tool : string) (attempt : Z)
  | EvToolEnd (node_id tool : string)
  | EvSleep (d : duration).

(** The errors a retry may help with. *)
Definition retryable (e : tool_error) : bool :=
  match e with
  | ExecutionFailed _ r => r
  | ToolTimeout _ => true
  | _ => false
  end.

Section Dispatch.
Context {W : Type}.
Context (timed_invoke : duration -> tool W -> W -> envelope json -> W * attempt_outcome).
Context (cancelled : W -> bool) (now : W -> datetime) (sleep : duration -> W -> W).
Context (show_u64 : Z -> string) (show_expr_error : expr_error -> string).
Context (render : string -> gmap string json -> result string string).
(** [Uuid::parse_str], and the successive draws of [Uuid::new_v4] at a point of
    the run. *)
Context (parse_uuid : string -> option uuid) (new_uuid : nat -> W -> uuid).

(** [StepContext]. *)
Record step_context : Type := StepContext {
  registry : gmap string (tool W);
  capabilities : list string;
  config : engine_config;
  metadata : gmap string json;
  workflow_id : string;
}.

(** The world and the report so far. *)
Record run : Type := Run { world : W; report : list event }.

Definition emit (e : event) (r : run) : run := Run (world r) (report r ++ [e]).

(** The time limit of an attempt: the step's timeout or the default, cut at
    the deadline. *)
Definition attempt_duration (ctx : step_context) (s : step) (env : envelope json) (w : W) : duration :=
  let dur := default (from_millis (default_timeout_ms (config ctx))) (st_timeout s) in
  match env_deadline env with
  | Some deadline => Z.min dur (Z.max 0 (deadline - now w))
  | None => dur
  end.

(** [attempt..=max_attempts] of [invoke_with_retry]; [remaining] attempts are left.
    The outer [None] is a panic of the task. *)
Fixpoint retry_loop (ctx : step_context) (t : tool W) (env : envelope json) (s : step)
    (max_attempts : Z) (remaining : nat) (attempt : Z) (last_err : option tool_error) (r : run)
  : run * option (result konflux_error (envelope json)) :=
  match remaining with
  | O =>
      (r, Some (Err (ETool (default (ExecutionFailed
             "No execution attempts were permitted by retry policy" false) last_err))))
  | S remaining =>
      if cancelled (world r) then (r, Some (Err (EExecution (Cancelled (workflow_id ctx)))))
      else if match env_deadline env with Some d => (d <? now (world r))%Z | None => false end
      then (r, Some (Err (ETool (ToolTimeout 0))))
      else
        match
          (if (1 <? attempt)%Z then
             (fun d => emit (EvSleep d) (Run (sleep d (world r)) (report r)))
               <$> calculate_backoff (st_retry s) (attempt - 1) (config ctx)
           else Some r)
        with
        | None => (r, None)
        | Some r =>
            let name := ti_name (info t) in
            let r := emit (EvToolStart (st_id s) name attempt) r in
            let dur := attempt_duration ctx s env (world r) in
            let '(w, outcome) := timed_invoke dur t (world r) env in
            let r := Run w (report r) in
            match
              match outcome with
              | Finished res => Some res
              | Elapsed => Some (Err (ToolTimeout (wrap_u64 (as_millis dur))))
              | Panicked => None
              end
            with
            | None => (r, None)
            | Some (Ok output) => (emit (EvToolEnd (st_id s) name) r, Some (Ok output))
            | Some (Err e) =>
                if (negb (retryable e) || (max_attempts <=? attempt)%Z)%bool then
                  (r, Some (Err (ETool e)))
                else
                  retry_loop ctx t env s max_attempts remaining (attempt + 1) (Some e)
                    (emit (EvToolRetry (st_id s) name attempt (tool_error_to_string show_u64 e)) r)
            end
        end
  end.

(** The number of attempts: [r.max_attempts + 1] on [u32], or one. *)
Definition total_attempts (s : step) : Z :=
  match st_retry s with Some p => wrap_u32 (max_attempts p + 1) | None => 1%Z end.

(** [invoke_with_retry]. *)
Definition invoke_with_retry (ctx : step_context) (t : tool W) (env : envelope json) (s : step) (r : run)
  : run * option (result konflux_error (envelope json)) :=
  let max_attempts := total_attempts s in
  retry_loop ctx t env s max_attempts (Z.to_nat max_attempts) 1 None r.

(** * Preparing a dispatch *)

Definition meta_str (ctx : step_context) (key : string) : option string :=
  metadata ctx !! key ≫= as_str.

(** The part of [execute_step] before the invocation: inputs, capability
    check, lookup, grant, envelope. *)
Definition prepare_step (ctx : step_context) (s : step) (outputs : gmap string json) (w : W)
  : result konflux_error (tool W * envelope json) :=
  resolved ← map_err (fun e => EExecution (NodeFailed (workflow_id ctx) (st_id s)
                                 (String.append "Failed to resolve inputs: " e)))
               (resolve_inputs render outputs (st_input s));
  _ ← map_err ETool (check_tool_access (st_tool s) (capabilities ctx));
  t ← ok_or (registry ctx !! st_tool s) (ETool (ToolNotFound (st_tool s)));
  caps ← match st_grant s with
         | Some grant =>
             _ ← map_err (fun e => ETool (ToolCapabilityDenied e))
                   (validate_grant grant (capabilities ctx));
             Ok grant
         | None => Ok (capabilities ctx)
         end;
  Ok (t, for_tool_dispatch (new_uuid 1 w) (now w) (st_tool s)
           (JObject (obj_of_list (map_to_list resolved))) caps
           (default (new_uuid 0 w) (meta_str ctx "trace_id" ≫= parse_uuid))
           (default "unknown" (meta_str ctx "namespace"))
           (default "unknown" (meta_str ctx "actor_id"))
           (default "unknown" (meta_str ctx "session_id"))).

(** [execute_step], with the panic handler of its caller. *)
Definition execute_step (ctx : step_context) (s : step) (outputs : gmap string json) (r : run)
  : run * result konflux_error json :=
  let r := emit (EvNodeStarted (st_id s) (st_tool s)) r in
  match prepare_step ctx s outputs (world r) with
  | Err e => (r, Err e)
  | Ok (t, env) =>
      match invoke_with_retry ctx t env s r with
      | (r, Some (Ok out)) =>
          (emit (EvNodeCompleted (st_id s) (st_tool s) (env_payload out)) r, Ok (env_payload out))
      | (r, Some (Err e)) =>
          (emit (EvNodeFailed (st_id s) (st_tool s) (konflux_error_to_string show_u64 e)) r, Err e)
      | (r, None) =>
          (r, Err (EExecution (NodeFailed (workflow_id ctx) (st_id s) "Tool execution panicked")))
      end
  end.
End Dispatch.

(** * Properties *)

(** ** Backoff *)

Lemma saturating_mul_mono a b c : (0 <= a -> b <= c -> saturating_mul_u64 a b <= saturating_mul_u64 a c)%Z.
Proof. unfold saturating_mul_u64. intros. pose proof (Z.mul_le_mono_nonneg_l b c a). lia. Qed.

Lemma saturating_pow_mono a m n :
  (0 < a -> 0 <= m -> m <= n -> saturating_pow_u64 a m <= saturating_pow_u64 a n)%Z.
Proof. unfold saturating_pow_u64. intros. pose proof (Z.pow_le_mono_r a m n). lia. Qed.

Lemma wrap_u32_small z : (in_u32 z -> wrap_u32 z = z)%Z.
Proof. unfold in_u32, u32_max, wrap_u32. intros. apply Z.mod_small. lia. Qed.

Definition policy_ok (p : retry_policy) : Prop :=
  (0 <= base_delay p /\ 0 <= max_delay p)%Z /\
  match backoff p with Linear i => (0 <= i)%Z | _ => True end.

(** C10: the delay before a retry never exceeds the policy's maximum and
    never shrinks from one retry to the next; it fails to exist only when the
    product of a linear increment overflows a [Duration]. *)
Theorem calculate_backoff_bounds p config a :
  policy_ok p -> (1 <= a <= u32_max)%Z ->
  match calculate_backoff (Some p) a config with
  | Some d =>
      (0 <= d <= max_delay p)%Z /\
      forall b d', (a <= b <= u32_max)%Z -> calculate_backoff (Some p) b config = Some d' -> (d <= d')%Z
  | None => exists i, backoff p = Linear i /\ (duration_max < i * (a - 1))%Z
  end.
Proof.
  intros [[Hbase Hmax] Hb] Ha. unfold calculate_backoff.
  assert (forall b, (a <= b <= u32_max)%Z -> wrap_u32 (b - 1) = (b - 1)%Z) as Hw
    by (intros; apply wrap_u32_small; unfold in_u32; lia).
  rewrite (Hw a) by lia. destruct (backoff p) as [| |i] eqn:Eb; cbn [mbind option_bind].
  - split; [lia|]. intros b d' Hab [= <-]. lia.
  - assert (forall n, 0 <= saturating_mul_u64 (wrap_u64 (as_millis (base_delay p))) (saturating_pow_u64 2 n))%Z as Hpos.
    { intros n. unfold saturating_mul_u64, saturating_pow_u64, wrap_u64.
      pose proof (Z.mod_pos_bound (as_millis (base_delay p)) (2 ^ 64)). pose proof (Z.pow_nonneg 2 n).
      unfold u64_max. nia. }
    pose proof (Hpos (a - 1)%Z). split; [unfold from_millis; lia|].
    intros b d' Hab. rewrite (Hw b) by lia. intros [= <-].
    apply Z.min_le_compat_r. unfold from_millis. apply Z.mul_le_mono_nonneg_r; [lia|].
    apply saturating_mul_mono.
    + unfold wrap_u64. apply Z.mod_pos_bound. lia.
    + apply saturating_pow_mono; lia.
  - destruct (Z.leb_spec (i * (a - 1)) duration_max) as [Hle|Hgt]; cbn [mbind option_bind].
    + assert (0 <= i * (a - 1))%Z by nia.
      split; [unfold duration_max, u64_max; lia|].
      intros b d' Hab. rewrite (Hw b) by lia.
      destruct (Z.leb_spec (i * (b - 1)) duration_max); cbn [mbind option_bind]; [|done].
      intros [= <-]. assert (i * (a - 1) <= i * (b - 1))%Z by nia. lia.
    + by exists i.
Qed.

Lemma calculate_backoff_bounds_witness :
  let p := RetryPolicy 5 Exponential (from_millis 100) (from_secs 1) in
  match calculate_backoff (Some p) 3 config_default with
  | Some d => (d = from_millis 400 /\ d <= max_delay p)%Z
  | None => False
  end.
Proof.
  assert (calculate_backoff (Some (RetryPolicy 5 Exponential (from_millis 100) (from_secs 1))) 3
            config_default = Some (from_millis 400)) as E by (vm_compute; reflexivity).
  pose proof (calculate_backoff_bounds (RetryPolicy 5 Exponential (from_millis 100) (from_secs 1))
    config_default 3) as H.
  specialize (H ltac:(repeat split; vm_compute; discriminate) ltac:(split; vm_compute; discriminate)).
  cbv zeta. rewrite E in H |- *. split; [reflexivity|apply H].
Defined.

(** ** Retries *)

Section RetryTrace.
Context {W : Type}.
Context (timed_invoke : duration -> tool W -> W -> envelope json -> W * attempt_outcome).
Context (cancelled : W -> bool) (now : W -> datetime) (sleep : duration -> W -> W).
Context (show_u64 : Z -> string).
Context (ctx : step_context (W:=W)) (t : tool W) (env : envelope json) (s : step).

#[local] Abbreviation name := (ti_name (info t)).

(** The pause before attempt [a]. *)
Definition pause (a : Z) : list event :=
  if (1 <? a)%Z then
    match calculate_backoff (st_retry s) (a - 1) (config ctx) with
    | Some d => [EvSleep d]
    | None => []
    end
  else [].

(** The report of failed attempts with the errors [errs], from attempt [a]. *)
Fixpoint failed_attempts (a : Z) (errs : list tool_error) : list event :=
  match errs with
  | [] => []
  | e :: errs' =>
      pause a ++ [EvToolStart (st_id s) name a;
                  EvToolRetry (st_id s) name a (tool_error_to_string show_u64 e)]
      ++ failed_attempts (a + 1) errs'
  end.

(** How the sequence can end at attempt [a] of [max]. *)
Inductive last_attempt (max a : Z) : list event -> option (result konflux_error (envelope json)) -> Prop :=
  | last_ok out :
      last_attempt max a (pause a ++ [EvToolStart (st_id s) name a; EvToolEnd (st_id s) name])
        (Some (Ok out))
  | last_error e :
      retryable e = false \/ a = max ->
      last_attempt max a (pause a ++ [EvToolStart (st_id s) name a]) (Some (Err (ETool e)))
  | last_panic :
      last_attempt max a (pause a ++ [EvToolStart (st_id s) name a]) None
  | last_overflow :
      (1 < a)%Z -> calculate_backoff (st_retry s) (a - 1) (config ctx) = None ->
      last_attempt max a [] None
  | last_cancelled :
      last_attempt max a [] (Some (Err (EExecution (Cancelled (workflow_id ctx)))))
  | last_deadline :
      env_deadline env <> None -> last_attempt max a [] (Some (Err (ETool (ToolTimeout 0)))).

Lemma retry_loop_trace max remaining : forall a last_err r r' out,
  (max = a + Z.of_nat remaining - 1)%Z -> (1 <= a)%Z -> remaining <> 0 ->
  retry_loop timed_invoke cancelled now sleep show_u64 ctx t env s max remaining a last_err r = (r', out) ->
  exists errs tail, Forall (fun e => retryable e = true) errs /\
    (a + Z.of_nat (length errs) <= max)%Z /\
    report r' = report r ++ failed_attempts a errs ++ tail /\
    last_attempt max (a + Z.of_nat (length errs)) tail out.
Proof.
  induction remaining as [|remaining IH]; intros a last_err r r' out Hmax Ha Hr; [done|].
  cbn [retry_loop].
  assert (forall tail o (r0 : run), report r0 = report r ++ tail -> last_attempt max a tail o ->
    (r0, o) = (r', out) -> exists errs tail, Forall (fun e => retryable e = true) errs /\
      (a + Z.of_nat (length errs) <= max)%Z /\
      report r' = report r ++ failed_attempts a errs ++ tail /\
      last_attempt max (a + Z.of_nat (length errs)) tail out) as Hend.
  { intros tail o r0 Hrep Hlast [= <- <-]. exists [], tail. split_and!; [constructor|cbn; lia|done|].
    cbn. by rewrite Z.add_0_r. }
  destruct (cancelled (world r)); [apply (Hend []); [by rewrite app_nil_r|constructor]|].
  destruct (match env_deadline env with Some d => (d <? now (world r))%Z | None => false end) eqn:Hdl.
  { apply (Hend []); [by rewrite app_nil_r|]. constructor. by destruct (env_deadline env). }
  destruct (if (1 <? a)%Z then _ else Some r) as [r1|] eqn:Hp; cycle 1.
  { apply (Hend []); [by rewrite app_nil_r|]. destruct (Z.ltb_spec 1 a) as [H1|]; [|done].
    apply fmap_None in Hp. by apply last_overflow. }
  assert (report r1 = report r ++ pause a) as Hr1.
  { unfold pause. destruct (1 <? a)%Z; [|injection Hp as <-; by rewrite app_nil_r].
    destruct (calculate_backoff (st_retry s) (a - 1) (config ctx)); [|done]. by injection Hp as <-. }
  clear Hp. cbv zeta. cbn [world report emit].
  destruct (timed_invoke _ t (world r1) env) as [w outcome]. cbn [world report emit].
  set (outcome' := match outcome with Finished res => _ | Elapsed => _ | Panicked => None end).
  destruct outcome' as [[o|e]|].
  - apply (Hend (pause a ++ [EvToolStart (st_id s) name a; EvToolEnd (st_id s) name]));
      [cbn; by rewrite Hr1, <- !app_assoc|constructor].
  - destruct (negb (retryable e) || (max <=? a)%Z)%bool eqn:Hstop.
    + apply (Hend (pause a ++ [EvToolStart (st_id s) name a]));
        [cbn; by rewrite Hr1, <- !app_assoc|]. constructor.
      apply orb_prop in Hstop as [Hs|Hs%Z.leb_le]; [left; by apply negb_true_iff|right; lia].
    + apply orb_false_iff in Hstop as [Hre%negb_false_iff Hlt%Z.leb_gt]. clear Hend.
      destruct remaining as [|remaining']; [lia|].
      intros H. apply IH in H as (errs & tail & Hf & Hl & Hrep & Hlast); [|lia|lia|done].
      exists (e :: errs), tail. split_and!; [by constructor|cbn; lia| |].
      * rewrite Hrep. cbn [failed_attempts report emit]. rewrite Hr1, <- !app_assoc. done.
      * cbn [length]. by replace (a + Z.of_nat (S (length errs)))%Z
          with (a + 1 + Z.of_nat (length errs))%Z by lia.
  - apply (Hend (pause a ++ [EvToolStart (st_id s) name a]));
      [cbn; by rewrite Hr1, <- !app_assoc|constructor].
Qed.
End RetryTrace.

(** C11: a dispatch makes at most one attempt plus the policy's retries.  The
    attempts before the last all failed with a retryable error, each was
    reported and followed by the policy's pause before the next; the last one
    succeeded, failed for good (a permanent error, or attempts used up),
    panicked, or did not start (cancelled, past the deadline, overflow of the
    pause). *)
Theorem invoke_with_retry_trace {W} timed_invoke cancelled now sleep show_u64
    (ctx : step_context (W:=W)) t env s r r' out :
  match st_retry s with Some p => (0 <= max_attempts p < u32_max)%Z | None => True end ->
  invoke_with_retry timed_invoke cancelled now sleep show_u64 ctx t env s r = (r', out) ->
  let max := match st_retry s with Some p => (max_attempts p + 1)%Z | None => 1%Z end in
  exists errs tail,
    Forall (fun e => retryable e = true) errs /\ (Z.of_nat (length errs) < max)%Z /\
    report r' = report r ++ failed_attempts show_u64 ctx t s 1 errs ++ tail /\
    last_attempt ctx t env s max (1 + Z.of_nat (length errs)) tail out.
Proof.
  intros Hp H max. unfold invoke_with_retry in H.
  assert (total_attempts s = max /\ 1 <= max)%Z as [Hmax Hpos].
  { unfold total_attempts, max. destruct (st_retry s) as [p|]; [|lia].
    rewrite wrap_u32_small; unfold in_u32, u32_max in *; lia. }
  cbv zeta in H. rewrite Hmax in H.
  apply retry_loop_trace in H as (errs & tail & Hf & Hl & Hrep & Hlast); [|lia..].
  exists errs, tail. split_and!; [done|lia|done|done].
Qed.

(** A tool that fails twice before it answers, and a world that counts. *)
Definition flaky_tool : tool nat := {|
  info := ToolInfo "flaky" "" JNull None ["flaky"] false annotations_default;
  invoke := fun n env =>
    (S n, if Nat.ltb n 2 then Err (ExecutionFailed "busy" true) else Ok env) |}.

Definition plain_timeout (d : duration) (t : tool nat) (w : nat) (env : envelope json) : nat * attempt_outcome :=
  let '(w', r) := invoke t w env in (w', Finished r).

Definition flaky_step : step := {|
  st_id := "n"; st_tool := "flaky"; st_input := ∅; st_edges := []; st_depends_on := [];
  st_join := JoinAll; st_on_error := ActFail;
  st_retry := Some (RetryPolicy 3 Exponential (from_millis 10) (from_secs 1)); st_timeout := None;
  st_credentials := ∅; st_grant := None; st_pipe := []; st_stream := StreamDefault; st_repeat := None |}.

Definition flaky_ctx : step_context (W:=nat) :=
  StepContext {["flaky" := flaky_tool]} ["flaky"] config_default ∅ "w".

Definition flaky_env : envelope json :=
  for_tool_dispatch 0%N 0%Z "flaky" (JObject []) ["flaky"] 0%N "ns" "a" "s".

Definition flaky_run : run * option (result konflux_error (envelope json)) :=
  invoke_with_retry plain_timeout (fun _ => false) (fun _ => 0%Z) (fun _ w => w)
    (fun _ => "0") flaky_ctx flaky_tool flaky_env flaky_step (Run 0 []).

Lemma invoke_with_retry_trace_witness :
  snd flaky_run = Some (Ok flaky_env) /\ world (fst flaky_run) = 3 /\
  exists errs tail, (Z.of_nat (length errs) < 4)%Z /\
    Forall (fun e => retryable e = true) errs /\
    report (fst flaky_run)
    = failed_attempts (fun _ => "0") flaky_ctx flaky_tool flaky_step 1 errs ++ tail.
Proof.
  split; [vm_compute; reflexivity|split; [vm_compute; reflexivity|]].
  destruct flaky_run as [r' out] eqn:E.
  destruct (invoke_with_retry_trace plain_timeout (fun _ => false) (fun _ => 0%Z) (fun _ w => w)
    (fun _ => "0") flaky_ctx flaky_tool flaky_env flaky_step (Run 0 []) r' out
    ltac:(split; vm_compute; congruence) E) as (errs & tail & Hf & Hl & Hrep & _).
  exists errs, tail. split; [exact Hl|split; [exact Hf|exact Hrep]].
Defined.

(** The sum wraps: a policy of [u32::MAX] retries permits no attempt at all. *)
Example retry_attempts_wrap :
  wrap_u32 (u32_max + 1) = 0%Z.
Proof. reflexivity. Qed.

(** ** Edges *)

Definition edge_le (a b : edge) : Prop := (priority a <= priority b)%Z.

Lemma insert_edge_perm e l : insert_edge e l ≡ₚ e :: l.
Proof.
  induction l as [|x l IH]; cbn; [done|]. destruct (priority x <=? priority e)%Z; [|done].
  rewrite IH. apply Permutation_swap.
Qed.

Lemma insert_edge_sorted e l : StronglySorted edge_le l -> StronglySorted edge_le (insert_edge e l).
Proof.
  induction 1 as [|x l Hs IH Hx]; cbn; [by repeat constructor|].
  destruct (Z.leb_spec (priority x) (priority e)).
  - constructor; [done|]. rewrite insert_edge_perm. by constructor.
  - constructor; [by constructor|]. constructor; [unfold edge_le; lia|].
    eapply Forall_impl; [exact Hx|]. unfold edge_le. lia.
Qed.

Lemma filter_none {A} (P : A -> Prop) `{!forall x, Decision (P x)} l :
  Forall (fun x => ~ P x) l -> filter P l = [].
Proof. induction 1; [done|]. by rewrite filter_cons_False. Qed.

Lemma insert_edge_stable p e l :
  StronglySorted edge_le l ->
  filter (fun x => priority x = p) (insert_edge e l)
  = filter (fun x => priority x = p) l ++ filter (fun x => priority x = p) [e].
Proof.
  induction 1 as [|x l Hs IH Hx]; [done|]. cbn [insert_edge].
  destruct (Z.leb_spec (priority x) (priority e)) as [Hle|Hgt].
  - rewrite !filter_cons, IH. by case_decide.
  - rewrite (filter_cons _ e (x :: l)). case_decide as He.
    + assert (filter (fun x0 => priority x0 = p) (x :: l) = []) as ->.
      { apply filter_none. constructor; [lia|]. eapply Forall_impl; [exact Hx|]. unfold edge_le. lia. }
      by rewrite filter_cons_True.
    + by rewrite (filter_cons_False _ e []), filter_nil, app_nil_r.
Qed.

Lemma sort_edges_spec es :
  sort_edges es ≡ₚ es /\ StronglySorted edge_le (sort_edges es) /\
  forall p, filter (fun x => priority x = p) (sort_edges es) = filter (fun x => priority x = p) es.
Proof.
  unfold sort_edges. enough (forall acc, StronglySorted edge_le acc ->
    let r := fold_left (fun acc e => insert_edge e acc) es acc in
    r ≡ₚ acc ++ es /\ StronglySorted edge_le r /\
    forall p, filter (fun x => priority x = p) r
              = filter (fun x => priority x = p) acc ++ filter (fun x => priority x = p) es) as H.
  { destruct (H [] ltac:(constructor)) as (H1 & H2 & H3). auto. }
  induction es as [|e es IH]; intros acc Hacc; cbn [fold_left].
  - split_and!; [by rewrite app_nil_r|done|]. intros p. by rewrite filter_nil, app_nil_r.
  - destruct (IH (insert_edge e acc)) as (H1 & H2 & H3); [by apply insert_edge_sorted|].
    split_and!; [|done|].
    + rewrite H1, insert_edge_perm. by rewrite <- Permutation_middle.
    + intros p. rewrite H3, insert_edge_stable, <- app_assoc by done.
      by rewrite <- (filter_app _ [e] es).
Qed.

Section EdgeSpec.
Context (show_expr_error : expr_error -> string).
Context (context : gmap string expr_value) (workflow_id node : string).

(** What an edge's condition says. *)
Definition edge_value (e : edge) : option (result expr_error bool) :=
  (fun c => evaluate_as_bool context (clean_condition c)) <$> condition e.

Definition passed (e : edge) : Prop := edge_value e = None \/ edge_value e = Some (Ok false).

(** The targets of the edges without a condition. *)
Definition plain_targets (es : list edge) : list edge_target :=
  omap (fun e => match condition e with None => Some (target e) | Some _ => None end) es.

Definition or_return (ts : list edge_target) : list edge_target :=
  match ts with [] => [ToReturn] | _ => ts end.

Lemma edge_loop_passed pre : forall rest targets,
  Forall passed pre ->
  edge_loop show_expr_error context workflow_id node (pre ++ rest) targets
  = edge_loop show_expr_error context workflow_id node rest (targets ++ plain_targets pre).
Proof.
  unfold passed, edge_value.
  induction pre as [|e pre IH]; intros rest targets Hp; [by rewrite app_nil_r|].
  apply Forall_cons in Hp as [He Hp]. cbn [app edge_loop plain_targets omap list_omap].
  destruct (condition e) as [c|]; cbn [fmap option_fmap option_map] in He.
  - destruct (evaluate_as_bool context (clean_condition c)) as [[]|]; destruct He as [He|He];
      try discriminate.
    by apply IH.
  - rewrite IH by done. by rewrite <- app_assoc.
Qed.

Lemma first_not_passed es :
  Forall passed es \/
  exists pre e post, es = pre ++ e :: post /\ Forall passed pre /\
    (edge_value e = Some (Ok true) \/ exists err, edge_value e = Some (Err err)).
Proof.
  induction es as [|e es IH]; [by left; constructor|].
  destruct (edge_value e) as [[[]|err]|] eqn:Hv.
  - right. exists [], e, es. auto.
  - destruct IH as [IH|(pre & e' & post & -> & Hp & H)].
    + left. constructor; [by right|done].
    + right. exists (e :: pre), e', post. split_and!; [done|constructor; [by right|done]|done].
  - right. exists [], e, es. eauto.
  - destruct IH as [IH|(pre & e' & post & -> & Hp & H)].
    + left. constructor; [by left|done].
    + right. exists (e :: pre), e', post. split_and!; [done|constructor; [by left|done]|done].
Qed.
End EdgeSpec.

(** The edges a finished step follows.  They are examined by ascending
    priority, ties in the order of the file; the first whose condition is
    true ends the search, and the targets are those of the unconditional
    edges before it and its own; without such an edge, all the unconditional
    ones, or the return of the workflow when there are none.  A condition
    that fails to evaluate fails the node. *)
Theorem evaluate_edges_targets_spec show_expr_error s outputs wid :
  let context := to_expr_context outputs in
  let res := evaluate_edges_targets show_expr_error s outputs wid in
  exists es,
    es ≡ₚ st_edges s /\ StronglySorted edge_le es /\
    (forall p, filter (fun x => priority x = p) es = filter (fun x => priority x = p) (st_edges s)) /\
    ((Forall (passed context) es /\ res = Ok (or_return (plain_targets es))) \/
     exists pre e post, es = pre ++ e :: post /\ Forall (passed context) pre /\
       ((edge_value context e = Some (Ok true) /\ res = Ok (plain_targets pre ++ [target e])) \/
        exists err, edge_value context e = Some (Err err) /\
          res = Err (EExecution (NodeFailed wid (st_id s)
                       (String.append "Condition evaluation failed: " (show_expr_error err)))))).
Proof.
  intros context res. exists (sort_edges (st_edges s)).
  destruct (sort_edges_spec (st_edges s)) as (H1 & H2 & H3). split_and!; [done..|].
  assert (res = edge_loop show_expr_error context wid (st_id s) (sort_edges (st_edges s)) []) as ->.
  { unfold res, evaluate_edges_targets. by destruct (st_edges s). }
  destruct (first_not_passed context (sort_edges (st_edges s))) as [Hp|(pre & e & post & -> & Hp & He)].
  - left. split; [done|]. rewrite <- (app_nil_r (sort_edges _)) at 1. by rewrite edge_loop_passed.
  - right. exists pre, e, post. split_and!; [done|done|]. rewrite edge_loop_passed by done. cbn [app].
    unfold edge_value in *. cbn [edge_loop]. destruct (condition e) as [c|]; [|by destruct He as [|[]]].
    cbn [fmap option_fmap option_map] in *.
    destruct He as [[= He]|[err [= He]]]; rewrite He; [left|right]; eauto.
Qed.
