(* ===== verification/Dag.v ===== *)
(** The workflow scheduler ([konflux-substrate/src/executor.rs],
    [Executor::execute], [spawn_node], [can_run]): node tasks running
    concurrently with the main loop that spawns, joins and ends them.

    A configuration holds the shared [State], the tasks of the [JoinSet], the
    channel of finished messages and the locals of the main loop.  [exec] is
    one atomic action; tasks are cut at the points where they await, so an
    execution of the program is a sequence of actions in which the tasks
    interleave at will.  What a tool call returns is the action's choice. *)

From S2P Require Import Prelude Json Error Envelope Tool Expr Workflow Template Config Schema Validator Compiler Executor.

Local Open Scope string_scope.
Local Open Scope list_scope.

(** [FinishedInfo]. *)
Inductive finished_info : Type := FNode (id : string) | FSpawnNext (id : string).

(** Where a node task stands: at the head of its loop, about to resolve its
    inputs, waiting for its tool, with the result of the step, with the
    output stored, choosing edges, sending messages, returned. *)
Inductive phase : Type :=
  | PhStart
  | PhResolve
  | PhInvoke (env : envelope json)
  | PhResult (r : result konflux_error json)
  | PhAfter (v : json)
  | PhEdges (v : json)
  | PhSend (msgs : list finished_info) (r : result konflux_error (option json))
  | PhDone (r : result konflux_error (option json)).

(** The locals of a node task. *)
Record task : Type := Task {
  tk_step : step;
  tk_iteration : Z;
  tk_steps : Z;
  tk_phase : phase;
}.

(** [State] and the locals of [execute]. *)
Record config_state : Type := Config {
  outputs : gmap string json;
  errors : gmap string string;
  tasks : list task;
  channel : list finished_info;
  executed : gset string;
  reachable : gset string;
  spawned : nat;
  finished : nat;
  steps_count : Z;
  final_output : json;
  cancel : bool;
  status : option (result konflux_error json);
  trace : list (step * envelope json);
}.

(** [Executor::can_run]. *)
Definition is_completed (outputs : gmap string json) (errors : gmap string string) (id : string) : bool :=
  bool_decide (is_Some (outputs !! id)) || bool_decide (is_Some (errors !! id)).

Definition can_run (outputs : gmap string json) (errors : gmap string string) (s : step) : bool :=
  match st_depends_on s with
  | [] => true
  | deps =>
      let completed := length (List.filter (is_completed outputs errors) deps) in
      match st_join s with
      | JoinAll => Nat.eqb completed (length deps)
      | JoinAny => Nat.ltb 0 completed
      | JoinQuorum min => (min <=? Z.of_nat completed)%Z
      | JoinLenient => true
      end
  end.

Section Scheduler.
Context {W : Type}.
Context (now : W -> datetime).
Context (show_u64 : Z -> string) (show_expr_error : expr_error -> string).
Context (render : string -> gmap string json -> result string string).
Context (parse_uuid : string -> option uuid) (new_uuid : nat -> W -> uuid).
Context (ctx : step_context (W:=W)) (wf : workflow).

#[local] Abbreviation wid := (wf_id wf).

Definition node_failed (id message : string) : konflux_error :=
  EExecution (NodeFailed (workflow_id ctx) id message).

(** ** The node task *)

Definition at_phase (t : task) (ph : phase) : task := Task (tk_step t) (tk_iteration t) (tk_steps t) ph.

(** [current_step = next; iteration = 0; continue]. *)
Definition continue_with (t : task) (s : step) : task := Task s 0 (tk_steps t) PhStart.

(** The end of a task: its [Node] message, then its result. *)
Definition finish (t : task) (msgs : list finished_info) (r : result konflux_error (option json)) : task :=
  at_phase t (PhSend (msgs ++ [FNode (st_id (tk_step t))]) r).

(** The reaction to a failed step. *)
Definition on_error (t : task) (err : konflux_error) (outs : gmap string json) (errs : gmap string string)
  : gmap string json * gmap string string * task :=
  let id := st_id (tk_step t) in
  match st_on_error (tk_step t) with
  | ActFail => (outs, <[id := konflux_error_to_string show_u64 err]> errs, finish t [] (Err err))
  | ActSkip => (<[id := JNull]> outs, errs, finish t [] (Ok None))
  | ActFallback value =>
      (<[id := JString value]> outs, errs, finish t [] (Ok (Some (JString value))))
  | ActGoto target =>
      match get_step wf target with
      | Some next => (outs, errs, continue_with t next)
      | None => (outs, errs, finish t [] (Err err))
      end
  end.

(** The repeat condition of a step that succeeded. *)
Definition after_success (t : task) (v : json) (outs : gmap string json) : task :=
  match st_repeat (tk_step t) with
  | None => at_phase t (PhEdges v)
  | Some rp =>
      match evaluate_as_bool (to_expr_context outs) (until rp) with
      | Ok true => at_phase t (PhEdges v)
      | Ok false =>
          let iteration := (tk_iteration t + 1)%Z in
          Task (tk_step t) iteration (tk_steps t)
            (if (iteration <? rep_max rp)%Z then PhStart else PhEdges v)
      | Err e =>
          finish t [] (Err (node_failed (st_id (tk_step t))
                              (String.append "Repeat condition evaluation failed: " (show_expr_error e))))
      end
  end.

Definition spawn_next (target : edge_target) : option finished_info :=
  match target with ToStep id => Some (FSpawnNext id) | ToReturn => None end.

(** Following the edges: a single step with at most one dependency runs on in
    the same task, anything else is handed to the main loop. *)
Definition follow_edges (t : task) (v : json) (outs : gmap string json) : task :=
  match evaluate_edges_targets show_expr_error (tk_step t) outs (workflow_id ctx) with
  | Ok [ToStep id] =>
      match get_step wf id with
      | Some next =>
          if Nat.leb (length (st_depends_on next)) 1 then continue_with t next
          else finish t [FSpawnNext id] (Ok (Some v))
      | None => finish t [FSpawnNext id] (Ok (Some v))
      end
  | Ok [ToReturn] => finish t [] (Ok (Some v))
  | Ok targets => finish t (omap spawn_next targets) (Ok (Some v))
  | Err e => finish t [] (Err e)
  end.

(** One step of a node task up to its next await: the new state, the task, and
    the dispatch it makes, if any.  [w] is the world the envelope is stamped
    in, [r] what the tool call returns. *)
Definition task_step (cancelled : bool) (w : W) (r : result konflux_error json)
    (outs : gmap string json) (errs : gmap string string) (t : task)
  : option (gmap string json * gmap string string * task * list (step * envelope json)) :=
  let s := tk_step t in
  match tk_phase t with
  | PhStart =>
      if cancelled then
        Some (outs, errs, finish t [] (Err (EExecution (Cancelled (workflow_id ctx)))), [])
      else
        let outs :=
          match st_repeat s ≫= as_var with
          | Some var => <[var := JNumber (PosInt (tk_iteration t))]> outs
          | None => outs
          end in
        Some (outs, errs, Task s (tk_iteration t) (tk_steps t + 1) PhResolve, [])
  | PhResolve =>
      match prepare_step now render parse_uuid new_uuid ctx s outs w with
      | Ok (_, env) => Some (outs, errs, at_phase t (PhInvoke env), [(s, env)])
      | Err e => Some (outs, errs, at_phase t (PhResult (Err e)), [])
      end
  | PhInvoke _ => Some (outs, errs, at_phase t (PhResult r), [])
  | PhResult (Ok v) => Some (<[st_id s := v]> outs, errs, at_phase t (PhAfter v), [])
  | PhResult (Err err) =>
      let '(outs, errs, t) := on_error t err outs errs in Some (outs, errs, t, [])
  | PhAfter v => Some (outs, errs, after_success t v outs, [])
  | PhEdges v => Some (outs, errs, follow_edges t v outs, [])
  | PhSend _ _ | PhDone _ => None
  end.

(** ** The main loop *)

(** [spawn_node], with the bookkeeping before it. *)
Definition spawn (s : step) (c : config_state) : config_state := {|
  outputs := outputs c; errors := errors c;
  tasks := tasks c ++ [Task s 0 0 PhStart];
  channel := channel c;
  executed := {[st_id s]} ∪ executed c;
  reachable := reachable c;
  spawned := S (spawned c); finished := finished c;
  steps_count := steps_count c; final_output := final_output c;
  cancel := cancel c; status := status c; trace := trace c |}.

(** The attempt to spawn one reachable step. *)
Definition try_spawn (id : string) (c : config_state) : config_state :=
  if bool_decide (id ∈ executed c) then c
  else
    match get_step wf id with
    | Some s => if can_run (outputs c) (errors c) s then spawn s c else c
    | None => c
    end.

Definition at_capacity (c : config_state) : bool :=
  (max_concurrent_nodes (config ctx) <=? Z.of_nat (length (tasks c)))%Z.

(** The loop over [reachable_nodes], left at capacity; [order] is the order
    the hash set yields. *)
Fixpoint spawn_reachable (order : list string) (c : config_state) : config_state :=
  match order with
  | [] => c
  | id :: rest => if at_capacity c then c else spawn_reachable rest (try_spawn id c)
  end.

Definition set_status (st : option (result konflux_error json)) (c : config_state) : config_state := {|
  outputs := outputs c; errors := errors c; tasks := tasks c; channel := channel c;
  executed := executed c; reachable := reachable c; spawned := spawned c; finished := finished c;
  steps_count := steps_count c; final_output := final_output c; cancel := cancel c;
  status := st; trace := trace c |}.

(** The test at the end of the loop body. *)
Definition end_check (c : config_state) : config_state :=
  match status c with
  | Some _ => c
  | None =>
      if (Nat.eqb (spawned c) (finished c) && match tasks c with [] => true | _ => false end)%bool
      then set_status (Some (Ok (final_output c))) c else c
  end.

(** The start of [execute]; [None] when the entry step does not exist. *)
Definition init (input : json) : option config_state :=
  (fun entry => {|
     outputs := {["input" := input]}; errors := ∅;
     tasks := [Task entry 0 0 PhStart]; channel := [];
     executed := {[st_id entry]}; reachable := {[st_id entry]};
     spawned := 1; finished := 0; steps_count := 0; final_output := JNull;
     cancel := false; status := None; trace := [] |}) <$> get_step wf (wf_entry wf).

(** The actions: a task runs to its next await or sends a message, the main
    loop joins a task, receives a message or sees the cancellation, somebody
    cancels. *)
Inductive action : Type :=
  | ATask (i : nat) (w : W) (r : result konflux_error json)
  | ASend (i : nat)
  | AJoin (i : nat)
  | ARecv (order : list string)
  | ACancelled
  | ACancel.

Definition with_task (i : nat) (t : task) (outs : gmap string json) (errs : gmap string string)
    (ch : list finished_info) (tr : list (step * envelope json)) (c : config_state) : config_state := {|
  outputs := outs; errors := errs; tasks := <[i := t]> (tasks c); channel := ch;
  executed := executed c; reachable := reachable c; spawned := spawned c; finished := finished c;
  steps_count := steps_count c; final_output := final_output c; cancel := cancel c;
  status := status c; trace := tr |}.

(** [join_next] on a finished task. *)
Definition join_task (i : nat) (t : task) (r : result konflux_error (option json)) (c : config_state)
  : config_state :=
  let c := {|
    outputs := outputs c; errors := errors c; tasks := delete i (tasks c); channel := channel c;
    executed := executed c; reachable := reachable c; spawned := spawned c; finished := finished c;
    steps_count := (steps_count c + match r with Ok _ => tk_steps t | Err _ => 0 end)%Z;
    final_output := match r with Ok (Some out) => out | _ => final_output c end;
    cancel := cancel c; status := status c; trace := trace c |} in
  match r with
  | Err e => set_status (Some (Err e)) c
  | Ok _ =>
      if (max_steps (config ctx) <? steps_count c)%Z
      then set_status (Some (Err (EExecution (MaxStepsExceeded wid (max_steps (config ctx)))))) c
      else end_check c
  end.

Definition received (rest : list finished_info) (reach : gset string) (fin : nat) (c : config_state)
  : config_state := {|
  outputs := outputs c; errors := errors c; tasks := tasks c; channel := rest;
  executed := executed c; reachable := reach; spawned := spawned c; finished := fin;
  steps_count := steps_count c; final_output := final_output c; cancel := cancel c;
  status := status c; trace := trace c |}.

(** [finished_rx.recv] of one message. *)
Definition recv_message (m : finished_info) (rest : list finished_info) (order : list string)
    (c : config_state) : config_state :=
  match m with
  | FNode _ => end_check (spawn_reachable order (received rest (reachable c) (S (finished c)) c))
  | FSpawnNext id =>
      let c := received rest ({[id]} ∪ reachable c) (finished c) c in
      end_check (if at_capacity c then c else try_spawn id c)
  end.

Definition set_cancel (c : config_state) : config_state := {|
  outputs := outputs c; errors := errors c; tasks := tasks c; channel := channel c;
  executed := executed c; reachable := reachable c; spawned := spawned c; finished := finished c;
  steps_count := steps_count c; final_output := final_output c; cancel := true;
  status := status c; trace := trace c |}.

Definition room (c : config_state) : bool :=
  (Z.of_nat (length (channel c)) <? finished_channel_size (config ctx))%Z.

(** One action; [None] when it is not enabled. *)
Definition exec (c : config_state) (a : action) : option config_state :=
  match status c with
  | Some _ => None
  | None =>
      match a with
      | ATask i w r =>
          t ← tasks c !! i;
          '(outs, errs, t, tr) ← task_step (cancel c) w r (outputs c) (errors c) t;
          Some (with_task i t outs errs (channel c) (trace c ++ tr) c)
      | ASend i =>
          t ← tasks c !! i;
          match tk_phase t with
          | PhSend (m :: ms) r =>
              if room c then
                Some (with_task i (at_phase t (PhSend ms r)) (outputs c) (errors c)
                        (channel c ++ [m]) (trace c) c)
              else None
          | PhSend [] r =>
              Some (with_task i (at_phase t (PhDone r)) (outputs c) (errors c) (channel c) (trace c) c)
          | _ => None
          end
      | AJoin i =>
          t ← tasks c !! i;
          match tk_phase t with
          | PhDone r => Some (join_task i t r c)
          | _ => None
          end
      | ARecv order =>
          if bool_decide (order ≡ₚ elements (reachable c)) then
            match channel c with
            | m :: rest => Some (recv_message m rest order c)
            | [] => None
            end
          else None
      | ACancelled =>
          if cancel c then Some (set_status (Some (Err (EExecution (Cancelled wid)))) c) else None
      | ACancel => Some (set_cancel c)
      end
  end.

Definition exec_step (c c' : config_state) : Prop := exists a, exec c a = Some c'.

(** The configurations an execution on [input] can be in. *)
Inductive reaches (input : json) : config_state -> Prop :=
  | reaches_init c : init input = Some c -> reaches input c
  | reaches_step c c' : reaches input c -> exec_step c c' -> reaches input c'.

(** A run along given actions. *)
Fixpoint exec_list (c : config_state) (l : list action) : option config_state :=
  match l with
  | [] => Some c
  | a :: l' => c' ← exec c a; exec_list c' l'
  end.
End Scheduler.

(** * Invariants *)

(** Sums over the list of tasks. *)
Lemma sum_update {A} (f : A -> nat) l i x y :
  l !! i = Some x -> sum_list_with f (<[i := y]> l) + f x = sum_list_with f l + f y.
Proof.
  intros H. pose proof (lookup_lt_Some _ _ _ H). rewrite insert_take_drop by done.
  rewrite <- (take_drop_middle l i x H) at 3. rewrite !sum_list_with_app. cbn. lia.
Qed.

Lemma sum_delete {A} (f : A -> nat) l i x :
  l !! i = Some x -> sum_list_with f (delete i l) + f x = sum_list_with f l.
Proof.
  intros H. rewrite delete_take_drop. rewrite <- (take_drop_middle l i x H) at 3.
  rewrite !sum_list_with_app. cbn. lia.
Qed.

Definition is_node (m : finished_info) : nat := match m with FNode _ => 1 | FSpawnNext _ => 0 end.

Definition nodes_in (l : list finished_info) : nat := sum_list_with is_node l.

(** The [Node] messages a task has still to send. *)
Definition pending (t : task) : nat :=
  match tk_phase t with
  | PhSend msgs _ => nodes_in msgs
  | PhDone _ => 0
  | _ => 1
  end.

(** Completed nodes stay completed. *)
Definition grows (outs : gmap string json) (errs : gmap string string)
    (outs' : gmap string json) (errs' : gmap string string) : Prop :=
  forall id, is_completed outs errs id = true -> is_completed outs' errs' id = true.

Lemma is_completed_spec outs errs id :
  is_completed outs errs id = true <-> is_Some (outs !! id) \/ is_Some (errs !! id).
Proof. unfold is_completed. by rewrite orb_true_iff, !bool_decide_eq_true. Qed.

Lemma grows_refl outs errs : grows outs errs outs errs.
Proof. by intros id. Qed.

Lemma grows_outputs outs errs k v : grows outs errs (<[k := v]> outs) errs.
Proof.
  intros id. rewrite !is_completed_spec, lookup_insert. case_decide; [left; by eexists|done].
Qed.

Lemma grows_errors outs errs k v : grows outs errs outs (<[k := v]> errs).
Proof.
  intros id. rewrite !is_completed_spec, lookup_insert. case_decide; [right; by eexists|done].
Qed.

#[export] Hint Resolve grows_refl grows_outputs grows_errors : rust.

Lemma filter_length_mono {A} (p q : A -> bool) l :
  (forall x, p x = true -> q x = true) ->
  length (List.filter p l) <= length (List.filter q l).
Proof.
  intros Hpq. induction l as [|x l IH]; cbn; [lia|].
  specialize (Hpq x). destruct (p x), (q x); cbn; lia.
Qed.

Lemma can_run_grows outs errs outs' errs' s :
  grows outs errs outs' errs' -> can_run outs errs s = true -> can_run outs' errs' s = true.
Proof.
  intros Hg. unfold can_run. destruct (st_depends_on s) as [|d deps] eqn:E; [done|]. rewrite <- E. clear E.
  pose proof (filter_length_mono _ _ (st_depends_on s) Hg).
  pose proof (List.filter_length_le (is_completed outs' errs') (st_depends_on s)).
  destruct (st_join s); [rewrite !Nat.eqb_eq; lia|rewrite !Nat.ltb_lt; lia|rewrite !Z.leb_le; lia|done].
Qed.

Section Invariant.
Context {W : Type}.
Context (now : W -> datetime).
Context (show_u64 : Z -> string) (show_expr_error : expr_error -> string).
Context (render : string -> gmap string json -> result string string).
Context (parse_uuid : string -> option uuid) (new_uuid : nat -> W -> uuid).
Context (ctx : step_context (W:=W)) (wf : workflow).

#[local] Abbreviation exec := (exec now show_u64 show_expr_error render parse_uuid new_uuid ctx wf).
#[local] Abbreviation reaches := (reaches now show_u64 show_expr_error render parse_uuid new_uuid ctx wf).
#[local] Abbreviation task_step := (task_step now show_u64 show_expr_error render parse_uuid new_uuid ctx wf).

(** A dispatch within the authority of the run: a step of the workflow, a tool
    the run may use, addressed by name, and an envelope that grants nothing
    the run does not have. *)
Record authorised (s : step) (env : envelope json) : Prop := {
  au_step : s ∈ wf_steps wf;
  au_tool : check_tool_access (st_tool s) (capabilities ctx) = Ok tt;
  au_registered : is_Some (registry ctx !! st_tool s);
  au_target : env_target env = st_tool s;
  au_caps : forall t, check_access (env_capabilities env) t = Ok tt ->
    check_tool_access t (capabilities ctx) = Ok tt;
}.

Lemma prepare_step_authorised s outs w t env :
  s ∈ wf_steps wf ->
  prepare_step now render parse_uuid new_uuid ctx s outs w = Ok (t, env) -> authorised s env.
Proof.
  intros Hs. unfold prepare_step.
  destruct (resolve_inputs render outs (st_input s)) as [resolved|]; [|done]. cbn [map_err mbind result_bind].
  destruct (check_tool_access (st_tool s) (capabilities ctx)) as [[]|] eqn:Hacc; [|done].
  cbn [map_err mbind result_bind].
  destruct (registry ctx !! st_tool s) as [t'|] eqn:Hreg; [|done]. cbn [ok_or mbind result_bind].
  destruct (st_grant s) as [grant|].
  - unfold validate_grant.
    destruct (attenuate (from_patterns (capabilities ctx)) grant) as [child|] eqn:Hatt; [|done].
    cbn [map_err mbind result_bind]. intros [= <- <-]. constructor; [done|done|by eexists|done|].
    intros tl Htl. cbn in Htl. apply attenuate_Ok in Hatt as Hc. destruct Hc as [-> _].
    eapply attenuate_narrows; [by exists grant|exact Htl].
  - cbn [mbind result_bind]. intros [= <- <-]. constructor; [done|done|by eexists|done|].
    intros tl Htl. exact Htl.
Qed.

(** ** One step of a task *)

Lemma pending_finish t msgs r : nodes_in msgs = 0 -> pending (finish t msgs r) = 1.
Proof. intros H. unfold pending, finish, nodes_in in *. cbn. rewrite sum_list_with_app. cbn. lia. Qed.

Lemma spawn_next_no_node targets : nodes_in (omap spawn_next targets) = 0.
Proof. unfold nodes_in. induction targets as [|[id|] ts IH]; cbn; auto. Qed.

(** What a step of a task keeps: its one pending [Node] message, a step of the
    workflow, the completed nodes, authorised dispatches. *)
Record step_facts (outs : gmap string json) (errs : gmap string string) (t : task)
    (outs' : gmap string json) (errs' : gmap string string) (t' : task)
    (tr : list (step * envelope json)) : Prop := {
  sf_pending : pending t = 1 /\ pending t' = 1;
  sf_step : tk_step t ∈ wf_steps wf -> tk_step t' ∈ wf_steps wf;
  sf_grows : grows outs errs outs' errs';
  sf_trace : tk_step t ∈ wf_steps wf -> Forall (fun se => authorised se.1 se.2) tr;
}.

#[local] Hint Resolve pending_finish spawn_next_no_node : rust.

Lemma get_step_in id s : get_step wf id = Some s -> s ∈ wf_steps wf.
Proof. by intros [? _]%get_step_Some. Qed.

Lemma on_error_facts t err outs errs outs' errs' t' :
  on_error show_u64 wf t err outs errs = (outs', errs', t') ->
  grows outs errs outs' errs' /\ pending t' = 1 /\
  (tk_step t ∈ wf_steps wf -> tk_step t' ∈ wf_steps wf).
Proof.
  unfold on_error. destruct (st_on_error (tk_step t)) as [| |v|g].
  - intros [= <- <- <-]. split_and!; auto with rust.
  - intros [= <- <- <-]. split_and!; auto with rust.
  - intros [= <- <- <-]. split_and!; auto with rust.
  - destruct (get_step wf g) as [next|] eqn:E; intros [= <- <- <-]; split_and!; auto with rust.
    intros _. by eapply get_step_in.
Qed.

Lemma after_success_facts t v outs :
  pending (after_success show_expr_error ctx t v outs) = 1 /\
  tk_step (after_success show_expr_error ctx t v outs) = tk_step t.
Proof.
  unfold after_success. destruct (st_repeat (tk_step t)) as [rp|]; [|done].
  destruct (evaluate_as_bool _ _) as [[]|e]; [done| |split; [by apply pending_finish|done]].
  cbn. by destruct (_ <? _)%Z.
Qed.

Lemma follow_edges_facts t v outs :
  pending (follow_edges show_expr_error ctx wf t v outs) = 1 /\
  (tk_step t ∈ wf_steps wf -> tk_step (follow_edges show_expr_error ctx wf t v outs) ∈ wf_steps wf).
Proof.
  unfold follow_edges.
  destruct (evaluate_edges_targets _ _ _ _) as [targets|e];
    [|split; [by apply pending_finish|done]].
  assert (forall msgs r, nodes_in msgs = 0 -> pending (finish t msgs r) = 1 /\
    (tk_step t ∈ wf_steps wf -> tk_step (finish t msgs r) ∈ wf_steps wf)) as Hfin
    by (intros msgs r Hm; split; [by apply pending_finish|done]).
  destruct targets as [|[id|] [|tgt targets]];
    try (apply Hfin; apply (spawn_next_no_node _) || done).
  - destruct (get_step wf id) as [next|] eqn:E; [|by apply Hfin].
    destruct (Nat.leb _ 1); [|by apply Hfin]. split; [done|]. intros _. by eapply get_step_in.
Qed.

Lemma task_step_facts b w r outs errs t outs' errs' t' tr :
  task_step b w r outs errs t = Some (outs', errs', t', tr) ->
  step_facts outs errs t outs' errs' t' tr.
Proof.
  unfold Dag.task_step. destruct (tk_phase t) as [| |env|[v|e]|v|v|msgs res|res] eqn:Hph; try done;
    assert (pending t = 1) as Hp by (unfold pending; by rewrite Hph).
  - destruct b.
    + intros [= <- <- <- <-]. constructor; auto with rust.
    + intros [= <- <- <- <-]. constructor; auto.
      destruct (st_repeat (tk_step t) ≫= as_var); auto with rust.
  - destruct (prepare_step _ _ _ _ _ _ _ _) as [[tl env]|e] eqn:Hprep; intros [= <- <- <- <-];
      constructor; auto with rust.
    intros Hin. constructor; [|constructor]. by eapply prepare_step_authorised.
  - intros [= <- <- <- <-]. constructor; auto with rust.
  - intros [= <- <- <- <-]. constructor; auto with rust.
  - destruct (on_error _ _ _ _ _ _) as [[o1 e1] t1] eqn:Herr. intros [= <- <- <- <-].
    apply on_error_facts in Herr as (Hg & Hpe & Hin). constructor; auto.
  - intros [= <- <- <- <-]. destruct (after_success_facts t v outs) as [H1 H2].
    constructor; auto with rust. by rewrite H2.
  - intros [= <- <- <- <-]. destruct (follow_edges_facts t v outs) as [H1 H2].
    constructor; auto with rust.
Qed.

(** A task that is not sending or done can always run on. *)
Lemma task_step_enabled b w r outs errs t :
  match tk_phase t with PhSend _ _ | PhDone _ => False | _ => True end ->
  exists x, task_step b w r outs errs t = Some x.
Proof.
  unfold Dag.task_step. destruct (tk_phase t) as [| |env|[v|e]|v|v|msgs res|res]; try done; intros _.
  - destruct b; by eexists.
  - destruct (prepare_step _ _ _ _ _ _ _ _) as [[tl env]|e]; by eexists.
  - by eexists.
  - by eexists.
  - destruct (on_error _ _ _ _ _ _) as [[o1 e1] t1]. by eexists.
  - by eexists.
  - by eexists.
Qed.

(** ** Configurations *)

(** The bookkeeping: as many spawns as executed nodes; a [Node] message per
    spawn, received, on its way or still to be sent; no more tasks than the
    limit; executed nodes are the entry or could run; authorised dispatches. *)
Record inv0 (c : config_state) : Prop := {
  i_spawned : spawned c = size (executed c);
  i_count : finished c + nodes_in (channel c) + sum_list_with pending (tasks c) = spawned c;
  i_bound : (Z.of_nat (length (tasks c)) <= Z.max 1 (max_concurrent_nodes (config ctx)))%Z;
  i_executed : forall id, id ∈ executed c -> exists s, get_step wf id = Some s /\
    (id = wf_entry wf \/ can_run (outputs c) (errors c) s = true);
  i_tasks : forall t, t ∈ tasks c -> tk_step t ∈ wf_steps wf;
  i_trace : Forall (fun se => authorised se.1 se.2) (trace c);
}.

Definition status_ok (c : config_state) : Prop :=
  match status c with
  | None => (steps_count c <= max_steps (config ctx))%Z /\ ~ (spawned c = finished c /\ tasks c = [])
  | Some (Ok out) => (steps_count c <= max_steps (config ctx))%Z /\ out = final_output c /\
      spawned c = finished c /\ tasks c = []
  | Some (Err _) => True
  end.

Lemma set_status_inv0 st c : inv0 c -> inv0 (set_status st c).
Proof. by intros []. Qed.

Lemma end_check_ok c :
  inv0 c -> status c = None -> (steps_count c <= max_steps (config ctx))%Z ->
  inv0 (end_check c) /\ status_ok (end_check c).
Proof.
  intros Hi Hs Hsteps. unfold end_check. rewrite Hs.
  destruct (Nat.eqb (spawned c) (finished c) && match tasks c with [] => true | _ => false end)%bool eqn:E.
  - split; [by apply set_status_inv0|]. apply andb_prop in E as [H1%Nat.eqb_eq H2].
    unfold status_ok. cbn. split_and!; [done|done|done|]. by destruct (tasks c).
  - split; [done|]. unfold status_ok. rewrite Hs. split; [done|]. intros [H1 H2].
    rewrite H1, H2, Nat.eqb_refl in E. done.
Qed.

Lemma try_spawn_inv0 id c :
  inv0 c -> at_capacity ctx c = false -> inv0 (try_spawn wf id c).
Proof.
  intros Hi Hcap. unfold try_spawn. case_bool_decide as Hex; [done|].
  destruct (get_step wf id) as [s|] eqn:Hs; [|done].
  destruct (can_run (outputs c) (errors c) s) eqn:Hrun; [|done].
  destruct Hi as [H1 H2 H3 H4 H5 H6]. pose proof (get_step_Some _ _ _ Hs) as [Hin Hid].
  unfold at_capacity in Hcap. apply Z.leb_gt in Hcap.
  constructor; cbn [spawn spawned executed finished channel tasks outputs errors trace].
  - rewrite size_union, size_singleton, H1 by (rewrite Hid; set_solver). done.
  - rewrite sum_list_with_app. cbn. lia.
  - rewrite length_app. cbn [length]. lia.
  - intros id'. rewrite elem_of_union, elem_of_singleton. intros [->|Hid']; [|by apply H4].
    exists s. rewrite Hid. auto.
  - intros t. rewrite elem_of_app, list_elem_of_singleton. intros [Ht| ->]; [by apply H5|done].
  - done.
Qed.

Lemma try_spawn_same id c :
  status (try_spawn wf id c) = status c /\ steps_count (try_spawn wf id c) = steps_count c.
Proof. unfold try_spawn. case_bool_decide; [done|]. by repeat case_match. Qed.

Lemma spawn_reachable_inv0 order c :
  inv0 c -> inv0 (spawn_reachable ctx wf order c) /\
  status (spawn_reachable ctx wf order c) = status c /\
  steps_count (spawn_reachable ctx wf order c) = steps_count c.
Proof.
  revert c. induction order as [|id order IH]; intros c Hi; [done|]. cbn [spawn_reachable].
  destruct (at_capacity ctx c) eqn:Hcap; [done|].
  destruct (IH (try_spawn wf id c)) as (H1 & H2 & H3); [by apply try_spawn_inv0|].
  destruct (try_spawn_same id c) as [H4 H5]. split_and!; [done|by rewrite H2|by rewrite H3].
Qed.

(** Replacing a task by another, with messages and a trace to match. *)
Lemma with_task_ok i t t' outs errs ch tr c :
  inv0 c -> tasks c !! i = Some t ->
  grows (outputs c) (errors c) outs errs ->
  nodes_in ch + pending t' = nodes_in (channel c) + pending t ->
  tk_step t' ∈ wf_steps wf ->
  Forall (fun se => authorised se.1 se.2) tr ->
  inv0 (with_task i t' outs errs ch tr c).
Proof.
  intros [H1 H2 H3 H4 H5 H6] Hi Hg Hm Ht Htr.
  constructor; cbn [with_task spawned executed finished channel tasks outputs errors trace]; try done.
  - pose proof (sum_update pending (tasks c) i t t' Hi). lia.
  - by rewrite length_insert.
  - intros id Hid. destruct (H4 id Hid) as (s & Hs & [->|Hrun]); exists s; [by auto|].
    split; [done|right]. by eapply can_run_grows.
  - intros t0 Ht0. apply list_elem_of_lookup in Ht0 as [j Hj].
    destruct (decide (i = j)) as [->|Hne].
    + rewrite list_lookup_insert_eq in Hj by (by eapply lookup_lt_Some). by injection Hj as <-.
    + rewrite list_lookup_insert_ne in Hj by done. apply H5. by eapply list_elem_of_lookup_2.
Qed.

Lemma with_task_status i t t' outs errs ch tr c :
  tasks c !! i = Some t -> status_ok c -> status c = None ->
  status_ok (with_task i t' outs errs ch tr c).
Proof.
  unfold status_ok. cbn. intros Hi Hok Hs. rewrite Hs in *. destruct Hok as [H1 H2].
  split; [done|]. intros [H3 H4]. apply H2. split; [done|].
  apply (f_equal length) in H4. rewrite length_insert in H4. by destruct (tasks c).
Qed.

Lemma task_in c i t : inv0 c -> tasks c !! i = Some t -> tk_step t ∈ wf_steps wf.
Proof. intros Hi Ht. by apply (i_tasks c Hi), (list_elem_of_lookup_2 _ i). Qed.

Lemma join_task_ok i t r c :
  inv0 c -> status_ok c -> status c = None -> tasks c !! i = Some t -> tk_phase t = PhDone r ->
  inv0 (join_task ctx wf i t r c) /\ status_ok (join_task ctx wf i t r c).
Proof.
  intros [H1 H2 H3 H4 H5 H6] Hok Hs Ht Hph. unfold join_task.
  match goal with |- context [set_status _ ?c'] => set (c1 := c') end.
  assert (inv0 c1) as Hc1.
  { assert (pending t = 0) as Hp by (unfold pending; by rewrite Hph).
    constructor; unfold c1; cbn [spawned executed finished channel tasks outputs errors trace]; try done.
    - pose proof (sum_delete pending (tasks c) i t Ht). lia.
    - pose proof (length_delete (tasks c) i (ltac:(by eexists))). lia.
    - intros t0 Ht0. apply H5. rewrite delete_take_drop in Ht0.
      rewrite <- (take_drop_middle (tasks c) i t Ht). set_solver. }
  destruct r as [o|e].
  - case_match eqn:Hmax.
    + split; [by apply set_status_inv0|done].
    + apply end_check_ok; [done|done|]. by apply Z.ltb_ge in Hmax.
  - split; [by apply set_status_inv0|done].
Qed.

Lemma received_inv0 m rest reach fin c :
  inv0 c -> channel c = m :: rest -> fin = finished c + is_node m -> inv0 (received rest reach fin c).
Proof.
  intros [H1 H2 H3 H4 H5 H6] Hch ->. constructor; cbn; try done.
  rewrite Hch in H2. unfold nodes_in in *. cbn in H2. lia.
Qed.

Lemma recv_message_ok m rest order c :
  inv0 c -> status_ok c -> status c = None -> channel c = m :: rest ->
  inv0 (recv_message ctx wf m rest order c) /\ status_ok (recv_message ctx wf m rest order c).
Proof.
  intros Hi Hok Hs Hch. assert (steps_count c <= max_steps (config ctx))%Z as Hst
    by (unfold status_ok in Hok; rewrite Hs in Hok; apply Hok).
  destruct m as [id|id]; cbn [recv_message].
  - destruct (spawn_reachable_inv0 order (received rest (reachable c) (S (finished c)) c)) as (H1 & H2 & H3).
    + eapply received_inv0; [done|done|cbn; lia].
    + apply end_check_ok; [done|by rewrite H2|by rewrite H3].
  - assert (inv0 (received rest ({[id]} ∪ reachable c) (finished c) c)) as Hr
      by (eapply received_inv0; [done|done|cbn; lia]).
    destruct (at_capacity ctx _) eqn:Hcap; [by apply end_check_ok|].
    destruct (try_spawn_same id (received rest ({[id]} ∪ reachable c) (finished c) c)) as [H1 H2].
    apply end_check_ok; [by apply try_spawn_inv0|by rewrite H1|by rewrite H2].
Qed.

Lemma exec_ok c a c' : inv0 c -> status_ok c -> exec c a = Some c' -> inv0 c' /\ status_ok c'.
Proof.
  intros Hi Hok. unfold Dag.exec. destruct (status c) as [st|] eqn:Hs; [done|].
  destruct a as [i w r|i|i|order| |].
  - destruct (tasks c !! i) as [t|] eqn:Ht; [|done]. cbn [mbind option_bind].
    destruct (task_step (cancel c) w r (outputs c) (errors c) t) as [[[[outs errs] t'] tr]|] eqn:E; [|done].
    cbn [mbind option_bind]. intros [= <-]. apply task_step_facts in E as [[Hp Hp'] Hstep Hg Htr].
    pose proof (task_in c i t Hi Ht) as Hin. split; [|by eapply with_task_status].
    eapply with_task_ok; [done|done|done|lia|by apply Hstep|].
    apply Forall_app. split; [apply (i_trace c Hi)|by apply Htr].
  - destruct (tasks c !! i) as [t|] eqn:Ht; [|done]. cbn [mbind option_bind].
    pose proof (task_in c i t Hi Ht) as Hin.
    destruct (tk_phase t) as [| |env|r|v|v|[|m ms] r|r] eqn:Hph; try done.
    + intros [= <-]. split; [|by eapply with_task_status].
      eapply with_task_ok; [done|done|apply grows_refl| |done|apply (i_trace c Hi)].
      unfold pending. by rewrite Hph.
    + destruct (room ctx c); [|done]. intros [= <-]. split; [|by eapply with_task_status].
      eapply with_task_ok; [done|done|apply grows_refl| |done|apply (i_trace c Hi)].
      unfold pending, nodes_in. rewrite Hph, sum_list_with_app. cbn. lia.
  - destruct (tasks c !! i) as [t|] eqn:Ht; [|done]. cbn [mbind option_bind].
    destruct (tk_phase t) eqn:Hph; try done. intros [= <-]. by apply join_task_ok.
  - case_bool_decide; [|done]. destruct (channel c) as [|m rest] eqn:Hch; [done|].
    intros [= <-]. by apply recv_message_ok.
  - destruct (cancel c); [|done]. intros [= <-]. split; [by apply set_status_inv0|done].
  - intros [= <-]. split; [by destruct Hi|]. unfold status_ok in *. cbn. by rewrite Hs in *.
Qed.

Lemma init_ok input c :
  (0 <= max_steps (config ctx))%Z -> init wf input = Some c -> inv0 c /\ status_ok c.
Proof.
  unfold init. intros Hmax (entry & Hentry & ->)%fmap_Some.
  pose proof (get_step_Some _ _ _ Hentry) as [Hin Hid]. split.
  - constructor; cbn.
    + by rewrite size_singleton.
    + done.
    + lia.
    + intros id ->%elem_of_singleton. exists entry. rewrite Hid. auto.
    + intros t ->%list_elem_of_singleton. done.
    + constructor.
  - unfold status_ok. cbn. split; [done|]. by intros [_ ?].
Qed.

Lemma reaches_ok input c :
  (0 <= max_steps (config ctx))%Z -> reaches input c -> inv0 c /\ status_ok c.
Proof.
  intros Hmax. induction 1 as [c Hc|c c' _ [Hi Hok] [a Ha]]; [by eapply init_ok|by eapply exec_ok].
Qed.
End Invariant.

(** * Properties *)

Section Properties.
Context {W : Type}.
Context (now : W -> datetime).
Context (show_u64 : Z -> string) (show_expr_error : expr_error -> string).
Context (render : string -> gmap string json -> result string string).
Context (parse_uuid : string -> option uuid) (new_uuid : nat -> W -> uuid).
Context (ctx : step_context (W:=W)) (wf : workflow).

#[local] Abbreviation exec := (exec now show_u64 show_expr_error render parse_uuid new_uuid ctx wf).
#[local] Abbreviation reaches := (reaches now show_u64 show_expr_error render parse_uuid new_uuid ctx wf).

(** The configuration is valid; sizes are not negative. *)
Definition config_ok (c : engine_config) : Prop :=
  config_validate c = Ok tt /\
  (0 <= max_steps c /\ 0 <= max_concurrent_nodes c /\ 0 <= finished_channel_size c)%Z.

Lemma config_ok_pos c :
  config_ok c -> (0 < max_steps c /\ 1 <= max_concurrent_nodes c /\ 1 <= finished_channel_size c)%Z.
Proof.
  intros [Hv Hn]. unfold config_validate in Hv.
  destruct (Z.eqb_spec (max_steps c) 0); [done|].
  destruct (default_timeout_ms c =? 0)%Z; [done|]. destruct (stream_buffer c =? 0)%Z; [done|].
  destruct (Z.eqb_spec (finished_channel_size c) 0); [done|].
  destruct (max_yaml_size c =? 0)%Z; [done|].
  destruct (Z.eqb_spec (max_concurrent_nodes c) 0); [done|]. lia.
Qed.

Hypothesis Hconfig : config_ok (config ctx).

(** C12: whatever the interleaving, every tool dispatch of a run is one of a
    step of the workflow, of a registered tool the run's capabilities grant,
    addressed by its name, in an envelope that grants nothing the run was not
    granted. *)
Theorem dispatches_authorised input c s env :
  reaches input c -> (s, env) ∈ trace c -> authorised ctx wf s env.
Proof.
  intros Hr Hin. pose proof (config_ok_pos _ Hconfig).
  destruct (reaches_ok now show_u64 show_expr_error render parse_uuid new_uuid ctx wf input c) as [Hi _];
    [lia|done|].
  pose proof (i_trace _ _ _ Hi) as Ht. rewrite Forall_forall in Ht. by apply (Ht (s, env)).
Qed.

(** C13: in every configuration a run can reach, at most
    [max_concurrent_nodes] tasks are active, every node the main loop started
    is the entry or had its join condition met, and none was started twice
    (the count of spawns is the number of started nodes).  When the run
    succeeds no task is active, every spawned task has reported, the steps
    counted are within [max_steps], and the output is the last one joined. *)
Theorem schedule_invariant input c :
  reaches input c ->
  (Z.of_nat (length (tasks c)) <= max_concurrent_nodes (config ctx))%Z /\
  spawned c = size (executed c) /\
  (forall id, id ∈ executed c -> id <> wf_entry wf ->
     exists s, get_step wf id = Some s /\ can_run (outputs c) (errors c) s = true) /\
  (forall out, status c = Some (Ok out) ->
     tasks c = [] /\ nodes_in (channel c) = 0 /\ finished c = size (executed c) /\
     (steps_count c <= max_steps (config ctx))%Z /\ out = final_output c).
Proof.
  intros Hr. pose proof (config_ok_pos _ Hconfig) as Hpos.
  destruct (reaches_ok now show_u64 show_expr_error render parse_uuid new_uuid ctx wf input c) as [Hi Hok];
    [lia|done|].
  destruct Hi as [H1 H2 H3 H4 _ _]. split_and!; [lia|done| |].
  - intros id Hid Hne. destruct (H4 id Hid) as (s & Hs & [->|Hrun]); [done|]. by exists s.
  - intros out Hst. unfold status_ok in Hok. rewrite Hst in Hok. destruct Hok as (H5 & H6 & H7 & H8).
    rewrite H8 in H2. cbn in H2. split_and!; [done|lia|lia|done|done].
Qed.

(** C14: a run never gets stuck.  As long as it has not ended, the main loop
    or some task can act (a tool call in progress acts when it returns); in
    particular a full channel of messages is always drained. *)
Theorem no_deadlock (w : W) input c :
  reaches input c -> status c = None ->
  exists a c', a <> ACancel /\ exec c a = Some c'.
Proof.
  intros Hr Hst. pose proof (config_ok_pos _ Hconfig) as Hpos.
  destruct (reaches_ok now show_u64 show_expr_error render parse_uuid new_uuid ctx wf input c) as [Hi Hok];
    [lia|done|].
  assert (channel c <> [] -> exists a c', a <> ACancel /\ exec c a = Some c') as Hrecv.
  { intros Hch. destruct (channel c) as [|m rest] eqn:E; [done|].
    exists (ARecv (elements (reachable c))), (recv_message ctx wf m rest (elements (reachable c)) c).
    split; [done|]. unfold Dag.exec. rewrite Hst, bool_decide_eq_true_2 by done. by rewrite E. }
  destruct (tasks c) as [|t ts] eqn:Hts.
  - apply Hrecv. intros Hch. unfold status_ok in Hok. rewrite Hst in Hok. destruct Hok as [_ Hne].
    apply Hne. split; [|done]. pose proof (i_count _ _ _ Hi) as Hc. rewrite Hch, Hts in Hc. cbn in Hc. lia.
  - assert (tasks c !! 0 = Some t) as H0 by by rewrite Hts.
    destruct (tk_phase t) as [| |env|[v|e]|v|v|[|m ms] r|r] eqn:Hph.
    1-7: destruct (task_step_enabled now show_u64 show_expr_error render parse_uuid new_uuid ctx wf
      (cancel c) w (Ok JNull) (outputs c) (errors c) t) as ([[[outs errs] t'] tr] & E);
      [by rewrite Hph|]; exists (ATask 0 w (Ok JNull)); eexists; (split; [done|]);
      unfold Dag.exec; rewrite Hst, H0; cbn [mbind option_bind]; by rewrite E.
    + exists (ASend 0). eexists. split; [done|]. unfold Dag.exec. rewrite Hst, H0. cbn [mbind option_bind].
      by rewrite Hph.
    + destruct (room ctx c) eqn:Hroom.
      * exists (ASend 0). eexists. split; [done|]. unfold Dag.exec. rewrite Hst, H0. cbn [mbind option_bind].
        by rewrite Hph, Hroom.
      * apply Hrecv. unfold room in Hroom. apply Z.ltb_ge in Hroom. intros Hch. rewrite Hch in Hroom.
        cbn in Hroom. lia.
    + exists (AJoin 0). eexists. split; [done|]. unfold Dag.exec. rewrite Hst, H0. cbn [mbind option_bind].
      by rewrite Hph.
Qed.
End Properties.

Lemma exec_list_reaches {W} now show_u64 show_expr_error render parse_uuid new_uuid
    (ctx : step_context (W:=W)) wf input l c c' :
  reaches now show_u64 show_expr_error render parse_uuid new_uuid ctx wf input c ->
  exec_list now show_u64 show_expr_error render parse_uuid new_uuid ctx wf c l = Some c' ->
  reaches now show_u64 show_expr_error render parse_uuid new_uuid ctx wf input c'.
Proof.
  revert c. induction l as [|a l IH]; intros c Hr; cbn [exec_list]; [by intros [= <-]|].
  destruct (exec _ _ _ _ _ _ _ _ c a) as [c1|] eqn:E; [|done]. cbn [mbind option_bind].
  apply IH. eapply reaches_step; [done|]. by exists a.
Qed.

(** ** Concrete runs *)

Module Runs.

Definition echo : tool unit := {|
  info := ToolInfo "echo" "" JNull None ["echo"] false annotations_default;
  invoke := fun w env => (w, Ok env) |}.

Definition config_with (concurrent : Z) : engine_config := {|
  max_steps := 1000; default_timeout_ms := 30000; max_workflow_timeout_ms := 300000;
  stream_buffer := 256; finished_channel_size := 100; default_retry_backoff_ms := 250;
  max_yaml_size := 10485760; max_concurrent_nodes := concurrent;
  default_retry_base_delay_ms := 1000; default_retry_max_delay_ms := 30000 |}.

Definition ctx_with (concurrent : Z) : step_context (W:=unit) :=
  StepContext {["echo" := echo]} ["echo"] (config_with concurrent) ∅ "w".

Definition no_render (s : string) (vars : gmap string json) : result string string := Err s.

Abbreviation run_reaches ctx := (reaches (W:=unit) (fun _ => 0%Z) (fun _ => EmptyString) (fun _ => EmptyString)
  no_render (fun _ => None) (fun _ _ => 0%N) ctx).

Definition run_list (ctx : step_context (W:=unit)) (wf : workflow) (l : list (action (W:=unit)))
  : option config_state :=
  c ← init wf JNull;
  exec_list (fun _ => 0%Z) (fun _ => EmptyString) (fun _ => EmptyString)
    no_render (fun _ => None) (fun _ _ => 0%N) ctx wf c l.

Lemma run_list_reaches ctx wf l c :
  run_list ctx wf l = Some c -> run_reaches ctx wf JNull c.
Proof.
  unfold run_list. destruct (init wf JNull) as [c0|] eqn:E; [|done]. cbn [mbind option_bind].
  apply exec_list_reaches. by constructor.
Qed.

(** A task from the head of its loop through its edges, its tool answering
    [null]; the same followed by its messages and its return. *)
Definition work (i : nat) : list (action (W:=unit)) := replicate 6 (ATask i tt (Ok JNull)).
Definition sends (i n : nat) : list (action (W:=unit)) := replicate n (ASend i).

Definition fork : workflow :=
  with_steps (workflow_new "w" "w" "a")
    [with_edges (step_new "a" "echo") [ToStep "b"; ToStep "c"];
     with_edges (step_new "b" "echo") [ToReturn];
     with_edges (step_new "c" "echo") [ToReturn]].

(** The messages of [a] are received while [a] is still in the join set. *)
Definition lost_run : list (action (W:=unit)) :=
  work 0 ++ sends 0 3 ++ [ARecv ["a"]; ARecv ["a"; "b"]; ARecv ["a"; "b"; "c"]; ASend 0; AJoin 0].

(** A diamond whose last node reads the output of one branch. *)
Definition join_node : node_schema := {|
  ns_do := Some (DoSingle "echo"); ns_with := Some (JObject [("x", JString "{{ right }}")]);
  ns_pipe := []; ns_then := None; ns_catch := catch_default; ns_retry := None; ns_timeout := None;
  ns_entry := None; ns_repeat := None; ns_stream := StreamNone; ns_return := Some JNull;
  ns_join := None; ns_credentials := ∅; ns_grant := None |}.

Definition diamond_schema : workflow_schema :=
  schema_of "w" ["echo"]
    [("start", node_of (Some "echo") (Some (Multiple ["left"; "right"])) None);
     ("left", node_of (Some "echo") (Some (Unconditional "join")) None);
     ("right", node_of (Some "echo") (Some (Unconditional "join")) None);
     ("join", join_node)].

Definition diamond_wf : workflow :=
  match parse (fun _ => false) (config_with 50) diamond_schema with
  | Ok w => w
  | Err _ => workflow_new "" "" ""
  end.

(** [start] ends and both branches are spawned. *)
Definition branches_running : list (action (W:=unit)) :=
  work 0 ++ sends 0 4
  ++ [ARecv ["start"]; ARecv ["start"; "left"]; ARecv ["start"; "left"; "right"]; AJoin 0].

(** [left] runs on into [join] before [right] has answered. *)
Definition left_first : list (action (W:=unit)) :=
  branches_running ++ work 0 ++ replicate 3 (ATask 0 tt (Ok JNull)) ++ sends 0 2 ++ [AJoin 0].

(** Both branches have answered before either runs on into [join]. *)
Definition both_first : list (action (W:=unit)) :=
  branches_running ++ work 0 ++ work 1 ++ work 0 ++ work 1 ++ sends 0 2 ++ sends 1 2
  ++ [ARecv ["start"; "left"; "right"]; ARecv ["start"; "left"; "right"]; AJoin 1; AJoin 0].

Definition tool_ok (a : action (W:=unit)) : bool :=
  match a with ATask _ _ (Err _) | ACancel => false | _ => true end.

Definition dispatches (id : string) (c : config_state) : nat :=
  length (List.filter (fun se => String.eqb (st_id se.1) id) (trace c)).

Lemma ctx_config_ok n : (1 <= n)%Z -> config_ok (config (ctx_with n)).
Proof.
  intros Hn. split; [|cbn; lia]. unfold config_validate, config_with. cbn.
  by destruct (Z.eqb_spec n 0); [lia|].
Qed.

(** The end of a run, by computation. *)
Lemma lost_run_ends : exists c,
  run_list (ctx_with 1) fork lost_run = Some c /\ status c = Some (Ok JNull) /\
  "b" ∈ reachable c /\ ("b" ∉ executed c) /\
  (exists s, get_step fork "b" = Some s /\ can_run (outputs c) (errors c) s = true).
Proof.
  destruct (run_list (ctx_with 1) fork lost_run) as [c|] eqn:E; [|vm_compute in E; discriminate].
  exists c. vm_compute in E. injection E as <-. split_and!; [done|done| | |].
  - apply (bool_decide_unpack _). vm_compute. exact I.
  - apply (bool_decide_unpack _). vm_compute. exact I.
  - eexists. split; [reflexivity|]. vm_compute. reflexivity.
Qed.

Lemma left_first_ends : exists c,
  run_list (ctx_with 50) diamond_wf left_first = Some c /\
  status c = Some (Err (EExecution
    (NodeFailed "w" "join" "Failed to resolve inputs: unresolved reference: right"))).
Proof.
  destruct (run_list (ctx_with 50) diamond_wf left_first) as [c|] eqn:E; [|vm_compute in E; discriminate].
  exists c. vm_compute in E. injection E as <-. done.
Qed.

Lemma both_first_ends : exists c,
  run_list (ctx_with 50) diamond_wf both_first = Some c /\
  status c = Some (Ok JNull) /\ dispatches "join" c = 2.
Proof.
  destruct (run_list (ctx_with 50) diamond_wf both_first) as [c|] eqn:E; [|vm_compute in E; discriminate].
  exists c. vm_compute in E. injection E as <-. done.
Qed.

(** The concurrency limit loses nodes.  With one node at a time, a valid
    workflow that forks can end successfully although both branches are
    reachable, may run, and were never started: their messages arrive while
    the task that sent them still counts as active, and nothing looks at the
    reachable nodes again once it is joined. *)
Theorem concurrency_limit_loses_nodes :
  Workflow.validate fork = Some (Ok tt) /\ config_ok (config (ctx_with 1)) /\
  exists c, run_reaches (ctx_with 1) fork JNull c /\ status c = Some (Ok JNull) /\
    "b" ∈ reachable c /\ ("b" ∉ executed c) /\
    (exists s, get_step fork "b" = Some s /\ can_run (outputs c) (errors c) s = true).
Proof.
  split_and!; [by vm_compute|apply ctx_config_ok; lia|].
  destruct lost_run_ends as (c & Hrun & H). exists c. split; [|exact H]. by eapply run_list_reaches.
Qed.

(** A node with a single dependency does not wait for it.  In a parsed
    diamond whose join reads one branch, every tool answers, and yet one
    interleaving fails because the join runs on in the task of the other
    branch before its dependency has an output, while another runs the join
    twice, once in each branch's task. *)
Theorem join_overtakes_dependency :
  parse (fun _ => false) (config_with 50) diamond_schema = Ok diamond_wf /\
  (exists l c, forallb tool_ok l = true /\ run_list (ctx_with 50) diamond_wf l = Some c /\
     status c = Some (Err (EExecution
       (NodeFailed "w" "join" "Failed to resolve inputs: unresolved reference: right")))) /\
  (exists l c, forallb tool_ok l = true /\ run_list (ctx_with 50) diamond_wf l = Some c /\
     status c = Some (Ok JNull) /\ dispatches "join" c = 2).
Proof.
  split_and!; [by vm_compute| |].
  - destruct left_first_ends as (c & Hrun & H). exists left_first, c.
    split; [reflexivity|split; [exact Hrun|exact H]].
  - destruct both_first_ends as (c & Hrun & H). exists both_first, c.
    split; [reflexivity|split; [exact Hrun|exact H]].
Qed.

Lemma dispatches_authorised_witness :
  exists c se, run_reaches (ctx_with 50) diamond_wf JNull c /\ se ∈ trace c /\
    authorised (ctx_with 50) diamond_wf se.1 se.2.
Proof.
  destruct both_first_ends as (c & Hrun & _ & Hd).
  destruct (trace c) as [|[s env] tr] eqn:Htr.
  - exfalso. unfold dispatches in Hd. rewrite Htr in Hd. discriminate.
  - exists c, (s, env). assert (run_reaches (ctx_with 50) diamond_wf JNull c) as Hr
      by (by eapply run_list_reaches).
    assert ((s, env) ∈ trace c) as Hin by (rewrite Htr; apply list_elem_of_here).
    split; [exact Hr|]. split; [exact Hin|].
    apply (dispatches_authorised (fun _ => 0%Z) (fun _ => EmptyString) (fun _ => EmptyString)
      no_render (fun _ => None) (fun _ _ => 0%N) (ctx_with 50) diamond_wf
      (ctx_config_ok 50 ltac:(lia)) JNull c s env Hr Hin).
Defined.

Lemma schedule_invariant_witness :
  exists c, run_reaches (ctx_with 50) diamond_wf JNull c /\ status c = Some (Ok JNull) /\
    tasks c = [] /\ finished c = size (executed c).
Proof.
  destruct both_first_ends as (c & Hrun & Hst & _). exists c.
  assert (run_reaches (ctx_with 50) diamond_wf JNull c) as Hr by (by eapply run_list_reaches).
  destruct (schedule_invariant (fun _ => 0%Z) (fun _ => EmptyString) (fun _ => EmptyString)
    no_render (fun _ => None) (fun _ _ => 0%N) (ctx_with 50) diamond_wf
    (ctx_config_ok 50 ltac:(lia)) JNull c Hr) as (_ & _ & _ & Hend).
  destruct (Hend JNull Hst) as (Ht & _ & Hf & _). split; [exact Hr|]. split; [exact Hst|].
  split; [exact Ht|exact Hf].
Defined.

Lemma no_deadlock_witness :
  exists c a c', init diamond_wf JNull = Some c /\ a <> ACancel /\
    exec (fun _ => 0%Z) (fun _ => EmptyString) (fun _ => EmptyString)
      no_render (fun _ => None) (fun _ _ => 0%N) (ctx_with 50) diamond_wf c a = Some c'.
Proof.
  destruct (init diamond_wf JNull) as [c|] eqn:E; [|vm_compute in E; discriminate].
  exists c. destruct (no_deadlock (fun _ => 0%Z) (fun _ => EmptyString) (fun _ => EmptyString)
    no_render (fun _ => None) (fun _ _ => 0%N) (ctx_with 50) diamond_wf
    (ctx_config_ok 50 ltac:(lia)) tt JNull c) as (a & c' & Ha & Hex).
  - constructor. exact E.
  - vm_compute in E. injection E as <-. reflexivity.
  - exists a, c'. split; [reflexivity|]. split; [exact Ha|exact Hex].
Defined.

End Runs.
