(* ===== verification/Table.v ===== *)
(** Storage interfaces: an ordered table and an ordered multimap as the code
    uses redb's, with finite maps as implementations, and the theory of lists
    sorted by key that their iterators give. *)

From S2P Require Import Prelude.

Local Open Scope Z_scope.

(** * The interfaces *)

(** An ordered table: [lt] is the strict order of its keys. *)
Class LogTable (T K V : Type) := {
  log_empty : T;
  log_get : T -> K -> option V;
  log_insert : T -> K -> V -> T;
  log_remove : T -> K -> T;
  log_iter : T -> list (K * V);
}.

Class LogTableLaws (T K V : Type) (lt : relation K) `{LogTable T K V} `{EqDecision K} := {
  log_get_empty k : log_get log_empty k = None;
  log_get_insert t k v k' :
    log_get (log_insert t k v) k' = if decide (k = k') then Some v else log_get t k';
  log_get_remove t k k' :
    log_get (log_remove t k) k' = if decide (k = k') then None else log_get t k';
  log_iter_get t k v : (k, v) ∈ log_iter t <-> log_get t k = Some v;
  log_order : StrictOrder lt;
  log_iter_sorted t : StronglySorted lt (log_iter t).*1;
}.

(** An ordered multimap from keys to integer ids. *)
Class IndexTable (M K : Type) := {
  idx_empty : M;
  idx_get : M -> K -> list Z;
  idx_insert : M -> K -> Z -> M;
  idx_remove : M -> K -> Z -> M;
}.

Class IndexTableLaws (M K : Type) `{IndexTable M K} := {
  idx_get_empty k : idx_get idx_empty k = [];
  idx_get_insert m k i k' j :
    j ∈ idx_get (idx_insert m k i) k' <-> (k = k' /\ i = j) \/ j ∈ idx_get m k';
  idx_get_remove m k i k' j :
    j ∈ idx_get (idx_remove m k i) k' <-> ~ (k = k' /\ i = j) /\ j ∈ idx_get m k';
  idx_get_sorted m k : StronglySorted Z.lt (idx_get m k);
}.

(** * Finite maps implement them *)

(** The entries of a finite map in the order of its keys. *)
Definition gmap_iter {K V} `{Countable K} (le : relation K) `{RelDecision K K le} (t : gmap K V)
  : list (K * V) :=
  omap (fun k => pair k <$> t !! k) (merge_sort le (elements (dom t))).

#[export] Instance gmap_log {V} : LogTable (gmap Z V) Z V := {
  log_empty := ∅;
  log_get t k := t !! k;
  log_insert t k v := <[k := v]> t;
  log_remove t k := delete k t;
  log_iter t := gmap_iter Z.le t;
}.

#[export] Instance gmap_ids {V} : LogTable (gmap N V) N V := {
  log_empty := ∅;
  log_get t k := t !! k;
  log_insert t k v := <[k := v]> t;
  log_remove t k := delete k t;
  log_iter t := gmap_iter N.le t;
}.

(** Keys that are an integer and then an id, compared in that order. *)
Definition pair_le (a b : Z * N) : Prop := a.1 < b.1 \/ (a.1 = b.1 /\ (a.2 <= b.2)%N).
Definition pair_lt (a b : Z * N) : Prop := a.1 < b.1 \/ (a.1 = b.1 /\ (a.2 < b.2)%N).

#[export] Instance pair_le_dec : RelDecision pair_le := fun a b =>
  decide (a.1 < b.1 \/ (a.1 = b.1 /\ (a.2 <= b.2)%N)).

#[export] Instance gmap_pair {V} : LogTable (gmap (Z * N) V) (Z * N) V := {
  log_empty := ∅;
  log_get t k := t !! k;
  log_insert t k v := <[k := v]> t;
  log_remove t k := delete k t;
  log_iter t := gmap_iter pair_le t;
}.

#[export] Instance gmap_index {K} `{Countable K} : IndexTable (gmap K (gset Z)) K := {
  idx_empty := ∅;
  idx_get m k := merge_sort Z.le (elements (default ∅ (m !! k)));
  idx_insert m k i := <[k := {[i]} ∪ default ∅ (m !! k)]> m;
  idx_remove m k i := <[k := default ∅ (m !! k) ∖ {[i]}]> m;
}.

(** * Filters and partial maps *)

Abbreviation bfilter := (@List.filter _).

Lemma elem_of_bfilter {A} (p : A -> bool) l x : x ∈ bfilter p l <-> x ∈ l /\ p x = true.
Proof. by rewrite !list_elem_of_In, List.filter_In. Qed.

#[export] Instance bfilter_Permutation {A} (p : A -> bool) : Proper ((≡ₚ) ==> (≡ₚ)) (bfilter p).
Proof.
  intros l l' Hl. induction Hl as [|x l l' Hl IH|x y l|l l' l'' _ IH1 _ IH2]; cbn; [done| | |by transitivity (bfilter p l')].
  - destruct (p x); [by apply Permutation_skip|done].
  - destruct (p x), (p y); done || apply Permutation_swap.
Qed.

Lemma bfilter_ext {A} (p q : A -> bool) l :
  (forall x, x ∈ l -> p x = q x) -> bfilter p l = bfilter q l.
Proof. intros H. apply List.filter_ext_in. intros x Hx. by apply H, list_elem_of_In. Qed.

Lemma bfilter_true {A} (p : A -> bool) l : (forall x, x ∈ l -> p x = true) -> bfilter p l = l.
Proof.
  induction l as [|x l IH]; intros H; cbn; [done|].
  rewrite H by by left. f_equal. apply IH. intros y Hy. apply H. by right.
Qed.

Lemma bfilter_bfilter {A} (p q : A -> bool) l :
  bfilter p (bfilter q l) = bfilter (fun x => p x && q x)%bool l.
Proof.
  induction l as [|x l IH]; cbn; [done|].
  destruct (q x); cbn; [destruct (p x); cbn; by rewrite IH|].
  by rewrite andb_false_r.
Qed.

Lemma bfilter_length_split {A} (p : A -> bool) l :
  (length (bfilter p l) + length (bfilter (fun x => negb (p x)) l) = length l)%nat.
Proof. induction l as [|x l IH]; cbn; [done|]. destruct (p x); cbn; lia. Qed.

Lemma bfilter_rev {A} (p : A -> bool) l : bfilter p (rev l) = rev (bfilter p l).
Proof.
  induction l as [|x l IH]; cbn; [done|]. rewrite List.filter_app, IH. cbn.
  destruct (p x); cbn; [done|]. by rewrite app_nil_r.
Qed.

Lemma NoDup_bfilter {A B} (f : A -> B) (p : A -> bool) l :
  NoDup (f <$> l) -> NoDup (f <$> bfilter p l).
Proof.
  induction l as [|x l IH]; cbn; [done|]. intros [Hx Hl]%NoDup_cons.
  destruct (p x); cbn; [|by apply IH]. apply NoDup_cons. split; [|by apply IH].
  intros (y & Hxy & [Hy _]%elem_of_bfilter)%list_elem_of_fmap.
  apply Hx. rewrite Hxy. by apply list_elem_of_fmap_2.
Qed.

(** A filter commutes with a partial map that keeps what is tested. *)
Lemma omap_bfilter {A B} (f : A -> option B) (p : A -> bool) (q : B -> bool) l :
  (forall x y, x ∈ l -> f x = Some y -> p x = q y) ->
  omap f (bfilter p l) = bfilter q (omap f l).
Proof.
  induction l as [|x l IH]; intros H; cbn; [done|].
  specialize (IH (fun a b Ha => H a b (list_elem_of_further _ _ _ Ha))).
  destruct (p x) eqn:Hp; cbn; destruct (f x) as [y|] eqn:Hf; cbn; try done.
  - rewrite <- (H x y), Hp by (by left || done). by rewrite IH.
  - rewrite <- (H x y), Hp by (by left || done). done.
Qed.

Lemma omap_rev {A B} (f : A -> option B) l : omap f (rev l) = rev (omap f l).
Proof.
  induction l as [|x l IH]; cbn; [done|]. rewrite omap_app, IH. cbn.
  destruct (f x); cbn; [done|]. by rewrite app_nil_r.
Qed.

Lemma omap_total {A B} (f : A -> option B) l :
  (forall x, x ∈ l -> is_Some (f x)) -> length (omap f l) = length l.
Proof.
  induction l as [|x l IH]; intros H; cbn; [done|].
  destruct (H x) as [y ->]; [by left|]. cbn. rewrite IH; [done|].
  intros z Hz. apply H. by right.
Qed.

Lemma omap_take {A B} (f : A -> option B) l n :
  (forall x, x ∈ l -> is_Some (f x)) -> omap f (take n l) = take n (omap f l).
Proof.
  revert n. induction l as [|x l IH]; intros [|n] H; cbn; [done..|].
  destruct (H x) as [y ->]; [by left|]. cbn. rewrite IH; [done|].
  intros z Hz. apply H. by right.
Qed.

(** * Lists sorted by key *)

Section Sorted.
Context {K : Type} (lt : relation K) `{!StrictOrder lt}.

Lemma sorted_key_unique {V} (l : list (K * V)) k v w :
  StronglySorted lt l.*1 -> (k, v) ∈ l -> (k, w) ∈ l -> v = w.
Proof.
  induction l as [|[a x] l IH]; cbn; [by intros _ ?%not_elem_of_nil|].
  intros [Hf Hs]%StronglySorted_cons. rewrite Forall_forall in Hf.
  assert (forall y, (a, y) ∈ l -> False) as Hno.
  { intros y Hy. apply (irreflexivity lt a), Hf, list_elem_of_fmap. by exists (a, y). }
  rewrite !elem_of_cons. intros [Hv|Hv] [Hw|Hw]; simplify_eq; try done.
  - exfalso. by eapply Hno.
  - exfalso. by eapply Hno.
  - by apply IH.
Qed.

(** A list sorted by key is determined by its members. *)
Lemma sorted_key_ext {A} (key : A -> K) (l1 l2 : list A) :
  StronglySorted lt (key <$> l1) -> StronglySorted lt (key <$> l2) ->
  (forall x, x ∈ l1 <-> x ∈ l2) -> l1 = l2.
Proof.
  revert l2. induction l1 as [|x l1 IH]; intros l2 Hs1 Hs2 Heq.
  { destruct l2 as [|y l2]; [done|]. exfalso. eapply not_elem_of_nil, Heq. by left. }
  destruct l2 as [|y l2].
  { exfalso. eapply not_elem_of_nil, Heq. by left. }
  rewrite fmap_cons, StronglySorted_cons, Forall_fmap, Forall_forall in Hs1, Hs2.
  destruct Hs1 as [Hf1 Hs1], Hs2 as [Hf2 Hs2]. cbn in Hf1, Hf2.
  assert (x = y) as <-.
  { assert (x ∈ y :: l2) as [Hx|Hx]%elem_of_cons by (apply Heq; by left); [done|].
    assert (y ∈ x :: l1) as [Hy|Hy]%elem_of_cons by (apply Heq; by left); [done|].
    exfalso. apply (irreflexivity lt (key x)). etrans; [by apply Hf1|by apply Hf2]. }
  f_equal. apply IH; [done..|]. intros z. split; intros Hz.
  - assert (z ∈ x :: l2) as [->|?]%elem_of_cons by (apply Heq; by right); [|done].
    exfalso. by apply (irreflexivity lt (key x)), Hf1.
  - assert (z ∈ x :: l1) as [->|?]%elem_of_cons by (apply Heq; by right); [|done].
    exfalso. by apply (irreflexivity lt (key x)), Hf2.
Qed.

Lemma sorted_bfilter {A} (key : A -> K) (p : A -> bool) l :
  StronglySorted lt (key <$> l) -> StronglySorted lt (key <$> bfilter p l).
Proof.
  clear StrictOrder0. induction l as [|x l IH]; [done|].
  rewrite fmap_cons, StronglySorted_cons. intros [Hf Hs]. cbn [List.filter].
  destruct (p x); [|by apply IH]. rewrite fmap_cons, StronglySorted_cons. split; [|by apply IH].
  rewrite Forall_fmap, Forall_forall in Hf. rewrite Forall_fmap, Forall_forall.
  intros y [Hy _]%elem_of_bfilter. by apply Hf.
Qed.

(** A partial map that keeps keys keeps the order. *)
Lemma sorted_omap {A B} (ka : A -> K) (kb : B -> K) (f : A -> option B) l :
  (forall x y, x ∈ l -> f x = Some y -> kb y = ka x) ->
  StronglySorted lt (ka <$> l) -> StronglySorted lt (kb <$> omap f l).
Proof.
  clear StrictOrder0. induction l as [|x l IH]; [done|]. intros Hk.
  rewrite fmap_cons, StronglySorted_cons. intros [Hf Hs]. cbn [omap list_omap].
  specialize (IH (fun a b Ha => Hk a b (list_elem_of_further _ _ _ Ha)) Hs).
  destruct (f x) as [y|] eqn:Hx; [|done].
  rewrite fmap_cons, StronglySorted_cons. split; [|done].
  rewrite Forall_fmap, Forall_forall in Hf. rewrite Forall_fmap, Forall_forall.
  intros z (w & Hw & Hz)%list_elem_of_omap. cbn.
  rewrite (Hk w z (list_elem_of_further _ _ _ Hw) Hz), (Hk x y (list_elem_of_here _ _) Hx). by apply Hf.
Qed.

Lemma sorted_snoc (l : list K) k :
  StronglySorted lt l -> (forall i, i ∈ l -> lt i k) -> StronglySorted lt (l ++ [k]).
Proof.
  clear StrictOrder0. intros Hl Hk. apply StronglySorted_app. split_and!; [|done|by repeat constructor].
  intros x y Hx ->%list_elem_of_singleton. by apply Hk.
Qed.

Lemma sorted_NoDup (l : list K) : StronglySorted lt l -> NoDup l.
Proof.
  induction 1 as [|x l Hs IH Hf]; constructor; [|done].
  intros Hx. rewrite Forall_forall in Hf. by apply (irreflexivity lt x), Hf.
Qed.

(** Sorting distinct keys gives them in strictly ascending order. *)
Lemma merge_sort_strict (le : relation K) `{RelDecision K K le} `{!Total le, !Transitive le} (l : list K) :
  (forall a b, le a b -> a <> b -> lt a b) -> NoDup l -> StronglySorted lt (merge_sort le l).
Proof.
  clear StrictOrder0. intros Hle Hn. pose proof (StronglySorted_merge_sort le l) as Hs.
  rewrite <- (merge_sort_Permutation le l) in Hn.
  induction Hs as [|x l' Hs IH Hf]; [constructor|].
  apply NoDup_cons in Hn as [Hx Hn]. constructor; [by apply IH|].
  rewrite Forall_forall in *. intros y Hy. apply Hle; [by apply Hf|by intros ->].
Qed.
End Sorted.

Lemma sorted_last (l : list Z) k i :
  StronglySorted Z.lt l -> last l = Some k -> i ∈ l -> i <= k.
Proof.
  intros Hs (l' & ->)%last_Some [Hi| ->%list_elem_of_singleton]%elem_of_app; [|done].
  apply StronglySorted_app in Hs as (H & _). assert (i < k); [|lia]. apply H; [done|by left].
Qed.

(** Sorting what is sorted changes nothing. *)
Lemma merge_sort_sorted (l : list Z) : StronglySorted Z.lt l -> merge_sort Z.le l = l.
Proof.
  intros Hl. apply (StronglySorted_unique Z.le).
  - apply (StronglySorted_merge_sort Z.le).
  - clear -Hl. induction Hl as [|x l Hl IH Hf]; constructor; [done|].
    eapply Forall_impl; [done|]. cbn. lia.
  - apply merge_sort_Permutation.
Qed.

Lemma gmap_iter_get {K V} `{Countable K} (le : relation K) `{RelDecision K K le} (t : gmap K V) k v :
  (k, v) ∈ gmap_iter le t <-> t !! k = Some v.
Proof.
  unfold gmap_iter. rewrite list_elem_of_omap. split.
  - intros (i & _ & (w & Hw & [= -> ->])%fmap_Some). done.
  - intros Hk. exists k. rewrite Hk, (merge_sort_Permutation le), elem_of_elements, elem_of_dom. by eauto.
Qed.

Lemma gmap_iter_sorted {K V} `{Countable K} (lt le : relation K) `{RelDecision K K le}
    `{!Total le, !Transitive le} (t : gmap K V) :
  (forall a b, le a b -> a <> b -> lt a b) -> StronglySorted lt (gmap_iter le t).*1.
Proof.
  intros Hle. apply (sorted_omap lt (fun k => k)).
  - intros x [k v] _ (w & _ & [= -> _])%fmap_Some. done.
  - rewrite list_fmap_id. apply (merge_sort_strict lt le); [done|apply NoDup_elements].
Qed.

#[export] Instance pair_le_total : Total pair_le.
Proof. intros a b. unfold pair_le. lia. Qed.

#[export] Instance pair_le_trans : Transitive pair_le.
Proof. intros a b c. unfold pair_le. lia. Qed.

#[export] Instance pair_lt_order : StrictOrder pair_lt.
Proof. split; [intros a; unfold complement, pair_lt; lia|intros a b c; unfold pair_lt; lia]. Qed.

#[export] Instance gmap_log_laws {V} : LogTableLaws (gmap Z V) Z V Z.lt.
Proof.
  split; cbn.
  - intros k. apply lookup_empty.
  - intros t k v k'. destruct (decide (k = k')) as [<-|Hk]; by simplify_map_eq.
  - intros t k k'. destruct (decide (k = k')) as [<-|Hk]; by simplify_map_eq.
  - intros t k v. apply gmap_iter_get.
  - apply _.
  - intros t. apply (gmap_iter_sorted Z.lt Z.le). lia.
Qed.

#[export] Instance gmap_ids_laws {V} : LogTableLaws (gmap N V) N V N.lt.
Proof.
  split; cbn.
  - intros k. apply lookup_empty.
  - intros t k v k'. destruct (decide (k = k')) as [<-|Hk]; by simplify_map_eq.
  - intros t k k'. destruct (decide (k = k')) as [<-|Hk]; by simplify_map_eq.
  - intros t k v. apply gmap_iter_get.
  - apply _.
  - intros t. apply (gmap_iter_sorted N.lt N.le). lia.
Qed.

#[export] Instance gmap_pair_laws {V} : LogTableLaws (gmap (Z * N) V) (Z * N) V pair_lt.
Proof.
  split; cbn.
  - intros k. apply lookup_empty.
  - intros t k v k'. destruct (decide (k = k')) as [<-|Hk]; by simplify_map_eq.
  - intros t k k'. destruct (decide (k = k')) as [<-|Hk]; by simplify_map_eq.
  - intros t k v. apply gmap_iter_get.
  - apply _.
  - intros t. apply (gmap_iter_sorted pair_lt pair_le). intros [a i] [b j]. unfold pair_le, pair_lt. cbn.
    intros [Hab|[-> Hij]] Hne; [by left|right]. split; [done|].
    assert (i <> j) by by intros ->. lia.
Qed.

#[export] Instance gmap_index_laws {K} `{Countable K} : IndexTableLaws (gmap K (gset Z)) K.
Proof.
  split; cbn.
  - intros k. by rewrite lookup_empty.
  - intros m k i k' j. rewrite !(merge_sort_Permutation Z.le), !elem_of_elements.
    destruct (decide (k = k')) as [<-|Hk]; simplify_map_eq; set_solver.
  - intros m k i k' j. rewrite !(merge_sort_Permutation Z.le), !elem_of_elements.
    destruct (decide (k = k')) as [<-|Hk]; simplify_map_eq; set_solver.
  - intros m k. apply (merge_sort_strict Z.lt Z.le); [lia|apply NoDup_elements].
Qed.

(** * What an ordered table's iterator lists *)

Section LogTheory.
Context {T K V : Type} {lt : relation K} `{LogTableLaws T K V lt}.

#[local] Existing Instance log_order.

Lemma log_iter_key_unique t k v w : (k, v) ∈ log_iter t -> (k, w) ∈ log_iter t -> v = w.
Proof. apply (sorted_key_unique lt), log_iter_sorted. Qed.

Lemma log_iter_empty : log_iter (log_empty : T) = [].
Proof.
  destruct (log_iter log_empty) as [|[k v] l] eqn:E; [done|].
  assert ((k, v) ∈ log_iter (log_empty : T)) as Hk by (rewrite E; by left).
  apply log_iter_get in Hk. by rewrite log_get_empty in Hk.
Qed.

(** Inserting beyond the last key appends. *)
Lemma log_iter_insert_last t k v :
  (forall i, i ∈ (log_iter t).*1 -> lt i k) -> log_iter (log_insert t k v) = log_iter t ++ [(k, v)].
Proof.
  intros Hk. apply (sorted_key_ext lt fst).
  - apply log_iter_sorted.
  - rewrite fmap_app. apply sorted_snoc; [apply log_iter_sorted|done].
  - intros [i w]. rewrite elem_of_app, list_elem_of_singleton, !log_iter_get, log_get_insert.
    destruct (decide (k = i)) as [<-|Hne].
    + split; [intros [= ->]; by right|]. intros [Hi|[= ->]]; [|done].
      exfalso. apply (irreflexivity lt k), Hk, list_elem_of_fmap. exists (k, w).
      split; [done|]. by apply log_iter_get.
    + split; [by left|]. intros [Hi|[= <- _]]; done.
Qed.

Lemma log_iter_remove t k :
  log_iter (log_remove t k) = bfilter (fun kv => negb (bool_decide (kv.1 = k))) (log_iter t).
Proof.
  apply (sorted_key_ext lt fst).
  - apply log_iter_sorted.
  - apply sorted_bfilter, log_iter_sorted.
  - intros [i w]. rewrite elem_of_bfilter, !log_iter_get, log_get_remove. cbn.
    destruct (decide (k = i)) as [<-|Hne].
    + rewrite bool_decide_true by done. by split; [|intros [_ ?]].
    + rewrite bool_decide_false by done. naive_solver.
Qed.
End LogTheory.
