(* ===== verification/Journal.v ===== *)
(** The event journal: the contract of [konflux-substrate/src/journal.rs] and
    the redb implementation of it ([konf-runtime/src/journal/redb.rs]).

    redb is third-party: the tables are values of the classes of [Table].  The codecs (postcard, [serde_json]) are parameters
    that invert themselves.  A transaction either commits as a whole, which is
    what the operations below describe, or fails and changes nothing.  The
    abstract view of a journal is the list of its rows by ascending id; each
    operation is proved to be the evident operation on that list. *)

From S2P Require Import Prelude Json Envelope Table.

Local Open Scope string_scope.
Local Open Scope list_scope.
Local Open Scope Z_scope.

(** * Entries and rows *)

(** [JournalEntry]. *)
Record journal_entry : Type := JournalEntry {
  je_run_id : option uuid;
  je_session_id : string;
  je_namespace : string;
  je_event_type : string;
  je_payload : json;
  je_valid_to : option datetime;
  je_idempotency_key : option string;
}.

(** [JournalRow]. *)
Record journal_row : Type := JournalRow {
  jr_id : Z;
  jr_run_id : option uuid;
  jr_session_id : string;
  jr_namespace : string;
  jr_event_type : string;
  jr_payload : json;
  jr_created_at : datetime;
  jr_valid_to : option datetime;
  jr_idempotency_key : option string;
}.

(** [StoredEntry]; a run id and its sixteen bytes are the same number. *)
Record stored_entry : Type := StoredEntry {
  se_run_id : option uuid;
  se_session_id : string;
  se_namespace : string;
  se_event_type : string;
  se_payload_json : string;
  se_created_at_micros : Z;
  se_valid_to_micros : option Z;
  se_idempotency_key : option string;
}.

(** [timestamp_micros] and back: time stamps count nanoseconds. *)
Definition timestamp_micros (t : datetime) : Z := t / 1000.
Definition from_micros (m : Z) : datetime := m * 1000.

(** [JournalFilter]. *)
Record journal_filter : Type := JournalFilter {
  jf_namespace : option string;
  jf_event_type : option string;
  jf_run_id : option uuid;
  jf_session_id : option string;
  jf_trace_id : option uuid;
  jf_include_expired : bool;
}.

(** [is_expired]. *)
Definition is_expired (now : datetime) (row : journal_row) : bool :=
  match jr_valid_to row with Some vt => vt <? now | None => false end.

(** A field of the filter against a field of the row. *)
Definition field_matches (f : option string) (v : string) : bool :=
  match f with Some x => String.eqb v x | None => true end.

(** [JournalFilter::matches]; [show_uuid] is [Uuid::to_string]. *)
Definition filter_matches (show_uuid : uuid -> string) (now : datetime) (f : journal_filter)
    (row : journal_row) : bool :=
  field_matches (jf_namespace f) (jr_namespace row) &&
  field_matches (jf_event_type f) (jr_event_type row) &&
  match jf_run_id f with Some r => bool_decide (jr_run_id row = Some r) | None => true end &&
  field_matches (jf_session_id f) (jr_session_id row) &&
  match jf_trace_id f with
  | Some t =>
      match get "trace_id" (jr_payload row) ≫= as_str with
      | Some p => String.eqb p (show_uuid t)
      | None => true
      end
  | None => true
  end &&
  (jf_include_expired f || negb (is_expired now row)).

(** [AggregateQuery], [AggregateResult]. *)
Inductive aggregate_query : Type := AggCount | AggMostRecent | AggWindowSum (field : string) (window : Z).
Inductive aggregate_result : Type :=
  | ResCount (n : Z) | ResMostRecent (t : option datetime) | ResWindowSum (sum : f64).

(** * The redb journal *)

Section Redb.
Context {E R S X B : Type}.
Context `{LogTable E Z B} `{IndexTable R uuid} `{IndexTable S string} `{IndexTable X Z}.
Context (encode : stored_entry -> B) (decode : B -> option stored_entry).
Context (json_to_string : json -> string) (json_of_string : string -> option json).
Context (show_uuid : uuid -> string).
Context (hash_order : gmap uuid (string * string) -> list (uuid * (string * string))).

(** The tables of the database. *)
Record journal : Type := Journal {
  events : E;
  by_run : R;
  by_session : S;
  by_expiry : X;
  by_idempotency : S;
}.

(** [RedbJournal::from_database] on an empty database. *)
Definition journal_new : journal := Journal log_empty idx_empty idx_empty idx_empty idx_empty.

(** [StoredEntry::from_entry]. *)
Definition from_entry (now : datetime) (e : journal_entry) : stored_entry := {|
  se_run_id := je_run_id e;
  se_session_id := je_session_id e;
  se_namespace := je_namespace e;
  se_event_type := je_event_type e;
  se_payload_json := json_to_string (je_payload e);
  se_created_at_micros := timestamp_micros now;
  se_valid_to_micros := timestamp_micros <$> je_valid_to e;
  se_idempotency_key := je_idempotency_key e |}.

(** [StoredEntry::into_row].  The stored stamps come from time stamps, so they
    are in range and the conversion back is defined. *)
Definition into_row (id : Z) (s : stored_entry) : option journal_row :=
  payload ← json_of_string (se_payload_json s);
  Some {|
    jr_id := id;
    jr_run_id := se_run_id s;
    jr_session_id := se_session_id s;
    jr_namespace := se_namespace s;
    jr_event_type := se_event_type s;
    jr_payload := payload;
    jr_created_at := from_micros (se_created_at_micros s);
    jr_valid_to := from_micros <$> se_valid_to_micros s;
    jr_idempotency_key := se_idempotency_key s |}.

(** A value of the log as a row: [None] is a serialization error. *)
Definition decode_row (id : Z) (b : B) : option journal_row := decode b ≫= into_row id.

(** [next_back().map(|k| k + 1).unwrap_or(1)]. *)
Definition next_id (t : E) : Z :=
  match last (log_iter t) with Some (k, _) => wrap_u64 (k + 1) | None => 1 end.

(** [append]: the id, and the journal. *)
Definition append (now : datetime) (entry : journal_entry) (j : journal) : Z * journal :=
  let stored := from_entry now entry in
  let id := next_id (events j) in
  (id, {|
    events := log_insert (events j) id (encode stored);
    by_run := match se_run_id stored with
              | Some r => idx_insert (by_run j) r id | None => by_run j end;
    by_session := idx_insert (by_session j) (se_session_id stored) id;
    by_expiry := match se_valid_to_micros stored with
                 | Some vt => idx_insert (by_expiry j) vt id | None => by_expiry j end;
    by_idempotency := match se_idempotency_key stored with
                      | Some k => idx_insert (by_idempotency j) k id | None => by_idempotency j end |}).

(** [sort_by_key(|r| r.id)]. *)
Fixpoint insert_row (r : journal_row) (l : list journal_row) : list journal_row :=
  match l with
  | [] => [r]
  | x :: l' => if jr_id x <=? jr_id r then x :: insert_row r l' else r :: l
  end.

Definition sort_rows (l : list journal_row) : list journal_row :=
  fold_left (fun acc r => insert_row r acc) l [].

(** The rows behind a list of ids; an id without an event is passed over, an
    undecodable one is an error ([None]). *)
Fixpoint rows_of (j : journal) (ids : list Z) : option (list journal_row) :=
  match ids with
  | [] => Some []
  | id :: ids' =>
      match log_get (events j) id with
      | Some b => r ← decode_row id b; rs ← rows_of j ids'; Some (r :: rs)
      | None => rows_of j ids'
      end
  end.

(** [query_by_run]. *)
Definition query_by_run (now : datetime) (run_id : uuid) (j : journal) : option (list journal_row) :=
  rows ← rows_of j (idx_get (by_run j) run_id);
  Some (List.filter (fun r => negb (is_expired now r)) (sort_rows rows)).

(** The loop of [query_by_session] over the ids, newest first. *)
Fixpoint session_loop (now : datetime) (j : journal) (limit : nat) (ids : list Z)
    (rows : list journal_row) : option (list journal_row) :=
  match ids with
  | [] => Some rows
  | id :: ids' =>
      if Nat.leb limit (length rows) then Some rows
      else
        match log_get (events j) id with
        | Some b =>
            row ← decode_row id b;
            session_loop now j limit ids' (if is_expired now row then rows else rows ++ [row])
        | None => session_loop now j limit ids' rows
        end
  end.

(** [query_by_session]. *)
Definition query_by_session (now : datetime) (session_id : string) (limit : nat) (j : journal)
  : option (list journal_row) :=
  session_loop now j limit (rev (merge_sort Z.le (idx_get (by_session j) session_id))) [].

(** Decoding a list of log entries, first error first. *)
Fixpoint decode_rows (l : list (Z * B)) : option (list journal_row) :=
  match l with
  | [] => Some []
  | (id, b) :: l' => r ← decode_row id b; rs ← decode_rows l'; Some (r :: rs)
  end.

(** [recent]. *)
Definition recent (now : datetime) (limit : nat) (j : journal) : option (list journal_row) :=
  rows ← decode_rows (take limit (rev (log_iter (events j))));
  Some (List.filter (fun r => negb (is_expired now r)) rows).

(** The scan of [query]. *)
Fixpoint query_loop (now : datetime) (f : journal_filter) (limit : nat) (l : list (Z * B))
    (rows : list journal_row) : option (list journal_row) :=
  match l with
  | [] => Some rows
  | (id, b) :: l' =>
      if Nat.leb limit (length rows) then Some rows
      else
        row ← decode_row id b;
        query_loop now f limit l' (if filter_matches show_uuid now f row then rows ++ [row] else rows)
  end.

(** [query]. *)
Definition query (now : datetime) (f : journal_filter) (limit : nat) (j : journal)
  : option (list journal_row) :=
  query_loop now f limit (rev (log_iter (events j))) [].

(** The scan of [aggregate]: the count and the latest creation time. *)
Fixpoint aggregate_loop (now : datetime) (f : journal_filter) (l : list (Z * B))
    (count : Z) (latest : option datetime) : option (Z * option datetime) :=
  match l with
  | [] => Some (count, latest)
  | (id, b) :: l' =>
      row ← decode_row id b;
      if filter_matches show_uuid now f row then
        aggregate_loop now f l' (count + 1)
          (match latest with
           | None => Some (jr_created_at row)
           | Some prev => if prev <? jr_created_at row then Some (jr_created_at row) else latest
           end)
      else aggregate_loop now f l' count latest
  end.

(** [aggregate]; the inner [None] is the refusal of [WindowSum]. *)
Definition aggregate (now : datetime) (f : journal_filter) (q : aggregate_query) (j : journal)
  : option (option aggregate_result) :=
  '(count, latest) ← aggregate_loop now f (log_iter (events j)) 0 None;
  Some (match q with
        | AggCount => Some (ResCount count)
        | AggMostRecent => Some (ResMostRecent latest)
        | AggWindowSum _ _ => None
        end).

(** The search of [get_by_idempotency_key] for the highest id. *)
Fixpoint best_loop (j : journal) (ids : list Z) (best : option (Z * stored_entry))
  : option (option (Z * stored_entry)) :=
  match ids with
  | [] => Some best
  | id :: ids' =>
      if match best with Some (prev, _) => id <=? prev | None => false end
      then best_loop j ids' best
      else
        match log_get (events j) id with
        | Some b => s ← decode b; best_loop j ids' (Some (id, s))
        | None => best_loop j ids' best
        end
  end.

(** [get_by_idempotency_key]. *)
Definition get_by_idempotency_key (now : datetime) (key : string) (j : journal)
  : option (option journal_row) :=
  best ← best_loop j (idx_get (by_idempotency j) key) None;
  match best with
  | Some (id, s) => row ← into_row id s; Some (if is_expired now row then None else Some row)
  | None => Some None
  end.

(** One entry removed from every table ([delete_expired], phase 2). *)
Definition remove_entry (j : journal) (e : Z * stored_entry) : journal :=
  let '(seq, s) := e in {|
    events := log_remove (events j) seq;
    by_run := match se_run_id s with Some r => idx_remove (by_run j) r seq | None => by_run j end;
    by_session := idx_remove (by_session j) (se_session_id s) seq;
    by_expiry := match se_valid_to_micros s with
                 | Some vt => idx_remove (by_expiry j) vt seq | None => by_expiry j end;
    by_idempotency := match se_idempotency_key s with
                      | Some k => idx_remove (by_idempotency j) k seq
                      | None => by_idempotency j end |}.

(** Phase 1 of [delete_expired]: the entries that have expired. *)
Fixpoint expired_entries (now_micros : Z) (l : list (Z * B)) : option (list (Z * stored_entry)) :=
  match l with
  | [] => Some []
  | (id, b) :: l' =>
      s ← decode b;
      rest ← expired_entries now_micros l';
      Some (match se_valid_to_micros s with
            | Some vt => if vt <=? now_micros then (id, s) :: rest else rest
            | None => rest
            end)
  end.

(** [delete_expired]. *)
Definition delete_expired (now : datetime) (j : journal) : option (Z * journal) :=
  expired ← expired_entries (timestamp_micros now) (log_iter (events j));
  Some (Z.of_nat (length expired), fold_left remove_entry expired j).

(** The scan of [reconcile_zombies]: the runs started, with the session and
    namespace of their first start event, and the runs that ended. *)
Definition scan_runs (st : gmap uuid (string * string) * gset uuid) (s : stored_entry)
  : gmap uuid (string * string) * gset uuid :=
  let '(started, terminal) := st in
  match se_run_id s with
  | Some r =>
      let ty := se_event_type s in
      if String.eqb ty "workflow_started" then
        (match started !! r with
         | Some _ => started
         | None => <[r := (se_session_id s, se_namespace s)]> started
         end, terminal)
      else if (String.eqb ty "workflow_completed" || String.eqb ty "workflow_failed"
               || String.eqb ty "workflow_cancelled")%bool
      then (started, {[r]} ∪ terminal)
      else st
  | None => st
  end.

Fixpoint decode_entries (l : list (Z * B)) : option (list stored_entry) :=
  match l with
  | [] => Some []
  | (_, b) :: l' => s ← decode b; rest ← decode_entries l'; Some (s :: rest)
  end.

(** The synthetic failure of an interrupted run. *)
Definition zombie_payload : json :=
  JObject [("error", JString "System restart — workflow was interrupted"); ("reconciled", JBool true)].

Definition zombie_entry (r : uuid) (session_id namespace : string) : journal_entry := {|
  je_run_id := Some r; je_session_id := session_id; je_namespace := namespace;
  je_event_type := "workflow_failed";
  je_payload := zombie_payload;
  je_valid_to := None; je_idempotency_key := None |}.

Definition zombie_of (kv : uuid * (string * string)) : journal_entry :=
  zombie_entry kv.1 kv.2.1 kv.2.2.

(** The runs to reconcile.  The source iterates over a [HashMap], whose order
    is unspecified: [hash_order] is that order. *)
Definition zombies (j : journal) : option (list journal_entry) :=
  stored ← decode_entries (log_iter (events j));
  let '(started, terminal) := fold_left scan_runs stored (∅, ∅) in
  Some (zombie_of <$> List.filter (fun kv => bool_decide (kv.1 ∉ terminal)) (hash_order started)).

(** [reconcile_zombies]; [now] is the clock at each append. *)
Definition reconcile_zombies (now : datetime) (j : journal) : option (Z * journal) :=
  zs ← zombies j;
  Some (Z.of_nat (length zs), fold_left (fun j e => snd (append now e j)) zs j).

(** * The abstract journal

    The entries by ascending id, and the rows they decode to. *)

Definition entries (j : journal) : list (Z * stored_entry) :=
  omap (fun kb => pair kb.1 <$> decode kb.2) (log_iter (events j)).

Definition row_of (e : Z * stored_entry) : option journal_row := into_row e.1 e.2.

Definition rows (j : journal) : list journal_row := omap row_of (entries j).

(** The rows of a part of the log. *)
Definition log_rows (l : list (Z * B)) : list journal_row :=
  omap (fun kb => decode_row kb.1 kb.2) l.

(** The latest creation time among rows. *)
Definition latest_created (l : list journal_row) (init : option datetime) : option datetime :=
  fold_left (fun m r => Some (match m with None => jr_created_at r
                                         | Some p => Z.max p (jr_created_at r) end)) l init.

(** An index that holds exactly the ids of the entries with each key. *)
Definition indexed {M K} `{IndexTable M K} (key : stored_entry -> option K) (m : M)
    (l : list (Z * stored_entry)) : Prop :=
  forall k id, id ∈ idx_get m k <-> exists s, (id, s) ∈ l /\ key s = Some k.

Record consistent (j : journal) : Prop := {
  all_decode id b : log_get (events j) id = Some b -> is_Some (decode_row id b);
  ids_range id s : (id, s) ∈ entries j -> 1 <= id <= u64_max;
  run_indexed : indexed se_run_id (by_run j) (entries j);
  session_indexed : indexed (fun s => Some (se_session_id s)) (by_session j) (entries j);
  expiry_indexed : indexed se_valid_to_micros (by_expiry j) (entries j);
  key_indexed : indexed se_idempotency_key (by_idempotency j) (entries j);
}.

(** The largest id, and room for [n] more. *)
Definition top_id (j : journal) : Z := default 0 (last (log_iter (events j)).*1).
Definition has_room (n : Z) (j : journal) : Prop := top_id j + n <= u64_max.

(** An entry whose payload survives printing and parsing. *)
Definition storable (e : journal_entry) : Prop :=
  json_of_string (json_to_string (je_payload e)) = Some (je_payload e).

(** The row an entry becomes: stamps are cut to microseconds. *)
Definition appended (now : datetime) (id : Z) (e : journal_entry) : journal_row := {|
  jr_id := id; jr_run_id := je_run_id e; jr_session_id := je_session_id e;
  jr_namespace := je_namespace e; jr_event_type := je_event_type e; jr_payload := je_payload e;
  jr_created_at := from_micros (timestamp_micros now);
  jr_valid_to := (fun t => from_micros (timestamp_micros t)) <$> je_valid_to e;
  jr_idempotency_key := je_idempotency_key e |}.

Definition other_id (id : Z) (e : Z * stored_entry) : bool := negb (bool_decide (e.1 = id)).

(** An entry, or a row, whose time has come: [delete_expired] takes it. *)
Definition entry_due (now_micros : Z) (e : Z * stored_entry) : bool :=
  match se_valid_to_micros e.2 with Some vt => vt <=? now_micros | None => false end.
Definition row_due (now : datetime) (r : journal_row) : bool :=
  match jr_valid_to r with Some vt => vt <=? now | None => false end.

(** Start and end events of a run, and the runs that started and did not end. *)
Definition starts (r : uuid) (run : option uuid) (ty : string) : bool :=
  bool_decide (run = Some r) && String.eqb ty "workflow_started".
Definition ends (r : uuid) (run : option uuid) (ty : string) : bool :=
  bool_decide (run = Some r) &&
  (String.eqb ty "workflow_completed" || String.eqb ty "workflow_failed"
   || String.eqb ty "workflow_cancelled").

Definition row_starts r (row : journal_row) : bool := starts r (jr_run_id row) (jr_event_type row).
Definition row_ends r (row : journal_row) : bool := ends r (jr_run_id row) (jr_event_type row).
Definition interrupted (r : uuid) (l : list journal_row) : bool :=
  existsb (row_starts r) l && negb (existsb (row_ends r) l).

(** What can happen to a journal. *)
Inductive journal_step : journal -> journal -> Prop :=
  | StepAppend j now e :
      storable e -> has_room 1 j -> journal_step j (snd (append now e j))
  | StepDelete j now n j' : delete_expired now j = Some (n, j') -> journal_step j j'
  | StepReconcile j now n j' :
      reconcile_zombies now j = Some (n, j') -> has_room n j -> journal_step j j'.

(** * Theory *)

(** postcard decodes what it encodes. *)
Context (codec : forall s, decode (encode s) = Some s).
Context `{!LogTableLaws E Z B Z.lt}.
Context `{!IndexTableLaws R uuid} `{!IndexTableLaws S string} `{!IndexTableLaws X Z}.

Lemma entries_get j id s :
  (id, s) ∈ entries j <-> exists b, log_get (events j) id = Some b /\ decode b = Some s.
Proof.
  unfold entries. rewrite list_elem_of_omap. split.
  - intros ([k b] & Hk & (s' & Hs & [= -> ->])%fmap_Some). exists b. split; [|done].
    by apply log_iter_get.
  - intros (b & Hb & Hs). exists (id, b). split; [by apply log_iter_get|]. cbn. by rewrite Hs.
Qed.

Lemma entries_sorted j : StronglySorted Z.lt (entries j).*1.
Proof.
  apply (sorted_omap Z.lt fst); [|apply log_iter_sorted].
  intros [k b] y _ (s & _ & ->)%fmap_Some. done.
Qed.

Lemma row_of_id e r : row_of e = Some r -> jr_id r = e.1.
Proof. unfold row_of, into_row. destruct (json_of_string _); [|done]. by intros [= <-]. Qed.

Lemma rows_sorted j : StronglySorted Z.lt (jr_id <$> rows j).
Proof. apply (sorted_omap Z.lt fst); [|apply entries_sorted]. intros e r _. apply row_of_id. Qed.

Lemma row_of_some j e : consistent j -> e ∈ entries j -> is_Some (row_of e).
Proof.
  intros Hc He. destruct e as [id s]. apply entries_get in He as (b & Hb & Hs).
  destruct (all_decode j Hc id b Hb) as [r Hr]. unfold decode_row in Hr. rewrite Hs in Hr. by eexists.
Qed.

(** An index lists the ids of the matching entries, in order. *)
Lemma indexed_get {M K} `{IndexTableLaws M K} `{EqDecision K} key (m : M) l k :
  indexed key m l -> StronglySorted Z.lt l.*1 ->
  idx_get m k = (bfilter (fun e => bool_decide (key e.2 = Some k)) l).*1.
Proof.
  intros Hi Hl. apply (sorted_key_ext Z.lt id).
  - rewrite list_fmap_id. apply idx_get_sorted.
  - rewrite list_fmap_id. by apply (sorted_bfilter Z.lt).
  - intros i. rewrite (Hi k i), list_elem_of_fmap. split.
    + intros (s & Hs & Hk). exists (i, s). split; [done|]. rewrite elem_of_bfilter.
      by rewrite bool_decide_true.
    + intros ([i' s] & -> & [Hs Hk%bool_decide_eq_true]%elem_of_bfilter). by exists s.
Qed.

Lemma rows_of_entries j l :
  consistent j -> (forall e, e ∈ l -> e ∈ entries j) -> rows_of j l.*1 = Some (omap row_of l).
Proof.
  intros Hc. induction l as [|[id s] l IH]; intros Hl; cbn; [done|].
  assert ((id, s) ∈ entries j) as He by (apply Hl; by left).
  destruct (row_of_some j _ Hc He) as [r Hr].
  apply entries_get in He as (b & -> & Hs). cbn.
  unfold decode_row. rewrite Hs. cbn. unfold row_of in *. cbn in Hr |- *. rewrite Hr. cbn.
  rewrite IH; [done|]. intros e He. apply Hl. by right.
Qed.

Lemma insert_row_last r l : Forall (fun x => jr_id x <= jr_id r) l -> insert_row r l = l ++ [r].
Proof.
  induction 1 as [|x l Hx Hl IH]; cbn; [done|].
  apply Z.leb_le in Hx. rewrite Hx. by rewrite IH.
Qed.

Lemma sort_rows_sorted l : StronglySorted Z.lt (jr_id <$> l) -> sort_rows l = l.
Proof.
  enough (forall acc, StronglySorted Z.lt (jr_id <$> (acc ++ l)) ->
          fold_left (fun acc r => insert_row r acc) l acc = acc ++ l) as Hacc by exact (Hacc []).
  induction l as [|r l IH]; intros acc Hs; cbn; [by rewrite app_nil_r|].
  rewrite insert_row_last; [|].
  - rewrite IH; [by rewrite <- app_assoc|]. by rewrite <- app_assoc.
  - rewrite fmap_app, StronglySorted_app in Hs. destruct Hs as (H' & _).
    apply Forall_forall. intros x Hx. specialize (H' (jr_id x) (jr_id r)).
    apply Z.lt_le_incl, H'; [by apply list_elem_of_fmap_2|by left].
Qed.

(** The scan of a session from the newest id. *)
Lemma session_loop_entries now j limit l acc :
  consistent j -> (forall e, e ∈ l -> e ∈ entries j) ->
  session_loop now j limit l.*1 acc =
    Some (acc ++ take (limit - length acc)
                   (bfilter (fun r => negb (is_expired now r)) (omap row_of l))).
Proof.
  intros Hc. revert acc. induction l as [|[id s] l IH]; intros acc Hl; cbn.
  { by rewrite take_nil, app_nil_r. }
  assert ((id, s) ∈ entries j) as He by (apply Hl; by left).
  destruct (row_of_some j _ Hc He) as [r Hr].
  apply entries_get in He as (b & Hb & Hs).
  destruct (Nat.leb_spec limit (length acc)) as [Hle|Hlt].
  { replace (limit - length acc)%nat with 0%nat by lia. by rewrite app_nil_r. }
  rewrite Hb, Hr. unfold decode_row. rewrite Hs. cbn [mbind option_bind].
  unfold row_of in Hr. cbn in Hr. rewrite Hr. cbn [mbind option_bind].
  rewrite IH by (intros e He; apply Hl; by right).
  cbn. destruct (is_expired now r); cbn; [done|].
  rewrite length_app, <- app_assoc. cbn. f_equal. f_equal.
  replace (limit - length acc)%nat with (Datatypes.S (limit - (length acc + 1))) by lia. done.
Qed.

(** The log decodes to the entries. *)
Lemma log_decodes j id b :
  consistent j -> (id, b) ∈ log_iter (events j) -> exists r, decode_row id b = Some r.
Proof. intros Hc Hb%log_iter_get. by apply (all_decode j Hc id b). Qed.

Lemma log_rows_cons id b r l : decode_row id b = Some r -> log_rows ((id, b) :: l) = r :: log_rows l.
Proof. intros Hr. unfold log_rows. cbn. by rewrite Hr. Qed.

Lemma log_rows_rows j : log_rows (log_iter (events j)) = rows j.
Proof.
  unfold log_rows, rows, entries. induction (log_iter (events j)) as [|[id b] l IH]; [done|].
  cbn. unfold decode_row at 1. destruct (decode b) as [s|]; cbn; [|done]. unfold row_of at 1. cbn.
  destruct (into_row id s); cbn; by rewrite IH.
Qed.

Lemma decode_rows_log j l :
  consistent j -> (forall e, e ∈ l -> e ∈ log_iter (events j)) -> decode_rows l = Some (log_rows l).
Proof.
  intros Hc. induction l as [|[id b] l IH]; intros Hl; cbn; [done|].
  destruct (log_decodes j id b Hc) as [r Hr]; [apply Hl; by left|].
  rewrite Hr. cbn.
  rewrite IH; [done|]. intros e He. apply Hl. by right.
Qed.

Lemma query_loop_log now f limit j l acc :
  consistent j -> (forall e, e ∈ l -> e ∈ log_iter (events j)) ->
  query_loop now f limit l acc =
    Some (acc ++ take (limit - length acc)
                   (bfilter (filter_matches show_uuid now f) (log_rows l))).
Proof.
  intros Hc. revert acc. induction l as [|[id b] l IH]; intros acc Hl; cbn.
  { by rewrite take_nil, app_nil_r. }
  destruct (Nat.leb_spec limit (length acc)) as [Hle|Hlt].
  { replace (limit - length acc)%nat with 0%nat by lia. by rewrite app_nil_r. }
  destruct (log_decodes j id b Hc) as [r Hr]; [apply Hl; by left|].
  rewrite Hr. cbn.
  rewrite IH by (intros e He; apply Hl; by right).
  destruct (filter_matches show_uuid now f r); cbn; [|done].
  rewrite length_app, <- app_assoc. cbn. f_equal. f_equal.
  replace (limit - length acc)%nat with (Datatypes.S (limit - (length acc + 1))) by lia. done.
Qed.

Lemma aggregate_loop_log now f j l count latest :
  consistent j -> (forall e, e ∈ l -> e ∈ log_iter (events j)) ->
  let matching := bfilter (filter_matches show_uuid now f) (log_rows l) in
  aggregate_loop now f l count latest =
    Some (count + Z.of_nat (length matching), latest_created matching latest).
Proof.
  intros Hc. revert count latest. induction l as [|[id b] l IH]; intros count latest Hl.
  { cbn. by rewrite Z.add_0_r. }
  destruct (log_decodes j id b Hc) as [r Hr]; [apply Hl; by left|].
  cbn zeta. rewrite (log_rows_cons _ _ _ _ Hr). cbn [aggregate_loop List.filter]. rewrite Hr.
  cbn [mbind option_bind]. destruct (filter_matches show_uuid now f r).
  - rewrite IH by (intros e He; apply Hl; by right). f_equal. f_equal; [cbn [length]; lia|].
    unfold latest_created. cbn [fold_left]. f_equal. destruct latest as [p|]; [|done].
    destruct (Z.ltb_spec p (jr_created_at r)) as [Hp|Hp]; f_equal; symmetry.
    + by apply Z.max_r, Z.lt_le_incl.
    + by apply Z.max_l.
  - apply IH. intros e He. apply Hl. by right.
Qed.

(** The search over ascending ids ends on the last. *)
Lemma best_loop_entries j l best :
  (forall e, e ∈ l -> e ∈ entries j) -> StronglySorted Z.lt l.*1 ->
  (forall id s, best = Some (id, s) -> Forall (fun e : Z * stored_entry => id < e.1) l) ->
  best_loop j l.*1 best = Some (match last l with Some e => Some e | None => best end).
Proof.
  revert best. induction l as [|[id s] l IH]; intros best Hl Hs Hb; [done|].
  cbn [fmap list_fmap fst] in Hs |- *. apply StronglySorted_cons in Hs as [Hf Hs].
  rewrite Forall_fmap in Hf. cbn [best_loop].
  replace (match best with Some (prev, _) => id <=? prev | None => false end) with false.
  2:{ destruct best as [[p q]|]; [|done]. specialize (Hb p q eq_refl).
      apply Forall_cons in Hb as [Hb _]. cbn in Hb. symmetry. by apply Z.leb_gt. }
  assert ((id, s) ∈ entries j) as (b & Hlog & Hd)%entries_get by (apply Hl; by left).
  rewrite Hlog, Hd. cbn [mbind option_bind].
  rewrite IH; [|intros e He; apply Hl; by right|done|by intros ?? [= <- <-]].
  rewrite last_cons. by destruct (last l).
Qed.

(** ** Appending *)

Lemma entries_le_top j e : e ∈ entries j -> e.1 <= top_id j.
Proof.
  destruct e as [id s]. intros (b & Hb & _)%entries_get. apply log_iter_get in Hb.
  assert (id ∈ (log_iter (events j)).*1) as Hid by (apply list_elem_of_fmap; by exists (id, b)).
  unfold top_id. destruct (last (log_iter (events j)).*1) as [k|] eqn:Hl; cbn.
  - by eapply sorted_last; [apply log_iter_sorted| |].
  - apply last_None in Hl. rewrite Hl in Hid. by apply not_elem_of_nil in Hid.
Qed.

Lemma top_id_range j : consistent j -> 0 <= top_id j <= u64_max.
Proof.
  intros Hc. unfold top_id. destruct (last (log_iter (events j)).*1) as [k|] eqn:Hl; cbn; [|done].
  apply last_Some_elem_of, list_elem_of_fmap in Hl as ([k' b] & -> & Hk).
  destruct (log_decodes j k' b Hc Hk) as [r Hr]. apply log_iter_get in Hk.
  unfold decode_row in Hr. destruct (decode b) as [s|] eqn:Hs; [|done].
  assert ((k', s) ∈ entries j) as Hin by (apply entries_get; by exists b).
  apply (ids_range j Hc) in Hin. cbn. lia.
Qed.

Lemma next_id_top j : consistent j -> has_room 1 j -> next_id (events j) = top_id j + 1.
Proof.
  intros Hc Hr. pose proof (top_id_range j Hc) as Ht. unfold has_room, top_id, next_id in *.
  rewrite fmap_last in *. destruct (last (log_iter (events j))) as [[k b]|]; cbn in *; [|done].
  unfold wrap_u64. apply Z.mod_small. unfold u64_max in *. lia.
Qed.

Lemma indexed_insert {M K} `{IndexTableLaws M K} key (m : M) l id s :
  indexed key m l ->
  indexed key (match key s with Some k => idx_insert m k id | None => m end) (l ++ [(id, s)]).
Proof.
  intros Hi k i. setoid_rewrite elem_of_app. setoid_rewrite list_elem_of_singleton.
  destruct (key s) as [k'|] eqn:Hk; [rewrite idx_get_insert|]; rewrite (Hi k i); naive_solver.
Qed.

Lemma events_append_keys j i :
  consistent j -> has_room 1 j -> i ∈ (log_iter (events j)).*1 -> i < next_id (events j).
Proof.
  intros Hc Hr ([i' b] & -> & Hk)%list_elem_of_fmap. rewrite next_id_top by done.
  destruct (log_decodes j i' b Hc Hk) as [r Hd]. apply log_iter_get in Hk.
  unfold decode_row in Hd. destruct (decode b) as [s|] eqn:Hs; [|done].
  assert ((i', s) ∈ entries j) as Hin%entries_le_top by (apply entries_get; by exists b).
  cbn in *. lia.
Qed.

Lemma entries_append now e j :
  consistent j -> has_room 1 j ->
  entries (snd (append now e j)) = entries j ++ [(next_id (events j), from_entry now e)].
Proof.
  intros Hc Hr. unfold entries. cbn [append snd events].
  rewrite (log_iter_insert_last (lt := Z.lt)) by (intros i Hi; by apply events_append_keys).
  rewrite omap_app. cbn. by rewrite codec.
Qed.

Lemma top_id_append now e j :
  consistent j -> has_room 1 j -> top_id (snd (append now e j)) = top_id j + 1.
Proof.
  intros Hc Hr. unfold top_id at 1. cbn [append snd events].
  rewrite (log_iter_insert_last (lt := Z.lt)) by (intros i Hi; by apply events_append_keys).
  rewrite fmap_app, last_app. cbn. by apply next_id_top.
Qed.

Lemma row_of_appended id now e :
  storable e -> row_of (id, from_entry now e) = Some (appended now id e).
Proof.
  intros Hs. unfold row_of, into_row. cbn. rewrite Hs. cbn. unfold appended. f_equal. f_equal.
  by destruct (je_valid_to e).
Qed.

Lemma append_consistent now e j :
  consistent j -> has_room 1 j -> storable e -> consistent (snd (append now e j)).
Proof.
  intros Hc Hr He. pose proof (top_id_range j Hc) as Ht.
  split; rewrite ?entries_append by done.
  - intros id b. cbn. rewrite log_get_insert. destruct (decide _) as [<-|_].
    + intros [= <-]. unfold decode_row. rewrite codec. cbn.
      eexists. by apply (row_of_appended (next_id (events j)) now e).
    + apply (all_decode j Hc).
  - intros id s [Hi|[= -> ->]%list_elem_of_singleton]%elem_of_app; [by apply (ids_range j Hc id s)|].
    rewrite next_id_top by done. unfold has_room in Hr. lia.
  - apply (indexed_insert se_run_id), Hc.
  - apply (indexed_insert (fun s => Some (se_session_id s))), Hc.
  - apply (indexed_insert se_valid_to_micros), Hc.
  - apply (indexed_insert se_idempotency_key), Hc.
Qed.

Lemma rows_append now e j :
  consistent j -> has_room 1 j -> storable e ->
  rows (snd (append now e j)) = rows j ++ [appended now (top_id j + 1) e].
Proof.
  intros Hc Hr He. unfold rows. rewrite entries_append, omap_app, next_id_top by done. f_equal.
  cbn [omap list_omap]. by rewrite row_of_appended.
Qed.

(** ** Removing *)

Lemma indexed_remove {M K} `{IndexTableLaws M K} key (m : M) l id s :
  indexed key m l -> StronglySorted Z.lt l.*1 -> (id, s) ∈ l ->
  indexed key (match key s with Some k => idx_remove m k id | None => m end)
    (bfilter (other_id id) l).
Proof.
  intros Hi Hl Hs k i. setoid_rewrite elem_of_bfilter. unfold other_id. cbn.
  assert (forall s', (id, s') ∈ l -> s' = s) as Hu.
  { intros s' Hs'. by eapply (sorted_key_unique Z.lt). }
  destruct (key s) as [k'|] eqn:Hk; [rewrite idx_get_remove|]; rewrite (Hi k i).
  - split.
    + intros (Hne & s' & Hin & Hks). exists s'. split_and!; [done| |done].
      apply negb_true_iff, bool_decide_eq_false. intros ->. rewrite (Hu s' Hin) in Hks.
      apply Hne; split; congruence.
    + intros (s' & [Hin Hne] & Hks). split; [|by exists s'].
      intros [_ ->]. by rewrite bool_decide_true in Hne.
  - split.
    + intros (s' & Hin & Hks). exists s'. split_and!; [done| |done].
      apply negb_true_iff, bool_decide_eq_false. intros ->. rewrite (Hu s' Hin) in Hks. congruence.
    + intros (s' & [Hin _] & Hks). by exists s'.
Qed.

Lemma entries_remove j id s : entries (remove_entry j (id, s)) = bfilter (other_id id) (entries j).
Proof.
  unfold entries. cbn. rewrite (log_iter_remove (lt := Z.lt)). apply omap_bfilter.
  intros [k b] y _ (s' & _ & ->)%fmap_Some. done.
Qed.

Lemma remove_consistent j e : consistent j -> e ∈ entries j -> consistent (remove_entry j e).
Proof.
  destruct e as [id s]. intros Hc He. pose proof (entries_sorted j) as Hl.
  split; rewrite ?entries_remove.
  - intros i b. cbn. rewrite log_get_remove. destruct (decide _); [done|]. apply (all_decode j Hc).
  - intros i s' [Hi _]%elem_of_bfilter. by apply (ids_range j Hc i s').
  - apply (indexed_remove se_run_id); [apply Hc|done|done].
  - apply (indexed_remove (fun s => Some (se_session_id s))); [apply Hc|done|done].
  - apply (indexed_remove se_valid_to_micros); [apply Hc|done|done].
  - apply (indexed_remove se_idempotency_key); [apply Hc|done|done].
Qed.

Lemma remove_all es j :
  consistent j -> (forall e, e ∈ es -> e ∈ entries j) -> NoDup es.*1 ->
  consistent (fold_left remove_entry es j) /\
  entries (fold_left remove_entry es j) =
    bfilter (fun e => negb (bool_decide (e.1 ∈ es.*1))) (entries j).
Proof.
  revert j. induction es as [|[id s] es IH]; intros j Hc Hin Hnd; cbn [fold_left].
  { split; [done|]. symmetry. apply bfilter_true. intros e _.
    rewrite bool_decide_false by apply not_elem_of_nil. done. }
  cbn in Hnd. apply NoDup_cons in Hnd as [Hid Hnd].
  destruct (IH (remove_entry j (id, s))) as [Hc' He'].
  - apply remove_consistent; [done|]. apply Hin. by left.
  - intros e He. rewrite entries_remove, elem_of_bfilter. split; [apply Hin; by right|].
    apply negb_true_iff, bool_decide_eq_false. intros <-. by apply Hid, list_elem_of_fmap_2.
  - done.
  - split; [done|]. rewrite He', entries_remove, bfilter_bfilter. apply bfilter_ext.
    intros e _. unfold other_id. cbn. rewrite <- negb_orb. f_equal.
    rewrite (bool_decide_ext (e.1 ∈ id :: es.*1) (e.1 ∈ es.*1 \/ e.1 = id))
      by (rewrite elem_of_cons; tauto).
    by rewrite bool_decide_or.
Qed.

Lemma expired_entries_log now_micros l :
  (forall kb, kb ∈ l -> is_Some (decode kb.2)) ->
  expired_entries now_micros l =
    Some (bfilter (entry_due now_micros) (omap (fun kb => pair kb.1 <$> decode kb.2) l)).
Proof.
  induction l as [|[id b] l IH]; intros Hd; cbn; [done|].
  destruct (Hd (id, b)) as [s Hs]; [by left|]. cbn in Hs. rewrite Hs. cbn.
  rewrite IH by (intros kb Hk; apply Hd; by right). cbn.
  change (entry_due now_micros (id, s)) with
    (match se_valid_to_micros s with Some vt => vt <=? now_micros | None => false end).
  destruct (se_valid_to_micros s) as [vt|]; [|done]. by destruct (vt <=? now_micros).
Qed.

Lemma log_values_decode j kb :
  consistent j -> kb ∈ log_iter (events j) -> is_Some (decode kb.2).
Proof.
  destruct kb as [id b]. intros Hc Hk. destruct (log_decodes j id b Hc Hk) as [r Hr].
  unfold decode_row in Hr. cbn. by destruct (decode b).
Qed.

(** What [delete_expired] leaves. *)
Lemma delete_expired_entries now j :
  consistent j ->
  exists j', delete_expired now j =
      Some (Z.of_nat (length (bfilter (entry_due (timestamp_micros now)) (entries j))), j') /\
    consistent j' /\
    entries j' = bfilter (fun e => negb (entry_due (timestamp_micros now) e)) (entries j).
Proof.
  intros Hc. set (due := bfilter (entry_due (timestamp_micros now)) (entries j)).
  pose proof (sorted_bfilter Z.lt fst (entry_due (timestamp_micros now)) _ (entries_sorted j)) as Hs.
  exists (fold_left remove_entry due j). unfold delete_expired.
  rewrite expired_entries_log by (intros kb; by apply log_values_decode). split; [done|].
  destruct (remove_all due j) as [Hc' He'].
  - done.
  - intros e. unfold due. by rewrite elem_of_bfilter; intros [? _].
  - by apply (sorted_NoDup Z.lt).
  - split; [done|]. rewrite He'. apply bfilter_ext. intros e He. f_equal.
    destruct (entry_due (timestamp_micros now) e) eqn:Hdue.
    + apply bool_decide_true, list_elem_of_fmap_2, elem_of_bfilter. done.
    + apply bool_decide_false. intros (e' & Heq & [Hin' Hdue']%elem_of_bfilter)%list_elem_of_fmap.
      enough (e = e') as -> by congruence. destruct e as [i s], e' as [i' s']. cbn in Heq. subst i'.
      f_equal. by eapply (sorted_key_unique Z.lt); [apply entries_sorted| |].
Qed.

Lemma entry_due_row now e r :
  row_of e = Some r -> entry_due (timestamp_micros now) e = row_due now r.
Proof.
  unfold row_of, into_row, entry_due, row_due. destruct (json_of_string _); [|done]. intros [= <-]. cbn.
  destruct (se_valid_to_micros e.2) as [vt|]; [|done]. cbn. unfold timestamp_micros, from_micros.
  destruct (Z.leb_spec vt (now / 1000)) as [H'|H']; symmetry.
  - apply Z.leb_le. pose proof (Z.mul_div_le now 1000). lia.
  - apply Z.leb_gt. pose proof (Z.mod_pos_bound now 1000). pose proof (Z.div_mod now 1000). lia.
Qed.

(** ** Reconciliation *)

Lemma append_all now es j :
  consistent j -> has_room (Z.of_nat (length es)) j -> Forall storable es ->
  let j' := fold_left (fun j e => snd (append now e j)) es j in
  consistent j' /\
  exists news, rows j' = rows j ++ news /\ Forall2 (fun e r => exists id, r = appended now id e) es news.
Proof.
  intros Hc Hr Hs. revert j Hc Hr. induction Hs as [|e es He Hs IH]; intros j Hc Hr; cbn [fold_left].
  { split; [done|]. exists []. by rewrite app_nil_r. }
  assert (has_room 1 j) as Hr1 by (unfold has_room in *; cbn [length] in Hr; lia).
  destruct (IH (snd (append now e j))) as (Hc' & news & Hn & Hf).
  - by apply append_consistent.
  - unfold has_room in *. rewrite top_id_append by done. cbn [length] in Hr. lia.
  - split; [done|]. exists (appended now (top_id j + 1) e :: news). split.
    + by rewrite Hn, rows_append, <- app_assoc.
    + constructor; [by eexists|done].
Qed.

Lemma scan_runs_spec l started terminal st te r :
  fold_left scan_runs l (started, terminal) = (st, te) ->
  st !! r = match started !! r with
            | Some v => Some v
            | None => (fun s => (se_session_id s, se_namespace s)) <$>
                        List.find (fun s => starts r (se_run_id s) (se_event_type s)) l
            end /\
  (r ∈ te <-> r ∈ terminal \/ existsb (fun s => ends r (se_run_id s) (se_event_type s)) l = true).
Proof.
  clear json_of_string show_uuid hash_order.
  revert started terminal. induction l as [|s l IH]; intros started terminal.
  { intros [= <- <-]. split; [by destruct (started !! r)|]. cbn. split; [by left|by intros [?|?]]. }
  cbn [fold_left List.find existsb]. unfold starts, ends, scan_runs at 2.
  destruct (se_run_id s) as [x|]; [|by apply IH].
  destruct (String.eqb_spec (se_event_type s) "workflow_started") as [->|Hns].
  - intros [Ha Hb]%IH. rewrite Hb, andb_false_r. split; [|done]. rewrite Ha, andb_true_r.
    destruct (decide (x = r)) as [->|Hx].
    + rewrite (bool_decide_true (Some r = Some r)) by done.
      destruct (started !! r) eqn:Hr; rewrite ?Hr; [done|]. by rewrite lookup_insert_eq.
    + rewrite (bool_decide_false (Some x = Some r)) by (by intros [= ->]).
      destruct (started !! x); [done|]. by rewrite lookup_insert_ne.
  - rewrite andb_false_r. destruct (_ || _ || _)%bool.
    + intros [Ha Hb]%IH. split; [done|]. rewrite Hb, andb_true_r, elem_of_union, elem_of_singleton.
      rewrite orb_true_iff, bool_decide_eq_true.
      assert (Some x = Some r <-> r = x) as Hx by (split; [by intros [= ->]|by intros ->]). tauto.
    + rewrite andb_false_r. apply IH.
Qed.

Lemma decode_entries_log j :
  consistent j -> decode_entries (log_iter (events j)) = Some (entries j).*2.
Proof.
  intros Hc. assert (forall l, (forall kb, kb ∈ l -> is_Some (decode kb.2)) ->
    decode_entries l = Some (omap (fun kb => pair kb.1 <$> decode kb.2) l).*2) as Hl.
  { induction l as [|[id b] l IH]; intros Hd; cbn; [done|].
    destruct (Hd (id, b)) as [s Hs]; [by left|]. cbn in Hs. rewrite Hs. cbn.
    rewrite IH; [done|]. intros kb Hk. apply Hd. by right. }
  apply Hl. intros kb. by apply log_values_decode.
Qed.

(** Tests on the run and the type agree between entries and rows. *)
Lemma existsb_rows j (p : option uuid -> string -> bool) :
  consistent j ->
  existsb (fun r => p (jr_run_id r) (jr_event_type r)) (rows j) =
  existsb (fun s => p (se_run_id s) (se_event_type s)) (entries j).*2.
Proof.
  intros Hc. unfold rows. pose proof (row_of_some j) as Hs.
  induction (entries j) as [|e l IH]; [done|]. cbn.
  destruct (Hs e Hc) as [r Hr]; [by left|]. rewrite Hr. cbn.
  rewrite IH by (intros e' _ He'; apply Hs; [done|by right]). f_equal.
  unfold row_of, into_row in Hr. destruct (json_of_string _); [|done]. by injection Hr as <-.
Qed.

Lemma find_existsb {A} (p : A -> bool) l : is_Some (List.find p l) <-> existsb p l = true.
Proof. induction l as [|x l IH]; cbn; [by split; [intros []|]|]. destruct (p x); [by split|done]. Qed.

(** The runs that get a synthetic event are the interrupted ones, once each. *)
Lemma zombies_spec j :
  (forall m, hash_order m ≡ₚ map_to_list m) -> consistent j ->
  exists l, zombies j = Some (zombie_of <$> l) /\
    NoDup l.*1 /\ (forall r, r ∈ l.*1 <-> interrupted r (rows j) = true).
Proof.
  clear codec encode show_uuid. intros Ho Hc. unfold zombies. rewrite decode_entries_log by done. cbn [mbind option_bind].
  destruct (fold_left scan_runs _ _) as [st te] eqn:Hf.
  eexists. split; [done|]. split.
  - apply NoDup_bfilter. rewrite (Ho st). apply NoDup_fst_map_to_list.
  - intros r. destruct (scan_runs_spec _ _ _ _ _ r Hf) as [Hst Hte].
    rewrite lookup_empty in Hst. unfold interrupted, row_starts, row_ends.
    rewrite (existsb_rows j (starts r)), (existsb_rows j (ends r)) by done.
    rewrite andb_true_iff, negb_true_iff, <- not_true_iff_false, <- find_existsb.
    rewrite list_elem_of_fmap. setoid_rewrite elem_of_bfilter. setoid_rewrite (Ho st).
    split.
    + intros ([r' v] & -> & [Hin%elem_of_map_to_list Hnt%bool_decide_eq_true]). cbn in *.
      split; [|by intros He; apply Hnt, Hte; right].
      rewrite Hst in Hin. by apply fmap_Some in Hin as (s & -> & _).
    + intros [[s Hs] Hne]. rewrite Hs in Hst. exists (r, (se_session_id s, se_namespace s)).
      split_and!; [done|by apply elem_of_map_to_list|].
      apply bool_decide_eq_true. cbn. rewrite Hte. set_solver.
Qed.

Lemma zombies_storable l :
  json_of_string (json_to_string zombie_payload) = Some zombie_payload ->
  Forall storable (zombie_of <$> l).
Proof. intros Hz. apply Forall_forall. by intros e (kv & -> & _)%list_elem_of_fmap. Qed.

(** What [reconcile_zombies] appends. *)
Lemma reconcile_rows now j :
  (forall m, hash_order m ≡ₚ map_to_list m) ->
  json_of_string (json_to_string zombie_payload) = Some zombie_payload ->
  consistent j ->
  (forall n j', reconcile_zombies now j = Some (n, j') -> has_room n j) ->
  exists j' l news, reconcile_zombies now j = Some (Z.of_nat (length l), j') /\ consistent j' /\
    NoDup l /\ (forall r, r ∈ l <-> interrupted r (rows j) = true) /\
    rows j' = rows j ++ news /\
    Forall2 (fun r row => exists id sess ns, row = appended now id (zombie_entry r sess ns)) l news.
Proof.
  intros Ho Hz Hc Hroom. destruct (zombies_spec j Ho Hc) as (l & Hl & Hnd & Hr).
  unfold reconcile_zombies in *. rewrite Hl in *. cbn [mbind option_bind] in *.
  specialize (Hroom _ _ eq_refl). rewrite length_fmap in *.
  destruct (append_all now (zombie_of <$> l) j) as (Hc' & news & Hn & Hf);
    [done|by rewrite length_fmap|by apply zombies_storable|].
  eexists _, l.*1, news. rewrite length_fmap. split_and!; [done..|].
  apply Forall2_fmap_l in Hf. apply Forall2_fmap_l. eapply Forall2_impl; [exact Hf|].
  intros kv row [id ->]. cbn. by eexists _, _, _.
Qed.

Lemma entries_new : entries journal_new = [].
Proof. unfold entries. cbn. by rewrite (log_iter_empty (lt := Z.lt)). Qed.

Lemma new_consistent : consistent journal_new.
Proof.
  assert (forall K M `{IndexTableLaws M K} key, indexed key (idx_empty : M) []) as Hi.
  { intros K M ?? key k id. rewrite idx_get_empty, elem_of_nil. split; [done|].
    by intros (s & Hs%not_elem_of_nil & _). }
  split; rewrite ?entries_new.
  - intros id b. cbn. by rewrite log_get_empty.
  - by intros id s ?%not_elem_of_nil.
  - apply Hi, _.
  - apply Hi, _.
  - apply Hi, _.
  - apply Hi, _.
Qed.

Lemma existsb_app_ends r l news :
  Forall2 (fun r row => exists now id sess ns, row = appended now id (zombie_entry r sess ns)) l news ->
  existsb (row_ends r) news = bool_decide (r ∈ l) /\ existsb (row_starts r) news = false.
Proof.
  clear json_of_string show_uuid hash_order. induction 1 as [|x row l news (now & id & sess & ns & ->) Hf [IH1 IH2]]; [by split|].
  cbn [existsb]. rewrite IH1, IH2. unfold row_ends, row_starts, ends, starts. cbn.
  rewrite andb_true_r, andb_false_r. split; [|done].
  apply eq_true_iff_eq. rewrite orb_true_iff, !bool_decide_eq_true, elem_of_cons.
  assert (Some x = Some r <-> r = x) as Hx by (split; [by intros [= ->]|by intros ->]). tauto.
Qed.

Lemma reconciled_not_interrupted old l news r :
  (forall r, r ∈ l <-> interrupted r old = true) ->
  Forall2 (fun r row => exists now id sess ns, row = appended now id (zombie_entry r sess ns)) l news ->
  interrupted r (old ++ news) = false.
Proof.
  intros Hl Hf. destruct (existsb_app_ends r l news Hf) as [He Hs].
  unfold interrupted. rewrite !existsb_app, He, Hs, orb_false_r.
  pose proof (Hl r) as Hr. unfold interrupted in Hr.
  destruct (existsb (row_starts r) old); [|done]. cbn in *.
  destruct (existsb (row_ends r) old); [done|]. cbn in *. by rewrite bool_decide_true by by apply Hr.
Qed.

(** ** Queries *)

Lemma matching_entries j (p : Z * stored_entry -> bool) (q : journal_row -> bool) :
  (forall e r, row_of e = Some r -> p e = q r) ->
  omap row_of (bfilter p (entries j)) = bfilter q (rows j).
Proof. intros Hp. apply omap_bfilter. intros e r _. apply Hp. Qed.

Lemma row_of_fields e r :
  row_of e = Some r ->
  jr_run_id r = se_run_id e.2 /\ jr_session_id r = se_session_id e.2 /\
  jr_idempotency_key r = se_idempotency_key e.2.
Proof. unfold row_of, into_row. destruct (json_of_string _); [|done]. by intros [= <-]. Qed.

Lemma query_by_run_rows now j run :
  consistent j ->
  query_by_run now run j =
    Some (bfilter (fun r => negb (is_expired now r))
            (bfilter (fun r => bool_decide (jr_run_id r = Some run)) (rows j))).
Proof.
  intros Hc. unfold query_by_run.
  rewrite (indexed_get _ _ _ run (run_indexed j Hc) (entries_sorted j)).
  rewrite rows_of_entries; [|done|by intros e [? _]%elem_of_bfilter]. cbn [mbind option_bind].
  rewrite (matching_entries j (fun e => bool_decide (se_run_id e.2 = Some run))
             (fun r => bool_decide (jr_run_id r = Some run))).
  - rewrite sort_rows_sorted; [done|]. apply (sorted_bfilter Z.lt), rows_sorted.
  - intros e r Hr. apply row_of_fields in Hr as (-> & _). done.
Qed.

Lemma query_by_session_rows now j sess limit :
  consistent j ->
  query_by_session now sess limit j =
    Some (take limit (bfilter (fun r => negb (is_expired now r))
            (bfilter (fun r => String.eqb (jr_session_id r) sess) (rev (rows j))))).
Proof.
  intros Hc. unfold query_by_session. rewrite merge_sort_sorted by apply idx_get_sorted.
  rewrite (indexed_get _ _ _ sess (session_indexed j Hc) (entries_sorted j)).
  rewrite <- List.map_rev. change (List.map fst) with (fmap (M := list) (@fst Z stored_entry)).
  rewrite session_loop_entries; [|done|].
  - cbn [length app]. rewrite Nat.sub_0_r, omap_rev. f_equal. f_equal. f_equal.
    rewrite (matching_entries j (fun e => bool_decide (Some (se_session_id e.2) = Some sess))
             (fun r => String.eqb (jr_session_id r) sess)); [by rewrite bfilter_rev|].
    intros e r Hr. apply row_of_fields in Hr as (_ & -> & _).
    destruct (String.eqb_spec (se_session_id e.2) sess) as [->|Hne].
    + by apply bool_decide_true.
    + apply bool_decide_false. congruence.
  - intros e He. rewrite <- (Permutation_rev (bfilter _ (entries j))) in He. by apply elem_of_bfilter in He as [? _].
Qed.

Lemma recent_rows now j limit :
  consistent j ->
  recent now limit j = Some (bfilter (fun r => negb (is_expired now r)) (take limit (rev (rows j)))).
Proof.
  intros Hc. unfold recent.
  assert (forall e, e ∈ rev (log_iter (events j)) -> e ∈ log_iter (events j)) as Hrev.
  { intros e. by rewrite <- (Permutation_rev (log_iter (events j))). }
  rewrite (decode_rows_log j) by (done || (intros e He; apply Hrev; by eapply subseteq_take)).
  cbn [mbind option_bind]. unfold log_rows. rewrite omap_take.
  - rewrite omap_rev. fold (log_rows (log_iter (events j))). by rewrite log_rows_rows.
  - intros [k b] He%Hrev. cbn. by destruct (log_decodes j k b Hc He) as [r ->].
Qed.

Lemma query_rows now j f limit :
  consistent j ->
  query now f limit j = Some (take limit (bfilter (filter_matches show_uuid now f) (rev (rows j)))).
Proof.
  intros Hc. unfold query. rewrite (query_loop_log now f limit j) by
    (done || (intros e; by rewrite <- (Permutation_rev (log_iter (events j))))).
  cbn [length app]. rewrite Nat.sub_0_r. unfold log_rows. rewrite omap_rev.
  fold (log_rows (log_iter (events j))). by rewrite log_rows_rows.
Qed.

Lemma aggregate_rows now j f q :
  consistent j ->
  aggregate now f q j =
    let matching := bfilter (filter_matches show_uuid now f) (rows j) in
    Some (match q with
          | AggCount => Some (ResCount (Z.of_nat (length matching)))
          | AggMostRecent => Some (ResMostRecent (latest_created matching None))
          | AggWindowSum _ _ => None
          end).
Proof.
  intros Hc. unfold aggregate. rewrite (aggregate_loop_log now f j) by done.
  cbn [mbind option_bind]. by rewrite log_rows_rows.
Qed.

Lemma get_by_key_rows now j key :
  consistent j ->
  get_by_idempotency_key now key j =
    Some (match last (bfilter (fun r => bool_decide (jr_idempotency_key r = Some key)) (rows j)) with
          | Some r => if is_expired now r then None else Some r
          | None => None
          end).
Proof.
  intros Hc. unfold get_by_idempotency_key.
  rewrite (indexed_get _ _ _ key (key_indexed j Hc) (entries_sorted j)).
  rewrite best_loop_entries; [|by intros e [? _]%elem_of_bfilter
                              |apply (sorted_bfilter Z.lt), entries_sorted|done].
  rewrite <- (matching_entries j (fun e => bool_decide (se_idempotency_key e.2 = Some key))).
  2:{ intros e r Hr. apply row_of_fields in Hr as (_ & _ & ->). done. }
  set (l := bfilter _ (entries j)).
  assert (forall e, e ∈ l -> is_Some (row_of e)) as Hs.
  { intros e [He _]%elem_of_bfilter. by apply (row_of_some j). }
  cbn [mbind option_bind]. destruct (last l) as [[id s]|] eqn:Hl.
  - apply last_Some in Hl as (l' & Hl). rewrite Hl in *. rewrite omap_app.
    destruct (Hs (id, s)) as [r Hr]; [apply elem_of_app; right; by left|].
    cbn [omap list_omap]. rewrite Hr, last_snoc. unfold row_of in Hr. cbn in Hr. by rewrite Hr.
  - apply last_None in Hl. by rewrite Hl.
Qed.

(** * The journal's contract *)

(** C15: in every journal that appends, deletions of expired entries and
    reconciliations can produce, every stored value decodes to a row, every
    id is in range, and each of the four indexes holds exactly the ids of the
    entries with its key: no entry is lost from an index and none dangles. *)
Theorem journal_consistent j :
  (forall m, hash_order m ≡ₚ map_to_list m) ->
  json_of_string (json_to_string zombie_payload) = Some zombie_payload ->
  rtc journal_step journal_new j -> consistent j.
Proof.
  intros Ho Hz. apply (rtc_ind_r consistent); [exact new_consistent|].
  intros j1 j2 _ Hstep Hc. destruct Hstep as [j0 now e He Hr|j0 now n j' Hd|j0 now n j' Hd Hr].
  - by apply append_consistent.
  - destruct (delete_expired_entries now j0 Hc) as (j2 & Hj2 & Hc2 & _). congruence.
  - destruct (reconcile_rows now j0 Ho Hz Hc) as (j2 & l & news & Hj2 & Hc2 & _); [|congruence].
    intros n' j2. rewrite Hd. by intros [= <- <-].
Qed.

(** C16: on a consistent journal each query is the evident operation on the
    list of rows: by run in ascending order; by session newest first, the
    expired passed over before the limit applies; by filter newest first, up
    to the limit; [recent] applies its limit before it drops expired rows; an
    aggregate counts the matching rows and finds their latest creation; the
    look-up by key takes the newest row with the key and then its expiry. *)
Theorem queries_refine now j :
  consistent j ->
  let live r := negb (is_expired now r) in
  (forall run, query_by_run now run j =
     Some (bfilter live (bfilter (fun r => bool_decide (jr_run_id r = Some run)) (rows j)))) /\
  (forall sess limit, query_by_session now sess limit j =
     Some (take limit (bfilter live (bfilter (fun r => String.eqb (jr_session_id r) sess) (rev (rows j)))))) /\
  (forall limit, recent now limit j = Some (bfilter live (take limit (rev (rows j))))) /\
  (forall f limit, query now f limit j =
     Some (take limit (bfilter (filter_matches show_uuid now f) (rev (rows j))))) /\
  (forall f q, aggregate now f q j =
     let matching := bfilter (filter_matches show_uuid now f) (rows j) in
     Some (match q with
           | AggCount => Some (ResCount (Z.of_nat (length matching)))
           | AggMostRecent => Some (ResMostRecent (latest_created matching None))
           | AggWindowSum _ _ => None
           end)) /\
  (forall key, get_by_idempotency_key now key j =
     Some (match last (bfilter (fun r => bool_decide (jr_idempotency_key r = Some key)) (rows j)) with
           | Some r => if is_expired now r then None else Some r
           | None => None
           end)).
Proof.
  intros Hc live. split_and!.
  - intros run. by apply query_by_run_rows.
  - intros sess limit. by apply query_by_session_rows.
  - intros limit. by apply recent_rows.
  - intros f limit. by apply query_rows.
  - intros f q. by apply aggregate_rows.
  - intros key. by apply get_by_key_rows.
Qed.

(** The updates refine the list too: [append] gives the next id and adds
    the entry's row at the end, with its stamps cut to microseconds;
    [delete_expired] removes exactly the rows whose [valid_to] is not after
    now and returns their number. *)
Theorem updates_refine now j :
  consistent j ->
  (forall e, storable e -> has_room 1 j ->
     fst (append now e j) = top_id j + 1 /\ consistent (snd (append now e j)) /\
     Forall (fun r => jr_id r < top_id j + 1) (rows j) /\
     rows (snd (append now e j)) = rows j ++ [appended now (top_id j + 1) e]) /\
  (exists n j', delete_expired now j = Some (n, j') /\ consistent j' /\
     rows j' = bfilter (fun r => negb (row_due now r)) (rows j) /\
     n = Z.of_nat (length (bfilter (row_due now) (rows j)))).
Proof.
  intros Hc. split.
  - intros e He Hr. split_and!; [by apply next_id_top|by apply append_consistent| |by apply rows_append].
    apply Forall_forall. intros r (x & Hx & Hrow)%list_elem_of_omap.
    rewrite (row_of_id _ _ Hrow). apply entries_le_top in Hx. lia.
  - destruct (delete_expired_entries now j Hc) as (j' & Hj' & Hc' & He).
    eexists _, j'. split_and!; [exact Hj'|done| |].
    + unfold rows. rewrite He. apply omap_bfilter. intros e r _ Hr. f_equal. by apply entry_due_row.
    + rewrite <- (omap_total row_of).
      * unfold rows. f_equal. f_equal. apply omap_bfilter. intros e r _. apply entry_due_row.
      * intros e [He' _]%elem_of_bfilter. by apply (row_of_some j).
Qed.

(** After a restart, [reconcile_zombies] appends exactly one
    [workflow_failed] row for each run that has a start event and no terminal
    event, touches nothing else, leaves no interrupted run behind, and a
    second reconciliation appends nothing. *)
Theorem reconcile_zombies_spec now j :
  (forall m, hash_order m ≡ₚ map_to_list m) ->
  json_of_string (json_to_string zombie_payload) = Some zombie_payload ->
  consistent j ->
  (forall n j', reconcile_zombies now j = Some (n, j') -> has_room n j) ->
  exists j' l news, reconcile_zombies now j = Some (Z.of_nat (length l), j') /\ consistent j' /\
    NoDup l /\ (forall r, r ∈ l <-> interrupted r (rows j) = true) /\
    rows j' = rows j ++ news /\
    Forall2 (fun r row => exists id sess ns, row = appended now id (zombie_entry r sess ns)) l news /\
    (forall r, interrupted r (rows j') = false) /\
    (forall later, reconcile_zombies later j' = Some (0, j')).
Proof.
  intros Ho Hz Hc Hroom.
  destruct (reconcile_rows now j Ho Hz Hc Hroom) as (j' & l & news & Hj & Hc' & Hnd & Hl & Hn & Hf).
  assert (forall r, interrupted r (rows j') = false) as Hno.
  { intros r. rewrite Hn. apply reconciled_not_interrupted with l; [done|].
    eapply Forall2_impl; [exact Hf|]. cbn. intros x row (id & sess & ns & ->). by eexists _, _, _, _. }
  exists j', l, news. split_and!; [done..|].
  intros later. destruct (zombies_spec j' Ho Hc') as (l' & Hl' & _ & Hr').
  unfold reconcile_zombies. rewrite Hl'. destruct l' as [|[x v] l']; [done|].
  assert (interrupted x (rows j') = true) as Hx by (apply Hr'; by left). by rewrite Hno in Hx.
Qed.
End Redb.

(** * A journal over finite maps

    A concrete codec, and a journal with an interrupted run, a finished run
    and an entry that expires. *)

Module Demo.

Definition to_text (p : json) : string :=
  match p with JObject [] => "{}" | JNull => "null" | _ => "zombie" end.
Definition of_text (s : string) : option json :=
  if String.eqb s "{}" then Some (JObject [])
  else if String.eqb s "null" then Some JNull
  else if String.eqb s "zombie" then Some zombie_payload else None.

Definition demo_journal : Type :=
  journal (E := gmap Z stored_entry) (R := gmap uuid (gset Z)) (S := gmap string (gset Z))
    (X := gmap Z (gset Z)).

Definition ev (run : uuid) (ty : string) (until : option Z) (key : option string) : journal_entry := {|
  je_run_id := Some run; je_session_id := "s"; je_namespace := "konf:n"; je_event_type := ty;
  je_payload := JObject []; je_valid_to := until; je_idempotency_key := key |}.

Definition add (e : journal_entry) (j : demo_journal) : demo_journal :=
  snd (append id to_text 5000 e j).

Definition script : list journal_entry :=
  [ev 1 "workflow_started" None None; ev 2 "workflow_started" None None;
   ev 2 "workflow_completed" None (Some "k"); ev 3 "note" (Some 7000) (Some "k")].

Definition start : demo_journal := journal_new.
Definition sample : demo_journal := fold_left (fun j e => add e j) script start.

Lemma journal_codec_id (s : stored_entry) : Some (id s) = Some s.
Proof. done. Qed.

Lemma order_id (m : gmap uuid (string * string)) : map_to_list m ≡ₚ map_to_list m.
Proof. done. Qed.

Lemma sample_consistent : consistent Some of_text sample.
Proof.
  refine (proj1 (append_all id Some to_text of_text journal_codec_id 5000 script start _ _ _)).
  - exact (new_consistent Some of_text).
  - vm_compute. by intros ?.
  - by repeat constructor.
Qed.

(** The four steps of the script, and a reconciliation. *)
Lemma journal_consistent_witness :
  rtc (journal_step id Some to_text of_text map_to_list) start (add (ev 1 "workflow_started" None None) start) /\
  consistent Some of_text (add (ev 1 "workflow_started" None None) start).
Proof.
  assert (rtc (journal_step id Some to_text of_text map_to_list) start
            (add (ev 1 "workflow_started" None None) start)) as Hr.
  { apply rtc_once, StepAppend; [done|]. vm_compute. by intros ?. }
  split; [exact Hr|].
  exact (journal_consistent id Some to_text of_text map_to_list journal_codec_id _ order_id eq_refl Hr).
Defined.

(** At time 8000 the entry with key ["k"] is expired: it is hidden, and hides
    the older entry with its key; [recent 1] is empty although older rows live. *)
Lemma queries_refine_witness :
  consistent Some of_text sample /\
  query_by_run Some of_text 8000 3 sample = Some [] /\
  get_by_idempotency_key Some of_text 8000 "k" sample = Some None /\
  recent Some of_text 8000 1 sample = Some [] /\
  option_map (map jr_id) (query_by_session Some of_text 8000 "s" 2 sample) = Some [3; 2]%Z.
Proof.
  split; [exact sample_consistent|].
  destruct (queries_refine Some of_text (fun _ => "u") 8000 sample sample_consistent)
    as (H1 & H2 & H3 & _ & _ & H6).
  rewrite (H1 3%N), (H2 "s" 2%nat), (H3 1%nat), (H6 "k").
  split_and!; vm_compute; reflexivity.
Defined.

Lemma updates_refine_witness :
  consistent Some of_text sample /\ top_id sample = 4 /\
  exists n j', delete_expired Some 8000 sample = Some (n, j') /\ n = 1.
Proof.
  split; [exact sample_consistent|]. split; [vm_compute; reflexivity|].
  destruct (updates_refine id Some to_text of_text journal_codec_id 8000 sample sample_consistent)
    as [_ (n & j' & Hd & _ & _ & Hn)].
  exists n, j'. split; [exact Hd|]. rewrite Hn. vm_compute. reflexivity.
Defined.

(** Run 1 is interrupted; run 2 has ended. *)
Lemma reconcile_zombies_spec_witness :
  exists j' l, reconcile_zombies id Some to_text map_to_list 9000 sample = Some (1, j') /\
    l = [1%N] /\ (forall r, interrupted r (rows Some of_text j') = false).
Proof.
  assert (forall n j', reconcile_zombies id Some to_text map_to_list 9000 sample = Some (n, j') ->
            has_room n sample) as Hroom.
  { intros n j'. unfold reconcile_zombies.
    assert (option_map length (zombies Some map_to_list sample) = Some 1%nat) as Hz
      by (vm_compute; reflexivity).
    destruct (zombies _ _ _) as [zs|]; [|discriminate Hz]. injection Hz as Hz.
    cbn [mbind option_bind]. rewrite Hz. intros [= <- _]. vm_compute. discriminate. }
  destruct (reconcile_zombies_spec id Some to_text of_text map_to_list journal_codec_id 9000 sample
              order_id eq_refl sample_consistent Hroom)
    as (j' & l & news & Hj & _ & Hnd & Hl & _ & _ & Hno & _).
  assert (l ≡ₚ [1%N]) as Hp.
  { apply NoDup_Permutation; [exact Hnd|apply NoDup_singleton|]. intros r.
    rewrite Hl, list_elem_of_singleton. split; [|intros ->; vm_compute; reflexivity].
    destruct (decide (r = 1%N)) as [->|H1]; [done|]. destruct (decide (r = 2%N)) as [->|H2].
    { vm_compute. discriminate. }
    intros Hi. exfalso. revert Hi. unfold interrupted. replace (existsb _ _) with false; [done|].
    symmetry. apply not_true_iff_false. rewrite existsb_exists. intros (x & Hx & Hs).
    revert Hx Hs. vm_compute rows. intros [<-|[<-|[<-|[<-|[]]]]];
      unfold row_starts, starts; cbn; rewrite ?andb_false_r, ?andb_true_r, ?bool_decide_eq_true; congruence. }
  apply Permutation_singleton_r in Hp as ->.
  exists j', [1%N]. split; [exact Hj|]. split; [reflexivity|exact Hno].
Defined.

(** The highest id is given out again once its entry has expired: the ids of a
    journal are not unique over its life. *)
Example expired_ids_are_reused :
  exists j', delete_expired Some 8000 sample = Some (1, j') /\
    fst (append id to_text 9000 (ev 4 "note" None None) j') = 4 /\ top_id sample = 4.
Proof. eexists. split; [vm_compute; reflexivity|]. split; vm_compute; reflexivity. Qed.
End Demo.
