(* ===== verification/Storage.v ===== *)
(** The storage handle ([konf-runtime/src/storage.rs]) and the sweeper of expired
    journal entries ([konf-runtime/src/journal/sweep.rs]).

    One database file holds the tables of the journal and of the runner
    intents; opening it is redb's. *)

From S2P Require Import Prelude Json Error Envelope Table Journal.

Local Open Scope string_scope.
Local Open Scope list_scope.
Local Open Scope Z_scope.

(** * The handle *)

(** [Retention], in days. *)
Record retention : Type := Retention { days : Z }.
Definition retention_default : retention := Retention 7.

(** [StorageError]. *)
Inductive storage_error : Type :=
  | OpenFailed (path source : string)
  | JournalInit (e : journal_error)
  | IntentInit (message : string)
  | TaskJoin (message : string).

Definition storage_error_to_string (e : storage_error) : string :=
  match e with
  | OpenFailed path source => String.concat EmptyString ["failed to open redb database at "; path; ": "; source]
  | JournalInit (JStorage c) => String.append "journal init: storage: " c
  | JournalInit (JSerialization c) => String.append "journal init: serialization: " c
  | JournalInit JNotFound => "journal init: not found"
  | IntentInit m => String.append "runner intent init: " m
  | TaskJoin m => String.append "blocking task join: " m
  end.

Section Handle.
Context {D J I : Type}.
(** The blocking task that creates or opens the file, and the two stores'
    constructors over it. *)
Context (create : string -> result string (result string D)).
Context (journal_of : D -> result journal_error J) (intents_of : D -> result string I).

(** [KonfStorage]. *)
Record konf_storage : Type := KonfStorage {
  ks_db : D; ks_journal : J; ks_runner_intents : I; ks_retention : retention }.

(** [KonfStorage::open]. *)
Definition storage_open (path : string) (r : retention) : result storage_error konf_storage :=
  opened ← map_err TaskJoin (create path);
  db ← map_err (OpenFailed path) opened;
  journal ← map_err JournalInit (journal_of db);
  intents ← map_err IntentInit (intents_of db);
  Ok (KonfStorage db journal intents r).
End Handle.

(** * The sweeper *)

Section Sweep.
Context {E R S X B : Type}.
Context `{LogTable E Z B} `{IndexTable R uuid} `{IndexTable S string} `{IndexTable X Z}.
Context (decode : B -> option stored_entry).

(** One turn of the loop of [TtlSweeper::spawn]: an error is logged and passed
    over. *)
Definition sweep_tick (j : journal (E := E) (R := R) (S := S) (X := X)) (now : datetime)
  : journal (E := E) (R := R) (S := S) (X := X) :=
  match delete_expired decode now j with Some (_, j') => j' | None => j end.

(** The sweeper over the times of its ticks. *)
Definition sweep (j : journal (E := E) (R := R) (S := S) (X := X)) (ticks : list datetime)
  : journal (E := E) (R := R) (S := S) (X := X) := fold_left sweep_tick ticks j.

(** * Theory *)

Context (json_of_string : string -> option json) (show_uuid : uuid -> string).
Context `{!LogTableLaws E Z B Z.lt}.
Context `{!IndexTableLaws R uuid} `{!IndexTableLaws S string} `{!IndexTableLaws X Z}.

Abbreviation rows := (rows decode json_of_string).
Abbreviation consistent := (consistent decode json_of_string).
Abbreviation live now := (fun r => negb (is_expired now r)).

Lemma sweep_tick_rows now j :
  consistent j ->
  consistent (sweep_tick j now) /\ rows (sweep_tick j now) = bfilter (fun r => negb (row_due now r)) (rows j).
Proof.
  intros Hc. unfold sweep_tick. destruct (delete_expired_entries decode json_of_string now j Hc) as (j' & -> & Hc' & He).
  split; [done|]. unfold Journal.rows. rewrite He. apply omap_bfilter. intros e r _ Hr. f_equal.
  by apply (entry_due_row json_of_string).
Qed.

(** A row that has been due for a while is expired. *)
Lemma due_expired t now r : t < now -> row_due t r = true -> is_expired now r = true.
Proof.
  unfold row_due, is_expired. destruct (jr_valid_to r) as [v|]; [|done].
  intros Ht Hv%Z.leb_le. apply Z.ltb_lt. lia.
Qed.

(** A row that outlives every tick: it never expires, or expires after. *)
Definition outlives (ticks : list datetime) (r : journal_row) : bool :=
  match jr_valid_to r with Some v => forallb (fun t => t <? v) ticks | None => true end.

Lemma outlives_cons t ticks r : outlives (t :: ticks) r = outlives ticks r && negb (row_due t r).
Proof.
  unfold outlives, row_due. destruct (jr_valid_to r) as [v|]; [|done]. cbn [forallb].
  rewrite andb_comm. f_equal. apply Z.ltb_antisym.
Qed.

Lemma sweep_rows ticks j :
  consistent j -> consistent (sweep j ticks) /\ rows (sweep j ticks) = bfilter (outlives ticks) (rows j).
Proof.
  revert j. induction ticks as [|t ticks IH]; intros j Hc.
  { split; [done|]. symmetry. apply bfilter_true. intros r _. unfold outlives. by destruct (jr_valid_to r). }
  destruct (sweep_tick_rows t j Hc) as [Hc1 Hr1]. destruct (IH (sweep_tick j t) Hc1) as [Hc2 Hr2].
  change (sweep j (t :: ticks)) with (sweep (sweep_tick j t) ticks). split; [done|].
  rewrite Hr2, Hr1, bfilter_bfilter. apply bfilter_ext. intros r _. by rewrite outlives_cons.
Qed.

(** A row that is live now outlived the ticks of the past. *)
Lemma live_outlives now ticks r :
  Forall (fun t => t < now) ticks -> is_expired now r = false -> outlives ticks r = true.
Proof.
  intros Ht Hr. induction Ht as [|t ticks Ht _ IH].
  - unfold outlives. by destruct (jr_valid_to r).
  - rewrite outlives_cons, IH. destruct (row_due t r) eqn:Hd; [|done].
    apply (due_expired t now) in Hd; [congruence|done].
Qed.

(** A bounded look at the newest rows sees no less once the dead ones are gone. *)
Lemma newest_live_grow now (g : journal_row -> bool) limit l :
  (forall r, is_expired now r = false -> g r = true) ->
  bfilter (live now) (take limit l) `prefix_of` bfilter (live now) (take limit (bfilter g l)).
Proof.
  intros Hg. revert limit. induction l as [|r l IH]; intros limit; [done|].
  destruct limit as [|limit]; [apply prefix_nil|]. cbn [take List.filter].
  destruct (g r) eqn:Hr; cbn [take List.filter].
  - destruct (is_expired now r); cbn [negb]; [apply IH|]. apply prefix_cons, IH.
  - destruct (is_expired now r) eqn:He; [|rewrite (Hg r He) in Hr; congruence]. cbn [negb].
    etransitivity; [apply IH|]. set (rest := bfilter g l).
    exists (bfilter (live now) (drop limit (take (Datatypes.S limit) rest))).
    rewrite <- List.filter_app. f_equal. rewrite <- (take_drop limit (take (Datatypes.S limit) rest)) at 1.
    by rewrite take_take, Nat.min_l by lia.
Qed.

(** A question that asks for live rows only has the same rows to look at. *)
Lemma bfilter_live now (f g : journal_row -> bool) l :
  (forall r, is_expired now r = false -> g r = true) -> (forall r, f r = true -> is_expired now r = false) ->
  bfilter f (bfilter g l) = bfilter f l.
Proof.
  intros Hg Hf. rewrite bfilter_bfilter. apply bfilter_ext. intros r _.
  destruct (f r) eqn:Hr; [|done]. by rewrite (Hg r (Hf r Hr)).
Qed.

(** The row a key finds: the newest one with the key, if it is live. *)
Lemma key_after_sweep now (g : journal_row -> bool) key l :
  (forall r, is_expired now r = false -> g r = true) ->
  let found rows := match last (bfilter (fun r => bool_decide (jr_idempotency_key r = Some key)) rows) with
                    | Some r => if is_expired now r then None else Some r
                    | None => None
                    end in
  found (bfilter g l) = found l \/
  found l = None /\ exists r, found (bfilter g l) = Some r /\ r ∈ l /\ jr_idempotency_key r = Some key /\
                              is_expired now r = false.
Proof.
  intros Hg found. unfold found. rewrite bfilter_bfilter.
  assert (bfilter (fun r => bool_decide (jr_idempotency_key r = Some key) && g r) l
    = bfilter g (bfilter (fun r => bool_decide (jr_idempotency_key r = Some key)) l)) as Hcomm.
  { rewrite bfilter_bfilter. apply bfilter_ext. intros r _. apply andb_comm. }
  rewrite Hcomm. set (keyed := bfilter _ l). destruct (last keyed) as [x|] eqn:Hl.
  2:{ apply last_None in Hl. rewrite Hl. by left. }
  destruct (is_expired now x) eqn:Hx.
  - destruct (last (bfilter g keyed)) as [y|] eqn:Hy; [|by left].
    destruct (is_expired now y) eqn:Hey; [by left|]. right. split; [done|]. exists y.
    apply last_Some_elem_of, elem_of_bfilter in Hy as [[Hin Hk%bool_decide_eq_true]%elem_of_bfilter _].
    by split_and!.
  - left. apply last_Some in Hl as [l' ->]. rewrite List.filter_app. cbn. by rewrite (Hg x Hx), last_snoc, Hx.
Qed.

(** C32: what sweeping does.  The sweeper removes exactly the rows whose time
    had come at one of its ticks, and the journal stays consistent.  A question
    asked later than its ticks, by run, by session, or by a filter that asks for
    live rows, is answered as if it had never run.  The two others can only gain:
    [recent], which counts rows before it drops the expired ones, answers what it
    did before and possibly older live rows after it; and the look-up of an
    idempotency key finds what it found before, or, where it found nothing,
    possibly an older live row of that key. *)
Theorem sweeping_spec now ticks j :
  consistent j -> Forall (fun t => t < now) ticks ->
  consistent (sweep j ticks) /\
  rows (sweep j ticks) =
    bfilter (fun r => match jr_valid_to r with Some v => forallb (fun t => t <? v) ticks | None => true end) (rows j) /\
  (forall run, query_by_run decode json_of_string now run (sweep j ticks) =
               query_by_run decode json_of_string now run j) /\
  (forall sess limit, query_by_session decode json_of_string now sess limit (sweep j ticks) =
                      query_by_session decode json_of_string now sess limit j) /\
  (forall f limit, jf_include_expired f = false ->
     query decode json_of_string show_uuid now f limit (sweep j ticks) =
     query decode json_of_string show_uuid now f limit j) /\
  (forall f q, jf_include_expired f = false ->
     aggregate decode json_of_string show_uuid now f q (sweep j ticks) =
     aggregate decode json_of_string show_uuid now f q j) /\
  (forall limit, exists before older,
     recent decode json_of_string now limit j = Some before /\
     recent decode json_of_string now limit (sweep j ticks) = Some (before ++ older)) /\
  (forall key, exists before after,
     get_by_idempotency_key decode json_of_string now key j = Some before /\
     get_by_idempotency_key decode json_of_string now key (sweep j ticks) = Some after /\
     (after = before \/
      before = None /\ exists r, after = Some r /\ r ∈ rows j /\ jr_idempotency_key r = Some key /\
                                is_expired now r = false)).
Proof.
  intros Hc Ht. destruct (sweep_rows ticks j Hc) as [Hc' Hr].
  pose proof (fun r => live_outlives now ticks r Ht) as Hg. set (g := outlives ticks) in *.
  assert (forall (f : journal_row -> bool) l, bfilter (live now) (bfilter f (bfilter g l)) = bfilter (live now) (bfilter f l)) as Hlive.
  { intros f l. rewrite !(bfilter_bfilter (live now) f). apply bfilter_live with now; [done|].
    intros r [Hl _]%andb_true_iff. by apply negb_true_iff. }
  assert (forall f l, jf_include_expired f = false ->
    bfilter (filter_matches show_uuid now f) (bfilter g l) = bfilter (filter_matches show_uuid now f) l) as Hmatch.
  { intros f l Hf. apply bfilter_live with now; [done|]. intros r Hm. unfold filter_matches in Hm.
    rewrite Hf in Hm. apply andb_true_iff in Hm as [_ Hm]. by apply negb_true_iff. }
  split; [done|]. split; [exact Hr|]. split_and!.
  - intros run. rewrite !(query_by_run_rows _ json_of_string) by done. by rewrite Hr, Hlive.
  - intros sess limit. rewrite !(query_by_session_rows _ json_of_string) by done.
    by rewrite Hr, <- filter_rev, Hlive.
  - intros f limit Hf. rewrite !(query_rows _ json_of_string) by done. by rewrite Hr, <- filter_rev, Hmatch.
  - intros f q Hf. rewrite !(aggregate_rows _ json_of_string) by done. by rewrite Hr, Hmatch.
  - intros limit. rewrite !(recent_rows _ json_of_string) by done. rewrite Hr, <- filter_rev.
    destruct (newest_live_grow now g limit (rev (rows j)) Hg) as [older Hold].
    eexists _, older. split; [reflexivity|]. by rewrite Hold.
  - intros key. rewrite !(get_by_key_rows _ json_of_string) by done. rewrite Hr.
    eexists _, _. split; [reflexivity|]. split; [reflexivity|]. by apply key_after_sweep.
Qed.
End Sweep.

(** * A sweep, concretely *)

Module Demo.

(** The entry with key ["k"] that expires at 7000 is swept at 7500: the look-up
    of the key, which found nothing, finds the older entry. *)
Definition swept : Journal.Demo.demo_journal := sweep Some Journal.Demo.sample [6000; 7500].

Lemma sweeping_spec_witness :
  query_by_session Some Journal.Demo.of_text 8000 "s" 10 swept =
    query_by_session Some Journal.Demo.of_text 8000 "s" 10 Journal.Demo.sample /\
  map jr_id (Journal.rows Some Journal.Demo.of_text Journal.Demo.sample) = [1; 2; 3; 4] /\
  map jr_id (Journal.rows Some Journal.Demo.of_text swept) = [1; 2; 3].
Proof.
  destruct (sweeping_spec Some Journal.Demo.of_text (fun _ => "u") 8000 [6000; 7500] Journal.Demo.sample
    Journal.Demo.sample_consistent) as (_ & Hrows & _ & Hsess & _); [by repeat constructor|].
  split; [apply Hsess|]. split; [vm_compute; reflexivity|]. unfold swept. rewrite Hrows. vm_compute. reflexivity.
Defined.

Lemma sweeping_revives_a_key :
  get_by_idempotency_key Some Journal.Demo.of_text 8000 "k" Journal.Demo.sample = Some None /\
  option_map (option_map jr_id) (get_by_idempotency_key Some Journal.Demo.of_text 8000 "k" swept) = Some (Some 3).
Proof. split; vm_compute; reflexivity. Qed.
End Demo.
