(* ===== verification/Stream.v ===== *)
(** The streaming protocol ([konflux-substrate/src/stream.rs]): a channel is
    the list of events its receiver will see before it closes. *)

From S2P Require Import Prelude Json.

Local Open Scope string_scope.
Local Open Scope list_scope.

(** [ProgressType]. *)
Inductive progress_type : Type := TextDelta | ToolStart | ToolEnd | Status.

#[export] Instance progress_type_eq_dec : EqDecision progress_type.
Proof. solve_decision. Defined.

(** [StreamEvent]. *)
Inductive stream_event : Type :=
  | Start (workflow_id : string)
  | Progress (node_id : string) (event_type : progress_type) (data : json)
  | Done (output : json)
  | Error (code message : string) (retryable : bool).

(** [collect_stream]. *)
Fixpoint collect_loop (last_output : option json) (l : list stream_event) : result string json :=
  match l with
  | [] => ok_or last_output "stream closed without Done event"
  | Done output :: l' => collect_loop (Some output) l'
  | Error _ message _ :: _ => Err message
  | _ :: l' => collect_loop last_output l'
  end.

Definition collect_stream (l : list stream_event) : result string json := collect_loop None l.

(** [collect_text_stream]. *)
Fixpoint collect_text_loop (text : string) (l : list stream_event) : result string string :=
  match l with
  | [] => Ok text
  | Progress _ TextDelta data :: l' =>
      collect_text_loop (match as_str data with Some s => String.append text s | None => text end) l'
  | Error _ message _ :: _ => Err message
  | Done _ :: _ => Ok text
  | _ :: l' => collect_text_loop text l'
  end.

Definition collect_text_stream (l : list stream_event) : result string string :=
  collect_text_loop EmptyString l.

(** * Facts *)

Definition is_error (e : stream_event) : bool := match e with Error _ _ _ => true | _ => false end.
Definition is_done (e : stream_event) : bool := match e with Done _ => true | _ => false end.
Definition is_terminal_event (e : stream_event) : bool := is_error e || is_done e.

Definition delta (e : stream_event) : string :=
  match e with Progress _ TextDelta data => default EmptyString (as_str data) | _ => EmptyString end.

(** An error anywhere before the end wins, even after a [Done]. *)
Lemma collect_loop_error o l1 code message b l2 :
  existsb is_error l1 = false -> collect_loop o (l1 ++ Error code message b :: l2) = Err message.
Proof.
  revert o. induction l1 as [|e l1 IH]; intros o He; [done|].
  destruct e; cbn in *; try done; by apply IH.
Qed.

(** Without an error the last [Done] is the result. *)
Lemma collect_loop_done o l1 output l2 :
  existsb is_error (l1 ++ Done output :: l2) = false -> existsb is_done l2 = false ->
  collect_loop o (l1 ++ Done output :: l2) = Ok output.
Proof.
  revert o. induction l1 as [|e l1 IH]; intros o He Hd.
  - cbn in *. revert He Hd. generalize output. induction l2 as [|e l2 IH]; intros out He Hd; [done|].
    destruct e; cbn in *; try done; by apply IH.
  - destruct e; cbn in *; try done; by apply IH.
Qed.

Lemma collect_stream_spec l :
  match collect_stream l with
  | Ok output => existsb is_error l = false /\ Done output ∈ l
  | Err _ => existsb is_error l = true \/ existsb is_done l = false
  end.
Proof.
  unfold collect_stream.
  assert (forall o, match collect_loop o l with
    | Ok output => existsb is_error l = false /\ (Done output ∈ l \/ o = Some output)
    | Err _ => existsb is_error l = true \/ (existsb is_done l = false /\ o = None)
    end) as H.
  { induction l as [|e l IH]; intros o; cbn.
    - destruct o; cbn; [by split; [|right]|by right].
    - destruct e as [w|n t d|out|c m b]; cbn.
      + specialize (IH o). destruct (collect_loop o l); [|done].
        destruct IH as [? [?|?]]; split; try done; [left; by right|by right].
      + specialize (IH o). destruct (collect_loop o l); [|done].
        destruct IH as [? [?|?]]; split; try done; [left; by right|by right].
      + specialize (IH (Some out)). destruct (collect_loop (Some out) l).
        * destruct IH as [? [?|[= ->]]]; split; try done; left; [by right|by left].
        * destruct IH as [?|[_ ?]]; [by left|done].
      + by left. }
  specialize (H None). destruct (collect_loop None l).
  - by destruct H as [? [?|?]].
  - by destruct H as [?|[? _]]; [left|right].
Qed.

(** The text is the concatenation of the deltas before the first terminal
    event. *)
Lemma collect_text_deltas l e rest text :
  existsb is_terminal_event l = false -> is_done e = true ->
  collect_text_loop text (l ++ e :: rest) = Ok (String.append text (String.concat EmptyString (map delta l))).
Proof.
  revert text. induction l as [|a l IH]; intros text Hl He.
  - destruct e; try done. cbn. by rewrite app_EmptyString_r.
  - assert (forall s t : string, String.concat EmptyString (s :: map delta l)
              = String.append s (String.concat EmptyString (map delta l))) as Hcat.
    { intros s _. destruct (map delta l) as [|x xs]; cbn; [by rewrite app_EmptyString_r|done]. }
    destruct a as [w|n t d|out|c m b]; cbn in Hl; try done.
    + cbn [app collect_text_loop map delta]. rewrite (Hcat EmptyString EmptyString). by apply IH.
    + cbn [app collect_text_loop map delta]. rewrite (Hcat _ EmptyString).
      destruct t; try by apply IH.
      rewrite IH by done. destruct (as_str d) as [s|]; cbn [default from_option]; [by rewrite append_assoc|done].
Qed.
