(* ===== verification/Engine.v ===== *)
(** The engine ([konflux-substrate/src/engine.rs]) with its registries of tools,
    resources ([resource.rs]) and prompts ([prompt.rs]): running a workflow to
    completion, running it with a stream, and parsing under a size limit.

    An execution is seen through what it sends: progress events that may be
    dropped, and a [Done] that is delivered when it succeeds.  Which result it
    has is the subject of [Dag]; here it is an argument. *)

From S2P Require Import Prelude Json Error Envelope Tool Workflow Config Schema Stream Compiler.

Local Open Scope string_scope.
Local Open Scope list_scope.

(** * Resources and prompts *)

(** [ResourceInfo], [ResourceError], [dyn Resource].  The resources of the
    program are files: what [read] answers depends on what reading a path gives
    at that moment. *)
Record resource_info : Type := ResourceInfo {
  res_uri : string; res_name : string; res_description : string; res_mime_type : string }.
Inductive resource_error : Type := ResourceNotFound (uri : string) | ReadFailed (message : string).
Record resource : Type := Resource { res_info : resource_info; res_read : (string -> result string string) -> result resource_error json }.

Definition resource_error_to_string (e : resource_error) : string :=
  match e with
  | ResourceNotFound u => String.append "resource not found: " u
  | ReadFailed m => String.append "failed to read resource: " m
  end.

(** [PromptArgument], [PromptInfo], [Message], [PromptError], [dyn Prompt]. *)
Record prompt_argument : Type := PromptArgument {
  pa_name : string; pa_description : string; pa_required : bool }.
Record prompt_info : Type := PromptInfo {
  pr_name : string; pr_description : string; pr_arguments : list prompt_argument }.
Record message : Type := Message { msg_role : string; msg_content : json }.
Inductive prompt_error : Type :=
  | PromptNotFound (name : string) | MissingArgument (name : string) | ExpansionFailed (message : string).
Record prompt : Type := Prompt { pr_info : prompt_info; pr_expand : json -> result prompt_error (list message) }.

Definition prompt_error_to_string (e : prompt_error) : string :=
  match e with
  | PromptNotFound n => String.append "prompt not found: " n
  | MissingArgument n => String.append "missing required argument: " n
  | ExpansionFailed m => String.append "failed to expand prompt: " m
  end.

(** [ResourceRegistry]: [register], [remove], [get], [list], [len],
    [is_empty]. *)
Definition resource_register (reg : gmap string resource) (r : resource) : gmap string resource :=
  <[res_uri (res_info r) := r]> reg.
Definition resource_remove (reg : gmap string resource) (uri : string) : bool * gmap string resource :=
  (bool_decide (is_Some (reg !! uri)), delete uri reg).
Definition resource_get (reg : gmap string resource) (uri : string) : option resource := reg !! uri.
Definition resource_list (order : gmap string resource -> list (string * resource))
    (reg : gmap string resource) : list resource_info := map (fun kr => res_info kr.2) (order reg).
Definition resource_len (reg : gmap string resource) : nat := size reg.
Definition resource_is_empty (reg : gmap string resource) : bool := Nat.eqb (size reg) 0.

(** [PromptRegistry], likewise. *)
Definition prompt_register (reg : gmap string prompt) (p : prompt) : gmap string prompt :=
  <[pr_name (pr_info p) := p]> reg.
Definition prompt_remove (reg : gmap string prompt) (name : string) : bool * gmap string prompt :=
  (bool_decide (is_Some (reg !! name)), delete name reg).
Definition prompt_get (reg : gmap string prompt) (name : string) : option prompt := reg !! name.
Definition prompt_list (order : gmap string prompt -> list (string * prompt))
    (reg : gmap string prompt) : list prompt_info := map (fun kp => pr_info kp.2) (order reg).
Definition prompt_len (reg : gmap string prompt) : nat := size reg.
Definition prompt_is_empty (reg : gmap string prompt) : bool := Nat.eqb (size reg) 0.

(** * The engine *)

Section Engine.
Context {W : Type}.

(** [Engine]; its clones share it. *)
Record engine : Type := Engine {
  eng_tools : gmap string (tool W);
  eng_resources : gmap string resource;
  eng_prompts : gmap string prompt;
  eng_config : engine_config;
  eng_changed : Z;
}.

(** [Engine::with_config] and [Engine::new]. *)
Definition with_config (c : engine_config) : engine := Engine ∅ ∅ ∅ c 0.
Definition engine_new : engine := with_config config_default.

(** [notify_tools_changed]. *)
Definition notify_tools_changed (e : engine) : engine :=
  Engine (eng_tools e) (eng_resources e) (eng_prompts e) (eng_config e) (wrap_u64 (eng_changed e + 1)).

(** [register_tool], [remove_tool], [register_resource], [register_prompt]. *)
Definition set_tools (ts : gmap string (tool W)) (e : engine) : engine :=
  Engine ts (eng_resources e) (eng_prompts e) (eng_config e) (eng_changed e).
Definition register_tool (e : engine) (t : tool W) : engine := set_tools (register (eng_tools e) t) e.
Definition remove_tool (e : engine) (name : string) : bool * engine :=
  let '(present, ts) := remove (eng_tools e) name in (present, set_tools ts e).
Definition register_resource (e : engine) (r : resource) : engine :=
  Engine (eng_tools e) (resource_register (eng_resources e) r) (eng_prompts e) (eng_config e) (eng_changed e).
Definition register_prompt (e : engine) (p : prompt) : engine :=
  Engine (eng_tools e) (eng_resources e) (prompt_register (eng_prompts e) p) (eng_config e) (eng_changed e).
End Engine.
Arguments engine W : clear implicits.
Arguments Engine {W}.

(** * Running *)

(** What [Executor::execute] sends: progress, and [Done] when it succeeds. *)
Definition execution_events (progress : list stream_event) (res : result konflux_error json) : list stream_event :=
  match res with
  | Ok output => progress ++ [Done output]
  | Err _ => progress
  end.

(** The receiving loop of [Engine::run]. *)
Definition receive (acc : json * option string) (ev : stream_event) : json * option string :=
  match ev with
  | Done output => (output, acc.2)
  | Error _ m _ => (acc.1, Some m)
  | _ => acc
  end.

Section Running.
Context (show_u64 : Z -> string).

(** The end of [Engine::run]: the join of the execution's task, its result, an
    error event, the last output. *)
Definition run_outcome (wf_id : string) (events : list stream_event)
    (joined : result string (result konflux_error unit)) : result konflux_error json :=
  let '(final_output, error) := fold_left receive events (JNull, None) in
  exec_res ← map_err (fun m => EExecution (JoinFailed wf_id "engine" m)) joined;
  _ ← exec_res;
  match error with
  | Some msg => Err (EExecution (NodeFailed wf_id "stream" msg))
  | None => Ok final_output
  end.

(** [Engine::run]: [late] when the timer of the whole workflow, if there is
    one, fires first. *)
Definition run (config : engine_config) (wf : workflow) (granted : list string)
    (late : bool) (events : list stream_event) (joined : result string (result konflux_error unit))
  : result konflux_error json :=
  if ((0 <? max_workflow_timeout_ms config)%Z && late)%bool
  then Err (EExecution (Timeout (wf_id wf) "workflow" (max_workflow_timeout_ms config)))
  else
    _ ← map_err ECapabilityDenied (validate_grant (wf_capabilities wf) granted);
    run_outcome (wf_id wf) events joined.

(** [Engine::run_streaming]: the events the receiver gets. *)
Definition streamed_events (progress : list stream_event) (res : result konflux_error json) : list stream_event :=
  execution_events progress res ++
  match res with
  | Ok _ => []
  | Err e => [Error "execution_error" (konflux_error_to_string show_u64 e) false]
  end.

Definition run_streaming (wf : workflow) (granted : list string) (progress : list stream_event)
    (res : result konflux_error json) : result konflux_error (list stream_event) :=
  _ ← map_err ECapabilityDenied (validate_grant (wf_capabilities wf) granted);
  Ok (streamed_events progress res).

(** [parser::parse] and [Engine::parse_yaml]. *)
Context (unicode_alphanumeric : N -> bool) (yaml_schema : string -> result string workflow_schema).

Definition parse_text (config : engine_config) (yaml : string) : result konflux_error workflow :=
  schema ← map_err (fun m => EParse (InvalidYaml m)) (yaml_schema yaml);
  parse unicode_alphanumeric config schema.

Definition parse_yaml (config : engine_config) (yaml : string) : result konflux_error workflow :=
  let len := Z.of_nat (String.length yaml) in
  if (max_yaml_size config <? len)%Z then
    Err (EParse (InvalidYaml (String.concat EmptyString
      ["YAML size ("; show_u64 len; " bytes) exceeds maximum ("; show_u64 (max_yaml_size config); " bytes)"])))
  else parse_text config yaml.
End Running.

(** * Theory *)

Definition quiet (l : list stream_event) : Prop := existsb is_terminal_event l = false.

Lemma quiet_cons ev l : quiet (ev :: l) <-> is_terminal_event ev = false /\ quiet l.
Proof. unfold quiet. cbn. by rewrite orb_false_iff. Qed.

Lemma receive_quiet acc ev : is_terminal_event ev = false -> receive acc ev = acc.
Proof. by destruct ev, acc. Qed.

Lemma receive_all_quiet acc l : quiet l -> fold_left receive l acc = acc.
Proof.
  induction l as [|ev l IH]; [done|]. intros [Hev Hl]%quiet_cons. cbn. rewrite receive_quiet by done. by apply IH.
Qed.

Lemma collect_quiet o l l' : quiet l -> collect_loop o (l ++ l') = collect_loop o l'.
Proof.
  induction l as [|ev l IH]; [done|]. intros [Hev Hl]%quiet_cons. destruct ev; try done; by apply IH.
Qed.

(** What [run] makes of an execution's events is the execution's result. *)
Lemma run_outcome_execution id progress res :
  quiet progress ->
  run_outcome id (execution_events progress res) (Ok (_ ← res; Ok tt)) = res.
Proof.
  intros Hq. unfold run_outcome, execution_events. destruct res as [out|e].
  - rewrite fold_left_app, (receive_all_quiet _ progress) by done. reflexivity.
  - rewrite receive_all_quiet by done. reflexivity.
Qed.

(** Running to completion and streaming agree: a workflow that asks for
    more than it is granted is refused by both before anything runs; otherwise
    [run] returns the execution's result, whatever progress events were sent or
    dropped, and collecting the stream gives the same output or the display of
    the same error.  Only the timer of the whole workflow tells them apart. *)
Theorem run_agrees_with_streaming show_u64 config wf granted late progress res :
  quiet progress ->
  let outcome := run config wf granted late (execution_events progress res) (Ok (_ ← res; Ok tt)) in
  match run_streaming show_u64 wf granted progress res with
  | Err e => is_ok (validate_grant (wf_capabilities wf) granted) = false /\
      ((max_workflow_timeout_ms config <= 0)%Z \/ late = false -> outcome = Err e)
  | Ok evs =>
      collect_stream evs = map_err (konflux_error_to_string show_u64) res /\
      outcome = if ((0 <? max_workflow_timeout_ms config)%Z && late)%bool
                then Err (EExecution (Timeout (wf_id wf) "workflow" (max_workflow_timeout_ms config)))
                else res
  end.
Proof.
  intros Hq outcome. unfold outcome, run_streaming, run.
  destruct (validate_grant (wf_capabilities wf) granted) as [[]|m]; cbn [map_err mbind result_bind is_ok].
  - rewrite run_outcome_execution by done. split; [|done].
    unfold collect_stream, streamed_events, execution_events.
    destruct res as [out|e]; [rewrite app_nil_r|]; (rewrite collect_quiet by done); reflexivity.
  - split; [done|]. intros Hlate. destruct (Z.ltb_spec 0 (max_workflow_timeout_ms config)); [|done].
    destruct Hlate as [Hle| ->]; [lia|done].
Qed.

(** A registered resource is found under its uri and listed; the others stay. *)
Lemma resource_get_register reg r uri :
  resource_get (resource_register reg r) uri =
  if decide (res_uri (res_info r) = uri) then Some r else resource_get reg uri.
Proof. apply lookup_insert. Qed.

Lemma prompt_get_register reg p name :
  prompt_get (prompt_register reg p) name =
  if decide (pr_name (pr_info p) = name) then Some p else prompt_get reg name.
Proof. apply lookup_insert. Qed.

(** What [parse_yaml] accepts fits the limit and is what the parser makes of
    the deserialised text. *)
Lemma parse_yaml_Ok show_u64 alnum yaml_schema config yaml wf :
  parse_yaml show_u64 alnum yaml_schema config yaml = Ok wf <->
  (Z.of_nat (String.length yaml) <= max_yaml_size config)%Z /\
  exists schema, yaml_schema yaml = Ok schema /\ parse alnum config schema = Ok wf.
Proof.
  unfold parse_yaml, parse_text. destruct (Z.ltb_spec (max_yaml_size config) (Z.of_nat (String.length yaml))).
  - split; [done|]. intros [? _]. lia.
  - destruct (yaml_schema yaml) as [schema|m]; cbn.
    + split; [intros Hp; split; [lia|by exists schema]|]. by intros (_ & s & [= <-] & Hp).
    + split; [done|]. by intros (_ & s & ? & _).
Qed.

(** Two tool calls and a result; dropped progress changes nothing. *)
Module Demo.
Definition wf : workflow := {|
  wf_id := "w"; wf_name := "w"; wf_version := "1"; wf_entry := "a"; wf_steps := [];
  wf_capabilities := ["echo"]; wf_metadata := ∅; wf_description := None; wf_input_schema := None;
  wf_output_schema := None; wf_register_as_tool := false |}.
Definition progress : list stream_event := [Start "w"; Progress "a" ToolStart JNull].

Lemma run_agrees_with_streaming_witness :
  quiet progress /\
  run config_default wf ["*"] false (execution_events progress (Ok (JBool true))) (Ok (Ok tt)) = Ok (JBool true).
Proof.
  split; [reflexivity|].
  apply (run_agrees_with_streaming (fun _ => EmptyString) config_default wf ["*"] false progress (Ok (JBool true))
           eq_refl).
Defined.
End Demo.
