(* ===== verification/Builtins.v ===== *)
(** The builtin tools ([konflux-substrate/src/builtin.rs]) and their
    registration with an engine.  They read nothing but their payload and leave
    the world alone. *)

From Stdlib Require Import Ascii.
From S2P Require Import Prelude Json Error Envelope Tool Template Engine.

Local Open Scope string_scope.
Local Open Scope list_scope.

(** [BUILTIN_ANNOTATIONS]. *)
Definition BUILTIN_ANNOTATIONS : tool_annotations := ToolAnnotations true false true false.

Definition invalid_input (message field : string) : tool_error := InvalidInput message (Some field).

(** ** The computations *)

Section Payloads.
Context (json_to_string : json -> string).
Context (render : string -> gmap string json -> result string string).

(** [JsonGetTool::invoke]: empty segments are skipped, only objects are
    entered. *)
Fixpoint json_get_loop (path : string) (current : json) (parts : list string) : result tool_error json :=
  match parts with
  | [] => Ok current
  | EmptyString :: parts' => json_get_loop path current parts'
  | part :: parts' =>
      next ← ok_or (get part current) (ExecutionFailed (String.append "Path not found: " path) false);
      json_get_loop path next parts'
  end.

Definition json_get (payload : json) : result tool_error json :=
  data ← ok_or (get "data" payload) (invalid_input "Missing 'data'" "data");
  path ← ok_or (get "path" payload ≫= as_str) (invalid_input "Missing 'path'" "path");
  json_get_loop path data (split_on "."%char path).

(** [ConcatTool::invoke]. *)
Definition part_text (v : json) : string :=
  match v with JString s => s | _ => json_to_string v end.

Definition concat (payload : json) : result tool_error json :=
  parts ← ok_or (get "parts" payload ≫= as_array) (invalid_input "Missing 'parts' array" "parts");
  let separator := default EmptyString (get "separator" payload ≫= as_str) in
  Ok (JString (String.concat separator (map part_text parts))).

(** [ListAppendTool::invoke]. *)
Definition list_append (payload : json) : result tool_error json :=
  out ← match get "list" payload with
        | None | Some JNull => Ok []
        | Some (JArray arr) => Ok arr
        | Some other =>
            Err (invalid_input (String.append "'list' must be an array or null, got " (json_to_string other)) "list")
        end;
  items ← ok_or (get "items" payload ≫= as_array) (invalid_input "'items' must be an array" "items");
  Ok (JArray (out ++ items)).

(** [TemplateTool::invoke]. *)
Definition template_tool (payload : json) : result tool_error json :=
  template ← ok_or (get "template" payload ≫= as_str) (invalid_input "Missing 'template'" "template");
  vars ← ok_or (get "vars" payload ≫= as_object) (invalid_input "Missing 'vars' object" "vars");
  rendered ← map_err (fun e => ExecutionFailed (String.append "Template error: " e) false)
               (render template (list_to_map vars));
  Ok (JString rendered).

(** [EchoTool] and [LogTool] return their payload. *)
Definition echo (payload : json) : result tool_error json := Ok payload.
Definition log (payload : json) : result tool_error json := Ok payload.
End Payloads.

(** ** The tools *)

Section Tools.
Context {W : Type} (fresh : W -> uuid) (now : W -> datetime).
Context (json_to_string : json -> string).
Context (render : string -> gmap string json -> result string string).

(** A tool that answers its payload's image. *)
Definition pure_tool (name description : string) (input_schema : json) (f : json -> result tool_error json)
  : tool W := {|
  info := {| ti_name := name; ti_description := description; ti_input_schema := input_schema;
             ti_output_schema := None; ti_capabilities := []; ti_supports_streaming := false;
             ti_annotations := BUILTIN_ANNOTATIONS |};
  invoke w env := (w, respond (fresh w) (now w) env <$> f (env_payload env)) |}.

Definition typed (t : string) : json := JObject [("type", JString t)].
Definition object_schema (properties : list (string * json)) (required : list string) : json :=
  JObject (obj_of_list [("type", JString "object"); ("properties", JObject (obj_of_list properties));
                        ("required", JArray (map JString required))]).

Definition EchoTool : tool W := pure_tool "echo" "Returns the input as-is." (typed "object") echo.
Definition JsonGetTool : tool W :=
  pure_tool "json_get" "Extract a value from JSON using a dot-path."
    (object_schema [("data", typed "object"); ("path", typed "string")] ["data"; "path"]) json_get.
Definition ConcatTool : tool W :=
  pure_tool "concat" "Concatenate a list of strings."
    (object_schema
       [("parts", JObject (obj_of_list [("type", JString "array"); ("items", typed "string")]));
        ("separator", typed "string")] ["parts"])
    (concat json_to_string).
Definition ListAppendTool : tool W :=
  pure_tool "list:append"
    "Append items to a list and return the new list. `list` may be null/absent (treated as empty). `items` must be an array; its elements are appended in order."
    (object_schema
       [("list", JObject [("description", JString "Existing list; null or absent treated as []")]);
        ("items", JObject (obj_of_list [("type", JString "array"); ("description", JString "Items to append")]))]
       ["items"])
    (list_append json_to_string).
Definition LogTool : tool W := pure_tool "log" "Log a message and return the input." (typed "object") log.
Definition TemplateTool : tool W :=
  pure_tool "template" "Render a Jinja2 template."
    (object_schema [("template", typed "string"); ("vars", typed "object")] ["template"; "vars"])
    (template_tool render).

Definition builtins : list (tool W) :=
  [EchoTool; JsonGetTool; ConcatTool; ListAppendTool; LogTool; TemplateTool].

(** [register_builtins]. *)
Definition register_builtins (e : engine W) : engine W := fold_left register_tool builtins e.
End Tools.

(** * Theory *)

(** The value under a sequence of object keys. *)
Fixpoint at_keys (keys : list string) (v : json) : option json :=
  match keys with
  | [] => Some v
  | k :: keys' => next ← get k v; at_keys keys' next
  end.

Definition segments (path : string) : list string :=
  List.filter (fun part => negb (String.eqb part EmptyString)) (split_on "."%char path).

Lemma json_get_loop_keys path parts v :
  json_get_loop path v parts =
  ok_or (at_keys (List.filter (fun part => negb (String.eqb part EmptyString)) parts) v)
    (ExecutionFailed (String.append "Path not found: " path) false).
Proof.
  revert v. induction parts as [|[|c part] parts IH]; intros v; [done|apply IH|].
  cbn [json_get_loop List.filter String.eqb negb at_keys].
  destruct (get (String c part) v) as [next|]; [|done]. apply IH.
Qed.

Section Theory.
Context {W : Type} (fresh : W -> uuid) (now : W -> datetime).
Context (json_to_string : json -> string).
Context (render : string -> gmap string json -> result string string).

(** What the answer to a call says. *)
Definition answered (r : result tool_error (envelope json)) : result tool_error json := env_payload <$> r.

Abbreviation tools := (builtins fresh now json_to_string render).

Lemma builtin_pure t :
  t ∈ tools -> exists name d schema f, t = pure_tool fresh now name d schema f.
Proof.
  intros Ht. repeat (apply elem_of_cons in Ht as [->|Ht]; [by do 4 eexists|]).
  by apply not_elem_of_nil in Ht.
Qed.

Lemma register_all (ts : list (tool W)) (e : engine W) name :
  NoDup (map (fun t => ti_name (info t)) ts) ->
  eng_tools (fold_left register_tool ts e) !! name =
  match List.find (fun t => String.eqb (ti_name (info t)) name) ts with
  | Some t => Some t
  | None => eng_tools e !! name
  end.
Proof.
  revert e. induction ts as [|t ts IH]; intros e Hnd; [done|]. cbn. apply NoDup_cons in Hnd as [Hnot Hnd].
  rewrite IH by done. cbn. unfold register. destruct (String.eqb_spec (ti_name (info t)) name) as [<-|Hne].
  - destruct (List.find _ ts) as [t'|] eqn:Hf; [|by rewrite lookup_insert, decide_True].
    apply List.find_some in Hf as [Hin Heq%String.eqb_eq]. destruct Hnot. rewrite <- Heq.
    apply (list_elem_of_fmap_2 (fun t => ti_name (info t))). by apply list_elem_of_In.
  - destruct (List.find _ ts); [done|]. by rewrite lookup_insert, decide_False.
Qed.

(** Registering the builtins puts exactly the six of them under their names
    and replaces nothing else.  Each is what its annotations say, read-only and
    idempotent: a call changes no state, and its answer depends on the payload
    alone. *)
Theorem builtins_spec (e : engine W) :
  (forall name, eng_tools (register_builtins fresh now json_to_string render e) !! name =
     match List.find (fun t => String.eqb (ti_name (info t)) name) tools with
     | Some t => Some t
     | None => eng_tools e !! name
     end) /\
  map (fun t => ti_name (info t)) tools = ["echo"; "json_get"; "concat"; "list:append"; "log"; "template"] /\
  Forall (fun t =>
    read_only (ti_annotations (info t)) = true /\ idempotent (ti_annotations (info t)) = true /\
    (forall w env, fst (invoke t w env) = w) /\
    (forall w w' env env', env_payload env = env_payload env' ->
       answered (snd (invoke t w env)) = answered (snd (invoke t w' env')))) tools.
Proof.
  split_and!.
  - intros name. apply register_all. by apply (bool_decide_unpack _).
  - reflexivity.
  - apply Forall_forall. intros t (name & d & schema & f & ->)%builtin_pure. split_and!; [done..|].
    intros w w' env env' Hp. cbn. rewrite Hp. by destruct (f _).
Qed.

(** [json_get] and [list:append] in full: a path reads the object keys it
    names one after another, empty segments apart, and fails on the first that
    is missing (arrays have no keys); appending to a list, or to nothing, keeps
    its elements and adds the items in order, and anything else is refused. *)
Theorem json_get_list_append_spec payload :
  json_get payload =
    match get "data" payload, get "path" payload ≫= as_str with
    | None, _ => Err (invalid_input "Missing 'data'" "data")
    | Some _, None => Err (invalid_input "Missing 'path'" "path")
    | Some data, Some path =>
        ok_or (at_keys (segments path) data) (ExecutionFailed (String.append "Path not found: " path) false)
    end /\
  match list_append json_to_string payload with
  | Ok out => exists l items, get "items" payload = Some (JArray items) /\
      (get "list" payload = Some (JArray l) \/ (default JNull (get "list" payload) = JNull /\ l = [])) /\
      out = JArray (l ++ items)
  | Err _ => (get "items" payload ≫= as_array) = None \/
      (default JNull (get "list" payload) <> JNull /\ (get "list" payload ≫= as_array) = None)
  end.
Proof.
  split.
  - unfold json_get. destruct (get "data" payload) as [data|]; [|done]. cbn.
    destruct (get "path" payload ≫= as_str) as [path|]; [|done]. cbn. apply json_get_loop_keys.
  - unfold list_append. destruct (get "items" payload) as [[]|]; cbn;
      destruct (get "list" payload) as [[]|]; cbn; eauto 10.
    all: try (right; by split).
Qed.
End Theory.
