(* ===== verification/SystemTools.v ===== *)
(** The tools that reach outside: HTTP ([konf-tool-http/src/lib.rs]), shell
    ([konf-tool-shell/src/lib.rs]), secrets ([konf-tool-secret/src/lib.rs]) and
    embeddings ([konf-tool-embed/src/lib.rs]).

    The URL parser, the HTTP client and the process table of the host are
    parameters; IP addresses, UTF-8 and the environment are the standard
    library's. *)

From S2P Require Import Prelude Json Error Utf8 Envelope Tool Engine.

Local Open Scope string_scope.
Local Open Scope list_scope.
Local Open Scope Z_scope.

Definition invalid_input (message field : string) : tool_error := InvalidInput message (Some field).

(** * HTTP *)

(** [url::Host] and what the tool reads of a [Url]; addresses as integers of 32
    and 128 bits. *)
Inductive host : Type := Domain (d : string) | Ipv4 (a : Z) | Ipv6 (a : Z).
Record parsed_url : Type := ParsedUrl { url_scheme : string; url_host : option host }.

Definition octet (i : Z) (a : Z) : Z := Z.land (Z.shiftr a (8 * (3 - i))) 255.
Definition segment (i : Z) (a : Z) : Z := Z.land (Z.shiftr a (16 * (7 - i))) 65535.

(** [Ipv4Addr::is_loopback], [is_private], [is_link_local], [is_unspecified];
    [Ipv6Addr::is_loopback]. *)
Definition is_loopback (a : Z) : bool := octet 0 a =? 127.
Definition is_private (a : Z) : bool :=
  (octet 0 a =? 10)
  || ((octet 0 a =? 172) && (16 <=? octet 1 a) && (octet 1 a <=? 31))
  || ((octet 0 a =? 192) && (octet 1 a =? 168)).
Definition is_link_local (a : Z) : bool := (octet 0 a =? 169) && (octet 1 a =? 254).
Definition is_unspecified (a : Z) : bool := a =? 0.
Definition is_loopback6 (a : Z) : bool := a =? 1.

Definition DEFAULT_MAX_TIMEOUT_SECS : Z := 300.
Definition DEFAULT_MAX_RESPONSE_BYTES : Z := 10 * 1024 * 1024.

(** The limits [register] reads from its configuration. *)
Record http_limits : Type := HttpLimits { max_timeout_secs : Z; max_response_bytes : Z }.

Definition http_limits_of (config : json) : http_limits := {|
  max_timeout_secs := default DEFAULT_MAX_TIMEOUT_SECS (get "max_timeout_secs" config ≫= as_u64);
  max_response_bytes := default DEFAULT_MAX_RESPONSE_BYTES (get "max_response_bytes" config ≫= as_u64) |}.

(** What is asked of the client, and what comes back: the status, the headers
    whose values are text, the declared length, and the body. *)
Inductive http_method : Type := GET | POST (body : json).
Record http_request : Type := HttpRequest {
  rq_method : http_method;
  rq_url : string;
  rq_headers : list (string * string);
  rq_timeout_secs : Z;
}.
Record http_response : Type := HttpResponse {
  rp_status : Z;
  rp_headers : list (string * option string);
  rp_content_length : option Z;
  rp_bytes : result string (list Z);
}.

(** [tool_err]. *)
Definition tool_err (m : string) : tool_error := ExecutionFailed m true.

Section Http.
Context {W : Type}.
Context (fresh : W -> uuid) (now : W -> datetime).
Context (show_host : host -> string) (show_u64 : Z -> string) (show_utf8_error : utf8_error -> string).
Context (url_parse : string -> result string parsed_url).
Context (send : http_request -> W -> W * result string http_response).
Context (elapsed_ms : W -> W -> Z).
Context (json_of_string : string -> option json).

Definition host_blocked (h : host) : bool :=
  match h with
  | Domain d => existsb (String.eqb d) ["localhost"; "metadata.google.internal"]
  | Ipv4 a => is_loopback a || is_private a || is_link_local a || is_unspecified a
  | Ipv6 a => is_loopback6 a || (segment 0 a =? 65152)
  end.

Definition blocked_message (h : host) : string :=
  match h with
  | Domain d => String.append "URL host '" (String.append d "' is blocked")
  | _ => String.append "URL host '" (String.append (show_host h) "' is a private/internal IP")
  end.

(** [validate_url]. *)
Definition validate_url (url : string) : result tool_error unit :=
  parsed ← map_err (fun e => invalid_input (String.append "Invalid URL: " e) "url") (url_parse url);
  if negb (existsb (String.eqb (url_scheme parsed)) ["http"; "https"]) then
    Err (invalid_input (String.append "Unsupported URL scheme: " (url_scheme parsed)) "url")
  else
    match url_host parsed with
    | Some h => if host_blocked h then Err (invalid_input (blocked_message h) "url") else Ok tt
    | None => Ok tt
    end.

(** [read_body_limited]. *)
Definition too_large (len max : Z) : tool_error :=
  ExecutionFailed (String.concat EmptyString
    ["Response too large: "; show_u64 len; " bytes (max "; show_u64 max; ")"]) false.

Definition read_body_limited (resp : http_response) (max : Z) : result tool_error string :=
  let content_length := default 0 (rp_content_length resp) in
  if max <? content_length then Err (too_large content_length max)
  else
    bytes ← map_err tool_err (rp_bytes resp);
    if max <? Z.of_nat (length bytes) then Err (too_large (Z.of_nat (length bytes)) max)
    else
      text ← map_err (fun e =>
               ExecutionFailed (String.append "Response is not valid UTF-8: " (show_utf8_error e)) false)
               (from_utf8 bytes);
      Ok (byte_string text).

(** The request a payload asks for. *)
Definition payload_headers (payload : json) : list (string * string) :=
  omap (fun kv => pair kv.1 <$> as_str kv.2) (default [] (get "headers" payload ≫= as_object)).

Definition http_request_of (lim : http_limits) (method : json -> http_method) (payload : json)
  : result tool_error http_request :=
  url ← ok_or (get "url" payload ≫= as_str) (invalid_input "missing 'url'" "url");
  _ ← validate_url url;
  Ok {| rq_method := method payload;
        rq_url := url;
        rq_headers := payload_headers payload;
        rq_timeout_secs := Z.min (default 30 (get "timeout" payload ≫= as_u64)) (max_timeout_secs lim) |}.

Definition body_value (body : string) : json := default (JString body) (json_of_string body).

(** The headers of the answer, by name, the last of a name. *)
Definition text_headers (hs : list (string * option string)) : json :=
  JObject (obj_of_list (omap (fun kv => (fun s => (kv.1, JString s)) <$> kv.2) hs)).

Definition meta (name : string) (w w' : W) : json :=
  JObject (obj_of_list [("tool", JString name); ("duration_ms", JNumber (PosInt (wrap_u64 (elapsed_ms w w'))))]).

Definition get_answer (w w' : W) (resp : http_response) (body : string) : json :=
  JObject (obj_of_list [("status", JNumber (PosInt (rp_status resp))); ("headers", text_headers (rp_headers resp));
                        ("body", body_value body); ("_meta", meta "http:get" w w')]).
Definition post_answer (w w' : W) (resp : http_response) (body : string) : json :=
  JObject (obj_of_list [("status", JNumber (PosInt (rp_status resp)));
                        ("body", body_value body); ("_meta", meta "http:post" w w')]).

(** [HttpGetTool::invoke] and [HttpPostTool::invoke] differ in the method and in
    the answer. *)
Definition http_invoke (lim : http_limits) (method : json -> http_method)
    (answer : W -> W -> http_response -> string -> json) (w : W) (env : envelope json)
  : W * result tool_error (envelope json) :=
  match http_request_of lim method (env_payload env) with
  | Err e => (w, Err e)
  | Ok req =>
      match send req w with
      | (w', Err m) => (w', Err (tool_err m))
      | (w', Ok resp) =>
          (w', body ← read_body_limited resp (max_response_bytes lim);
               Ok (respond (fresh w') (now w') env (answer w w' resp body)))
      end
  end.

Definition http_get (lim : http_limits) := http_invoke lim (fun _ => GET) get_answer.
Definition http_post (lim : http_limits) :=
  http_invoke lim (fun payload => POST (default JNull (get "body" payload))) post_answer.

(** The schemas and [register]. *)
Definition field_schema (t description : string) : json :=
  JObject (obj_of_list [("type", JString t); ("description", JString description)]).
Definition timeout_schema : json :=
  JObject (obj_of_list [("type", JString "integer"); ("description", JString "Timeout in seconds");
                        ("default", JNumber (PosInt 30))]).
Definition http_schema (url_description : string) (extra : list (string * json)) : json :=
  JObject (obj_of_list
    [("type", JString "object");
     ("properties", JObject (obj_of_list ([("url", field_schema "string" url_description);
        ("headers", field_schema "object" "Optional headers"); ("timeout", timeout_schema)] ++ extra)));
     ("required", JArray [JString "url"])]).

Definition HttpGetTool (lim : http_limits) : tool W := {|
  info := ToolInfo "http:get" "Make an HTTP GET request and return the response."
            (http_schema "URL to fetch" []) None ["http:get"] false (ToolAnnotations false false true true);
  invoke := http_get lim |}.
Definition HttpPostTool (lim : http_limits) : tool W := {|
  info := ToolInfo "http:post" "Make an HTTP POST request with a JSON body."
            (http_schema "URL to post to" [("body", JObject [("description", JString "JSON body to send")])])
            None ["http:post"] false (ToolAnnotations false false false true);
  invoke := http_post lim |}.

Definition register_http (e : engine W) (config : json) : engine W :=
  let lim := http_limits_of config in
  register_tool (register_tool e (HttpGetTool lim)) (HttpPostTool lim).
End Http.

(** * Shell *)

(** [ShellConfig]. *)
Record shell_config : Type := ShellConfig { container : string; timeout_ms : Z }.

(** [default_timeout_ms] and [serde_json::from_value::<ShellConfig>], which also
    takes the fields as a sequence. *)
Definition default_timeout_ms : Z := 30000.
Definition shell_config_of (config : json) : option shell_config :=
  match config with
  | JObject _ =>
      c ← get "container" config ≫= as_str;
      t ← match get "timeout_ms" config with None => Some default_timeout_ms | Some v => as_u64 v end;
      Some (ShellConfig c t)
  | JArray [JString c] => Some (ShellConfig c default_timeout_ms)
  | JArray [JString c; v] => ShellConfig c <$> as_u64 v
  | _ => None
  end.

(** A command line, and how the process it starts ends. *)
Record command : Type := Command { program : string; args : list string }.
Inductive process_outcome : Type :=
  | SpawnFailed (message : string)
  | TimedOut
  | WaitFailed (message : string)
  | Exited (stdout stderr : list Z) (code : option Z).

Section Shell.
Context {W : Type}.
Context (fresh : W -> uuid) (now : W -> datetime) (show_u64 : Z -> string).
(** Spawning a command with its output piped and waiting for it at most so
    many milliseconds. *)
Context (run_process : command -> Z -> W -> W * process_outcome).

(** The command line: the shell of the container, or of the host itself when
    the container is called [host]. *)
Definition shell_command (container_name cmd : string) : command :=
  if String.eqb container_name "host" then Command "bash" ["-c"; cmd]
  else Command "docker" ["exec"; "-u"; "konf-agent"; "-w"; "/workspace"; container_name; "bash"; "-c"; cmd].

Definition json_int (z : Z) : json := JNumber (if 0 <=? z then PosInt z else NegInt z).

(** [ShellExecTool::invoke]. *)
Definition shell_exec (cfg : shell_config) (w : W) (env : envelope json)
  : W * result tool_error (envelope json) :=
  match get "command" (env_payload env) ≫= as_str with
  | None => (w, Err (invalid_input "missing 'command'" "command"))
  | Some cmd =>
      let timeout := default (timeout_ms cfg) (get "timeout_ms" (env_payload env) ≫= as_u64) in
      match run_process (shell_command (container cfg) cmd) timeout w with
      | (w', SpawnFailed m) =>
          (w', Err (ExecutionFailed (String.append "failed to spawn shell command: " m) false))
      | (w', TimedOut) =>
          (w', Err (ExecutionFailed (String.concat EmptyString
                 ["command timed out after "; show_u64 timeout; "ms: "; cmd]) false))
      | (w', WaitFailed m) =>
          (w', Err (ExecutionFailed (String.append "failed to wait for docker exec: " m) false))
      | (w', Exited out err code) =>
          (w', Ok (respond (fresh w') (now w') env (JObject (obj_of_list
             [("stdout", JString (byte_string (from_utf8_lossy out)));
              ("stderr", JString (byte_string (from_utf8_lossy err)));
              ("exit_code", json_int (default (-1) code))]))))
      end
  end.

Definition ShellExecTool (cfg : shell_config) : tool W := {|
  info := ToolInfo "shell:exec"
            "Execute a shell command inside the sandboxed container. Returns stdout, stderr, and exit code."
            (JObject (obj_of_list
               [("type", JString "object");
                ("properties", JObject (obj_of_list
                   [("command", field_schema "string" "Shell command to execute");
                    ("timeout_ms", field_schema "integer" "Timeout in milliseconds (overrides default)")]));
                ("required", JArray [JString "command"])]))
            None ["shell:exec"] false (ToolAnnotations false true false false);
  invoke := shell_exec cfg |}.

Definition register_shell (e : engine W) (config : json) : option (engine W) :=
  cfg ← shell_config_of config; Some (register_tool e (ShellExecTool cfg)).
End Shell.

(** * Secrets *)

Section Secret.
Context {W : Type} (fresh : W -> uuid) (now : W -> datetime).
(** [std::env::var]. *)
Context (env_var : string -> option string).

Definition not_available (key : string) : string :=
  String.append "Secret key '" (String.append key "' not available").

(** [SecretGetTool::invoke]. *)
Definition secret_get (allowed_keys : list string) (payload : json) : result tool_error json :=
  key ← ok_or (get "key" payload ≫= as_str) (invalid_input "Missing 'key'" "key");
  if negb (existsb (String.eqb key) allowed_keys) then Err (AccessDenied (not_available key))
  else match env_var key with
       | Some val => Ok (JString val)
       | None => Err (ExecutionFailed (not_available key) false)
       end.

(** [SecretListTool::invoke]. *)
Definition secret_list (allowed_keys : list string) : json := JArray (map JString allowed_keys).

Definition secret_annotations : tool_annotations := ToolAnnotations true false true false.

Definition SecretGetTool (allowed_keys : list string) : tool W := {|
  info := ToolInfo "secret:get"
            "Fetch a secret from the environment. Only keys listed in 'allowed_keys' are accessible."
            (JObject (obj_of_list
               [("type", JString "object");
                ("properties", JObject [("key", JObject [("type", JString "string")])]);
                ("required", JArray [JString "key"])]))
            (Some (JObject [("type", JString "string")])) ["secret:get"] false secret_annotations;
  invoke w env := (w, respond (fresh w) (now w) env <$> secret_get allowed_keys (env_payload env)) |}.
Definition SecretListTool (allowed_keys : list string) : tool W := {|
  info := ToolInfo "secret:list" "List the names of all allowed secrets. Does NOT return their values."
            (JObject [("type", JString "object")])
            (Some (JObject (obj_of_list
               [("type", JString "array"); ("items", JObject [("type", JString "string")])])))
            ["secret:list"] false secret_annotations;
  invoke w env := (w, Ok (respond (fresh w) (now w) env (secret_list allowed_keys))) |}.

(** [register]. *)
Definition register_secret (e : engine W) (allowed_keys : list string) : engine W :=
  register_tool (register_tool e (SecretGetTool allowed_keys)) (SecretListTool allowed_keys).
End Secret.

(** * Embeddings *)

Section Embed.
Context {W : Type} (fresh : W -> uuid) (now : W -> datetime) (elapsed_ms : W -> W -> Z).

(** What the model's task returns: it panicked, the model failed, or a vector
    for each text. *)
Inductive embed_outcome : Type :=
  | EmbedPanicked (e : string)
  | EmbedFailed (e : string)
  | Embeddings (vectors : list (list f64)).
Context (model_embed : list string -> W -> W * embed_outcome).

Definition embed_texts (payload : json) : result tool_error (list string) :=
  texts ← (match get "text" payload ≫= as_str, get "texts" payload ≫= as_array with
           | Some text, _ => Ok [text]
           | None, Some arr => Ok (omap as_str arr)
           | None, None => Err (InvalidInput "Provide 'text' or 'texts'" None)
           end : result tool_error (list string));
  match texts with [] => Err (InvalidInput "No texts provided" None) | _ => Ok texts end.

(** [EmbedTool::invoke]. *)
Definition embed_invoke (w : W) (env : envelope json) : W * result tool_error (envelope json) :=
  match embed_texts (env_payload env) with
  | Err e => (w, Err e)
  | Ok texts =>
      match model_embed texts w with
      | (w', EmbedPanicked e) => (w', Err (ExecutionFailed (String.append "Embedding task panicked: " e) false))
      | (w', EmbedFailed e) => (w', Err (ExecutionFailed (String.append "Embedding failed: " e) false))
      | (w', Embeddings vectors) =>
          (w', Ok (respond (fresh w') (now w') env (JObject (obj_of_list
            [("embeddings", JArray (map (fun v => JArray (map json_of_f64 v)) vectors));
             ("dimensions", JNumber (PosInt (from_option (fun v => Z.of_nat (length v)) 0 (head vectors))));
             ("count", JNumber (PosInt (Z.of_nat (length vectors))));
             ("_meta", JObject (obj_of_list
               [("tool", JString "ai:embed");
                ("duration_ms", JNumber (PosInt (wrap_u64 (elapsed_ms w w'))))]))]))))
      end
  end.

Definition EmbedTool : tool W := {|
  info := ToolInfo "ai:embed" "Generate text embeddings locally (no API call)."
            (JObject (obj_of_list
               [("type", JString "object");
                ("properties", JObject (obj_of_list
                   [("text", JObject (obj_of_list [("type", JString "string"); ("description", JString "Text to embed")]));
                    ("texts", JObject (obj_of_list
                       [("type", JString "array"); ("items", JObject [("type", JString "string")]);
                        ("description", JString "Multiple texts to embed in batch")]))]))]))
            None ["ai:embed"] false (ToolAnnotations true false true false);
  invoke := embed_invoke |}.

(** [register_embed_tools]: [loaded] when the model could be loaded. *)
Definition register_embed (loaded : bool) (e : engine W) : engine W :=
  if loaded then register_tool e EmbedTool else e.
End Embed.

(** * Theory *)

(** ** Addresses *)

Lemma octet_div i a : 0 <= i <= 3 -> octet i a = (a / 2 ^ (8 * (3 - i))) mod 256.
Proof.
  intros Hi. unfold octet. rewrite Z.shiftr_div_pow2 by lia.
  change 255 with (Z.ones 8). rewrite Z.land_ones by lia. reflexivity.
Qed.

Lemma segment_high a : 0 <= a < 2 ^ 112 -> segment 0 a = 0.
Proof.
  intros Ha. unfold segment. rewrite Z.shiftr_div_pow2 by lia.
  change (8 * 14) with 112. rewrite Z.div_small by done. reflexivity.
Qed.

(** The address blocks, as intervals. *)
Definition internal_v4 (a : Z) : bool :=
  (a =? 0)
  || between 167772160 184549375 a        (* 10.0.0.0/8 *)
  || between 2130706432 2147483647 a      (* 127.0.0.0/8 *)
  || between 2851995648 2852061183 a      (* 169.254.0.0/16 *)
  || between 2886729728 2887778303 a      (* 172.16.0.0/12 *)
  || between 3232235520 3232301055 a.     (* 192.168.0.0/16 *)

Definition v4_mapped (a : Z) : Z := 65535 * 2 ^ 32 + a.

Lemma v4_blocked a : in_u32 a -> host_blocked (Ipv4 a) = internal_v4 a.
Proof.
  unfold in_u32, u32_max. intros Ha. apply eq_iff_eq_true. unfold host_blocked, is_loopback, is_private, is_link_local, is_unspecified, internal_v4, between.
  rewrite !octet_div by lia. change (8 * (3 - 0)) with 24. change (8 * (3 - 1)) with 16.
  rewrite !orb_true_iff, !andb_true_iff, !Z.eqb_eq, !Z.leb_le.
  change (2 ^ 24) with 16777216. change (2 ^ 16) with 65536.
  Z.div_mod_to_equations. lia.
Qed.

(** The address filter of the HTTP tools.  On IPv4 it is exact: it refuses
    precisely the unspecified address and the loopback, private and link-local
    blocks.  It does not reach the IPv6 forms of those addresses: the mapped
    form of every IPv4 address passes, loopback and the metadata service
    included. *)
Theorem address_filter_exact a :
  in_u32 a ->
  host_blocked (Ipv4 a) = internal_v4 a /\ host_blocked (Ipv6 (v4_mapped a)) = false.
Proof.
  intros Ha. split; [by apply v4_blocked|]. unfold in_u32, u32_max in Ha.
  unfold host_blocked, is_loopback6, v4_mapped. rewrite segment_high by lia.
  apply orb_false_iff. split; [apply Z.eqb_neq; lia|reflexivity].
Qed.

(** ** HTTP *)

Section HttpTheory.
Context {W : Type}.
Context (fresh : W -> uuid) (now : W -> datetime).
Context (show_host : host -> string) (show_u64 : Z -> string) (show_utf8_error : utf8_error -> string).
Context (url_parse : string -> result string parsed_url).
Context (send : http_request -> W -> W * result string http_response).

Lemma validate_url_Ok url :
  validate_url show_host url_parse url = Ok tt <->
  exists p, url_parse url = Ok p /\ (url_scheme p ∈ ["http"; "https"]) /\
    forall h, url_host p = Some h -> host_blocked h = false.
Proof.
  unfold validate_url. destruct (url_parse url) as [p|e]; cbn [map_err mbind result_bind]; [|naive_solver].
  assert (existsb (String.eqb (url_scheme p)) ["http"; "https"] = true <-> url_scheme p ∈ ["http"; "https"]) as Hs.
  { cbn. rewrite !orb_true_iff, !String.eqb_eq, !elem_of_cons, elem_of_nil. naive_solver. }
  destruct (existsb _ _); cbn [negb].
  - destruct (url_host p) as [h|] eqn:Hh.
    + destruct (host_blocked h) eqn:Hb; split; try done.
      * intros (p' & [= <-] & _ & Hall). rewrite (Hall h) in Hb by done. done.
      * intros _. exists p. split_and!; [done|by apply Hs|]. by intros h' [= <-]%(eq_trans (eq_sym Hh)).
    + split; [|done]. intros _. exists p. split_and!; [done|by apply Hs|]. by rewrite Hh.
  - split; [done|]. intros (p' & [= <-] & Hin & _). by apply Hs in Hin.
Qed.

Lemma read_body_limited_Ok resp max text :
  read_body_limited show_u64 show_utf8_error resp max = Ok text ->
  exists bytes, rp_bytes resp = Ok bytes /\ Z.of_nat (length bytes) <= max /\
    default 0 (rp_content_length resp) <= max /\ utf8 bytes /\ text = byte_string bytes.
Proof.
  unfold read_body_limited. destruct (Z.ltb_spec max (default 0 (rp_content_length resp))); [done|].
  destruct (rp_bytes resp) as [bytes|e]; [|done]. cbn.
  destruct (Z.ltb_spec max (Z.of_nat (length bytes))); [done|].
  destruct (from_utf8 bytes) as [l|e] eqn:Hu; [|done]. apply from_utf8_Ok in Hu as [Hu ->].
  intros [= <-]. by exists bytes.
Qed.

(** What may be sent: a checked URL of the payload, within the time limit. *)
Record permitted (lim : http_limits) (payload : json) (req : http_request) : Prop := {
  pm_url : get "url" payload = Some (JString (rq_url req));
  pm_safe : exists p, url_parse (rq_url req) = Ok p /\ (url_scheme p ∈ ["http"; "https"]) /\
    forall h, url_host p = Some h -> host_blocked h = false;
  pm_timeout : rq_timeout_secs req <= max_timeout_secs lim;
}.

Lemma http_request_permitted lim method payload req :
  http_request_of show_host url_parse lim method payload = Ok req -> permitted lim payload req.
Proof.
  unfold http_request_of. destruct (get "url" payload) as [v|] eqn:Hg; [|done].
  destruct v as [| | |url| |]; try done. cbn.
  destruct (validate_url show_host url_parse url) as [[]|e] eqn:Hv; [|done]. cbn. intros [= <-].
  split; [done|by apply validate_url_Ok|cbn; lia].
Qed.

(** An HTTP tool call, GET or POST, on every branch: without a checked
    request it fails and nothing was sent; with one it sends exactly that
    request, an http or https URL whose host the filter lets through with a
    timeout within the configured one; and a success carries a body that is
    well-formed text no longer than the configured maximum. *)
Theorem http_invoke_spec method answer lim w env :
  let invoke := http_invoke fresh now show_host show_u64 show_utf8_error url_parse send lim method in
  match http_request_of show_host url_parse lim method (env_payload env) with
  | Err e => invoke answer w env = (w, Err e)
  | Ok req =>
      permitted lim (env_payload env) req /\
      fst (invoke answer w env) = fst (send req w) /\
      match snd (send req w), snd (invoke answer w env) with
      | Err m, r => r = Err (tool_err m)
      | Ok resp, Ok out => exists bytes, rp_bytes resp = Ok bytes /\ utf8 bytes /\
          Z.of_nat (length bytes) <= max_response_bytes lim /\
          env_payload out = answer w (fst (send req w)) resp (byte_string bytes)
      | Ok resp, Err e => read_body_limited show_u64 show_utf8_error resp (max_response_bytes lim) = Err e
      end
  end.
Proof.
  cbn zeta. unfold http_invoke.
  destruct (http_request_of show_host url_parse lim method (env_payload env)) as [req|e] eqn:Hreq; [|done].
  split; [by eapply http_request_permitted|].
  destruct (send req w) as [w' [resp|m]]; cbn [fst snd]; [|done]. split; [done|].
  destruct (read_body_limited _ _ _ _) as [text|e] eqn:Hb; cbn [mbind result_bind]; [|done].
  apply read_body_limited_Ok in Hb as (bytes & Hbytes & Hlen & _ & Hu & ->). by exists bytes.
Qed.
End HttpTheory.

(** ** Shell *)

(** Two hosts that run the container's commands alike. *)
Definition same_in_container {W} (name : string) (run run' : command -> Z -> W -> W * process_outcome) : Prop :=
  forall cmd t w,
    let c := Command "docker" ["exec"; "-u"; "konf-agent"; "-w"; "/workspace"; name; "bash"; "-c"; cmd] in
    run c t w = run' c t w.

(** The text of a stream, when it is well formed. *)
Definition stream_text (out : list Z) (j : option json) : Prop :=
  exists text, j = Some (JString (byte_string text)) /\ utf8 text /\ (utf8 out -> text = out).

(** The shell tool of a container other than [host] starts no process but
    [docker exec] in that container, as the agent's user, in the workspace, with
    the command as one argument: two hosts that agree on those agree on every
    call.  Whatever the process prints, the answer is well-formed text, equal to
    it when it was well formed, and has an exit code even without one. *)
Theorem shell_exec_spec {W} (fresh : W -> uuid) now show_u64 cfg run run' w env :
  container cfg <> "host" -> same_in_container (container cfg) run run' ->
  shell_exec fresh now show_u64 run cfg w env = shell_exec fresh now show_u64 run' cfg w env /\
  forall w' resp, shell_exec fresh now show_u64 run cfg w env = (w', Ok resp) ->
    exists cmd t out err code,
      get "command" (env_payload env) = Some (JString cmd) /\
      run (shell_command (container cfg) cmd) t w = (w', Exited out err code) /\
      stream_text out (get "stdout" (env_payload resp)) /\
      stream_text err (get "stderr" (env_payload resp)) /\
      get "exit_code" (env_payload resp) = Some (json_int (default (-1) code)).
Proof.
  intros Hname Hsame. unfold shell_exec.
  assert (forall cmd t, run (shell_command (container cfg) cmd) t w = run' (shell_command (container cfg) cmd) t w)
    as Heq.
  { intros cmd t. unfold shell_command. apply String.eqb_neq in Hname. rewrite Hname. apply Hsame. }
  split.
  { destruct (get "command" (env_payload env) ≫= as_str) as [cmd|]; [|done]. cbn zeta. by rewrite Heq. }
  intros w' resp. destruct (get "command" (env_payload env)) as [v|] eqn:Hcmd; [|done].
  destruct v as [| | |cmd| |]; try done. cbn [mbind option_bind as_str].
  destruct (run (shell_command (container cfg) cmd) _ w) as [w1 [m| |m|out err code]] eqn:Hrun; try done.
  intros [= <- <-]. exists cmd, (default (timeout_ms cfg) (get "timeout_ms" (env_payload env) ≫= as_u64)), out, err, code.
  split; [done|]. split; [exact Hrun|].
  assert (forall l, stream_text l (Some (JString (byte_string (from_utf8_lossy l))))) as Htext.
  { intros l. exists (from_utf8_lossy l). split; [done|]. split; [apply from_utf8_lossy_utf8|apply from_utf8_lossy_id]. }
  split; [apply Htext|]. split; [apply Htext|]. reflexivity.
Qed.

(** ** Secrets *)

(** The secret tools disclose nothing outside the allow-list: two
    environments that agree on the allowed keys are indistinguishable, an answer
    is the value of the allowed key that was asked for, and a key off the list is
    refused whether or not it is set. *)
Theorem secret_get_noninterference allowed env_var env_var' payload :
  (forall key, key ∈ allowed -> env_var key = env_var' key) ->
  secret_get env_var allowed payload = secret_get env_var' allowed payload /\
  (forall v, secret_get env_var allowed payload = Ok v ->
     exists key val, get "key" payload = Some (JString key) /\ (key ∈ allowed) /\
       env_var key = Some val /\ v = JString val) /\
  (forall key, get "key" payload = Some (JString key) -> (key ∉ allowed) ->
     secret_get env_var allowed payload = Err (AccessDenied (not_available key))).
Proof.
  intros Hagree. unfold secret_get.
  assert (forall key, existsb (String.eqb key) allowed = true <-> key ∈ allowed) as Hin.
  { intros key. rewrite existsb_exists. setoid_rewrite String.eqb_eq. setoid_rewrite <- list_elem_of_In. naive_solver. }
  destruct (get "key" payload) as [v|]; [|done].
  destruct v as [| | |key| |]; cbn [mbind option_bind as_str ok_or result_bind]; try done.
  destruct (existsb (String.eqb key) allowed) eqn:Hk; cbn [negb].
  - apply Hin in Hk. rewrite <- (Hagree key Hk). split_and!; [done| |by intros key' [= <-]].
    destruct (env_var key) as [val|] eqn:Hv; [|done]. intros v [= <-]. by exists key, val.
  - split_and!; [done|done|]. by intros key' [= <-].
Qed.

(** * Runs *)

Module Demo.
(** The mapped loopback address, as in [http://[::ffff:127.0.0.1]/], passes. *)
Lemma address_filter_exact_witness :
  in_u32 2130706433 /\ host_blocked (Ipv4 2130706433) = true /\ host_blocked (Ipv6 (v4_mapped 2130706433)) = false.
Proof.
  assert (in_u32 2130706433) as Ha by (unfold in_u32, u32_max; lia).
  split; [exact Ha|]. rewrite (proj1 (address_filter_exact _ Ha)).
  split; [reflexivity|]. exact (proj2 (address_filter_exact _ Ha)).
Defined.

Definition echo_run (c : command) (t : Z) (w : unit) : unit * process_outcome :=
  if String.eqb (program c) "docker" then (w, Exited [111; 107; 255] [] (Some 0)) else (w, SpawnFailed "no").
Definition other_run (c : command) (t : Z) (w : unit) : unit * process_outcome :=
  (w, Exited [111; 107; 255] [] (Some 0)).
Definition call : envelope json :=
  for_tool_dispatch 0%N 0 "shell:exec" (JObject [("command", JString "ls; id")]) ["shell:exec"] 0%N "konf:n" "u" "s".

Lemma shell_exec_spec_witness :
  shell_exec (fun _ => 0%N) (fun _ => 0) (fun _ => EmptyString) echo_run (ShellConfig "box" 5) tt call =
  shell_exec (fun _ => 0%N) (fun _ => 0) (fun _ => EmptyString) other_run (ShellConfig "box" 5) tt call.
Proof.
  apply (shell_exec_spec (fun _ => 0%N) (fun _ => 0) (fun _ => EmptyString) (ShellConfig "box" 5) echo_run other_run).
  - discriminate.
  - intros cmd t w. reflexivity.
Defined.

Definition vars (key : string) : option string :=
  if String.eqb key "TOKEN" then Some "t" else if String.eqb key "OTHER" then Some "o" else None.
Definition vars' (key : string) : option string := if String.eqb key "TOKEN" then Some "t" else None.

Lemma secret_get_noninterference_witness :
  secret_get vars ["TOKEN"] (JObject [("key", JString "OTHER")]) =
  secret_get vars' ["TOKEN"] (JObject [("key", JString "OTHER")]).
Proof.
  refine (proj1 (secret_get_noninterference ["TOKEN"] vars vars' _ _)).
  intros key ->%list_elem_of_singleton. reflexivity.
Defined.
End Demo.
