(* ===== verification/Events.v ===== *)
(** What the runtime reports and records about runs: statuses
    ([konflux-substrate/src/process.rs]), bus events
    ([konf-runtime/src/event_bus.rs]), execution contexts
    ([konf-runtime/src/execution_context.rs]) and interactions
    ([konf-runtime/src/interaction.rs]).

    The renderings of ids and time stamps are those of the [uuid] and [chrono]
    crates: parameters. *)

From S2P Require Import Prelude Json Envelope Scope.

Local Open Scope string_scope.
Local Open Scope list_scope.

(** * Statuses *)

(** [RunStatus]. *)
Inductive run_status : Type :=
  | RsPending
  | RsRunning
  | RsCompleted (duration_ms : Z) (output : json)
  | RsFailed (error : string) (duration_ms : Z)
  | RsCancelled (reason : string) (duration_ms : Z).

(** [RunStatus::is_terminal]. *)
Definition is_terminal (s : run_status) : bool :=
  match s with RsCompleted _ _ | RsFailed _ _ | RsCancelled _ _ => true | _ => false end.

(** [NodeStatus]. *)
Inductive node_status : Type :=
  | NsRunning
  | NsRetrying (attempt max : Z)
  | NsCompleted (duration_ms : Z)
  | NsFailed (error : string).

(** [ActiveNode]. *)
Record active_node : Type := ActiveNode {
  an_node_id : string;
  an_tool_name : string;
  an_started_at : datetime;
  an_status : node_status;
}.

(** * Bus events *)

(** [RunEvent]. *)
Inductive run_event : Type :=
  | EvRunStarted (run_id : uuid) (workflow_id namespace : string) (parent_id : option uuid) (started_at : datetime)
  | EvNodeStart (run_id : uuid) (node_id tool : string) (at_ : datetime)
  | EvNodeEnd (run_id : uuid) (node_id : string) (status : node_status) (at_ : datetime)
  | EvTextDelta (run_id : uuid) (node_id delta : string)
  | EvRunCompleted (run_id : uuid) (duration_ms : Z)
  | EvRunFailed (run_id : uuid) (duration_ms : Z) (error : string)
  | EvRunCancelled (run_id : uuid) (reason : string)
  | EvToolInvoked (tool namespace : string) (at_ : datetime) (success : bool)
  | EvScheduleFired (job_id : uuid) (workflow namespace : string) (fired_at : datetime)
  | EvScheduleFailed (job_id : uuid) (workflow reason : string)
  | EvIntentReplayed (run_id workflow : string) (replay_count : Z)
  | EvJournalAppended (sequence : Z) (event_type namespace : string) (run_id : uuid).

(** [RunEvent::kind]. *)
Definition kind (e : run_event) : string :=
  match e with
  | EvRunStarted _ _ _ _ _ => "run_started"
  | EvNodeStart _ _ _ _ => "node_start"
  | EvNodeEnd _ _ _ _ => "node_end"
  | EvTextDelta _ _ _ => "text_delta"
  | EvRunCompleted _ _ => "run_completed"
  | EvRunFailed _ _ _ => "run_failed"
  | EvRunCancelled _ _ => "run_cancelled"
  | EvToolInvoked _ _ _ _ => "tool_invoked"
  | EvScheduleFired _ _ _ _ => "schedule_fired"
  | EvScheduleFailed _ _ _ => "schedule_failed"
  | EvIntentReplayed _ _ _ => "intent_replayed"
  | EvJournalAppended _ _ _ _ => "journal_appended"
  end.

(** [RunEvent::namespace]. *)
Definition event_namespace (e : run_event) : string :=
  match e with
  | EvRunStarted _ _ ns _ _ | EvToolInvoked _ ns _ _ | EvScheduleFired _ _ ns _
  | EvJournalAppended _ _ ns _ => ns
  | _ => EmptyString
  end.

(** * Execution contexts *)

(** [ExecutionContext]. *)
Record execution_context : Type := ExecutionContext {
  ec_trace_id : uuid;
  ec_parent_interaction_id : option uuid;
  ec_session_id : string;
  ec_deadline : option datetime;
  ec_idempotency_key : option string;
}.

(** [ExecutionContext::new_root]; [fresh] is the trace id it draws. *)
Definition new_root (fresh : uuid) (session_id : string) : execution_context :=
  ExecutionContext fresh None session_id None None.

(** [ExecutionContext::with_trace]. *)
Definition with_trace (trace_id : uuid) (session_id : string) : execution_context :=
  ExecutionContext trace_id None session_id None None.

(** [ExecutionContext::from_envelope]. *)
Definition context_from_envelope (env : envelope json) : execution_context := {|
  ec_trace_id := env_trace_id env;
  ec_parent_interaction_id := env_parent_id env;
  ec_session_id := default "workflow_tool" (obj_get "session_id" (env_metadata env) ≫= as_str);
  ec_deadline := env_deadline env;
  ec_idempotency_key := env_idempotency_key env |}.

(** [ExecutionContext::child]. *)
Definition child (c : execution_context) (parent_interaction_id : uuid) (session_id : option string)
  : execution_context := {|
  ec_trace_id := ec_trace_id c;
  ec_parent_interaction_id := Some parent_interaction_id;
  ec_session_id := default (ec_session_id c) session_id;
  ec_deadline := ec_deadline c;
  ec_idempotency_key := None |}.

(** * Interactions *)

(** [InteractionKind]. *)
Inductive interaction_kind : Type :=
  | ToolDispatch | NodeLifecycle | RunLifecycle | KError | UserInput | LlmResponse
  | ProductDefined (name : string).

(** [InteractionStatus]. *)
Inductive interaction_status : Type :=
  | Pending | StOk | Failed (error : string) | Observed.

(** [Interaction]; a state hash is its 32 bytes. *)
Record interaction : Type := Interaction {
  in_id : uuid;
  in_parent_id : option uuid;
  in_trace_id : uuid;
  in_run_id : option uuid;
  in_node_id : option string;
  in_actor : actor;
  in_namespace : string;
  in_target : string;
  in_kind : interaction_kind;
  in_attributes : json;
  in_edge_rules_fired : list string;
  in_status : interaction_status;
  in_summary : option string;
  in_timestamp : datetime;
  in_step_index : Z;
  in_stream_id : string;
  in_state_before_hash : option (list Z);
  in_state_after_hash : option (list Z);
  in_references : list uuid;
  in_in_reply_to : option uuid;
}.

Definition kind_to_json (k : interaction_kind) : json :=
  match k with
  | ToolDispatch => JObject [("type", JString "tool_dispatch")]
  | NodeLifecycle => JObject [("type", JString "node_lifecycle")]
  | RunLifecycle => JObject [("type", JString "run_lifecycle")]
  | KError => JObject [("type", JString "error")]
  | UserInput => JObject [("type", JString "user_input")]
  | LlmResponse => JObject [("type", JString "llm_response")]
  | ProductDefined name => JObject [("name", JString name); ("type", JString "product_defined")]
  end.

Definition status_to_json (s : interaction_status) : json :=
  match s with
  | Pending => JObject [("type", JString "pending")]
  | StOk => JObject [("type", JString "ok")]
  | Failed e => JObject [("error", JString e); ("type", JString "failed")]
  | Observed => JObject [("type", JString "observed")]
  end.

(** [Option<T>] as JSON: [None] is [null]. *)
Definition opt_json {A} (f : A -> json) (o : option A) : json :=
  match o with Some a => f a | None => JNull end.

Definition actor_to_json (a : actor) : json :=
  JObject [("id", JString (actor_id a)); ("role", JString (role_to_string (role a)))].

Section Rendering.
Context (show_uuid : uuid -> string) (show_time : datetime -> string).

(** The derived serializations of [RunStatus], [NodeStatus], [ActiveNode] and
    [RunEvent]: members in the order of the declaration.  A value made from
    them ([serde_json::to_value]) sorts its members. *)
Definition run_status_members (s : run_status) : list (string * json) :=
  match s with
  | RsPending => [("status", JString "pending")]
  | RsRunning => [("status", JString "running")]
  | RsCompleted d output =>
      [("status", JString "completed"); ("duration_ms", JNumber (PosInt d)); ("output", output)]
  | RsFailed e d => [("status", JString "failed"); ("error", JString e); ("duration_ms", JNumber (PosInt d))]
  | RsCancelled r d =>
      [("status", JString "cancelled"); ("reason", JString r); ("duration_ms", JNumber (PosInt d))]
  end.

Definition node_status_members (s : node_status) : list (string * json) :=
  match s with
  | NsRunning => [("status", JString "running")]
  | NsRetrying a m =>
      [("status", JString "retrying"); ("attempt", JNumber (PosInt a)); ("max", JNumber (PosInt m))]
  | NsCompleted d => [("status", JString "completed"); ("duration_ms", JNumber (PosInt d))]
  | NsFailed e => [("status", JString "failed"); ("error", JString e)]
  end.

Definition active_node_to_json (n : active_node) : json :=
  JObject (obj_of_list
    [("node_id", JString (an_node_id n)); ("tool_name", JString (an_tool_name n));
     ("started_at", JString (show_time (an_started_at n)));
     ("status", JObject (obj_of_list (node_status_members (an_status n))))]).

Definition event_members (e : run_event) : list (string * json) :=
  let id u := JString (show_uuid u) in
  let time t := JString (show_time t) in
  ("type", JString (kind e)) ::
  match e with
  | EvRunStarted r wf ns p t =>
      [("run_id", id r); ("workflow_id", JString wf); ("namespace", JString ns);
       ("parent_id", opt_json id p); ("started_at", time t)]
  | EvNodeStart r n tool t =>
      [("run_id", id r); ("node_id", JString n); ("tool", JString tool); ("at", time t)]
  | EvNodeEnd r n st t =>
      [("run_id", id r); ("node_id", JString n); ("status", JObject (node_status_members st)); ("at", time t)]
  | EvTextDelta r n d => [("run_id", id r); ("node_id", JString n); ("delta", JString d)]
  | EvRunCompleted r d => [("run_id", id r); ("duration_ms", JNumber (PosInt d))]
  | EvRunFailed r d e => [("run_id", id r); ("duration_ms", JNumber (PosInt d)); ("error", JString e)]
  | EvRunCancelled r why => [("run_id", id r); ("reason", JString why)]
  | EvToolInvoked tool ns t ok =>
      [("tool", JString tool); ("namespace", JString ns); ("at", time t); ("success", JBool ok)]
  | EvScheduleFired j wf ns t =>
      [("job_id", id j); ("workflow", JString wf); ("namespace", JString ns); ("fired_at", time t)]
  | EvScheduleFailed j wf why => [("job_id", id j); ("workflow", JString wf); ("reason", JString why)]
  | EvIntentReplayed r wf n =>
      [("run_id", JString r); ("workflow", JString wf); ("replay_count", JNumber (PosInt n))]
  | EvJournalAppended n ty ns r =>
      [("sequence", JNumber (PosInt n)); ("event_type", JString ty); ("namespace", JString ns); ("run_id", id r)]
  end.

(** [Interaction::to_json]: the derived serialization, keys in byte order. *)
Definition to_json (i : interaction) : json :=
  let id u := JString (show_uuid u) in
  let hash h := JArray (map (fun b => JNumber (PosInt b)) h) in
  JObject (obj_of_list
    [("id", id (in_id i)); ("parent_id", opt_json id (in_parent_id i));
     ("trace_id", id (in_trace_id i)); ("run_id", opt_json id (in_run_id i));
     ("node_id", opt_json JString (in_node_id i)); ("actor", actor_to_json (in_actor i));
     ("namespace", JString (in_namespace i)); ("target", JString (in_target i));
     ("kind", kind_to_json (in_kind i)); ("attributes", in_attributes i);
     ("edge_rules_fired", JArray (map JString (in_edge_rules_fired i)));
     ("status", status_to_json (in_status i)); ("summary", opt_json JString (in_summary i));
     ("timestamp", JString (show_time (in_timestamp i)));
     ("step_index", JNumber (PosInt (in_step_index i))); ("stream_id", JString (in_stream_id i));
     ("state_before_hash", opt_json hash (in_state_before_hash i));
     ("state_after_hash", opt_json hash (in_state_after_hash i));
     ("references", JArray (map id (in_references i)));
     ("in_reply_to", opt_json id (in_in_reply_to i))]).
End Rendering.

(** * Facts *)

(** Only a terminal status ends a run, and no other status is terminal. *)
Lemma is_terminal_spec s : is_terminal s = false <-> s = RsPending \/ s = RsRunning.
Proof. destruct s; cbn; intuition discriminate. Qed.

(** A chain of children keeps the trace and the deadline, and drops the
    idempotency key. *)
Lemma child_chain c l :
  let d := fold_left (fun c ps => child c ps.1 ps.2) l c in
  ec_trace_id d = ec_trace_id c /\ ec_deadline d = ec_deadline c /\
  (l <> [] -> ec_idempotency_key d = None).
Proof.
  revert c. induction l as [|[p s] l IH]; intros c; [done|]. cbn [fold_left].
  destruct (IH (child c p s)) as (Ht & Hd & Hk). split_and!; [exact Ht|exact Hd|].
  intros _. destruct l; [done|]. by apply Hk.
Qed.

(** The context that [to_envelope] and the dispatcher put on an envelope comes
    back. *)
Lemma context_from_dispatch env c sess :
  env_trace_id env = ec_trace_id c -> env_deadline env = ec_deadline c ->
  env_idempotency_key env = ec_idempotency_key c ->
  obj_get "session_id" (env_metadata env) = Some (JString sess) ->
  let d := context_from_envelope env in
  ec_trace_id d = ec_trace_id c /\ ec_deadline d = ec_deadline c /\
  ec_idempotency_key d = ec_idempotency_key c /\ ec_session_id d = sess.
Proof. intros Ht Hd Hk Hs. unfold context_from_envelope. cbn. by rewrite Hs, Ht, Hd, Hk. Qed.
