(* ===== verification/Interactions.v ===== *)
(** Reading interactions back ([konf-runtime/src/interaction.rs],
    [Interaction::from_json]).

    The decoder is the one serde derives from the attributes of the types: a
    struct is an object, or an array of its fields in order; an enum with a tag
    is an object with a member [type], or an array that starts with the tag.
    Parsing ids and time stamps is the [uuid] and [chrono] crates': parameters.
    An error is [None]; its text is not modelled. *)

From S2P Require Import Prelude Json Envelope Scope Events.
From Stdlib Require Import Ascii.

Local Open Scope string_scope.
Local Open Scope list_scope.

(** * Values *)

Definition u64_of (v : json) : option Z :=
  match v with JNumber (PosInt n) => if (n <=? u64_max)%Z then Some n else None | _ => None end.

Definition byte_of (v : json) : option Z :=
  match v with JNumber (PosInt n) => if (n <=? 255)%Z then Some n else None | _ => None end.

Definition list_of {A} (f : json -> option A) (v : json) : option (list A) :=
  l ← as_array v; mapM f l.

(** [[u8; 32]]. *)
Definition hash_of (v : json) : option (list Z) :=
  l ← list_of byte_of v; if bool_decide (length l = 32) then Some l else None.

(** The fields of a struct.  An array must reach the first field with a default
    and must not go beyond the last. *)
Definition struct_fields (names : list string) (needed : nat) (v : json) : option (list (string * json)) :=
  match v with
  | JObject m => Some m
  | JArray l => if ((needed <=? length l)%nat && (length l <=? length names)%nat)%bool then Some (combine names l) else None
  | _ => None
  end.

Definition field {A} (m : list (string * json)) (k : string) (f : json -> option A) : option A :=
  obj_get k m ≫= f.

(** A field of type [Option]: absent or null is [None]. *)
Definition opt_field {A} (m : list (string * json)) (k : string) (f : json -> option A) : option (option A) :=
  match obj_get k m with None | Some JNull => Some None | Some v => Some <$> f v end.

(** A field with [#[serde(default)]]. *)
Definition default_field {A} (m : list (string * json)) (k : string) (f : json -> option A) (a : A) : option A :=
  match obj_get k m with None => Some a | Some v => f v end.

(** * Enums *)

(** The tag of an enum and what is left for its variant. *)
Definition tagged (v : json) : option (string * json) :=
  match v with
  | JObject m => tag ← field m "type" as_str; Some (tag, v)
  | JArray (JString tag :: rest) => Some (tag, JArray rest)
  | _ => None
  end.

(** A variant without fields ignores the members of an object. *)
Definition unit_variant {A} (a : A) (content : json) : option A :=
  match content with JObject _ | JArray [] => Some a | _ => None end.

Definition kind_of_json (v : json) : option interaction_kind :=
  '(tag, content) ← tagged v;
  if String.eqb tag "tool_dispatch" then unit_variant ToolDispatch content
  else if String.eqb tag "node_lifecycle" then unit_variant NodeLifecycle content
  else if String.eqb tag "run_lifecycle" then unit_variant RunLifecycle content
  else if String.eqb tag "error" then unit_variant KError content
  else if String.eqb tag "user_input" then unit_variant UserInput content
  else if String.eqb tag "llm_response" then unit_variant LlmResponse content
  else if String.eqb tag "product_defined" then
    m ← struct_fields ["name"] 1 content; ProductDefined <$> field m "name" as_str
  else None.

Definition status_of_json (v : json) : option interaction_status :=
  '(tag, content) ← tagged v;
  if String.eqb tag "pending" then unit_variant Pending content
  else if String.eqb tag "ok" then unit_variant StOk content
  else if String.eqb tag "failed" then
    m ← struct_fields ["error"] 1 content; Failed <$> field m "error" as_str
  else if String.eqb tag "observed" then unit_variant Observed content
  else None.

(** [ActorRole]: its name, or an object with the name as its one key. *)
Definition role_of_name (r : string) : option actor_role :=
  if String.eqb r "infra_admin" then Some InfraAdmin
  else if String.eqb r "product_admin" then Some ProductAdmin
  else if String.eqb r "user" then Some User
  else if String.eqb r "infra_agent" then Some InfraAgent
  else if String.eqb r "product_agent" then Some ProductAgent
  else if String.eqb r "user_agent" then Some UserAgent
  else if String.eqb r "system" then Some System
  else None.

Definition role_of_json (v : json) : option actor_role :=
  match v with
  | JString r | JObject [(r, JNull)] => role_of_name r
  | _ => None
  end.

Definition actor_of_json (v : json) : option actor :=
  m ← struct_fields ["id"; "role"] 2 v;
  i ← field m "id" as_str; r ← field m "role" role_of_json; Some (Actor i r).

(** * Interactions *)

Section Parsing.
Context (parse_uuid : string -> option uuid) (parse_time : string -> option datetime).

Definition uuid_of (v : json) : option uuid := as_str v ≫= parse_uuid.
Definition time_of (v : json) : option datetime := as_str v ≫= parse_time.

(** The fields in the order of the declaration; the last six have defaults. *)
Definition interaction_fields : list string :=
  ["id"; "parent_id"; "trace_id"; "run_id"; "node_id"; "actor"; "namespace"; "target"; "kind"; "attributes";
   "edge_rules_fired"; "status"; "summary"; "timestamp";
   "step_index"; "stream_id"; "state_before_hash"; "state_after_hash"; "references"; "in_reply_to"].

Definition from_fields (m : list (string * json)) : option interaction :=
  i ← field m "id" uuid_of;
  parent ← opt_field m "parent_id" uuid_of;
  trace ← field m "trace_id" uuid_of;
  run ← opt_field m "run_id" uuid_of;
  node ← opt_field m "node_id" as_str;
  who ← field m "actor" actor_of_json;
  ns ← field m "namespace" as_str;
  target ← field m "target" as_str;
  k ← field m "kind" kind_of_json;
  attributes ← field m "attributes" Some;
  fired ← field m "edge_rules_fired" (list_of as_str);
  status ← field m "status" status_of_json;
  summary ← opt_field m "summary" as_str;
  timestamp ← field m "timestamp" time_of;
  step ← default_field m "step_index" u64_of 0%Z;
  stream ← default_field m "stream_id" as_str EmptyString;
  before ← opt_field m "state_before_hash" hash_of;
  after ← opt_field m "state_after_hash" hash_of;
  references ← default_field m "references" (list_of uuid_of) [];
  reply_to ← opt_field m "in_reply_to" uuid_of;
  Some (Interaction i parent trace run node who ns target k attributes fired status summary timestamp step stream
          before after references reply_to).

(** [Interaction::from_json]. *)
Definition from_json (v : json) : option interaction :=
  m ← struct_fields interaction_fields 14 v; from_fields m.

(** * Theory *)

Lemma from_fields_ext m m' :
  (forall k, k ∈ interaction_fields -> obj_get k m = obj_get k m') -> from_fields m = from_fields m'.
Proof.
  intros He. unfold from_fields, field, opt_field, default_field.
  rewrite !He by (unfold interaction_fields; set_solver). done.
Qed.

Context (show_uuid : uuid -> string) (show_time : datetime -> string).
Context (uuid_back : forall u, parse_uuid (show_uuid u) = Some u).
Context (time_back : forall t, parse_time (show_time t) = Some t).

(** What the types of the fields guarantee. *)
Definition hash_ok (o : option (list Z)) : Prop :=
  forall h, o = Some h -> length h = 32%nat /\ Forall (fun b => 0 <= b <= 255)%Z h.
Definition typed (i : interaction) : Prop :=
  (0 <= in_step_index i <= u64_max)%Z /\ hash_ok (in_state_before_hash i) /\ hash_ok (in_state_after_hash i).

Lemma list_of_map {A} (f : json -> option A) (g : A -> json) l :
  (forall a, a ∈ l -> f (g a) = Some a) -> list_of f (JArray (map g l)) = Some l.
Proof.
  intros Hg. unfold list_of. cbn. apply mapM_Some. induction l as [|a l IH]; cbn; constructor.
  - apply Hg. by left.
  - apply IH. intros b Hb. apply Hg. by right.
Qed.

Lemma hash_back h : hash_ok (Some h) -> hash_of (JArray (map (fun b => JNumber (PosInt b)) h)) = Some h.
Proof.
  intros Hh. destruct (Hh h eq_refl) as [Hl Hb]. unfold hash_of. rewrite list_of_map.
  - cbn. by rewrite bool_decide_true.
  - intros b Hin. rewrite Forall_forall in Hb. specialize (Hb b Hin). cbn. destruct (Z.leb_spec b 255); [done|lia].
Qed.

Lemma role_back r : role_of_json (JString (role_to_string r)) = Some r.
Proof. by destruct r. Qed.

Lemma actor_back a : actor_of_json (actor_to_json a) = Some a.
Proof. destruct a as [i r]. unfold actor_of_json. cbn -[role_to_string role_of_json]. by rewrite role_back. Qed.

Lemma kind_back k : kind_of_json (kind_to_json k) = Some k.
Proof. by destruct k. Qed.

Lemma status_back s : status_of_json (status_to_json s) = Some s.
Proof. by destruct s. Qed.

Lemma opt_field_back {A} m k (f : json -> option A) (g : A -> json) o :
  obj_get k m = Some (opt_json g o) -> (forall a, o = Some a -> f (g a) = Some a) -> (forall a, g a <> JNull) ->
  opt_field m k f = Some o.
Proof.
  intros Hk Hf Hn. unfold opt_field. rewrite Hk. destruct o as [a|]; [|done]. cbn [opt_json].
  specialize (Hn a). destruct (g a) eqn:Hg; [done|..]; by rewrite <- Hg, Hf.
Qed.

Lemma uuid_of_back u : uuid_of (JString (show_uuid u)) = Some u.
Proof. apply uuid_back. Qed.
Lemma time_of_back t : time_of (JString (show_time t)) = Some t.
Proof. apply time_back. Qed.

Lemma field_back {A} m k (f : json -> option A) v a : obj_get k m = Some v -> f v = Some a -> field m k f = Some a.
Proof. intros Hk Hf. unfold field. by rewrite Hk. Qed.

Lemma default_back {A} m k (f : json -> option A) v a d :
  obj_get k m = Some v -> f v = Some a -> default_field m k f d = Some a.
Proof. intros Hk Hf. unfold default_field. by rewrite Hk. Qed.

Ltac read_field lem k fact := erewrite (lem _ _ k); [cbn [mbind option_bind]|reflexivity|fact..].

Lemma fields_back i m : typed i -> to_json show_uuid show_time i = JObject m -> from_fields m = Some i.
Proof.
  intros (Hstep & Hbefore & Hafter) Hm. injection Hm as <-. unfold from_fields.
  read_field @field_back "id" ltac:(apply uuid_of_back).
  read_field @opt_field_back "parent_id" ltac:(intros; first [apply uuid_of_back|done]).
  read_field @field_back "trace_id" ltac:(apply uuid_of_back).
  read_field @opt_field_back "run_id" ltac:(intros; first [apply uuid_of_back|done]).
  read_field @opt_field_back "node_id" ltac:(done).
  read_field @field_back "actor" ltac:(apply actor_back).
  read_field @field_back "namespace" ltac:(done).
  read_field @field_back "target" ltac:(done).
  read_field @field_back "kind" ltac:(apply kind_back).
  read_field @field_back "attributes" ltac:(done).
  read_field @field_back "edge_rules_fired" ltac:(by apply list_of_map).
  read_field @field_back "status" ltac:(apply status_back).
  read_field @opt_field_back "summary" ltac:(done).
  read_field @field_back "timestamp" ltac:(apply time_of_back).
  read_field @default_back "step_index" ltac:(cbn; destruct (Z.leb_spec (in_step_index i) u64_max); [done|lia]).
  read_field @default_back "stream_id" ltac:(done).
  read_field @opt_field_back "state_before_hash" ltac:(first [intros h Hh; apply hash_back; by rewrite <- Hh|done]).
  read_field @opt_field_back "state_after_hash" ltac:(first [intros h Hh; apply hash_back; by rewrite <- Hh|done]).
  read_field @default_back "references" ltac:(apply list_of_map; intros; apply uuid_of_back).
  read_field @opt_field_back "in_reply_to" ltac:(intros; first [apply uuid_of_back|done]).
  by destruct i.
Qed.

(** C39: an interaction read back from the payload it was stored as is the
    interaction, whatever members a later version of the schema has added to the
    object. *)
Theorem interaction_roundtrip i extra : typed i -> (forall k v, (k, v) ∈ extra -> k ∉ interaction_fields) ->
  exists m, to_json show_uuid show_time i = JObject m /\
    from_json (JObject (fold_left (fun m kv => obj_insert kv.1 kv.2 m) extra m)) = Some i.
Proof.
  intros Ht Hx. destruct (to_json show_uuid show_time i) as [| | | | |m] eqn:Hm; try done.
  exists m. split; [done|]. unfold from_json. cbn [struct_fields mbind option_bind].
  rewrite (from_fields_ext _ m); [by apply fields_back|].
  intros k Hk. clear Hm. revert m. induction extra as [|[k0 v0] l IH]; intros m; [done|]. cbn [fold_left fst snd].
  rewrite IH by (intros k1 v1 Hin; apply (Hx k1 v1); by right). apply obj_get_insert_ne.
  intros ->. by apply (Hx k v0); [left|].
Qed.
End Parsing.

(** * A record, concretely *)

Module Demo.

(** Unary ids, and time stamps with a sign. *)
Fixpoint unary (n : nat) : string := match n with O => EmptyString | S n => String "x" (unary n) end.
Definition show_id (u : uuid) : string := unary (N.to_nat u).
Definition parse_id (s : string) : option uuid := Some (N.of_nat (String.length s)).
Definition show_at (t : datetime) : string :=
  String (if (t <? 0)%Z then "-" else "+")%char (unary (Z.to_nat (Z.abs t))).
Definition parse_at (s : string) : option datetime :=
  match s with
  | String a n => let t := Z.of_nat (String.length n) in Some (if Ascii.eqb a "-" then - t else t)%Z
  | EmptyString => None
  end.

Lemma unary_length n : String.length (unary n) = n.
Proof. induction n; cbn; congruence. Qed.
Lemma id_back u : parse_id (show_id u) = Some u.
Proof. unfold parse_id, show_id. by rewrite unary_length, N2Nat.id. Qed.
Lemma at_back t : parse_at (show_at t) = Some t.
Proof.
  unfold parse_at, show_at. rewrite unary_length, Z2Nat.id by lia. f_equal.
  destruct (Z.ltb_spec t 0); cbn; lia.
Qed.

Definition sample : interaction := {|
  in_id := 1; in_parent_id := None; in_trace_id := 2; in_run_id := Some 3%N; in_node_id := Some "n";
  in_actor := {| actor_id := "u"; role := UserAgent |}; in_namespace := "konf:a"; in_target := "tool:echo";
  in_kind := ProductDefined "audit"; in_attributes := JNull; in_edge_rules_fired := ["capability"];
  in_status := Failed "no"; in_summary := None; in_timestamp := -4; in_step_index := 7; in_stream_id := "main";
  in_state_before_hash := Some (replicate 32 200%Z); in_state_after_hash := None;
  in_references := [4%N]; in_in_reply_to := None |}.

(** Two members of a later schema. *)
Definition later : list (string * json) := [("schema_version", JString "v2"); ("future_only_field", JArray [JNull])].

Lemma interaction_roundtrip_witness :
  exists m, to_json show_id show_at sample = JObject m /\
    from_json parse_id parse_at (JObject (fold_left (fun m kv => obj_insert kv.1 kv.2 m) later m)) = Some sample.
Proof.
  apply (interaction_roundtrip parse_id parse_at show_id show_at id_back at_back sample later).
  - split; [cbn; unfold u64_max; lia|]. split; [|done]. intros h [= <-]. split; [reflexivity|].
    repeat constructor; lia.
  - intros k v. unfold later. rewrite !elem_of_cons, elem_of_nil. intros [[= -> ->]|[[= -> ->]|[]]];
      apply (bool_decide_unpack _); vm_compute; done.
Defined.

(** Without a schema, the old payloads: the members with defaults may be
    missing, the others may not. *)
Example old_payloads :
  let m := match to_json show_id show_at sample with JObject m => m | _ => [] end in
  let without k := List.filter (fun kv => negb (String.eqb kv.1 k)) m in
  in_step_index <$> from_json parse_id parse_at (JObject (without "step_index")) = Some 0%Z /\
  in_run_id <$> from_json parse_id parse_at (JObject (without "run_id")) = Some None /\
  from_json parse_id parse_at (JObject (without "target")) = None.
Proof. vm_compute. done. Qed.
End Demo.
