(* ===== verification/Bisimulation.v ===== *)
(** Comparing two traces by the state their actors showed
    ([konf-runtime/src/bisimulation.rs], [konflux-substrate/src/projection.rs]).

    A trace is a list of interactions; only those that carry a state hash
    count.  The hash itself is the [sha2] crate's: a parameter. *)

From S2P Require Import Prelude Json Envelope Scope Events.
From Stdlib Require Import Setoid Morphisms.

Local Open Scope string_scope.
Local Open Scope list_scope.

(** * Projections *)

(** [Projection]: the bytes an actor shows of its state. *)
Record projection : Type := Projection { as_bytes : list Z }.

Definition projection_empty : projection := Projection [].
Definition projection_is_empty (p : projection) : bool :=
  match as_bytes p with [] => true | _ => false end.
Definition hash (sha256 : list Z -> list Z) (p : projection) : list Z := sha256 (as_bytes p).

(** * Comparing traces *)

(** [BisimulationResult]. *)
Inductive bisimulation_result : Type :=
  | Equivalent
  | Diverged (at_step : Z) (reason : string).

Definition is_stateful (i : interaction) : bool :=
  bool_decide (is_Some (in_state_before_hash i)) || bool_decide (is_Some (in_state_after_hash i)).

Definition stateful (trace : list interaction) : list interaction := List.filter is_stateful trace.

(** The loop over the two filtered traces. *)
Fixpoint compare_pairs (l : list (interaction * interaction)) : bisimulation_result :=
  match l with
  | [] => Equivalent
  | (a, b) :: rest =>
      if negb (bool_decide (in_state_before_hash a = in_state_before_hash b))
      then Diverged (in_step_index a) "state_before_hash mismatch"
      else if negb (bool_decide (in_state_after_hash a = in_state_after_hash b))
      then Diverged (in_step_index a) "state_after_hash mismatch"
      else compare_pairs rest
  end.

(** [bisimulate]. *)
Definition bisimulate (show_u64 : Z -> string) (trace_a trace_b : list interaction) : bisimulation_result :=
  let a := stateful trace_a in
  let b := stateful trace_b in
  if negb (Nat.eqb (length a) (length b)) then
    Diverged 0 (String.concat EmptyString
      ["different number of stateful interactions: "; show_u64 (Z.of_nat (length a)); " vs ";
       show_u64 (Z.of_nat (length b))])
  else compare_pairs (combine a b).

(** * Theory *)

(** What a trace shows: the hashes around each step that has any. *)
Definition hashes (i : interaction) : option (list Z) * option (list Z) :=
  (in_state_before_hash i, in_state_after_hash i).

Definition observed (trace : list interaction) : list (option (list Z) * option (list Z)) :=
  map hashes (stateful trace).

(** Two traces that show the same. *)
Definition bisimilar (a b : list interaction) : Prop := observed a = observed b.

#[export] Instance bisimilar_equivalence : Equivalence bisimilar.
Proof. split; unfold bisimilar; [intros ?|intros ?? ?|intros ??? ??]; congruence. Qed.

Lemma observed_app a b : observed (a ++ b) = observed a ++ observed b.
Proof. unfold observed, stateful. by rewrite List.filter_app, map_app. Qed.

(** Traces can be replaced by bisimilar ones piecewise. *)
#[export] Instance app_bisimilar : Proper (bisimilar ==> bisimilar ==> bisimilar) (@app interaction).
Proof. intros a a' Ha b b' Hb. unfold bisimilar in *. by rewrite !observed_app, Ha, Hb. Qed.

(** The first place where two sequences of steps show different hashes. *)
Definition first_difference (a b : list interaction) (n : nat) (x y : interaction) : Prop :=
  a !! n = Some x /\ b !! n = Some y /\ hashes x <> hashes y /\
  map hashes (take n a) = map hashes (take n b).

Lemma first_difference_cons x y a b n u v :
  hashes x = hashes y -> first_difference a b n u v -> first_difference (x :: a) (y :: b) (S n) u v.
Proof. intros Hxy (Ha & Hb & Hne & Heq). split_and!; [done..|]. cbn. by rewrite Hxy, Heq. Qed.

Lemma compare_pairs_spec a b : length a = length b ->
  match compare_pairs (combine a b) with
  | Equivalent => map hashes a = map hashes b
  | Diverged step _ => exists n x y, first_difference a b n x y /\ step = in_step_index x
  end.
Proof.
  revert b. induction a as [|x a IH]; intros [|y b] Hlen; try done. cbn.
  destruct (decide (in_state_before_hash x = in_state_before_hash y)) as [Hb|Hb].
  2:{ rewrite bool_decide_false by done. exists 0, x, y. split; [|done].
      split_and!; [done|done| |done]. unfold hashes. congruence. }
  rewrite (bool_decide_true _ Hb).
  destruct (decide (in_state_after_hash x = in_state_after_hash y)) as [Ha|Ha].
  2:{ rewrite bool_decide_false by done. exists 0, x, y. split; [|done].
      split_and!; [done|done| |done]. unfold hashes. congruence. }
  rewrite (bool_decide_true _ Ha). cbn [negb].
  assert (hashes x = hashes y) as Hh by (unfold hashes; congruence).
  injection Hlen as Hlen. specialize (IH b Hlen). destruct (compare_pairs _) as [|step why].
  - by rewrite IH, Hh.
  - destruct IH as (n & u & v & Hd & ->). exists (S n), u, v. split; [|done].
    by apply first_difference_cons.
Qed.

(** [bisimulate] decides whether two traces show the same states.  It
    answers [Equivalent] exactly when the hashes around the steps that have
    any are the same lists, and otherwise points at the first difference: a
    step of the first trace, or step 0 when the numbers of steps differ.
    Nothing else is compared: neither the step indices, nor who acted, nor
    whether one state is where the last one ended, all of which the comment of
    the function promises. *)
Theorem bisimulate_decides show_u64 a b :
  (bisimulate show_u64 a b = Equivalent <-> bisimilar a b) /\
  (forall step reason, bisimulate show_u64 a b = Diverged step reason ->
     (length (stateful a) <> length (stateful b) /\ step = 0%Z) \/
     exists n x y, first_difference (stateful a) (stateful b) n x y /\ step = in_step_index x).
Proof.
  unfold bisimulate, bisimilar, observed. destruct (Nat.eqb_spec (length (stateful a)) (length (stateful b))) as [Hl|Hl].
  - cbn [negb]. pose proof (compare_pairs_spec _ _ Hl) as Hc. destruct (compare_pairs _) as [|step why].
    + split; [done|]. intros ?? [=].
    + destruct Hc as (n & x & y & Hd & ->). split.
      * split; [done|]. intros Heq. destruct Hd as (Ha & Hb & Hne & _). destruct Hne.
        apply (f_equal (fun l => l !! n)) in Heq. rewrite !list_lookup_fmap, Ha, Hb in Heq. by apply (inj Some) in Heq.
      * intros ?? [= <- _]. right. by exists n, x, y.
  - cbn [negb]. split.
    + split; [done|]. intros Heq%(f_equal length). by rewrite !length_map in Heq.
    + intros ?? [= <- _]. by left.
Qed.

(** * Traces, concretely *)

Module Demo.
Definition turn (actor_name : string) (index : Z) (before after : list Z) : interaction := {|
  in_id := 1; in_parent_id := None; in_trace_id := 1; in_run_id := None; in_node_id := None;
  in_actor := {| actor_id := actor_name; role := User |}; in_namespace := "konf:a"; in_target := "tool:echo";
  in_kind := ToolDispatch; in_attributes := JNull; in_edge_rules_fired := []; in_status := StOk;
  in_summary := None; in_timestamp := 0; in_step_index := index; in_stream_id := "main";
  in_state_before_hash := Some before; in_state_after_hash := Some after;
  in_references := []; in_in_reply_to := None |}.

Local Open Scope Z_scope.

(** Other step indices, other actors, and states that do not follow each
    other: equivalent all the same. *)
Lemma unchained_traces_are_equivalent :
  bisimulate (fun _ => "n") [turn "u" 0 [1] [2]; turn "u" 1 [2] [3]] [turn "u" 5 [1] [2]; turn "v" 3 [2] [3]]
    = Equivalent /\
  bisimulate (fun _ => "n") [turn "u" 0 [1] [2]; turn "u" 1 [7] [3]] [turn "u" 0 [1] [2]; turn "u" 1 [7] [3]]
    = Equivalent /\
  bisimulate (fun _ => "n") [turn "u" 0 [1] [2]; turn "u" 4 [2] [3]] [turn "u" 0 [1] [2]; turn "u" 1 [2] [9]]
    = Diverged 4 "state_after_hash mismatch".
Proof. split_and!; reflexivity. Qed.
End Demo.
