(* ===== verification/Scheduler.v ===== *)
(** The durable scheduler ([konf-runtime/src/scheduler.rs]): timers in two redb
    tables, the poll loop that fires and reschedules them, cancellation, and
    the interleavings of the loop with its clients.

    redb, postcard, the [serde_json] printer and the [cron] crate are
    parameters.  Transactions are atomic; a failed one ends the tick it is part
    of.  Time stamps count nanoseconds, fire times milliseconds. *)

From S2P Require Import Prelude Json Envelope Scope Table Events.
From stdpp Require Import pretty.

Local Open Scope string_scope.
Local Open Scope list_scope.
Local Open Scope Z_scope.

(** * Timers *)

(** [MIN_FIXED_DELAY_MS], [MAX_FIXED_DELAY_MS]. *)
Definition MIN_FIXED_DELAY_MS : Z := 1000.
Definition MAX_FIXED_DELAY_MS : Z := 7 * 24 * 3600 * 1000.

(** [SchedulerError], the causes as their texts.  The operations below raise
    [Invalid] themselves; the other variants pass on failures of the database,
    of the codec and of the blocking task. *)
Inductive scheduler_error : Type :=
  | SchedStorage (cause : string)
  | SchedSerialization (cause : string)
  | Invalid (msg : string)
  | JobNotFound (id : uuid)
  | SchedJoin (msg : string).

(** [TimerMode]. *)
Inductive timer_mode : Type :=
  | Once
  | Fixed (delay_ms : Z)
  | Cron (expr : string).

(** [TimerRecord]. *)
Record timer_record : Type := TimerRecord {
  tr_job_id : uuid;
  tr_workflow : string;
  tr_input : json;
  tr_namespace : string;
  tr_capabilities : list string;
  tr_actor : actor;
  tr_mode : timer_mode;
  tr_created_at : datetime;
  tr_created_by : string;
}.

(** [StoredTimer]. *)
Record stored_timer : Type := StoredTimer {
  st_job_id : uuid;
  st_workflow : string;
  st_input_json : string;
  st_namespace : string;
  st_capabilities : list string;
  st_actor : actor;
  st_mode : timer_mode;
  st_created_at_micros : Z;
  st_created_by : string;
}.

(** [JobSummary]. *)
Record job_summary : Type := JobSummary {
  js_job_id : uuid;
  js_workflow : string;
  js_namespace : string;
  js_next_fire_at : datetime;
  js_mode : timer_mode;
  js_created_at : datetime;
  js_created_by : string;
}.

(** What a fire does outside the tables: the two bus events, and the
    invocation of the workflow tool on an envelope in a task of its own. *)
Inductive sched_event : Type :=
  | Emitted (e : run_event)
  | Spawned (job : uuid) (env : envelope json).

(** [DateTime + Duration::milliseconds(d)] and [timestamp_millis().max(0)]. *)
Definition add_millis (t : datetime) (d : Z) : datetime := t + d * 1000000.
Definition fire_at_ms (t : datetime) : Z := Z.max (t / 1000000) 0.

(** What a fire reads from outside: the clock three times (for the event, the
    envelope and the next fire time) and two fresh ids. *)
Record fire_env : Type := FireEnv {
  fe_fired_at : datetime;
  fe_emitted_at : datetime;
  fe_next_from : datetime;
  fe_trace : uuid;
  fe_id : uuid;
}.

(** * The scheduler *)

Section Scheduler.
Context {T I B C : Type}.
Context `{LogTable T (Z * uuid) B} `{LogTable I uuid Z}.
Context (encode : stored_timer -> B) (decode : B -> option stored_timer).
Context (json_to_string : json -> string) (json_of_string : string -> option json).
Context (cron_parse : string -> result string C) (upcoming : C -> datetime -> option datetime).
Context (show_uuid : uuid -> string).

(** [TIMERS] and [TIMERS_BY_ID]. *)
Record scheduler : Type := Scheduler { timers : T; timers_by_id : I }.

(** [RedbScheduler::new] on an empty database. *)
Definition scheduler_new : scheduler := Scheduler log_empty log_empty.

(** [StoredTimer::from_record] and [into_record]. *)
Definition from_record (r : timer_record) : stored_timer := {|
  st_job_id := tr_job_id r;
  st_workflow := tr_workflow r;
  st_input_json := json_to_string (tr_input r);
  st_namespace := tr_namespace r;
  st_capabilities := tr_capabilities r;
  st_actor := tr_actor r;
  st_mode := tr_mode r;
  st_created_at_micros := tr_created_at r / 1000;
  st_created_by := tr_created_by r |}.

Definition into_record (s : stored_timer) : option timer_record :=
  input ← json_of_string (st_input_json s);
  Some {|
    tr_job_id := st_job_id s;
    tr_workflow := st_workflow s;
    tr_input := input;
    tr_namespace := st_namespace s;
    tr_capabilities := st_capabilities s;
    tr_actor := st_actor s;
    tr_mode := st_mode s;
    tr_created_at := st_created_at_micros s * 1000;
    tr_created_by := st_created_by s |}.

Definition with_mode (mode : timer_mode) (r : timer_record) : timer_record := {|
  tr_job_id := tr_job_id r; tr_workflow := tr_workflow r; tr_input := tr_input r;
  tr_namespace := tr_namespace r; tr_capabilities := tr_capabilities r; tr_actor := tr_actor r;
  tr_mode := mode; tr_created_at := tr_created_at r; tr_created_by := tr_created_by r |}.

(** [validate_record]. *)
Definition validate_record (r : timer_record) : result scheduler_error unit :=
  if String.eqb (tr_workflow r) EmptyString then Err (Invalid "workflow id is empty")
  else if String.eqb (tr_namespace r) EmptyString then Err (Invalid "namespace is empty")
  else Ok tt.

(** [insert_new]: one transaction over both tables. *)
Definition insert_new (r : timer_record) (run_at : datetime) (db : scheduler) : uuid * scheduler :=
  let ms := fire_at_ms run_at in
  (tr_job_id r,
   {| timers := log_insert (timers db) (ms, tr_job_id r) (encode (from_record r));
      timers_by_id := log_insert (timers_by_id db) (tr_job_id r) ms |}).

(** [schedule_once]. *)
Definition schedule_once (r : timer_record) (run_at : datetime) (db : scheduler)
  : result scheduler_error (uuid * scheduler) :=
  _ ← validate_record r;
  Ok (insert_new (with_mode Once r) run_at db).

(** [schedule_fixed]. *)
Definition schedule_fixed (now : datetime) (r : timer_record) (delay_ms : Z) (db : scheduler)
  : result scheduler_error (uuid * scheduler) :=
  if negb ((MIN_FIXED_DELAY_MS <=? delay_ms) && (delay_ms <=? MAX_FIXED_DELAY_MS)) then
    Err (Invalid (String.concat EmptyString
      ["delay_ms="; pretty delay_ms; " out of range ("; pretty MIN_FIXED_DELAY_MS; "–";
       pretty MAX_FIXED_DELAY_MS; ")"]))
  else
    _ ← validate_record r;
    Ok (insert_new (with_mode (Fixed delay_ms) r) (add_millis now delay_ms) db).

(** [schedule_cron]. *)
Definition schedule_cron (now : datetime) (r : timer_record) (expr : string) (db : scheduler)
  : result scheduler_error (uuid * scheduler) :=
  _ ← validate_record r;
  schedule ← map_err (fun e => Invalid (String.append "cron: " e)) (cron_parse expr);
  run_at ← ok_or (upcoming schedule now) (Invalid "cron expression has no upcoming fire time");
  Ok (insert_new (with_mode (Cron expr) r) run_at db).

(** [cancel]: whether the id was there. *)
Definition cancel (id : uuid) (db : scheduler) : bool * scheduler :=
  match log_get (timers_by_id db) id with
  | Some fire_at =>
      (true, {| timers := log_remove (timers db) (fire_at, id);
                timers_by_id := log_remove (timers_by_id db) id |})
  | None => (false, db)
  end.

(** [list]. *)
Fixpoint list_loop (prefix : option string) (l : list ((Z * uuid) * B)) : option (list job_summary) :=
  match l with
  | [] => Some []
  | ((fire_at, _), b) :: l' =>
      stored ← decode b;
      if match prefix with Some p => negb (starts_with (st_namespace stored) p) | None => false end
      then list_loop prefix l'
      else
        record ← into_record stored;
        rest ← list_loop prefix l';
        Some ({| js_job_id := tr_job_id record; js_workflow := tr_workflow record;
                 js_namespace := tr_namespace record; js_next_fire_at := fire_at * 1000000;
                 js_mode := tr_mode record; js_created_at := tr_created_at record;
                 js_created_by := tr_created_by record |} :: rest)
  end.

Definition list_jobs (prefix : option string) (db : scheduler) : option (list job_summary) :=
  list_loop prefix (log_iter (timers db)).

(** [len] and [is_empty]. *)
Definition len (db : scheduler) : Z := Z.of_nat (length (log_iter (timers db))).
Definition is_empty (db : scheduler) : bool := len db =? 0.

(** [collect_due]: the range [(0, [])..(now + 1, [])], whose upper bound is
    below every key with that fire time. *)
Fixpoint collect_loop (l : list ((Z * uuid) * B)) : option (list (Z * timer_record)) :=
  match l with
  | [] => Some []
  | ((fire_at, _), b) :: l' =>
      stored ← decode b;
      record ← into_record stored;
      rest ← collect_loop l';
      Some ((fire_at, record) :: rest)
  end.

Definition in_due_range (now_ms : Z) (kb : (Z * uuid) * B) : bool :=
  kb.1.1 <? saturating_add_u64 now_ms 1.

Definition collect_due (now_ms : Z) (db : scheduler) : option (list (Z * timer_record)) :=
  collect_loop (List.filter (in_due_range now_ms) (log_iter (timers db))).

(** [next_fire_after]. *)
Definition next_fire_after (now : datetime) (mode : timer_mode) : option datetime :=
  match mode with
  | Once => None
  | Fixed delay_ms => Some (add_millis now delay_ms)
  | Cron expr =>
      match cron_parse expr with Ok schedule => upcoming schedule now | Err _ => None end
  end.

(** [reschedule]: one transaction. *)
Definition reschedule (old_fire_at : Z) (r : timer_record) (next_at : option datetime)
    (db : scheduler) : scheduler :=
  let id := tr_job_id r in
  let removed := log_remove (timers db) (old_fire_at, id) in
  match fire_at_ms <$> next_at with
  | Some ms => {| timers := log_insert removed (ms, id) (encode (from_record r));
                  timers_by_id := log_insert (timers_by_id db) id ms |}
  | None => {| timers := removed; timers_by_id := log_remove (timers_by_id db) id |}
  end.

(** The part of [fire_and_reschedule] before its transaction: the events, and
    the next fire time when the timer is to be rescheduled or deleted.  The
    runtime may be gone, and the workflow may not be registered. *)
Definition fire (alive : bool) (registered : string -> bool) (e : fire_env) (r : timer_record)
  : list sched_event * option (option datetime) :=
  let tool_name := String.append "workflow:" (tr_workflow r) in
  if negb alive then ([], None)
  else if negb (registered tool_name) then
    ([Emitted (EvScheduleFailed (tr_job_id r) (tr_workflow r)
        (String.concat EmptyString ["workflow '"; tr_workflow r; "' not found in registry"]))], None)
  else
    ([Emitted (EvScheduleFired (tr_job_id r) (tr_workflow r) (tr_namespace r) (fe_fired_at e));
      Spawned (tr_job_id r)
        (for_tool_dispatch (fe_id e) (fe_emitted_at e) tool_name (tr_input r) (tr_capabilities r)
           (fe_trace e) (tr_namespace r) (actor_id (tr_actor r))
           (String.append "scheduler:" (show_uuid (tr_job_id r))))],
     Some (next_fire_after (fe_next_from e) (tr_mode r))).

(** [fire_and_reschedule] run without interruption. *)
Definition fire_and_reschedule (alive : bool) (registered : string -> bool) (e : fire_env)
    (old_fire_at : Z) (r : timer_record) (db : scheduler) : list sched_event * scheduler :=
  match fire alive registered e r with
  | (evs, Some next_at) => (evs, reschedule old_fire_at r next_at db)
  | (evs, None) => (evs, db)
  end.

(** [tick] run without interruption; [envs] is what each fire reads. *)
Fixpoint tick_loop (alive : bool) (registered : string -> bool) (envs : uuid -> fire_env)
    (due : list (Z * timer_record)) (db : scheduler) : list sched_event * scheduler :=
  match due with
  | [] => ([], db)
  | (old, r) :: due' =>
      let '(evs, db1) := fire_and_reschedule alive registered (envs (tr_job_id r)) old r db in
      let '(evs', db2) := tick_loop alive registered envs due' db1 in
      (evs ++ evs', db2)
  end.

Definition tick (alive : bool) (registered : string -> bool) (now : datetime)
    (envs : uuid -> fire_env) (db : scheduler) : option (list sched_event * scheduler) :=
  due ← collect_due (fire_at_ms now) db;
  Some (tick_loop alive registered envs due db).

(** * The scheduler among its clients

    The poll loop holds the timers it has collected and works through them;
    between its transactions clients schedule and cancel.  A storage error, a
    shutdown or a crash drops what the loop holds and keeps the tables. *)

Record sched_state : Type := SchedState {
  ss_db : scheduler;
  ss_pending : list (Z * timer_record);
  ss_commit : option (Z * timer_record * option datetime);
  ss_log : list sched_event;
}.

Definition sched_init : sched_state := SchedState scheduler_new [] None [].

(** The jobs the loop holds. *)
Definition held (st : sched_state) : list uuid :=
  map (fun fr => tr_job_id fr.2) (ss_pending st) ++
  match ss_commit st with Some (_, r, _) => [tr_job_id r] | None => [] end.

(** An input that survives printing and parsing. *)
Definition storable_input (r : timer_record) : Prop :=
  json_of_string (json_to_string (tr_input r)) = Some (tr_input r).

(** A job id no timer of the tables or of the loop has. *)
Definition fresh_job (id : uuid) (st : sched_state) : Prop :=
  log_get (timers_by_id (ss_db st)) id = None /\ (id ∉ held st).

(** The client operations that add a timer; each draws a fresh job id. *)
Inductive schedules : scheduler -> timer_record -> scheduler -> Prop :=
  | schedules_once r run_at db id db' :
      schedule_once r run_at db = Ok (id, db') -> schedules db r db'
  | schedules_fixed now r delay db id db' :
      schedule_fixed now r delay db = Ok (id, db') -> schedules db r db'
  | schedules_cron now r expr db id db' :
      schedule_cron now r expr db = Ok (id, db') -> schedules db r db'.

(** What a step does. *)
Inductive sched_label : Type :=
  | LSchedule (id : uuid) | LCancel (id : uuid) | LCollect | LFire (id : uuid) | LCommit (id : uuid) | LDrop.

Inductive sched_step (alive : bool) (registered : string -> bool)
  : sched_label -> sched_state -> sched_state -> Prop :=
  | SSchedule st r db' :
      schedules (ss_db st) r db' -> storable_input r -> fresh_job (tr_job_id r) st ->
      sched_step alive registered (LSchedule (tr_job_id r)) st
        (SchedState db' (ss_pending st) (ss_commit st) (ss_log st))
  | SCancel st id :
      sched_step alive registered (LCancel id) st
        (SchedState (snd (cancel id (ss_db st))) (ss_pending st) (ss_commit st) (ss_log st))
  | SCollect st now due :
      ss_pending st = [] -> ss_commit st = None -> collect_due now (ss_db st) = Some due ->
      sched_step alive registered LCollect st (SchedState (ss_db st) due None (ss_log st))
  | SFire st e f r rest :
      ss_pending st = (f, r) :: rest -> ss_commit st = None ->
      sched_step alive registered (LFire (tr_job_id r)) st
        (SchedState (ss_db st) rest
           (match snd (fire alive registered e r) with Some next => Some (f, r, next) | None => None end)
           (ss_log st ++ fst (fire alive registered e r)))
  | SCommit st f r next :
      ss_commit st = Some (f, r, next) ->
      sched_step alive registered (LCommit (tr_job_id r)) st
        (SchedState (reschedule f r next (ss_db st)) (ss_pending st) None (ss_log st))
  | SDrop st :
      sched_step alive registered LDrop st (SchedState (ss_db st) [] None (ss_log st)).

Inductive sched_run (alive : bool) (registered : string -> bool)
  : list sched_label -> sched_state -> sched_state -> Prop :=
  | SRunNil st : sched_run alive registered [] st st
  | SRunCons l ls st st1 st2 :
      sched_step alive registered l st st1 -> sched_run alive registered ls st1 st2 ->
      sched_run alive registered (l :: ls) st st2.

(** The timer with an id, as the tables hold it. *)
Definition timer_of (db : scheduler) (id : uuid) : option (Z * timer_record) :=
  f ← log_get (timers_by_id db) id;
  b ← log_get (timers db) (f, id);
  s ← decode b;
  r ← into_record s;
  Some (f, r).

(** A record as a round trip through the tables leaves it. *)
Definition cut (r : timer_record) : timer_record := {|
  tr_job_id := tr_job_id r; tr_workflow := tr_workflow r; tr_input := tr_input r;
  tr_namespace := tr_namespace r; tr_capabilities := tr_capabilities r; tr_actor := tr_actor r;
  tr_mode := tr_mode r; tr_created_at := tr_created_at r / 1000 * 1000;
  tr_created_by := tr_created_by r |}.

Definition settled (r : timer_record) : Prop := storable_input r /\ cut r = r.

(** The two tables agree, and every value is the settled record of its key. *)
Record sched_consistent (db : scheduler) : Prop := {
  sc_index f id : is_Some (log_get (timers db) (f, id)) <-> log_get (timers_by_id db) id = Some f;
  sc_value f id b : log_get (timers db) (f, id) = Some b ->
    exists s r, decode b = Some s /\ into_record s = Some r /\ tr_job_id r = id /\ settled r;
}.

(** What the loop holds is settled, and still stored, if at all, under the
    fire time it was collected with. *)
Definition holds_for (db : scheduler) (f : Z) (r : timer_record) : Prop :=
  settled r /\
  (log_get (timers_by_id db) (tr_job_id r) = None \/
   log_get (timers_by_id db) (tr_job_id r) = Some f).

Record sched_invariant (st : sched_state) : Prop := {
  si_db : sched_consistent (ss_db st);
  si_held : NoDup (held st);
  si_pending f r : (f, r) ∈ ss_pending st -> holds_for (ss_db st) f r;
  si_commit f r next : ss_commit st = Some (f, r, next) -> holds_for (ss_db st) f r;
}.

(** The timer a key of the primary table holds. *)
Definition timer_at (kb : (Z * uuid) * B) : option (Z * timer_record) :=
  s ← decode kb.2; pair kb.1.1 <$> into_record s.

(** ** The contract of a fire

    What a due timer must cause and what must be left of it, stated on its
    record alone. *)

(** The runtime is there and knows the workflow. *)
Definition fires (alive : bool) (registered : string -> bool) (r : timer_record) : bool :=
  alive && registered (String.append "workflow:" (tr_workflow r)).

(** A timer that fires announces it and starts the workflow with the record's
    input, under the record's namespace, actor and capabilities; one whose
    workflow is unknown announces the failure; without a runtime nothing
    happens. *)
Definition fire_events (alive : bool) (registered : string -> bool) (e : fire_env) (r : timer_record)
  : list sched_event :=
  if fires alive registered r then
    [Emitted (EvScheduleFired (tr_job_id r) (tr_workflow r) (tr_namespace r) (fe_fired_at e));
     Spawned (tr_job_id r) {|
       env_id := fe_id e; env_trace_id := fe_trace e; env_parent_id := None;
       env_actor_id := actor_id (tr_actor r); env_namespace := tr_namespace r;
       env_capabilities := map Capability (tr_capabilities r);
       env_target := String.append "workflow:" (tr_workflow r);
       env_payload_type := "tool_input"; env_payload := tr_input r;
       env_emitted_at := fe_emitted_at e; env_step_index := 0;
       env_stream_id := String.append "scheduler:" (show_uuid (tr_job_id r));
       env_deadline := None; env_idempotency_key := None; env_qos_class := None;
       env_references := None; env_metadata := [] |}]
  else if alive then
    [Emitted (EvScheduleFailed (tr_job_id r) (tr_workflow r)
       (String.concat EmptyString ["workflow '"; tr_workflow r; "' not found in registry"]))]
  else [].

(** A timer that fires is gone when it was to fire once, moves by its delay
    when that is fixed, and moves to the next time of its expression, if there
    is one; a timer that does not fire stays where it is. *)
Definition timer_left (alive : bool) (registered : string -> bool) (e : fire_env)
    (f : Z) (r : timer_record) : option (Z * timer_record) :=
  if fires alive registered r then
    match tr_mode r with
    | Once => None
    | Fixed delay_ms => Some (Z.max ((fe_next_from e + delay_ms * 1000000) / 1000000) 0, r)
    | Cron expr =>
        match cron_parse expr with
        | Ok schedule =>
            match upcoming schedule (fe_next_from e) with
            | Some next => Some (Z.max (next / 1000000) 0, r)
            | None => None
            end
        | Err _ => None
        end
    end
  else Some (f, r).

(** * Theory *)

Context (codec : forall s, decode (encode s) = Some s).
Context {ltI : relation uuid}.
Context `{!LogTableLaws T (Z * uuid) B pair_lt} `{!LogTableLaws I uuid Z ltI}.

Lemma into_from r : storable_input r -> into_record (from_record r) = Some (cut r).
Proof. intros Hr. unfold into_record. cbn. rewrite Hr. reflexivity. Qed.

Lemma cut_settled r : storable_input r -> settled (cut r).
Proof.
  intros Hr. split; [exact Hr|]. unfold cut. cbn. f_equal. by rewrite Z.div_mul.
Qed.

Lemma settled_into r : settled r -> into_record (from_record r) = Some r.
Proof. intros [Hs Hc]. rewrite into_from by done. by rewrite Hc. Qed.

Lemma timer_of_None db id :
  sched_consistent db -> timer_of db id = None <-> log_get (timers_by_id db) id = None.
Proof.
  intros Hc. unfold timer_of. destruct (log_get (timers_by_id db) id) as [f|] eqn:Hf; [|done].
  split; [|done]. cbn. destruct (proj2 (sc_index db Hc f id) Hf) as [b Hb]. rewrite Hb.
  destruct (sc_value db Hc f id b Hb) as (s & r & Hs & Hr & _). cbn. rewrite Hs. cbn. by rewrite Hr.
Qed.

Lemma timer_of_Some db id f r :
  sched_consistent db -> timer_of db id = Some (f, r) ->
  log_get (timers_by_id db) id = Some f /\ tr_job_id r = id /\ settled r.
Proof.
  intros Hc. unfold timer_of. destruct (log_get (timers_by_id db) id) as [f'|]; [|done]. cbn.
  destruct (log_get (timers db) (f', id)) as [b|] eqn:Hb; [|done]. cbn.
  destruct (sc_value db Hc f' id b Hb) as (s & r' & Hs & Hr & Hid & Hset).
  rewrite Hs. cbn. rewrite Hr. by intros [= <- <-].
Qed.

(** The timer behind a key of the primary table. *)
Lemma timer_of_key db f id b :
  sched_consistent db -> log_get (timers db) (f, id) = Some b ->
  exists s r, decode b = Some s /\ into_record s = Some r /\ tr_job_id r = id /\
    settled r /\ timer_of db id = Some (f, r).
Proof.
  intros Hc Hb. destruct (sc_value db Hc f id b Hb) as (s & r & Hs & Hr & Hid & Hset).
  exists s, r. split_and!; [done..|]. unfold timer_of.
  rewrite (proj1 (sc_index db Hc f id)) by by eexists. cbn. rewrite Hb. cbn. rewrite Hs. cbn. by rewrite Hr.
Qed.

(** ** Writing one timer

    Both [insert_new] and [reschedule] remove at most the old key of a job and
    write at most one new key for it. *)

Lemma put_consistent db t old id ms r :
  sched_consistent db -> storable_input r -> tr_job_id r = id ->
  (log_get (timers_by_id db) id = None \/ log_get (timers_by_id db) id = Some old) ->
  (forall k, log_get t k = if decide ((old, id) = k) then None else log_get (timers db) k) ->
  let db' := {| timers := log_insert t (ms, id) (encode (from_record r));
                timers_by_id := log_insert (timers_by_id db) id ms |} in
  sched_consistent db' /\
  (forall id', timer_of db' id' = if decide (id = id') then Some (ms, cut r) else timer_of db id').
Proof.
  intros Hc Hst Hid Hold Ht db'. pose proof (cut_settled r Hst) as Hset.
  assert (forall f id', id <> id' -> log_get (timers db') (f, id') = log_get (timers db) (f, id')) as Hother.
  { intros f id' Hne. cbn. rewrite log_get_insert, decide_False, Ht, decide_False; [done|congruence..]. }
  assert (forall f, f <> ms -> log_get (timers db') (f, id) = None) as Hself.
  { intros f Hne. cbn. rewrite log_get_insert, decide_False by congruence. rewrite Ht.
    destruct (decide ((old, id) = (f, id))) as [|Hof]; [done|].
    destruct (log_get (timers db) (f, id)) eqn:Hb; [|done].
    assert (log_get (timers_by_id db) id = Some f) as Hf by (apply (sc_index db Hc); by eexists).
    destruct Hold; congruence. }
  assert (log_get (timers db') (ms, id) = Some (encode (from_record r))) as Hnew.
  { cbn. by rewrite log_get_insert, decide_True. }
  split; [split|].
  - intros f id'. cbn [timers_by_id db']. rewrite log_get_insert. destruct (decide (id = id')) as [<-|Hne].
    + destruct (decide (f = ms)) as [->|Hf].
      * rewrite Hnew. split; [done|]. by eexists.
      * rewrite Hself by done. split; [by intros [? ?]|congruence].
    + rewrite Hother by done. apply (sc_index db Hc).
  - intros f id' b. destruct (decide (id = id')) as [<-|Hne].
    + destruct (decide (f = ms)) as [->|Hf]; [|by rewrite Hself].
      rewrite Hnew. intros [= <-]. exists (from_record r), (cut r).
      split_and!; [apply codec|by apply into_from|done|done].
    + rewrite Hother by done. apply (sc_value db Hc).
  - intros id'. unfold timer_of at 1. cbn [timers_by_id db']. rewrite log_get_insert.
    destruct (decide (id = id')) as [<-|Hne].
    + cbn [mbind option_bind]. rewrite Hnew. cbn [mbind option_bind]. rewrite codec. cbn [mbind option_bind].
      by rewrite into_from.
    + unfold timer_of. destruct (log_get (timers_by_id db) id') as [f|]; [|done].
      cbn [mbind option_bind]. by rewrite Hother.
Qed.

Lemma drop_consistent db old id :
  sched_consistent db ->
  (log_get (timers_by_id db) id = None \/ log_get (timers_by_id db) id = Some old) ->
  let db' := {| timers := log_remove (timers db) (old, id); timers_by_id := log_remove (timers_by_id db) id |} in
  sched_consistent db' /\
  (forall id', timer_of db' id' = if decide (id = id') then None else timer_of db id').
Proof.
  intros Hc Hold db'.
  assert (forall f id', id <> id' -> log_get (timers db') (f, id') = log_get (timers db) (f, id')) as Hother.
  { intros f id' Hne. cbn. rewrite log_get_remove, decide_False; [done|congruence]. }
  assert (forall f, log_get (timers db') (f, id) = None) as Hself.
  { intros f. cbn. rewrite log_get_remove. destruct (decide ((old, id) = (f, id))) as [|Hof]; [done|].
    destruct (log_get (timers db) (f, id)) eqn:Hb; [|done].
    assert (log_get (timers_by_id db) id = Some f) as Hf by (apply (sc_index db Hc); by eexists).
    destruct Hold; congruence. }
  split; [split|].
  - intros f id'. cbn [timers_by_id db']. rewrite log_get_remove. destruct (decide (id = id')) as [<-|Hne].
    + rewrite Hself. split; [by intros [? ?]|done].
    + rewrite Hother by done. apply (sc_index db Hc).
  - intros f id' b. destruct (decide (id = id')) as [<-|Hne]; [by rewrite Hself|].
    rewrite Hother by done. apply (sc_value db Hc).
  - intros id'. unfold timer_of at 1. cbn [timers_by_id db']. rewrite log_get_remove.
    destruct (decide (id = id')) as [<-|Hne]; [done|].
    unfold timer_of. destruct (log_get (timers_by_id db) id') as [f|]; [|done].
    cbn [mbind option_bind]. by rewrite Hother.
Qed.

Lemma insert_new_consistent db r run_at :
  sched_consistent db -> storable_input r -> log_get (timers_by_id db) (tr_job_id r) = None ->
  sched_consistent (snd (insert_new r run_at db)) /\
  (forall id, timer_of (snd (insert_new r run_at db)) id =
     if decide (tr_job_id r = id) then Some (fire_at_ms run_at, cut r) else timer_of db id).
Proof.
  intros Hc Hst Hn.
  apply (put_consistent db (timers db) (fire_at_ms run_at)); [done..|by left|].
  intros k. destruct (decide _) as [<-|]; [|done].
  destruct (log_get (timers db) _) eqn:Hb; [|done].
  assert (log_get (timers_by_id db) (tr_job_id r) = Some (fire_at_ms run_at)) as Hf
    by (apply (sc_index db Hc); by eexists). congruence.
Qed.

Lemma cancel_consistent db id :
  sched_consistent db ->
  sched_consistent (snd (cancel id db)) /\
  fst (cancel id db) = bool_decide (is_Some (timer_of db id)) /\
  (forall id', timer_of (snd (cancel id db)) id' = if decide (id = id') then None else timer_of db id').
Proof.
  intros Hc. pose proof (timer_of_None db id Hc) as Hn. unfold cancel.
  destruct (log_get (timers_by_id db) id) as [f|] eqn:Hf; cbn [fst snd].
  - destruct (drop_consistent db f id Hc) as [Hc' Ht]; [by right|]. split_and!; [done| |done].
    symmetry. apply bool_decide_true. destruct (timer_of db id) eqn:E; [by eexists|].
    discriminate (proj1 Hn eq_refl).
  - split_and!; [done| |].
    + rewrite (proj2 Hn eq_refl). by rewrite bool_decide_false by by intros [? ?].
    + intros id'. destruct (decide (id = id')) as [<-|]; [|done]. by apply Hn.
Qed.

Lemma reschedule_consistent db f r next :
  sched_consistent db -> holds_for db f r ->
  sched_consistent (reschedule f r next db) /\
  (forall id, timer_of (reschedule f r next db) id =
     if decide (tr_job_id r = id) then (fun n => (fire_at_ms n, r)) <$> next else timer_of db id).
Proof.
  intros Hc [Hset Hold]. unfold reschedule. destruct next as [n|]; cbn [fmap option_fmap option_map].
  - destruct (put_consistent db (log_remove (timers db) (f, tr_job_id r)) f (tr_job_id r) (fire_at_ms n) r)
      as [Hc' Ht]; [done|apply Hset|done|done|intros k; apply log_get_remove|].
    split; [done|]. intros id. rewrite Ht. destruct Hset as [_ ->]. done.
  - destruct (drop_consistent db f (tr_job_id r) Hc Hold) as [Hc' Ht]. by split.
Qed.

(** ** Collecting *)

Lemma collect_loop_timers db l :
  sched_consistent db -> (forall kb, kb ∈ l -> kb ∈ log_iter (timers db)) ->
  collect_loop l = Some (omap timer_at l).
Proof.
  intros Hc. induction l as [|[[f id] b] l IH]; intros Hl; [done|].
  assert (log_get (timers db) (f, id) = Some b) as Hb by (apply log_iter_get, Hl; by left).
  destruct (sc_value db Hc f id b Hb) as (s & r & Hs & Hr & _).
  cbn [collect_loop]. rewrite Hs. cbn [mbind option_bind]. rewrite Hr. cbn [mbind option_bind].
  rewrite IH by (intros kb Hk; apply Hl; by right). cbn. unfold timer_at at 2. cbn.
  rewrite Hs. cbn. by rewrite Hr.
Qed.

Lemma collect_due_spec db now_ms :
  sched_consistent db ->
  exists due, collect_due now_ms db = Some due /\
    StronglySorted pair_lt (map (fun fr => (fr.1, tr_job_id fr.2)) due) /\
    NoDup (map (fun fr => tr_job_id fr.2) due) /\
    (forall f r, (f, r) ∈ due <->
       timer_of db (tr_job_id r) = Some (f, r) /\ f < saturating_add_u64 now_ms 1).
Proof.
  intros Hc. unfold collect_due.
  rewrite (collect_loop_timers db) by (done || by intros kb [? _]%elem_of_bfilter).
  eexists. split; [done|].
  set (l := bfilter (in_due_range now_ms) (log_iter (timers db))).
  assert (forall f r, (f, r) ∈ omap timer_at l <-> timer_of db (tr_job_id r) = Some (f, r) /\ f < saturating_add_u64 now_ms 1) as Hmem.
  { intros f r. rewrite list_elem_of_omap. split.
    - intros ([[f' id] b] & [Hk%log_iter_get Hdue]%elem_of_bfilter & Ht).
      destruct (timer_of_key db f' id b Hc Hk) as (s & r' & Hs & Hr & Hid & _ & Hof).
      unfold timer_at in Ht. cbn in Ht. rewrite Hs in Ht. cbn in Ht. rewrite Hr in Ht.
      injection Ht as -> ->. rewrite Hid. split; [done|].
      by apply Z.ltb_lt.
    - intros [Hof Hle]. pose proof (timer_of_Some db _ f r Hc Hof) as (Hf & _ & _).
      destruct (proj2 (sc_index db Hc f (tr_job_id r)) Hf) as [b Hb].
      exists ((f, tr_job_id r), b). split.
      + apply elem_of_bfilter. split; [by apply log_iter_get|].
        by apply Z.ltb_lt.
      + destruct (timer_of_key db _ _ _ Hc Hb) as (s & r' & Hs & Hr & _ & _ & Hof').
        unfold timer_at. cbn. rewrite Hs. cbn. rewrite Hr. cbn. congruence. }
  assert (StronglySorted pair_lt ((fun fr => (fr.1, tr_job_id fr.2)) <$> omap timer_at l)) as Hs.
  { apply (sorted_omap pair_lt fst); [|apply (sorted_bfilter pair_lt), log_iter_sorted].
    intros [[f id] b] [f' r] [Hk%log_iter_get _]%elem_of_bfilter Ht.
    destruct (timer_of_key db f id b Hc Hk) as (s & r' & Hd & Hr & Hid & _).
    unfold timer_at in Ht. cbn in Ht. rewrite Hd in Ht. cbn in Ht. rewrite Hr in Ht. cbn in Ht |- *.
    injection Ht as <- <-. by rewrite Hid. }
  split_and!; [exact Hs| |done].
  change (NoDup ((fun fr => tr_job_id fr.2) <$> omap timer_at l)).
  apply NoDup_fmap_2_strong.
  - intros [f r] [f' r'] Hr Hr' Heq. cbn in Heq. apply Hmem in Hr as [Hr _], Hr' as [Hr' _].
    rewrite Heq in Hr. congruence.
  - apply (sorted_NoDup pair_lt) in Hs. by eapply NoDup_fmap_1.
Qed.

(** ** A tick *)

Lemma fire_meets_contract alive registered e f r :
  fst (fire alive registered e r) = fire_events alive registered e r /\
  match snd (fire alive registered e r) with
  | Some next_at => (fun n => (fire_at_ms n, r)) <$> next_at
  | None => Some (f, r)
  end = timer_left alive registered e f r.
Proof.
  unfold fire, fire_events, timer_left, fires. destruct alive; [|done].
  cbn [negb andb]. destruct (registered _); [|done]. split; [reflexivity|].
  cbn [snd]. destruct (tr_mode r) as [|d|expr]; [done|done|]. cbn [next_fire_after].
  destruct (cron_parse expr) as [c|]; [|done]. by destruct (upcoming c _).
Qed.

Lemma fire_and_reschedule_spec alive registered e db f r :
  sched_consistent db -> timer_of db (tr_job_id r) = Some (f, r) ->
  let '(evs, db') := fire_and_reschedule alive registered e f r db in
  evs = fire_events alive registered e r /\ sched_consistent db' /\
  (forall id, timer_of db' id =
     if decide (tr_job_id r = id) then timer_left alive registered e f r else timer_of db id).
Proof.
  intros Hc Hof. unfold fire_and_reschedule.
  destruct (fire_meets_contract alive registered e f r) as [<- <-].
  destruct (timer_of_Some db _ f r Hc Hof) as (Hf & _ & Hset).
  destruct (fire alive registered e r) as [evs [next|]]; cbn [fst snd].
  - destruct (reschedule_consistent db f r next Hc) as [Hc' Ht]; [split; [done|by right]|].
    split_and!; [done|done|]. intros id. rewrite Ht. by destruct (decide _).
  - split_and!; [done|done|]. intros id. destruct (decide _) as [<-|]; done.
Qed.

Lemma tick_loop_spec alive registered envs due db :
  sched_consistent db -> NoDup (map (fun fr => tr_job_id fr.2) due) ->
  (forall f r, (f, r) ∈ due -> timer_of db (tr_job_id r) = Some (f, r)) ->
  let '(evs, db') := tick_loop alive registered envs due db in
  evs = concat (map (fun fr => fire_events alive registered (envs (tr_job_id fr.2)) fr.2) due) /\
  sched_consistent db' /\
  (forall f r, (f, r) ∈ due ->
     timer_of db' (tr_job_id r) = timer_left alive registered (envs (tr_job_id r)) f r) /\
  (forall id, (id ∉ map (fun fr => tr_job_id fr.2) due) -> timer_of db' id = timer_of db id).
Proof.
  revert db. induction due as [|[f r] due IH]; intros db Hc Hnd Hin; cbn [tick_loop map concat].
  { split_and!; [done|done|by intros f r ?%not_elem_of_nil|done]. }
  apply NoDup_cons in Hnd as [Hr Hnd].
  pose proof (fire_and_reschedule_spec alive registered (envs (tr_job_id r)) db f r Hc) as Hfire.
  destruct (fire_and_reschedule _ _ _ _ _ _) as [evs db1].
  destruct Hfire as (Hev & Hc1 & Ht1); [apply Hin; by left|].
  assert (forall f' r', (f', r') ∈ due -> tr_job_id r <> tr_job_id r') as Hne.
  { intros f' r' Hd Heq. apply Hr. cbn in Hr. cbn. rewrite Heq.
    apply (list_elem_of_fmap_2 (fun fr => tr_job_id fr.2) due (f', r') Hd). }
  specialize (IH db1 Hc1 Hnd). destruct (tick_loop _ _ _ _ _) as [evs' db2].
  destruct IH as (Hev' & Hc2 & Hdue & Hrest).
  { intros f' r' Hd. rewrite Ht1, decide_False by (by eapply Hne). apply Hin. by right. }
  split_and!; [by rewrite Hev, Hev'|done| |].
  - intros f' r' [[= -> ->]|Hd]%elem_of_cons; [|by apply Hdue].
    rewrite Hrest by done. by rewrite Ht1, decide_True.
  - intros id Hid. rewrite not_elem_of_cons in Hid. destruct Hid as [Hid Hid'].
    rewrite Hrest by done. rewrite Ht1, decide_False; [done|]. cbn in Hid. congruence.
Qed.

(** ** The invariant *)

Lemma schedules_put db r db' :
  schedules db r db' ->
  exists r' run_at, db' = snd (insert_new r' run_at db) /\ tr_job_id r' = tr_job_id r /\
    tr_input r' = tr_input r.
Proof.
  destruct 1 as [r run_at db id db' Hs|now r delay db id db' Hs|now r expr db id db' Hs].
  - unfold schedule_once in Hs. destruct (validate_record r) as [[]|]; [|done]. cbn in Hs.
    injection Hs as <- <-. by exists (with_mode Once r), run_at.
  - unfold schedule_fixed in Hs. destruct (negb _); [done|].
    destruct (validate_record r) as [[]|]; [|done]. cbn in Hs.
    injection Hs as <- <-. by exists (with_mode (Fixed delay) r), (add_millis now delay).
  - unfold schedule_cron in Hs. destruct (validate_record r) as [[]|]; [|done]. cbn in Hs.
    destruct (cron_parse expr) as [c|]; [|done]. cbn in Hs.
    destruct (upcoming c now) as [run_at|]; [|done]. cbn in Hs.
    injection Hs as <- <-. by exists (with_mode (Cron expr) r), run_at.
Qed.

Lemma schedules_consistent db r db' :
  sched_consistent db -> schedules db r db' -> storable_input r ->
  log_get (timers_by_id db) (tr_job_id r) = None ->
  sched_consistent db' /\
  (forall id, tr_job_id r <> id ->
     log_get (timers_by_id db') id = log_get (timers_by_id db) id) /\
  is_Some (timer_of db' (tr_job_id r)).
Proof.
  intros Hc (r' & run_at & -> & Hid & Hinp)%schedules_put Hst Hn.
  assert (storable_input r') as Hst' by (unfold storable_input; by rewrite Hinp).
  destruct (insert_new_consistent db r' run_at Hc Hst') as [Hc' Ht]; [by rewrite Hid|].
  split_and!; [done| |].
  - intros id Hne. cbn. rewrite log_get_insert, decide_False; [done|congruence].
  - rewrite Ht, Hid, decide_True by done. by eexists.
Qed.

Lemma new_sched_consistent : sched_consistent scheduler_new.
Proof.
  split.
  - intros f id. cbn. rewrite !log_get_empty. by split; [intros []|].
  - intros f id b. cbn. by rewrite log_get_empty.
Qed.

Lemma held_pending st f r : (f, r) ∈ ss_pending st -> tr_job_id r ∈ held st.
Proof.
  intros Hd. apply elem_of_app. left.
  apply (list_elem_of_fmap_2 (fun fr => tr_job_id fr.2) (ss_pending st) (f, r) Hd).
Qed.

Lemma holds_for_ext db db' f r :
  log_get (timers_by_id db') (tr_job_id r) = log_get (timers_by_id db) (tr_job_id r) ->
  holds_for db f r -> holds_for db' f r.
Proof. unfold holds_for. by intros ->. Qed.

Lemma cancel_by_id db id id' :
  log_get (timers_by_id (snd (cancel id db))) id' =
    if decide (id = id') then None else log_get (timers_by_id db) id'.
Proof.
  unfold cancel. destruct (log_get (timers_by_id db) id) as [f|] eqn:Hf; cbn.
  - apply log_get_remove.
  - destruct (decide (id = id')) as [<-|]; done.
Qed.

Lemma reschedule_by_id db f r next id :
  tr_job_id r <> id ->
  log_get (timers_by_id (reschedule f r next db)) id = log_get (timers_by_id db) id.
Proof.
  intros Hne. unfold reschedule. destruct next; cbn.
  - by rewrite log_get_insert, decide_False.
  - by rewrite log_get_remove, decide_False.
Qed.

Lemma holds_for_cancel db id f r : holds_for db f r -> holds_for (snd (cancel id db)) f r.
Proof.
  intros [Hset Hold]. split; [done|]. rewrite cancel_by_id. destruct (decide _); [by left|done].
Qed.

Lemma sched_step_invariant alive registered l st st' :
  sched_step alive registered l st st' -> sched_invariant st -> sched_invariant st'.
Proof.
  intros Hstep [Hc Hh Hp Hm]. destruct Hstep as
    [st r db' Hs Hst [Hn Hf]|st id|st now due Hp0 Hc0 Hcol|st e f r rest Hp0 Hc0|st f r next Hc0|st].
  - destruct (schedules_consistent _ r db' Hc Hs Hst Hn) as (Hc' & Hother & _).
    split; cbn; [done|done| |].
    + intros f r' Hd. apply holds_for_ext with (ss_db st); [|by apply Hp].
      apply Hother. intros Heq. apply Hf. rewrite Heq. by eapply held_pending.
    + intros f r' next Hcm. apply holds_for_ext with (ss_db st); [|by eapply Hm].
      apply Hother. intros Heq. apply Hf. unfold held. rewrite Hcm, Heq. apply elem_of_app. right. by left.
  - destruct (cancel_consistent (ss_db st) id Hc) as [Hc' _].
    split; cbn; [done|done| |].
    + intros f r Hd. by apply holds_for_cancel, Hp.
    + intros f r next Hcm. by eapply holds_for_cancel, Hm.
  - destruct (collect_due_spec (ss_db st) now Hc) as (due' & Hd & _ & Hnd & Hmem).
    rewrite Hcol in Hd. injection Hd as <-. split; cbn; [done| | |done].
    + unfold held. cbn. by rewrite app_nil_r.
    + intros f r [Hof _]%Hmem. destruct (timer_of_Some _ _ f r Hc Hof) as (Hf & _ & Hset).
      split; [done|by right].
  - assert (holds_for (ss_db st) f r) as Hr by (apply Hp; rewrite Hp0; by left).
    assert (forall g q, (g, q) ∈ rest -> holds_for (ss_db st) g q) as Hrest.
    { intros g q Hq. apply Hp. rewrite Hp0. by right. }
    unfold held in Hh. rewrite Hp0, Hc0, app_nil_r in Hh. cbn in Hh. apply NoDup_cons in Hh as [Hnr Hh].
    destruct (snd (fire alive registered e r)) as [next|]; split; cbn; try done.
    + unfold held. cbn. apply NoDup_app. split_and!; [done| |apply NoDup_singleton].
      intros x Hx ->%list_elem_of_singleton. done.
    + by intros g q n [= <- <- _].
    + unfold held. cbn. by rewrite app_nil_r.
  - assert (holds_for (ss_db st) f r) as Hr by by eapply Hm.
    destruct (reschedule_consistent (ss_db st) f r next Hc Hr) as [Hc' _].
    unfold held in Hh. rewrite Hc0 in Hh. apply NoDup_app in Hh as (Hnd & Hdis & _).
    split; cbn; [done| | |done].
    + unfold held. cbn. by rewrite app_nil_r.
    + intros g q Hq. apply holds_for_ext with (ss_db st); [|by apply Hp].
      apply reschedule_by_id. intros Heq. eapply Hdis; [|by left]. rewrite Heq.
      apply (list_elem_of_fmap_2 (fun fr => tr_job_id fr.2) (ss_pending st) (g, q) Hq).
  - split; cbn; [done|constructor|by intros f r ?%not_elem_of_nil|done].
Qed.

Lemma sched_init_invariant : sched_invariant sched_init.
Proof.
  split; cbn; [exact new_sched_consistent|constructor|by intros f r ?%not_elem_of_nil|done].
Qed.

(** ** Cancelled timers *)

Lemma collect_not_gone db id now due f r :
  sched_consistent db -> log_get (timers_by_id db) id = None ->
  collect_due now db = Some due -> (f, r) ∈ due -> tr_job_id r <> id.
Proof.
  intros Hc Hn Hcol Hd <-. destruct (collect_due_spec db now Hc) as (due' & Hd' & _ & _ & Hmem).
  rewrite Hcol in Hd'. injection Hd' as <-. apply Hmem in Hd as [Hof _].
  destruct (timer_of_Some db _ f r Hc Hof) as (Hf & _). congruence.
Qed.

(** A job that neither the tables nor the loop hold stays so. *)
Lemma gone_step alive registered l st st' id :
  sched_step alive registered l st st' -> sched_invariant st -> fresh_job id st ->
  l <> LSchedule id -> fresh_job id st' /\ l <> LFire id.
Proof.
  intros Hstep [Hc Hh Hp Hm] [Hn Hheld] Hl. destruct Hstep as
    [st r db' Hs Hst [Hn' Hf]|st id'|st now due Hp0 Hc0 Hcol|st e f r rest Hp0 Hc0|st f r next Hc0|st].
  - destruct (schedules_consistent _ r db' Hc Hs Hst Hn') as (_ & Hother & _).
    split; [|done]. split; [|done]. cbn. rewrite Hother; [done|]. intros <-. done.
  - split; [|done]. split; [|done]. cbn. rewrite cancel_by_id. by destruct (decide _).
  - split; [|done]. split; [done|]. unfold held. cbn. rewrite app_nil_r.
    intros ([f r] & -> & Hd)%list_elem_of_fmap. by eapply (collect_not_gone (ss_db st)).
  - assert (tr_job_id r <> id) as Hne.
    { intros <-. apply Hheld. eapply held_pending. rewrite Hp0. by left. }
    split; [|congruence]. split; [done|]. unfold held in *. rewrite Hp0, Hc0 in Hheld. cbn in *.
    rewrite app_nil_r, not_elem_of_cons in Hheld. destruct Hheld as [_ Hrest].
    rewrite not_elem_of_app. split; [done|].
    destruct (snd _); [by rewrite not_elem_of_cons; split; [congruence|apply not_elem_of_nil]|apply not_elem_of_nil].
  - unfold held in Hheld. rewrite Hc0, not_elem_of_app, not_elem_of_cons in Hheld.
    destruct Hheld as (Hrest & Hne & _). split; [|done]. split.
    + cbn. by rewrite reschedule_by_id.
    + unfold held. cbn. by rewrite app_nil_r.
  - split; [|done]. split; [done|]. apply not_elem_of_nil.
Qed.

Lemma sched_run_invariant alive registered ls st st' :
  sched_run alive registered ls st st' -> sched_invariant st -> sched_invariant st'.
Proof. induction 1 as [|l ls st st1 st2 Hs Hr IH]; [done|]. intros Hi. eapply IH, sched_step_invariant; done. Qed.

Lemma gone_run alive registered ls st st' id :
  sched_run alive registered ls st st' -> sched_invariant st -> fresh_job id st ->
  (LSchedule id ∉ ls) -> fresh_job id st' /\ (LFire id ∉ ls).
Proof.
  induction 1 as [st|l ls st st1 st2 Hs Hr IH]; intros Hi Hg Hl.
  - split; [done|apply not_elem_of_nil].
  - rewrite not_elem_of_cons in Hl. destruct Hl as [Hl Hls].
    destruct (gone_step _ _ _ _ _ id Hs Hi Hg) as [Hg1 Hnf]; [congruence|].
    destruct (IH (sched_step_invariant _ _ _ _ _ Hs Hi) Hg1 Hls) as [Hg2 Hnf'].
    split; [done|]. rewrite not_elem_of_cons. split; [congruence|done].
Qed.

(** * The scheduler's contract *)

(** C17: in every state that the poll loop and its clients can reach, in any
    interleaving and with any loss of the loop's state, the two tables agree
    key for key, each value decodes to the record of the job it is stored
    under, no job is held twice, and every job the loop holds is stored, if it
    still is, under the fire time it was collected with. *)
Theorem scheduler_invariant alive registered ls st :
  sched_run alive registered ls sched_init st -> sched_invariant st.
Proof. intros Hr. eapply sched_run_invariant; [exact Hr|exact sched_init_invariant]. Qed.


(** Cancelling a timer that the poll loop does not hold is final: in every
    continuation that does not schedule the job anew, the job never fires and
    is never stored again. *)
Theorem cancelled_timer_never_fires alive registered ls st id ls' st' :
  sched_run alive registered ls sched_init st -> (id ∉ held st) ->
  sched_run alive registered ls'
    (SchedState (snd (cancel id (ss_db st))) (ss_pending st) (ss_commit st) (ss_log st)) st' ->
  (LSchedule id ∉ ls') ->
  (LFire id ∉ ls') /\ timer_of (ss_db st') id = None.
Proof.
  intros Hr Hh Hr' Hls. pose proof (sched_run_invariant _ _ _ _ _ Hr sched_init_invariant) as Hi.
  pose proof (sched_step_invariant alive registered _ _ _ (SCancel alive registered st id) Hi) as Hi'.
  destruct (gone_run _ _ _ _ _ id Hr' Hi') as [[Hn _] Hnf].
  - split; [|done]. cbn. by rewrite cancel_by_id, decide_True.
  - done.
  - split; [done|]. apply timer_of_None; [|done].
    apply (si_db st'). by eapply sched_run_invariant.
Qed.

(** Scheduling on every branch: an empty workflow or namespace, a delay
    outside one second to seven days and a bad cron expression are refused
    with nothing stored; otherwise the timer is stored under its job id at its
    first fire time, for a fixed delay exactly that delay from now, and every
    other timer is untouched. *)
Theorem schedule_spec now r db :
  sched_consistent db -> storable_input r -> log_get (timers_by_id db) (tr_job_id r) = None ->
  let valid := negb (String.eqb (tr_workflow r) EmptyString) && negb (String.eqb (tr_namespace r) EmptyString) in
  let stored mode at_ res := exists db', res = Ok (tr_job_id r, db') /\ sched_consistent db' /\
    (forall id, timer_of db' id =
       if decide (tr_job_id r = id) then Some (fire_at_ms at_, cut (with_mode mode r)) else timer_of db id) in
  (forall run_at,
     if valid then stored Once run_at (schedule_once r run_at db)
     else exists e, schedule_once r run_at db = Err e) /\
  (forall delay,
     if (1000 <=? delay) && (delay <=? 604800000) && valid
     then stored (Fixed delay) (now + delay * 1000000) (schedule_fixed now r delay db)
     else exists e, schedule_fixed now r delay db = Err e) /\
  (forall expr,
     match cron_parse expr with
     | Ok c => match upcoming c now with
               | Some at_ => if valid then stored (Cron expr) at_ (schedule_cron now r expr db)
                             else exists e, schedule_cron now r expr db = Err e
               | None => exists e, schedule_cron now r expr db = Err e
               end
     | Err _ => exists e, schedule_cron now r expr db = Err e
     end).
Proof.
  intros Hc Hst Hn valid stored.
  assert (forall mode at_, stored mode at_ (Ok (insert_new (with_mode mode r) at_ db))) as Hput.
  { intros mode at_. exists (snd (insert_new (with_mode mode r) at_ db)). split; [done|].
    by apply (insert_new_consistent db (with_mode mode r) at_). }
  assert (validate_record r = Ok tt <-> valid = true) as Hv.
  { unfold validate_record, valid. by destruct (String.eqb _ _), (String.eqb _ _). }
  assert (forall e, validate_record r = Err e -> valid = false) as Hv'.
  { intros e He. apply not_true_iff_false. rewrite <- Hv, He. done. }
  split_and!.
  - intros run_at. unfold schedule_once. destruct (validate_record r) as [[]|e] eqn:He.
    + rewrite (proj1 Hv eq_refl). apply Hput.
    + rewrite (Hv' e) by done. by exists e.
  - intros delay. unfold schedule_fixed.
    change (MIN_FIXED_DELAY_MS <=? delay) with (1000 <=? delay).
    change (delay <=? MAX_FIXED_DELAY_MS) with (delay <=? 604800000).
    destruct ((1000 <=? delay) && (delay <=? 604800000))%bool; cbn [negb andb]; [|by eexists].
    destruct (validate_record r) as [[]|e] eqn:He.
    + rewrite (proj1 Hv eq_refl). apply Hput.
    + rewrite (Hv' e) by done. by exists e.
  - intros expr. unfold schedule_cron. destruct (validate_record r) as [[]|e] eqn:He; cbn [mbind result_bind].
    + rewrite (proj1 Hv eq_refl). destruct (cron_parse expr) as [c|e]; cbn [map_err mbind result_bind]; [|by eexists].
      destruct (upcoming c now) as [at_|]; cbn [ok_or mbind result_bind]; [|by eexists]. apply Hput.
    + rewrite (Hv' e) by done. destruct (cron_parse expr) as [c|e']; [|by exists e].
      destruct (upcoming c now); by exists e.
Qed.
End Scheduler.

(** * A scheduler over finite maps

    One repeating timer with a minute's delay, scheduled at time zero, with a
    text codec that knows the one input used. *)

Module Demo.

Definition to_text (_ : json) : string := "{}".
Definition of_text (s : string) : option json := if String.eqb s "{}" then Some (JObject []) else None.
Definition parse_cron (s : string) : result string unit :=
  if String.eqb s "* * * * * * *" then Ok tt else Err "bad expression".
Definition next_second (_ : unit) (now : datetime) : option datetime := Some (add_millis now 1000).
Definition show (_ : uuid) : string := "7".

Abbreviation db_type := (scheduler (T := gmap (Z * N) stored_timer) (I := gmap N Z)).
Abbreviation Step := (sched_step (T := gmap (Z * N) stored_timer) (I := gmap N Z)
  id Some to_text of_text parse_cron next_second show true (fun _ => true)).
Abbreviation Run := (sched_run (T := gmap (Z * N) stored_timer) (I := gmap N Z)
  id Some to_text of_text parse_cron next_second show true (fun _ => true)).

Definition job : timer_record := {|
  tr_job_id := 7; tr_workflow := "wf"; tr_input := JObject []; tr_namespace := "konf:n";
  tr_capabilities := ["*"]; tr_actor := {| actor_id := "u"; role := User |}; tr_mode := Once;
  tr_created_at := 0; tr_created_by := "test" |}.

Definition empty : db_type := scheduler_new.
Definition env0 : fire_env := FireEnv 60000000000 60000000000 60000000000 1 2.

(** The timer at 60000 ms, collected, cancelled, fired, rescheduled. *)
Definition db1 : db_type :=
  match schedule_fixed id to_text 0 job 60000 empty with Ok (_, db) => db | Err _ => empty end.
Definition due1 : list (Z * timer_record) := [(60000, with_mode (Fixed 60000) job)].
Definition st0 : sched_state := sched_init (T := gmap (Z * N) stored_timer) (I := gmap N Z).
Definition st1 : sched_state := SchedState db1 [] None [].
Definition st2 : sched_state := SchedState db1 due1 None [].
Definition st3 : sched_state := SchedState (snd (cancel 7 db1)) due1 None [].
Definition st4 : sched_state :=
  SchedState (snd (cancel 7 db1)) [] (Some (60000, with_mode (Fixed 60000) job, Some 120000000000))
    (fst (fire parse_cron next_second show true (fun _ => true) env0 (with_mode (Fixed 60000) job))).
Definition st5 : sched_state :=
  SchedState
    (reschedule id to_text 60000 (with_mode (Fixed 60000) job) (Some 120000000000) (snd (cancel 7 db1)))
    [] None (ss_log st4).

Lemma step_schedule : Step (LSchedule 7) st0 st1.
Proof.
  refine (SSchedule id Some to_text of_text parse_cron next_second show true (fun _ => true) st0 job db1 _ _ _).
  - apply (schedules_fixed _ _ _ _ 0 job 60000 _ 7%N). vm_compute. reflexivity.
  - reflexivity.
  - split; [vm_compute; reflexivity|]. apply not_elem_of_nil.
Qed.

Lemma step_collect : Step LCollect st1 st2.
Proof.
  refine (SCollect id Some to_text of_text parse_cron next_second show true (fun _ => true) st1 60000 due1 _ _ _);
    [reflexivity..|]. vm_compute. reflexivity.
Qed.

Lemma step_cancel : Step (LCancel 7) st2 st3.
Proof. exact (SCancel id Some to_text of_text parse_cron next_second show true (fun _ => true) st2 7). Qed.

Lemma step_fire : Step (LFire 7) st3 st4.
Proof.
  refine (SFire id Some to_text of_text parse_cron next_second show true (fun _ => true) st3 env0 60000
            (with_mode (Fixed 60000) job) [] _ _); reflexivity.
Qed.

Lemma step_commit : Step (LCommit 7) st4 st5.
Proof.
  refine (SCommit id Some to_text of_text parse_cron next_second show true (fun _ => true) st4 60000
            (with_mode (Fixed 60000) job) (Some 120000000000) _); reflexivity.
Qed.

(** A cancellation that falls between the collection of a due timer and
    its reschedule is reported as done and has no effect: the timer fires and
    is stored again. *)
Theorem cancel_races_with_tick :
  exists ls st, Run ls st0 st /\ ls = [LSchedule 7; LCollect; LCancel 7; LFire 7; LCommit 7] /\
    fst (cancel 7 (ss_db st2)) = true /\
    fst <$> timer_of Some of_text (ss_db st) 7 = Some 120000.
Proof.
  exists [LSchedule 7; LCollect; LCancel 7; LFire 7; LCommit 7], st5. split_and!.
  - eapply SRunCons; [exact step_schedule|]. eapply SRunCons; [exact step_collect|].
    eapply SRunCons; [exact step_cancel|]. eapply SRunCons; [exact step_fire|].
    eapply SRunCons; [exact step_commit|]. apply SRunNil.
  - reflexivity.
  - vm_compute. reflexivity.
  - vm_compute. reflexivity.
Qed.

Lemma timer_codec_id (s : stored_timer) : Some (id s) = Some s.
Proof. done. Qed.

Lemma run_to_st2 : Run [LSchedule 7; LCollect] st0 st2.
Proof.
  eapply SRunCons; [exact step_schedule|]. eapply SRunCons; [exact step_collect|]. apply SRunNil.
Qed.

Lemma scheduler_invariant_witness :
  Run [LSchedule 7; LCollect] st0 st2 /\ sched_invariant Some to_text of_text st2.
Proof.
  split; [exact run_to_st2|].
  exact (scheduler_invariant id Some to_text of_text parse_cron next_second show timer_codec_id
           true (fun _ => true) _ st2 run_to_st2).
Defined.

Lemma db1_consistent : sched_consistent Some to_text of_text db1.
Proof.
  pose proof (sched_run_invariant id Some to_text of_text parse_cron next_second show timer_codec_id
                true (fun _ => true) _ _ _ run_to_st2) as Hi.
  apply (si_db _ _ _ st2), Hi. apply (sched_init_invariant Some to_text of_text).
Qed.


(** Cancelled before it is collected, the timer is gone after the next tick. *)
Lemma cancelled_timer_never_fires_witness :
  timer_of Some of_text (snd (cancel 7 db1)) 7 = None.
Proof.
  refine (proj2 (cancelled_timer_never_fires id Some to_text of_text parse_cron next_second show timer_codec_id
    true (fun _ => true) [LSchedule 7] st1 7 [LCollect] (SchedState (snd (cancel 7 db1)) [] None []) _ _ _ _)).
  - eapply SRunCons; [exact step_schedule|]. apply SRunNil.
  - apply not_elem_of_nil.
  - eapply SRunCons; [|apply SRunNil].
    refine (SCollect id Some to_text of_text parse_cron next_second show true (fun _ => true)
              (SchedState (snd (cancel 7 db1)) [] None []) 60000 [] _ _ _); [reflexivity..|].
    vm_compute. reflexivity.
  - rewrite list_elem_of_singleton. discriminate.
Defined.

Lemma schedule_spec_witness :
  exists db', schedule_fixed id to_text 0 job 60000 empty = Ok (7%N, db') /\
    (forall e, schedule_fixed id to_text 0 job 10 empty <> Ok e).
Proof.
  destruct (schedule_spec id Some to_text of_text parse_cron next_second timer_codec_id 0 job empty
              (new_sched_consistent Some to_text of_text) eq_refl eq_refl) as (_ & Hf & _).
  destruct (Hf 60000) as (db' & Hok & _). exists db'. split; [exact Hok|].
  intros e. destruct (Hf 10) as [e' He]. rewrite He. discriminate.
Defined.
End Demo.
