(* ===== verification/ScheduleTool.v ===== *)
(** The clients of the durable scheduler: the tools [schedule:create] and
    [cancel:schedule] ([konf-init/src/schedule.rs]) and the boot-time
    registration of [schedules.yaml] ([register_schedules],
    [konf-init/src/lib.rs]).

    A request that fails returns no database: every error is raised before
    anything is written. *)

From stdpp Require Import pretty.
From S2P Require Import Prelude Json Error Envelope Scope Tool Table Events Scheduler.

Local Open Scope string_scope.
Local Open Scope list_scope.
Local Open Scope Z_scope.

(** What one scheduling request reads from outside: the new job's id and the
    clock when the record is built and when the timer is inserted. *)
Record create_env : Type := CreateEnv { ce_job : uuid; ce_created : datetime; ce_now : datetime }.

(** [CronEntry] of [schedules.yaml], its defaults filled in. *)
Record cron_entry : Type := CronEntry {
  cr_name : string;
  cr_workflow : string;
  cr_cron : string;
  cr_namespace : string;
  cr_capabilities : list string;
  cr_input : json;
}.

Definition default_input : json := JObject [].

(** [Display] of [SchedulerError] and [scheduler_err]. *)
Definition scheduler_error_to_string (show_uuid : uuid -> string) (e : scheduler_error) : string :=
  match e with
  | SchedStorage c => String.append "storage: " c
  | SchedSerialization c => String.append "serialization: " c
  | Invalid m => String.append "invalid input: " m
  | JobNotFound id => String.append "job not found: " (show_uuid id)
  | SchedJoin m => String.append "task join: " m
  end.
Definition scheduler_err (show_uuid : uuid -> string) (e : scheduler_error) : tool_error :=
  ExecutionFailed (scheduler_error_to_string show_uuid e) false.

Definition no_scheduler : tool_error :=
  ExecutionFailed "scheduler not available (no persistent storage configured)" false.
Definition missing_field (field : string) : tool_error :=
  ExecutionFailed (String.append "missing required field: " field) false.

(** The fields of a request. *)
Definition cron_expr (input : json) : option string := get "cron" input ≫= as_str.
Definition delay_ms (input : json) : option Z :=
  v ← get "delay_ms" input;
  match as_u64 v with Some n => Some n | None => s ← as_str v; parse_u64 s end.
Definition repeat_field (input : json) : bool := default false (get "repeat" input ≫= as_bool).

Definition delay_out_of_range (ms : Z) : tool_error :=
  ExecutionFailed (String.concat EmptyString
    ["delay_ms="; pretty ms; " out of range ("; pretty MIN_FIXED_DELAY_MS; "–";
     pretty MAX_FIXED_DELAY_MS; ")"]) false.
Definition in_delay_range (ms : Z) : bool := (MIN_FIXED_DELAY_MS <=? ms) && (ms <=? MAX_FIXED_DELAY_MS).

(** [ScheduleTool::info] and [CancelScheduleTool::info]; the descriptions and
    the schemas are the source's texts. *)
Section Info.
Context (create_description cancel_description : string) (create_schema cancel_schema : json).
Definition create_info : tool_info :=
  ToolInfo "schedule:create" create_description create_schema None ["schedule:create"] false annotations_default.
Definition cancel_info : tool_info :=
  ToolInfo "cancel:schedule" cancel_description cancel_schema None ["cancel:schedule"] false annotations_default.
End Info.

Section ScheduleTool.
#[local] Set Default Proof Using "Type*".
Context {T I B C : Type}.
Context `{LogTable T (Z * uuid) B} `{LogTable I uuid Z}.
Context (encode : stored_timer -> B) (decode : B -> option stored_timer).
Context (json_to_string : json -> string) (json_of_string : string -> option json).
Context (cron_parse : string -> result string C) (upcoming : C -> datetime -> option datetime).
Context (show_uuid : uuid -> string) (parse_uuid : string -> result string uuid).
Context (registered : string -> bool).
(** The id and time stamp of a response. *)
Context (resp_id : uuid) (resp_at : datetime).

Abbreviation db_t := (scheduler (T := T) (I := I)).

(** ** [schedule:create] *)

(** The record a request asks for. *)
Definition request_record (e : create_env) (workflow_id : string) (env : envelope json) : timer_record := {|
  tr_job_id := ce_job e;
  tr_workflow := workflow_id;
  tr_input := default (JObject []) (get "input" (env_payload env));
  tr_namespace := env_namespace env;
  tr_capabilities := to_patterns (env_capabilities env);
  tr_actor := {| actor_id := env_actor_id env; role := User |};
  tr_mode := Once;
  tr_created_at := ce_created e;
  tr_created_by := "schedule:create" |}.

(** The choice of the timer. *)
Definition create_timer (e : create_env) (r : timer_record) (input : json) (db : db_t)
  : result tool_error (uuid * db_t) :=
  match cron_expr input, delay_ms input with
  | Some expr, _ =>
      map_err (scheduler_err show_uuid) (schedule_cron encode json_to_string cron_parse upcoming (ce_now e) r expr db)
  | None, Some ms =>
      if repeat_field input then
        map_err (scheduler_err show_uuid) (schedule_fixed encode json_to_string (ce_now e) r ms db)
      else if negb (in_delay_range ms) then Err (delay_out_of_range ms)
      else map_err (scheduler_err show_uuid)
             (schedule_once encode json_to_string r (add_millis (ce_now e) ms) db)
  | None, None => Err (ExecutionFailed "must provide either delay_ms or cron" false)
  end.

(** [ScheduleTool::invoke]. *)
Definition schedule_create (e : create_env) (sched : option db_t) (env : envelope json)
  : result tool_error (envelope json * db_t) :=
  db ← ok_or sched no_scheduler;
  let input := env_payload env in
  workflow_id ← ok_or (get "workflow" input ≫= as_str) (missing_field "workflow");
  let tool_name := String.append "workflow:" workflow_id in
  if negb (registered tool_name) then Err (ToolNotFound tool_name)
  else
    p ← create_timer e (request_record e workflow_id env) input db;
    Ok (respond resp_id resp_at env (JObject (obj_of_list
          [("scheduled", JBool true); ("workflow", JString workflow_id);
           ("schedule_id", JString (show_uuid p.1))])), p.2).

(** ** [cancel:schedule] *)

(** [CancelScheduleTool::invoke]. *)
Definition schedule_cancel (sched : option db_t) (env : envelope json)
  : result tool_error (envelope json * db_t) :=
  db ← ok_or sched no_scheduler;
  id_str ← ok_or (get "schedule_id" (env_payload env) ≫= as_str) (missing_field "schedule_id");
  id ← map_err (fun m => ExecutionFailed (String.append "invalid schedule_id (expected UUID): " m) false)
         (parse_uuid id_str);
  let '(cancelled, db') := cancel id db in
  if negb cancelled then
    Err (ExecutionFailed (String.append "schedule_id " (String.append (show_uuid id) " not found")) false)
  else
    Ok (respond resp_id resp_at env (JObject (obj_of_list
          [("cancelled", JBool true); ("schedule_id", JString (show_uuid id))])), db').

(** ** [schedules.yaml] *)

Definition schedule_key : Type := string * string * string.
Definition entry_key (c : cron_entry) : schedule_key := (cr_workflow c, cr_cron c, cr_namespace c).

(** [existing_keys]. *)
Definition summary_key (s : job_summary) : option schedule_key :=
  match js_mode s with
  | Cron expr => Some (js_workflow s, expr, js_namespace s)
  | _ => None
  end.

Definition existing_keys (l : list job_summary) : list schedule_key := omap summary_key l.

Definition entry_record (e : create_env) (c : cron_entry) : timer_record := {|
  tr_job_id := ce_job e;
  tr_workflow := cr_workflow c;
  tr_input := cr_input c;
  tr_namespace := cr_namespace c;
  tr_capabilities := cr_capabilities c;
  tr_actor := {| actor_id := "schedules.yaml"; role := System |};
  tr_mode := Cron (cr_cron c);
  tr_created_at := ce_created e;
  tr_created_by := String.append "schedules.yaml:" (cr_name c) |}.

(** The loop over the entries; a timer that cannot be scheduled is logged and
    skipped. *)
Definition register_one (keys : list schedule_key) (db : db_t) (ec : create_env * cron_entry) : db_t :=
  if bool_decide (entry_key ec.2 ∈ keys) then db
  else match schedule_cron encode json_to_string cron_parse upcoming (ce_now ec.1)
               (entry_record ec.1 ec.2) (cr_cron ec.2) db with
       | Ok (_, db') => db'
       | Err _ => db
       end.

(** [register_schedules] once the file is read: the listing of the timers that
    exist is taken once, before the loop. *)
Definition register_schedules (entries : list (create_env * cron_entry)) (db : db_t) : option db_t :=
  existing ← list_jobs decode json_of_string None db;
  Some (fold_left (register_one (existing_keys existing)) entries db).
(** ** What a request asks for *)

(** The timer an expression or a delay asks for. *)
Definition cron_timer (now : datetime) (expr : string) : option datetime :=
  match cron_parse expr with Ok c => upcoming c now | Err _ => None end.

Definition nonempty (s : string) : bool := negb (String.eqb s EmptyString).

(** ** The contract of [schedule:create]

    What a request means, read off its JSON: the errors in the order they are
    found, and otherwise the workflow, the mode and the first fire time. *)

(** A whole number, or a text that is one. *)
Definition requested_delay (payload : json) : option Z :=
  match get "delay_ms" payload with
  | Some (JNumber (PosInt ms)) => Some ms
  | Some (JString s) => parse_u64 s
  | _ => None
  end.

Definition requested_repeat (payload : json) : bool :=
  match get "repeat" payload with Some (JBool true) => true | _ => false end.

Definition invalid_request (m : string) : tool_error :=
  ExecutionFailed (String.append "invalid input: " m) false.

(** Both names are given. *)
Definition named (wf ns : string) : result tool_error unit :=
  if String.eqb wf EmptyString then Err (invalid_request "workflow id is empty")
  else if String.eqb ns EmptyString then Err (invalid_request "namespace is empty")
  else Ok tt.

(** A cron expression wins over a delay; a delay is at least a second and at
    most seven days. *)
Definition requested_timer (now : datetime) (wf : string) (env : envelope json)
  : result tool_error (timer_mode * datetime) :=
  match get "cron" (env_payload env) with
  | Some (JString expr) =>
      _ ← named wf (env_namespace env);
      match cron_parse expr with
      | Err m => Err (invalid_request (String.append "cron: " m))
      | Ok c => match upcoming c now with
                | Some t => Ok (Cron expr, t)
                | None => Err (invalid_request "cron expression has no upcoming fire time")
                end
      end
  | _ =>
      match requested_delay (env_payload env) with
      | None => Err (ExecutionFailed "must provide either delay_ms or cron" false)
      | Some ms =>
          let repeat := requested_repeat (env_payload env) in
          if (ms <? 1000) || (604800000 <? ms) then
            Err (ExecutionFailed (String.concat EmptyString
              [if repeat then "invalid input: delay_ms=" else "delay_ms="; pretty ms;
               " out of range (1000–604800000)"]) false)
          else
            _ ← named wf (env_namespace env);
            Ok (if repeat then Fixed ms else Once, now + ms * 1000000)
      end
  end.

Definition requested (now : datetime) (env : envelope json)
  : result tool_error (string * timer_mode * datetime) :=
  match get "workflow" (env_payload env) with
  | Some (JString wf) =>
      if registered (String.append "workflow:" wf)
      then mt ← requested_timer now wf env; Ok (wf, mt.1, mt.2)
      else Err (ToolNotFound (String.append "workflow:" wf))
  | _ => Err (ExecutionFailed "missing required field: workflow" false)
  end.

Definition requested_input (env : envelope json) : json :=
  match get "input" (env_payload env) with Some v => v | None => JObject [] end.

(** The timer stored for it: the caller's namespace, actor and capabilities,
    and no authority beyond them. *)
Definition requested_record (e : create_env) (wf : string) (mode : timer_mode) (env : envelope json)
  : timer_record := {|
  tr_job_id := ce_job e; tr_workflow := wf; tr_input := requested_input env;
  tr_namespace := env_namespace env;
  tr_capabilities := map pattern (env_capabilities env);
  tr_actor := {| actor_id := env_actor_id env; role := User |};
  tr_mode := mode; tr_created_at := ce_created e / 1000 * 1000; tr_created_by := "schedule:create" |}.

(** A key that some stored timer has. *)
Definition has_key (db : db_t) (k : schedule_key) : Prop :=
  exists f r, timer_of decode json_of_string db (tr_job_id r) = Some (f, r) /\
    tr_mode r = Cron k.1.2 /\ tr_workflow r = k.1.1 /\ tr_namespace r = k.2.

(** The timer an entry of [schedules.yaml] asks for. *)
Definition entry_timer (ec : create_env * cron_entry) : option (Z * timer_record) :=
  if nonempty (cr_workflow ec.2) && nonempty (cr_namespace ec.2)
  then (fun t => (fire_at_ms t, cut (entry_record ec.1 ec.2))) <$> cron_timer (ce_now ec.1) (cr_cron ec.2)
  else None.

(** The records of [db] are still those of [db'], whatever their fire times. *)
Definition keeps_timers (db db' : db_t) : Prop := forall id f r,
  timer_of decode json_of_string db id = Some (f, r) ->
  exists f', timer_of decode json_of_string db' id = Some (f', r).

(** ** Theory *)

Context (codec : forall s, decode (encode s) = Some s).
Context {ltI : relation uuid}.
Context `{!LogTableLaws T (Z * uuid) B pair_lt} `{!LogTableLaws I uuid Z ltI}.

Abbreviation Consistent := (sched_consistent decode json_to_string json_of_string).
Abbreviation timer := (timer_of decode json_of_string).

(** Scheduling by cron expression, and with a delay, as one case each. *)
Lemma validate_ok r :
  validate_record r = Ok tt <-> nonempty (tr_workflow r) && nonempty (tr_namespace r) = true.
Proof. unfold validate_record, nonempty. by destruct (String.eqb _ _), (String.eqb _ _). Qed.

Lemma validate_cases r :
  if nonempty (tr_workflow r) && nonempty (tr_namespace r) then validate_record r = Ok tt
  else exists e, validate_record r = Err e.
Proof.
  pose proof (validate_ok r) as Hv. destruct (_ && _)%bool; [by apply Hv|].
  destruct (validate_record r) as [[]|e]; [|by exists e]. by discriminate (proj1 Hv eq_refl).
Qed.

(** A timer stored under a fresh job id. *)
Definition stored_as (db : db_t) (r : timer_record) (mode : timer_mode) (t : datetime) (db' : db_t) : Prop :=
  Consistent db' /\
  forall id, timer db' id =
    if decide (tr_job_id r = id) then Some (fire_at_ms t, cut (with_mode mode r)) else timer db id.

Lemma insert_stored db r mode t :
  Consistent db -> storable_input json_to_string json_of_string r -> timer db (tr_job_id r) = None ->
  stored_as db r mode t (snd (insert_new encode json_to_string (with_mode mode r) t db)).
Proof.
  intros Hc Hs Hn. apply (insert_new_consistent encode decode _ _ codec db (with_mode mode r) t); [done..|].
  by apply (timer_of_None decode json_to_string json_of_string).
Qed.

Lemma schedule_cron_cases now r expr db :
  match (if nonempty (tr_workflow r) && nonempty (tr_namespace r) then cron_timer now expr else None) with
  | Some t => schedule_cron encode json_to_string cron_parse upcoming now r expr db =
                Ok (insert_new encode json_to_string (with_mode (Cron expr) r) t db)
  | None => exists e, schedule_cron encode json_to_string cron_parse upcoming now r expr db = Err e
  end.
Proof.
  pose proof (validate_cases r) as Hv. unfold schedule_cron, cron_timer.
  destruct (_ && _)%bool.
  - rewrite Hv. cbn. destruct (cron_parse expr) as [c|e]; [|by eexists]. cbn.
    destruct (upcoming c now); [done|by eexists].
  - destruct Hv as [e ->]. by exists e.
Qed.

Lemma validate_named r :
  map_err (scheduler_err show_uuid) (validate_record r) = named (tr_workflow r) (tr_namespace r).
Proof.
  unfold validate_record, named. destruct (String.eqb (tr_workflow r) _); [done|].
  by destruct (String.eqb (tr_namespace r) _).
Qed.

Lemma named_bind {A} r (k : result scheduler_error A) k' :
  map_err (scheduler_err show_uuid) k = k' ->
  map_err (scheduler_err show_uuid) (_ ← validate_record r; k)
  = (_ ← named (tr_workflow r) (tr_namespace r); k').
Proof. intros <-. rewrite <- validate_named. by destruct (validate_record r) as [[]|]. Qed.

Lemma requested_delay_ms payload : requested_delay payload = delay_ms payload.
Proof.
  unfold requested_delay, delay_ms. by destruct (get "delay_ms" payload) as [[| |[]| | |]|].
Qed.

Lemma requested_repeat_field payload : requested_repeat payload = repeat_field payload.
Proof. unfold requested_repeat, repeat_field. by destruct (get "repeat" payload) as [[|[]| | | |]|]. Qed.

Lemma out_of_delay_range ms : (ms <? 1000) || (604800000 <? ms) = negb (in_delay_range ms).
Proof.
  unfold in_delay_range. change MIN_FIXED_DELAY_MS with 1000. change MAX_FIXED_DELAY_MS with 604800000.
  rewrite negb_andb. by rewrite <- !Z.ltb_antisym.
Qed.

Lemma delay_branch e wf env (db : db_t) :
  let r := request_record e wf env in
  match delay_ms (env_payload env) with
  | Some ms =>
      if repeat_field (env_payload env)
      then map_err (scheduler_err show_uuid) (schedule_fixed encode json_to_string (ce_now e) r ms db)
      else if negb (in_delay_range ms) then Err (delay_out_of_range ms)
      else map_err (scheduler_err show_uuid)
             (schedule_once encode json_to_string r (add_millis (ce_now e) ms) db)
  | None => Err (ExecutionFailed "must provide either delay_ms or cron" false)
  end =
    mt ← match delay_ms (env_payload env) with
         | None => Err (ExecutionFailed "must provide either delay_ms or cron" false)
         | Some ms =>
             let repeat := repeat_field (env_payload env) in
             if (ms <? 1000) || (604800000 <? ms) then
               Err (ExecutionFailed (String.concat EmptyString
                 [if repeat then "invalid input: delay_ms=" else "delay_ms="; pretty ms;
                  " out of range (1000–604800000)"]) false)
             else
               _ ← named wf (env_namespace env);
               Ok (if repeat then Fixed ms else Once, ce_now e + ms * 1000000)
         end;
    Ok (insert_new encode json_to_string (with_mode mt.1 r) mt.2 db).
Proof.
  intros r. destruct (delay_ms (env_payload env)) as [ms|]; [|done]. cbv zeta.
  rewrite out_of_delay_range. unfold schedule_fixed, schedule_once. fold (in_delay_range ms).
  destruct (repeat_field (env_payload env)), (in_delay_range ms); cbn [negb mbind result_bind];
    try reflexivity; erewrite named_bind by reflexivity;
    change (named (tr_workflow r) (tr_namespace r)) with (named wf (env_namespace env));
    by destruct (named _ _).
Qed.

(** [create_timer] makes the requested timer, or raises the requested error. *)
Lemma create_timer_cases e wf env (db : db_t) :
  create_timer e (request_record e wf env) (env_payload env) db =
    mt ← requested_timer (ce_now e) wf env;
    Ok (insert_new encode json_to_string (with_mode mt.1 (request_record e wf env)) mt.2 db).
Proof.
  unfold create_timer, requested_timer, cron_expr.
  rewrite requested_delay_ms, requested_repeat_field. set (r := request_record e wf env).
  assert (forall expr, map_err (scheduler_err show_uuid)
      (schedule_cron encode json_to_string cron_parse upcoming (ce_now e) r expr db) =
    mt ← (_ ← named wf (env_namespace env);
          match cron_parse expr with
          | Err m => Err (invalid_request (String.append "cron: " m))
          | Ok c => match upcoming c (ce_now e) with
                    | Some t => Ok (Cron expr, t)
                    | None => Err (invalid_request "cron expression has no upcoming fire time")
                    end
          end);
    Ok (insert_new encode json_to_string (with_mode mt.1 r) mt.2 db)) as Hcron.
  { intros expr. unfold schedule_cron. erewrite named_bind by reflexivity.
    change (named (tr_workflow r) (tr_namespace r)) with (named wf (env_namespace env)).
    destruct (named _ _); [|done]. cbn [mbind result_bind].
    destruct (cron_parse expr) as [c|m]; [|done]. cbn [map_err mbind result_bind].
    by destruct (upcoming c (ce_now e)). }
  destruct (get "cron" (env_payload env)) as [[| | |expr| |]|]; cbn [mbind option_bind as_str];
    [exact (delay_branch e wf env db)|exact (delay_branch e wf env db)|exact (delay_branch e wf env db)|apply Hcron|exact (delay_branch e wf env db)|exact (delay_branch e wf env db)|exact (delay_branch e wf env db)].
Qed.

(** [schedule:create] computes what was asked for. *)
Lemma schedule_create_cases e db env :
  schedule_create e (Some db) env =
    p ← requested (ce_now e) env;
    Ok (respond resp_id resp_at env (JObject
          [("schedule_id", JString (show_uuid (ce_job e))); ("scheduled", JBool true);
           ("workflow", JString p.1.1)]),
        snd (insert_new encode json_to_string (with_mode p.1.2 (request_record e p.1.1 env)) p.2 db)).
Proof.
  unfold schedule_create, requested. cbn [ok_or mbind result_bind].
  destruct (get "workflow" (env_payload env)) as [[| | |wf| |]|]; cbn [mbind option_bind as_str ok_or result_bind];
    try reflexivity.
  destruct (registered _); [|done]. cbn [negb]. rewrite create_timer_cases.
  by destruct (requested_timer _ _ _) as [[mode t]|].
Qed.

(** C25: [schedule:create] on every request.  Without a scheduler it is
    refused, and so is, with the error named, a request without a workflow or
    with one that is not registered, with an empty name or namespace, with
    neither a cron expression nor a delay, with an expression that does not
    parse or never fires, or with a delay outside one second to seven days.
    Any other request adds precisely one timer, under the id its answer
    carries: for the workflow and input it names, under the caller's own
    namespace, actor id and capabilities and the role of a user, firing first
    at the expression's next time or exactly the delay from now, and again
    after each delay only when asked to repeat.  A refused request writes
    nothing. *)
Theorem schedule_create_spec e db env :
  Consistent db -> timer db (ce_job e) = None ->
  json_of_string (json_to_string (requested_input env)) = Some (requested_input env) ->
  schedule_create e None env =
    Err (ExecutionFailed "scheduler not available (no persistent storage configured)" false) /\
  match requested (ce_now e) env with
  | Err err => schedule_create e (Some db) env = Err err
  | Ok (wf, mode, t) => exists resp db',
      schedule_create e (Some db) env = Ok (resp, db') /\
      env_payload resp = JObject
        [("schedule_id", JString (show_uuid (ce_job e))); ("scheduled", JBool true); ("workflow", JString wf)] /\
      Consistent db' /\
      timer db' (ce_job e) = Some (Z.max (t / 1000000) 0, requested_record e wf mode env) /\
      (forall id, id <> ce_job e -> timer db' id = timer db id)
  end.
Proof.
  intros Hc Hn Hs. split; [reflexivity|]. rewrite schedule_create_cases.
  destruct (requested _ _) as [[[wf mode] t]|]; [|done].
  destruct (insert_stored db (request_record e wf env) mode t Hc Hs Hn) as [Hc' Ht].
  eexists _, _. split_and!; [reflexivity|reflexivity|exact Hc'| |].
  - rewrite Ht. by rewrite decide_True.
  - intros id Hne. rewrite Ht. by rewrite decide_False.
Qed.

(** What [schedule:create] answers undoes it: [cancel:schedule] on the
    returned id leaves every timer as it was before the creation, and a second
    [cancel:schedule] is refused. *)
Theorem create_cancel_roundtrip e db env resp db' env' :
  (forall i, parse_uuid (show_uuid i) = Ok i) ->
  Consistent db -> timer db (ce_job e) = None ->
  storable_input json_to_string json_of_string (request_record e EmptyString env) ->
  schedule_create e (Some db) env = Ok (resp, db') ->
  get "schedule_id" (env_payload env') = get "schedule_id" (env_payload resp) ->
  exists resp' db'',
    schedule_cancel (Some db') env' = Ok (resp', db'') /\
    Consistent db'' /\
    (forall id, timer db'' id = timer db id) /\
    (exists err, schedule_cancel (Some db'') env' = Err err).
Proof.
  intros Hparse Hc Hn Hs Hok Hid.
  assert (exists r mode t, tr_job_id r = ce_job e /\ stored_as db r mode t db' /\
            get "schedule_id" (env_payload resp) = Some (JString (show_uuid (ce_job e))))
    as (r & mode & t & Hr & [Hc' Ht] & Hget).
  { rewrite schedule_create_cases in Hok. destruct (requested _ _) as [[[wf mode] t]|]; [|done].
    injection Hok as <- <-. exists (request_record e wf env), mode, t. split; [done|]. split; [|done].
    by apply (insert_stored db (request_record e wf env)). }
  rewrite Hget in Hid. destruct (cancel_consistent decode json_to_string json_of_string db' (ce_job e) Hc')
    as (Hc'' & Hfst & Hafter).
  assert (forall id, timer (snd (cancel (ce_job e) db')) id = timer db id) as Hback.
  { intros id. rewrite Hafter, Ht, Hr. destruct (decide _) as [<-|]; [done|done]. }
  rewrite Ht, decide_True in Hfst by done.
  unfold schedule_cancel. cbn [ok_or mbind result_bind]. rewrite Hid. cbn. rewrite Hparse. cbn.
  destruct (cancel (ce_job e) db') as [b db''] eqn:Hcan. cbn in Hfst, Hback, Hc''.
  rewrite Hfst. cbn. eexists _, _. split_and!; [done..|].
  destruct (cancel_consistent decode json_to_string json_of_string db'' (ce_job e) Hc'') as (_ & Hfst' & _).
  rewrite Hback, Hn in Hfst'. destruct (cancel (ce_job e) db'') as [b' ?]. cbn in Hfst'. rewrite Hfst'.
  cbn. by eexists.
Qed.

(** ** Listing and registering *)

Definition summary_of (f : Z) (r : timer_record) : job_summary := {|
  js_job_id := tr_job_id r; js_workflow := tr_workflow r; js_namespace := tr_namespace r;
  js_next_fire_at := f * 1000000; js_mode := tr_mode r; js_created_at := tr_created_at r;
  js_created_by := tr_created_by r |}.

Lemma list_loop_timers db l :
  Consistent db -> (forall kb, kb ∈ l -> kb ∈ log_iter (timers db)) ->
  list_loop decode json_of_string None l =
    Some ((fun fr => summary_of fr.1 fr.2) <$> omap (timer_at decode json_of_string) l).
Proof.
  intros Hc. induction l as [|[[f id] b] l IH]; intros Hl; [done|].
  assert (log_get (timers db) (f, id) = Some b) as Hb by (apply log_iter_get, Hl; by left).
  destruct (sc_value _ _ _ db Hc f id b Hb) as (s & r & Hs & Hr & _).
  cbn [list_loop]. rewrite Hs. cbn [mbind option_bind]. rewrite Hr. cbn [mbind option_bind].
  rewrite IH by (intros kb Hk; apply Hl; by right). cbn. unfold timer_at at 2. cbn.
  rewrite Hs. cbn. rewrite Hr. reflexivity.
Qed.

(** The listing shows the keys of the stored timers. *)
Lemma list_keys db :
  Consistent db ->
  exists l, list_jobs decode json_of_string None db = Some l /\
    forall k, k ∈ existing_keys l <-> has_key db k.
Proof.
  intros Hc. eexists. split; [by apply (list_loop_timers db)|]. intros [[wf expr] ns].
  unfold existing_keys, has_key. rewrite list_elem_of_omap. split.
  - intros (js & ([f r] & -> & ([[f' id] b] & Hb%log_iter_get & Ht)%list_elem_of_omap)%list_elem_of_fmap & Hk).
    destruct (timer_of_key _ _ _ db f' id b Hc Hb) as (s & r' & Hs & Hr & Hid & _ & Hof).
    unfold timer_at in Ht. cbn in Ht. rewrite Hs in Ht. cbn in Ht. rewrite Hr in Ht.
    injection Ht as <- <-. exists f', r'. rewrite Hid. unfold summary_key in Hk. cbn in Hk |- *.
    destruct (tr_mode r'); [done..|]. injection Hk as <- <- <-. by rewrite Hof.
  - intros (f & r & Hof & Hmode & Hwf & Hns).
    destruct (timer_of_Some _ _ _ db _ f r Hc Hof) as (Hf & _ & _).
    destruct (proj2 (sc_index _ _ _ db Hc f (tr_job_id r)) Hf) as [b Hb].
    exists (summary_of f r). split.
    + apply list_elem_of_fmap. exists (f, r). split; [done|]. apply list_elem_of_omap.
      exists ((f, tr_job_id r), b). split; [by apply log_iter_get|].
      destruct (timer_of_key _ _ _ db _ _ _ Hc Hb) as (s & r' & Hs & Hr & _ & _ & Hof').
      unfold timer_at. cbn. rewrite Hs. cbn. rewrite Hr. cbn. congruence.
    + unfold summary_key. cbn in *. rewrite Hmode, Hwf, Hns. done.
Qed.

(** What one entry leaves under its job id. *)
Definition entry_result (keys : list schedule_key) (ec : create_env * cron_entry) : option (Z * timer_record) :=
  if decide (entry_key ec.2 ∈ keys) then None else entry_timer ec.

Definition entry_storable (ec : create_env * cron_entry) : Prop :=
  storable_input json_to_string json_of_string (entry_record ec.1 ec.2).

Lemma register_one_spec keys db ec :
  Consistent db -> timer db (ce_job ec.1) = None -> entry_storable ec ->
  let db' := register_one keys db ec in
  Consistent db' /\
  (forall id, timer db' id = if decide (ce_job ec.1 = id) then entry_result keys ec else timer db id).
Proof.
  intros Hc Hn Hs. unfold register_one, entry_result.
  assert (forall id, timer db id = if decide (ce_job ec.1 = id) then None else timer db id) as Hsame.
  { intros id. destruct (decide _) as [<-|]; done. }
  destruct (decide (entry_key ec.2 ∈ keys)) as [Hin|Hin].
  { rewrite bool_decide_true by done. by split. }
  rewrite bool_decide_false by done. unfold entry_timer.
  pose proof (schedule_cron_cases (ce_now ec.1) (entry_record ec.1 ec.2) (cr_cron ec.2) db) as Hcase.
  cbn [tr_workflow tr_namespace entry_record] in Hcase.
  destruct (_ && _)%bool; [destruct (cron_timer _ _) as [t|]|]; cbn [fmap option_fmap option_map];
    [rewrite Hcase|destruct Hcase as [err ->]; by split..].
  apply (insert_stored db (entry_record ec.1 ec.2)); done.
Qed.

Lemma register_entries_all keys entries db :
  Consistent db -> NoDup (map (fun ec => ce_job ec.1) entries) ->
  (forall ec, ec ∈ entries -> timer db (ce_job ec.1) = None /\ entry_storable ec) ->
  let db' := fold_left (register_one keys) entries db in
  Consistent db' /\
  (forall ec, ec ∈ entries -> timer db' (ce_job ec.1) = entry_result keys ec) /\
  (forall id, (id ∉ map (fun ec => ce_job ec.1) entries) -> timer db' id = timer db id).
Proof.
  revert db. induction entries as [|ec entries IH]; intros db Hc Hnd Hall; cbn.
  { split_and!; [done|intros ? []%not_elem_of_nil|done]. }
  apply NoDup_cons in Hnd as [Hnotin Hnd].
  destruct (Hall ec) as [Hn Hs]; [by left|].
  destruct (register_one_spec keys db ec Hc Hn Hs) as [Hc1 Ht1].
  destruct (IH (register_one keys db ec) Hc1 Hnd) as (Hc' & Hin & Hout).
  { intros ec' Hec'. destruct (Hall ec') as [Hn' Hs']; [by right|]. split; [|done].
    rewrite Ht1, decide_False; [done|]. intros Heq. apply Hnotin. rewrite Heq.
    by apply (list_elem_of_fmap_2 (fun ec => ce_job ec.1)). }
  split_and!; [done| |].
  - intros ec' [->|Hec']%elem_of_cons; [|by apply Hin]. rewrite Hout by done. by rewrite Ht1, decide_True.
  - intros id Hid. apply not_elem_of_cons in Hid as [Hne Hid]. rewrite Hout by done.
    by rewrite Ht1, decide_False.
Qed.

(** Booting with a [schedules.yaml]: every timer that exists stays as it
    is; each entry whose workflow, expression and namespace no stored timer has
    gets a timer of its own at the expression's next fire time, under the
    authority the file states, unless it cannot be scheduled; the other
    entries, even with other capabilities or another input, add nothing. *)
Theorem register_schedules_spec entries db :
  Consistent db -> NoDup (map (fun ec => ce_job ec.1) entries) ->
  (forall ec, ec ∈ entries -> timer db (ce_job ec.1) = None /\ entry_storable ec) ->
  exists db', register_schedules entries db = Some db' /\ Consistent db' /\
    (forall ec, ec ∈ entries -> has_key db (entry_key ec.2) -> timer db' (ce_job ec.1) = None) /\
    (forall ec, ec ∈ entries -> ~ has_key db (entry_key ec.2) -> timer db' (ce_job ec.1) = entry_timer ec) /\
    (forall id, (id ∉ map (fun ec => ce_job ec.1) entries) -> timer db' id = timer db id).
Proof.
  intros Hc Hnd Hall. destruct (list_keys db Hc) as (l & Hl & Hkeys).
  destruct (register_entries_all (existing_keys l) entries db Hc Hnd Hall) as (Hc' & Hin & Hout).
  eexists. unfold register_schedules. rewrite Hl. split; [reflexivity|]. split; [done|].
  split_and!; [..|done]; intros ec Hec Hk; rewrite (Hin ec Hec); unfold entry_result.
  - rewrite decide_True; [done|]. by apply Hkeys.
  - rewrite decide_False; [done|]. by rewrite Hkeys.
Qed.

Lemma entry_has_key keys db ec :
  timer db (ce_job ec.1) = entry_result keys ec -> (entry_key ec.2 ∉ keys) -> is_Some (entry_timer ec) ->
  has_key db (entry_key ec.2).
Proof.
  unfold entry_result, entry_timer. intros Ht Hk. rewrite decide_False in Ht by done.
  destruct (_ && _)%bool; [|by intros [? ?]]. destruct (cron_timer _ _) as [t|]; [|by intros [? ?]]. intros _.
  exists (fire_at_ms t), (cut (entry_record ec.1 ec.2)). done.
Qed.

Lemma keeps_key db db' k : keeps_timers db db' -> has_key db k -> has_key db' k.
Proof.
  intros Hk (f & r & Hof & Hrest). destruct (Hk _ _ _ Hof) as [f' Hof']. by exists f', r.
Qed.

(** Registration is idempotent across boots: once a [schedules.yaml] whose
    entries can all be scheduled is registered, registering the same entries
    again at a later time changes nothing, however often the timers have
    fired and moved in between. *)
Theorem register_schedules_idempotent entries db db1 db2 entries2 :
  Consistent db -> NoDup (map (fun ec => ce_job ec.1) entries) ->
  (forall ec, ec ∈ entries -> timer db (ce_job ec.1) = None /\ entry_storable ec /\ is_Some (entry_timer ec)) ->
  register_schedules entries db = Some db1 ->
  Consistent db2 -> keeps_timers db1 db2 ->
  map snd entries2 = map snd entries ->
  register_schedules entries2 db2 = Some db2.
Proof.
  intros Hc Hnd Hall Hreg Hc2 Hkeep Hsame.
  destruct (list_keys db Hc) as (l & Hl & Hkeys). unfold register_schedules in Hreg. rewrite Hl in Hreg.
  injection Hreg as <-.
  destruct (register_entries_all (existing_keys l) entries db Hc Hnd) as (Hc' & Hin & Hout).
  { intros ec Hec. by destruct (Hall ec Hec) as (? & ? & _). }
  assert (forall c, c ∈ map snd entries -> has_key db2 (entry_key c)) as Hhas.
  { intros c ([e c'] & -> & Hec)%list_elem_of_fmap. apply (keeps_key _ _ _ Hkeep).
    destruct (decide (entry_key c' ∈ existing_keys l)) as [Hk|Hk].
    - apply Hkeys in Hk as (f & r & Hof & Hrest). exists f, r. split; [|done]. rewrite Hout; [done|].
      intros ([e' c''] & Heq & Hec')%list_elem_of_fmap. destruct (Hall _ Hec') as [Hn _]. cbn in Heq, Hn.
      congruence.
    - apply (entry_has_key (existing_keys l) _ (e, c')); [by apply Hin|done|by apply Hall]. }
  destruct (list_keys db2 Hc2) as (l2 & Hl2 & Hkeys2). unfold register_schedules. rewrite Hl2. cbn. f_equal.
  rewrite <- Hsame in Hhas. clear -Hhas Hkeys2. induction entries2 as [|ec entries2 IH]; [done|]. cbn.
  unfold register_one at 2. rewrite bool_decide_true by (apply Hkeys2, Hhas; by left).
  apply IH. intros c Hin. apply Hhas. by right.
Qed.
End ScheduleTool.

(** * A scheduler over finite maps

    Ids are written in unary; the input is the one the text codec knows. *)

Module Demo.

Fixpoint ones (n : nat) : string :=
  match n with O => EmptyString | S n' => String.append "1" (ones n') end.
Definition show (i : uuid) : string := ones (N.to_nat i).
Definition parse_id (s : string) : result string uuid := Ok (N.of_nat (String.length s)).

Lemma parse_show i : parse_id (show i) = Ok i.
Proof.
  unfold parse_id, show. f_equal. rewrite <- (N2Nat.id i) at 2. f_equal.
  induction (N.to_nat i) as [|n IH]; [done|]. cbn. by rewrite IH.
Qed.

Definition known_tool (tool : string) : bool := String.eqb tool "workflow:sub".
Definition request (fields : list (string * json)) : envelope json :=
  for_tool_dispatch 0%N 0 "schedule:create" (JObject fields) ["workflow:*"] 0%N "konf:n" "u" "s".
Definition env1 : envelope json := request [("delay_ms", JString "60000"); ("workflow", JString "sub")].
Definition e1 : create_env := CreateEnv 3%N 0 0.
Definition empty : Scheduler.Demo.db_type := scheduler_new.

Abbreviation Create := (schedule_create (T := gmap (Z * N) stored_timer) (I := gmap N Z)
  id Scheduler.Demo.to_text Scheduler.Demo.parse_cron Scheduler.Demo.next_second show known_tool 9%N 0).
Abbreviation CancelIt := (schedule_cancel (T := gmap (Z * N) stored_timer) (I := gmap N Z) (B := stored_timer)
  show parse_id 9%N 0).
Abbreviation Timer := (timer_of (T := gmap (Z * N) stored_timer) (I := gmap N Z) Some Scheduler.Demo.of_text).
Abbreviation RegisterAll := (register_schedules (T := gmap (Z * N) stored_timer) (I := gmap N Z)
  id Some Scheduler.Demo.to_text Scheduler.Demo.of_text Scheduler.Demo.parse_cron Scheduler.Demo.next_second).

(** A one-shot timer a minute from now. *)
Lemma schedule_create_spec_witness :
  exists resp db', Create e1 (Some empty) env1 = Ok (resp, db') /\
    Timer db' 3%N = Some (60000, TimerRecord 3%N "sub" (JObject []) "konf:n" ["workflow:*"]
                            {| actor_id := "u"; role := User |} Once 0 "schedule:create").
Proof.
  destruct (schedule_create_spec id Some Scheduler.Demo.to_text Scheduler.Demo.of_text Scheduler.Demo.parse_cron
              Scheduler.Demo.next_second show known_tool 9%N 0 Scheduler.Demo.timer_codec_id e1 empty env1
              (new_sched_consistent _ _ _) eq_refl eq_refl) as (_ & resp & db' & Hok & _ & _ & Ht & _).
  exists resp, db'. split; [exact Hok|exact Ht].
Defined.

Definition created : envelope json * Scheduler.Demo.db_type :=
  match Create e1 (Some empty) env1 with Ok p => p | Err _ => (env1, empty) end.
Definition env2 : envelope json := request [("schedule_id", JString "111")].

Lemma create_cancel_roundtrip_witness :
  Create e1 (Some empty) env1 = Ok created /\
  exists resp db', CancelIt (Some created.2) env2 = Ok (resp, db') /\ Timer db' 3%N = None.
Proof.
  assert (Create e1 (Some empty) env1 = Ok created) as Hok by (vm_compute; reflexivity).
  split; [exact Hok|].
  destruct (create_cancel_roundtrip id Some Scheduler.Demo.to_text Scheduler.Demo.of_text Scheduler.Demo.parse_cron
              Scheduler.Demo.next_second show parse_id known_tool 9%N 0 Scheduler.Demo.timer_codec_id
              e1 empty env1 created.1 created.2 env2 parse_show
              (new_sched_consistent _ _ _) eq_refl eq_refl Hok eq_refl) as (resp & db' & Hc & _ & Ht & _).
  exists resp, db'. split; [exact Hc|]. rewrite Ht. reflexivity.
Defined.

(** Two entries of one key in one file are both registered; the next boot adds
    nothing. *)
Definition entry : cron_entry :=
  CronEntry "brief" "sub" "* * * * * * *" "konf:n" ["memory:*"] default_input.
Definition first_boot : list (create_env * cron_entry) :=
  [(CreateEnv 1%N 0 0, entry); (CreateEnv 2%N 0 0, entry)].
Definition second_boot : list (create_env * cron_entry) :=
  [(CreateEnv 3%N 5 5, entry); (CreateEnv 4%N 5 5, entry)].
Definition db1 : Scheduler.Demo.db_type := default empty (RegisterAll first_boot empty).

Lemma boot_fresh ec :
  ec ∈ first_boot ->
  Timer empty (ce_job ec.1) = None /\
  entry_storable Scheduler.Demo.to_text Scheduler.Demo.of_text ec /\
  is_Some (entry_timer Scheduler.Demo.parse_cron Scheduler.Demo.next_second ec).
Proof.
  intros [->|[->|[]%not_elem_of_nil]%elem_of_cons]%elem_of_cons;
    (split_and!; [reflexivity..|vm_compute; by eexists]).
Qed.

Lemma boot_nodup : NoDup (map (fun ec : create_env * cron_entry => ce_job ec.1) first_boot).
Proof. by apply (bool_decide_unpack _). Qed.

Lemma register_schedules_spec_witness :
  exists db', RegisterAll first_boot empty = Some db' /\
    fst <$> Timer db' 1%N = Some 1000 /\ fst <$> Timer db' 2%N = Some 1000.
Proof.
  destruct (register_schedules_spec id Some Scheduler.Demo.to_text Scheduler.Demo.of_text Scheduler.Demo.parse_cron
              Scheduler.Demo.next_second Scheduler.Demo.timer_codec_id first_boot empty
              (new_sched_consistent _ _ _) boot_nodup
              (fun ec Hec => conj (proj1 (boot_fresh ec Hec)) (proj1 (proj2 (boot_fresh ec Hec)))))
    as (db' & Hok & _ & _ & Hnew & _).
  exists db'. split; [exact Hok|].
  assert (forall k, ~ has_key Some Scheduler.Demo.of_text empty k) as Hno.
  { intros k (f & r & Hof & _). discriminate Hof. }
  split.
  - change 1%N with (ce_job (CreateEnv 1%N 0 0, entry).1). rewrite Hnew; [vm_compute; reflexivity|by left|apply Hno].
  - change 2%N with (ce_job (CreateEnv 2%N 0 0, entry).1). rewrite Hnew; [vm_compute; reflexivity|by right; left|apply Hno].
Defined.

Lemma db1_kept : sched_consistent Some Scheduler.Demo.to_text Scheduler.Demo.of_text db1.
Proof.
  destruct (register_entries_all id Some Scheduler.Demo.to_text Scheduler.Demo.of_text Scheduler.Demo.parse_cron
              Scheduler.Demo.next_second Scheduler.Demo.timer_codec_id [] first_boot empty
              (new_sched_consistent _ _ _) boot_nodup) as [Hc _].
  { intros ec Hec. by destruct (boot_fresh ec Hec) as (? & ? & _). }
  exact Hc.
Qed.

Lemma register_schedules_idempotent_witness :
  RegisterAll first_boot empty = Some db1 /\ RegisterAll second_boot db1 = Some db1.
Proof.
  assert (RegisterAll first_boot empty = Some db1) as Hreg by (vm_compute; reflexivity).
  split; [exact Hreg|].
  apply (register_schedules_idempotent id Some Scheduler.Demo.to_text Scheduler.Demo.of_text
           Scheduler.Demo.parse_cron Scheduler.Demo.next_second Scheduler.Demo.timer_codec_id
           first_boot empty db1 db1 second_boot (new_sched_consistent _ _ _) boot_nodup boot_fresh Hreg db1_kept).
  - intros id f r Hof. by exists f.
  - reflexivity.
Defined.
End Demo.
