(* ===== verification/Dispatch.v ===== *)
(** Dispatch outside and inside workflows: the single-tool dispatcher
    ([konf-runtime/src/dispatcher.rs]), the scoped engine a run executes in and
    the metadata it carries ([Runtime::build_scoped_engine] and
    [build_execution_metadata], [konf-runtime/src/runtime.rs]).

    A world holds whatever tools, the clock, the id source and the journal can
    read or change.  The journal is used through the operations of a record
    and a law; the redb journal is shown to obey it. *)

From S2P Require Import Prelude Json Error Envelope Scope Tool Guard Config Table Journal Events.

Local Open Scope string_scope.
Local Open Scope list_scope.

(** * The journal as the dispatcher uses it *)

Record journal_store (W : Type) : Type := JournalStore {
  store_append : datetime -> journal_entry -> W -> option Z * W;
  store_by_key : datetime -> string -> W -> option (option journal_row);
}.
Arguments JournalStore {W}. Arguments store_append {W}. Arguments store_by_key {W}.

(** An entry that fits, appended to a good world, is what its key finds. *)
Class StoreLaws {W} (s : journal_store W) (good : W -> Prop) (fits : journal_entry -> Prop) := {
  store_find now e w k :
    good w -> fits e -> je_idempotency_key e = Some k -> je_valid_to e = None ->
    forall later, exists row,
      store_by_key s later k (snd (store_append s now e w)) = Some (Some row) /\
      jr_payload row = je_payload e;
}.

(** [ToolGuardEntry]. *)
Record tool_guard_entry : Type := ToolGuardEntry {
  tg_rules : list rule;
  tg_default_action : default_action;
  tg_alias : option string;
}.

Section Dispatch.
Context {W : Type}.
Context (hash_order : gmap string json -> list (string * json)).
Context (tool_order : gmap string (tool W) -> list tool_info).
Context (now : nat -> W -> datetime) (fresh : nat -> W -> uuid).
Context (state_hash : string -> W -> option (list Z)).
Context (show_uuid : uuid -> string) (show_time : datetime -> string) (show_u64 : Z -> string).

(** The two layers around a granted tool, the same in both paths: the bindings
    inside, the guard outside. *)
Definition wrap (guards : gmap string tool_guard_entry) (tool_name : string)
    (bindings : gmap string json) (raw : tool W) : tool W :=
  let wrapped :=
    if bool_decide (bindings = ∅) then raw else virtualized_tool raw (hash_order bindings) in
  match guards !! tool_name with
  | Some g =>
      match tg_rules g with
      | [] => wrapped
      | rules => guarded_tool wrapped rules (tg_default_action g)
      end
  | None => wrapped
  end.

(** One tool of the source registry, in [build_scoped_engine]. *)
Definition scope_one (guards : gmap string tool_guard_entry) (source : gmap string (tool W))
    (s : execution_scope) (acc : gmap string (tool W)) (i : tool_info) : gmap string (tool W) :=
  let tool_name := ti_name i in
  let plain :=
    match source !! tool_name with
    | Some t =>
        match check_tool s tool_name with
        | Ok bindings => register acc (wrap guards tool_name bindings t)
        | Err _ => acc
        end
    | None => acc
    end in
  match guards !! tool_name ≫= tg_alias with
  | Some alias =>
      if is_ok (check_tool s tool_name) then
        match source !! alias with
        | Some alias_tool => register acc alias_tool
        | None => plain
        end
      else acc
  | None => plain
  end.

(** [build_scoped_engine]: the configuration and the registry. *)
Definition scoped_config (s : execution_scope) (c : engine_config) : engine_config := {|
  Config.max_steps := Scope.max_steps (limits s);
  default_timeout_ms := default_timeout_ms c;
  Config.max_workflow_timeout_ms := Scope.max_workflow_timeout_ms (limits s);
  stream_buffer := stream_buffer c;
  finished_channel_size := finished_channel_size c;
  default_retry_backoff_ms := default_retry_backoff_ms c;
  max_yaml_size := max_yaml_size c;
  Config.max_concurrent_nodes := Config.max_concurrent_nodes c;
  default_retry_base_delay_ms := default_retry_base_delay_ms c;
  default_retry_max_delay_ms := default_retry_max_delay_ms c |}.

Definition scoped_registry (guards : gmap string tool_guard_entry) (source : gmap string (tool W))
    (s : execution_scope) : gmap string (tool W) :=
  fold_left (scope_one guards source s) (tool_order source) ∅.

Definition build_scoped_engine (guards : gmap string tool_guard_entry) (c : engine_config)
    (source : gmap string (tool W)) (s : execution_scope) : engine_config * gmap string (tool W) :=
  (scoped_config s c, scoped_registry guards source s).

(** [build_execution_metadata]. *)
Definition build_execution_metadata (s : execution_scope) (ctx : execution_context) : gmap string json :=
  <["depth" := JNumber (PosInt (depth s))]>
  (<["actor_role" := JString (role_to_string (role (scope_actor s)))]>
  (<["session_id" := JString (ec_session_id ctx)]>
  (<["actor_id" := JString (actor_id (scope_actor s))]>
  (<["namespace" := JString (namespace s)]>
  (<["trace_id" := JString (show_uuid (ec_trace_id ctx))]> ∅))))).

(** The key a dispatch is remembered under. *)
Definition scoped_key (tool_name : string) (ctx : execution_context) : option string :=
  (fun k => String.append tool_name (String.append ":" k)) <$> ec_idempotency_key ctx.

(** The envelope of a dispatch. *)
Definition dispatch_envelope (tool_name : string) (input : json) (s : execution_scope)
    (ctx : execution_context) (w : W) : envelope json :=
  let e := for_tool_dispatch (fresh 0 w) (now 2 w) tool_name input (capability_patterns s)
             (ec_trace_id ctx) (namespace s) (actor_id (scope_actor s)) (ec_session_id ctx) in
  {| env_id := env_id e; env_trace_id := env_trace_id e; env_parent_id := env_parent_id e;
     env_actor_id := env_actor_id e; env_namespace := env_namespace e;
     env_capabilities := env_capabilities e; env_target := env_target e;
     env_payload_type := env_payload_type e; env_payload := env_payload e;
     env_emitted_at := env_emitted_at e; env_step_index := env_step_index e;
     env_stream_id := env_stream_id e;
     env_deadline := ec_deadline ctx;
     env_idempotency_key := ec_idempotency_key ctx;
     env_qos_class := env_qos_class e; env_references := env_references e;
     env_metadata :=
       obj_insert "depth" (JNumber (PosInt (depth s)))
         (obj_insert "session_id" (JString (ec_session_id ctx))
           (obj_insert "actor_role" (JString (role_to_string (role (scope_actor s)))) (env_metadata e))) |}.

(** The interaction a dispatch records; [w] is the world before the
    invocation, [w'] after it. *)
Definition dispatch_interaction (tool_name : string) (bindings : gmap string json) (s : execution_scope)
    (ctx : execution_context) (env : envelope json) (w w' : W) (r : result tool_error (envelope json))
  : interaction := {|
  in_id := fresh 1 w;
  in_parent_id := ec_parent_interaction_id ctx;
  in_trace_id := ec_trace_id ctx;
  in_run_id := None;
  in_node_id := None;
  in_actor := scope_actor s;
  in_namespace := namespace s;
  in_target := String.append "tool:" tool_name;
  in_kind := ToolDispatch;
  in_attributes :=
    JObject [("duration_ms", JNumber (PosInt (Z.max 0 ((now 4 w' - now 3 w) / 1000000))));
             ("tool_name", JString tool_name)];
  in_edge_rules_fired :=
    String.append "cap_check:" tool_name ::
    (if bool_decide (is_Some (bindings !! "namespace"))
     then [String.append "ns_inject:" (namespace s)] else []);
  in_status := match r with Ok _ => StOk | Err e => Failed (tool_error_to_string show_u64 e) end;
  in_summary := None;
  in_timestamp := now 3 w;
  in_step_index := env_step_index env;
  in_stream_id := env_stream_id env;
  in_state_before_hash := state_hash tool_name w;
  in_state_after_hash := state_hash tool_name w';
  in_references := [];
  in_in_reply_to := None |}.

(** The journal entry of that interaction. *)
Definition dispatch_entry (tool_name : string) (s : execution_scope) (ctx : execution_context)
    (i : interaction) : journal_entry := {|
  je_run_id := None;
  je_session_id := ec_session_id ctx;
  je_namespace := namespace s;
  je_event_type := "interaction";
  je_payload := to_json show_uuid show_time i;
  je_valid_to := None;
  je_idempotency_key := scoped_key tool_name ctx |}.

(** The cached row, when there is a key, a journal and a row: a journal error
    counts as none. *)
Definition cached (store : option (journal_store W)) (tool_name : string) (ctx : execution_context) (w : W)
  : option journal_row :=
  key ← scoped_key tool_name ctx;
  js ← store;
  default None (store_by_key js (now 1 w) key w).

(** [dispatch_tool] from the invocation on. *)
Definition run_dispatch (store : option (journal_store W)) (tool_name : string) (input : json)
    (s : execution_scope) (ctx : execution_context) (bindings : gmap string json) (t : tool W) (w : W)
  : list run_event * W * result runtime_error json :=
  let env := dispatch_envelope tool_name input s ctx w in
  let '(w', r) := invoke t w env in
  let invoked := EvToolInvoked tool_name (namespace s) (now 4 w') (is_ok r) in
  let '(evs, w'') :=
    match store with
    | None => ([], w')
    | Some js =>
        let entry := dispatch_entry tool_name s ctx
                       (dispatch_interaction tool_name bindings s ctx env w w' r) in
        match store_append js (now 5 w') entry w' with
        | (Some sequence, w'') => ([EvJournalAppended sequence "interaction" (namespace s) 0%N], w'')
        | (None, w'') => ([], w'')
        end
    end in
  (invoked :: evs, w'',
   match r with
   | Ok out => Ok (env_payload out)
   | Err e => Err (RTool tool_name (tool_error_to_string show_u64 e))
   end).

(** [Dispatcher::dispatch_tool]: events, world, result. *)
Definition dispatch_tool (guards : gmap string tool_guard_entry) (store : option (journal_store W))
    (registry : gmap string (tool W)) (tool_name : string) (input : json)
    (s : execution_scope) (ctx : execution_context) (w : W)
  : list run_event * W * result runtime_error json :=
  match check_tool s tool_name with
  | Err e => ([], w, Err e)
  | Ok bindings =>
      match registry !! tool_name with
      | None =>
          ([], w, Err (RCapabilityDenied
             (String.append "tool '" (String.append tool_name "' not found in engine registry"))))
      | Some raw =>
          let wrapped := wrap guards tool_name bindings raw in
          if match ec_deadline ctx with Some d => (d <? now 0 w)%Z | None => false end
          then ([], w, Err (RDeadlineExceeded tool_name))
          else
            match cached store tool_name ctx w with
            | Some row => ([], w, Ok (jr_payload row))
            | None => run_dispatch store tool_name input s ctx bindings wrapped w
            end
      end
  end.

(** Where a tool of a scoped registry comes from: a granted tool under its own
    name, wrapped, or the alias of a granted tool under the alias's name. *)
Definition scoped_from (guards : gmap string tool_guard_entry) (source : gmap string (tool W))
    (s : execution_scope) (name : string) (t : tool W) : Prop :=
  (exists bindings raw, check_tool s name = Ok bindings /\ source !! name = Some raw /\
     t = wrap guards name bindings raw /\
     (forall a, guards !! name ≫= tg_alias = Some a -> source !! a = None)) \/
  (exists n, is_ok (check_tool s n) = true /\ guards !! n ≫= tg_alias = Some name /\
     source !! name = Some t).

(** ** The contract of a dispatch

    What a dispatch that goes ahead must do, field by field: the call that
    reaches the tool, the record of it and the events. *)

(** The message the guard of a tool denies a payload with, if it does. *)
Definition dispatch_denial (guards : gmap string tool_guard_entry) (tool_name : string) (raw : tool W)
    (payload : json) : option string :=
  match guards !! tool_name with
  | Some g =>
      match tg_rules g with
      | [] => None
      | rules => guard_denial (ti_name (info raw)) rules (tg_default_action g) payload
      end
  | None => None
  end.

(** The guard sees the caller's payload; a denied call never reaches the tool,
    any other reaches it with its bindings. *)
Definition guarded_call (guards : gmap string tool_guard_entry) (tool_name : string)
    (bindings : gmap string json) (raw : tool W) (w : W) (env : envelope json)
    (out : W * result tool_error (envelope json)) : Prop :=
  match dispatch_denial guards tool_name raw (env_payload env) with
  | Some message => out = (w, Err (ToolCapabilityDenied (String.append "guard denied: " message)))
  | None => bound_call raw bindings w env out
  end.

Definition expected_envelope (tool_name : string) (input : json) (s : execution_scope)
    (ctx : execution_context) (w : W) : envelope json := {|
  env_id := fresh 0 w; env_trace_id := ec_trace_id ctx; env_parent_id := None;
  env_actor_id := actor_id (scope_actor s); env_namespace := namespace s;
  env_capabilities := map (fun g => Capability (g_pattern g)) (capabilities s);
  env_target := tool_name; env_payload_type := "tool_input"; env_payload := input;
  env_emitted_at := now 2 w; env_step_index := 0; env_stream_id := ec_session_id ctx;
  env_deadline := ec_deadline ctx; env_idempotency_key := ec_idempotency_key ctx;
  env_qos_class := None; env_references := None;
  env_metadata := [("actor_role", JString (role_to_string (role (scope_actor s))));
                   ("depth", JNumber (PosInt (depth s)));
                   ("session_id", JString (ec_session_id ctx))] |}.

(** The interaction is marked as failed, with the text of the error, exactly
    when the call failed, a denial by the guard included. *)
Definition expected_interaction (tool_name : string) (bindings : gmap string json) (s : execution_scope)
    (ctx : execution_context) (w wi : W) (out : result tool_error (envelope json)) : interaction := {|
  in_id := fresh 1 w; in_parent_id := ec_parent_interaction_id ctx; in_trace_id := ec_trace_id ctx;
  in_run_id := None; in_node_id := None; in_actor := scope_actor s; in_namespace := namespace s;
  in_target := String.append "tool:" tool_name; in_kind := ToolDispatch;
  in_attributes := JObject [("duration_ms", JNumber (PosInt (Z.max 0 ((now 4 wi - now 3 w) / 1000000))));
                            ("tool_name", JString tool_name)];
  in_edge_rules_fired :=
    match bindings !! "namespace" with
    | Some _ => [String.append "cap_check:" tool_name; String.append "ns_inject:" (namespace s)]
    | None => [String.append "cap_check:" tool_name]
    end;
  in_status := match out with Ok _ => StOk | Err e => Failed (tool_error_to_string show_u64 e) end;
  in_summary := None; in_timestamp := now 3 w; in_step_index := 0; in_stream_id := ec_session_id ctx;
  in_state_before_hash := state_hash tool_name w; in_state_after_hash := state_hash tool_name wi;
  in_references := []; in_in_reply_to := None |}.

Definition expected_entry (tool_name : string) (s : execution_scope) (ctx : execution_context)
    (i : interaction) : journal_entry := {|
  je_run_id := None; je_session_id := ec_session_id ctx; je_namespace := namespace s;
  je_event_type := "interaction"; je_payload := to_json show_uuid show_time i; je_valid_to := None;
  je_idempotency_key :=
    match ec_idempotency_key ctx with
    | Some k => Some (String.concat ":" [tool_name; k])
    | None => None
    end |}.

(** The row an earlier dispatch under the same key left, if the journal can be
    read. *)
Definition remembered (store : option (journal_store W)) (tool_name : string) (ctx : execution_context)
    (w : W) : option journal_row :=
  match ec_idempotency_key ctx, store with
  | Some k, Some js =>
      match store_by_key js (now 1 w) (String.concat ":" [tool_name; k]) w with
      | Some (Some row) => Some row
      | _ => None
      end
  | _, _ => None
  end.

(** * Theory *)

Lemma info_wrap guards name bindings raw : info (wrap guards name bindings raw) = info raw.
Proof.
  unfold wrap. destruct (guards !! name) as [g|]; [destruct (tg_rules g)|]; by destruct (bool_decide _).
Qed.

(** A wrapped tool refuses without effect, or hands the inner tool the payload
    with the bindings in it. *)
Lemma wrap_cases guards name bindings raw w env :
  bindings <> ∅ ->
  (exists e, invoke (wrap guards name bindings raw) w env = (w, Err e)) \/
  exists payload, inject_bindings (hash_order bindings) (env_payload env) = Ok payload /\
    invoke (wrap guards name bindings raw) w env = invoke raw w (set_payload env payload).
Proof.
  intros Hb. unfold wrap. rewrite bool_decide_false by done.
  assert ((exists e, invoke (virtualized_tool raw (hash_order bindings)) w env = (w, Err e)) \/
    exists payload, inject_bindings (hash_order bindings) (env_payload env) = Ok payload /\
      invoke (virtualized_tool raw (hash_order bindings)) w env = invoke raw w (set_payload env payload)) as Hv.
  { cbn. destruct (inject_bindings _ _) as [p|e]; [right; by exists p|left; by exists e]. }
  destruct (guards !! name) as [g|]; [|exact Hv]. destruct (tg_rules g) as [|r rs]; [exact Hv|].
  cbn [invoke guarded_tool]. destruct (evaluate _ _ _ _) as [|e]; [exact Hv|left; by exists e].
Qed.

Lemma scope_one_sound guards source s acc i :
  registry_ok source ->
  (forall name t, acc !! name = Some t -> scoped_from guards source s name t) ->
  (forall name t, scope_one guards source s acc i !! name = Some t -> scoped_from guards source s name t).
Proof.
  intros Hok Hacc name t. unfold scope_one. set (n := ti_name i).
  set (plain := match source !! n with Some _ => _ | None => _ end).
  assert ((forall a, guards !! n ≫= tg_alias = Some a -> source !! a = None) ->
          plain !! name = Some t -> scoped_from guards source s name t) as Hplain.
  { intros Ha. unfold plain. destruct (source !! n) as [raw|] eqn:Hn; [|apply Hacc].
    destruct (check_tool s n) as [b|] eqn:Hb; [|apply Hacc].
    unfold register. rewrite info_wrap, (Hok n raw Hn), lookup_insert.
    destruct (decide (n = name)) as [<-|]; [|apply Hacc].
    intros [= <-]. left. by exists b, raw. }
  destruct (guards !! n ≫= tg_alias) as [a|] eqn:Hal; [|by apply Hplain].
  destruct (is_ok (check_tool s n)) eqn:Hg; [|apply Hacc].
  destruct (source !! a) as [at_|] eqn:Hsrc; [|apply Hplain; congruence].
  unfold register. rewrite (Hok a at_ Hsrc), lookup_insert.
  destruct (decide (a = name)) as [<-|]; [|apply Hacc]. intros [= <-]. right. by exists n.
Qed.

Lemma scoped_registry_sound guards source s name t :
  registry_ok source -> scoped_registry guards source s !! name = Some t ->
  scoped_from guards source s name t.
Proof.
  intros Hok. unfold scoped_registry.
  assert (forall l acc, (forall n t, acc !! n = Some t -> scoped_from guards source s n t) ->
    forall n t, fold_left (scope_one guards source s) l acc !! n = Some t -> scoped_from guards source s n t) as Hfold.
  { induction l as [|i l IH]; intros acc Hacc; [exact Hacc|]. cbn. apply IH.
    intros n u. by apply scope_one_sound. }
  apply Hfold. intros n u. by rewrite lookup_empty.
Qed.

(** Without aliases, the registry is exactly the granted tools, wrapped. *)
Definition granted_tool (guards : gmap string tool_guard_entry) (source : gmap string (tool W))
    (s : execution_scope) (name : string) : option (tool W) :=
  match source !! name with
  | Some raw =>
      match check_tool s name with Ok b => Some (wrap guards name b raw) | Err _ => None end
  | None => None
  end.

Lemma scope_one_plain guards source s acc i name :
  registry_ok source -> guards !! ti_name i ≫= tg_alias = None ->
  scope_one guards source s acc i !! name =
    if decide (ti_name i = name)
    then match granted_tool guards source s name with Some t => Some t | None => acc !! name end
    else acc !! name.
Proof.
  intros Hok Hal. unfold scope_one, granted_tool. rewrite Hal.
  destruct (decide (ti_name i = name)) as [<-|Hne].
  - destruct (source !! ti_name i) as [raw|] eqn:Hn; [|done].
    destruct (check_tool s (ti_name i)) as [b|]; [|done].
    unfold register. by rewrite info_wrap, (Hok _ raw Hn), lookup_insert_eq.
  - destruct (source !! ti_name i) as [raw|] eqn:Hn; [|done].
    destruct (check_tool s (ti_name i)) as [b|]; [|done].
    unfold register. by rewrite info_wrap, (Hok _ raw Hn), lookup_insert_ne.
Qed.

Lemma scoped_registry_plain guards source s name :
  registry_ok source -> tool_order source ≡ₚ (fun nt => info nt.2) <$> map_to_list source ->
  (forall n, guards !! n ≫= tg_alias = None) ->
  scoped_registry guards source s !! name = granted_tool guards source s name.
Proof.
  intros Hok Hord Hal.
  assert (forall l (acc : gmap string (tool W)),
    fold_left (scope_one guards source s) l acc !! name =
      if bool_decide (name ∈ map ti_name l)
      then match granted_tool guards source s name with Some t => Some t | None => acc !! name end
      else acc !! name) as Hfold.
  { induction l as [|i l IH]; intros acc; [done|]. cbn [fold_left map]. rewrite IH.
    rewrite scope_one_plain by done.
    rewrite (bool_decide_ext (name ∈ ti_name i :: map ti_name l) (ti_name i = name \/ name ∈ map ti_name l))
      by (rewrite elem_of_cons; split; intros [Hx|Hx]; [by left|by right|by left|by right]).
    rewrite bool_decide_or. destruct (decide (ti_name i = name)) as [Heq|Hne].
    - rewrite (bool_decide_true (ti_name i = name)) by done. cbn [orb].
      destruct (bool_decide _); [|done]. by destruct (granted_tool _ _ _ _).
    - by rewrite (bool_decide_false (ti_name i = name)) by done. }
  unfold scoped_registry. rewrite Hfold, lookup_empty.
  destruct (granted_tool guards source s name) as [t|] eqn:Hg.
  - rewrite bool_decide_true; [done|]. unfold granted_tool in Hg.
    destruct (source !! name) as [raw|] eqn:Hn; [|done].
    apply list_elem_of_fmap. exists (info raw). split; [symmetry; by apply Hok|].
    rewrite Hord. apply list_elem_of_fmap. exists (name, raw). split; [done|].
    by apply elem_of_map_to_list.
  - by destruct (bool_decide _).
Qed.

(** ** The envelope of a dispatch *)

Lemma env_scope tool_name input s ctx w :
  from_envelope (dispatch_envelope tool_name input s ctx w) = {|
    namespace := namespace s;
    capabilities := map (fun g => grant_new (g_pattern g)) (capabilities s);
    limits := limits_default;
    scope_actor := scope_actor s;
    depth := depth s |}.
Proof.
  unfold from_envelope, dispatch_envelope.
  cbn [env_namespace env_capabilities env_actor_id env_metadata for_tool_dispatch].
  rewrite !obj_get_insert. repeat (rewrite decide_False by done || rewrite decide_True by done).
  cbn [mbind option_bind as_str as_u64 number_as_u64 default from_option]. f_equal.
  - unfold to_patterns, from_patterns, capability_patterns. by rewrite !map_map.
  - destruct (scope_actor s) as [i r]. cbn. by destruct r.
Qed.

Lemma env_context tool_name input s ctx w :
  context_from_envelope (dispatch_envelope tool_name input s ctx w) = {|
    ec_trace_id := ec_trace_id ctx; ec_parent_interaction_id := None;
    ec_session_id := ec_session_id ctx; ec_deadline := ec_deadline ctx;
    ec_idempotency_key := ec_idempotency_key ctx |}.
Proof.
  unfold context_from_envelope, dispatch_envelope.
  cbn [env_trace_id env_parent_id env_metadata env_deadline env_idempotency_key for_tool_dispatch].
  rewrite !obj_get_insert. by repeat (rewrite decide_False by done || rewrite decide_True by done).
Qed.

(** ** Dispatch *)

(** A dispatch goes ahead. *)
Definition goes_ahead (store : option (journal_store W)) (registry : gmap string (tool W))
    (tool_name : string) (s : execution_scope) (ctx : execution_context) (w : W)
    (bindings : gmap string json) (raw : tool W) : Prop :=
  check_tool s tool_name = Ok bindings /\ registry !! tool_name = Some raw /\
  match ec_deadline ctx with Some d => (now 0 w <= d)%Z | None => True end /\
  cached store tool_name ctx w = None.

Lemma dispatch_cases guards store registry tool_name input s ctx w :
  (exists bindings raw, goes_ahead store registry tool_name s ctx w bindings raw /\
     dispatch_tool guards store registry tool_name input s ctx w =
       run_dispatch store tool_name input s ctx bindings (wrap guards tool_name bindings raw) w) \/
  exists r, dispatch_tool guards store registry tool_name input s ctx w = ([], w, r) /\
    match r with
    | Ok v => is_ok (check_tool s tool_name) = true /\
              exists row, cached store tool_name ctx w = Some row /\ jr_payload row = v
    | Err (RCapabilityDenied _) =>
        is_ok (check_tool s tool_name) = false \/ registry !! tool_name = None
    | Err (RDeadlineExceeded t) =>
        t = tool_name /\ exists d, ec_deadline ctx = Some d /\ (d < now 0 w)%Z
    | Err _ => False
    end.
Proof.
  unfold dispatch_tool, goes_ahead. destruct (check_tool s tool_name) as [b|e] eqn:Hb.
  2:{ right. eexists. split; [done|]. clear -Hb. unfold check_tool in Hb.
      induction (capabilities s) as [|g gs IH]; [by injection Hb as <-; left|].
      destruct (grant_matches g tool_name); [done|by apply IH]. }
  destruct (registry !! tool_name) as [raw|] eqn:Hr.
  2:{ right. eexists. split; [done|]. by right. }
  destruct (ec_deadline ctx) as [d|] eqn:Hd.
  - destruct (Z.ltb_spec d (now 0 w)) as [Hlt|Hge].
    { right. eexists. split; [done|]. split; [done|]. by exists d. }
    destruct (cached store tool_name ctx w) as [row|] eqn:Hc.
    + right. eexists. split; [done|]. split; [done|]. by exists row.
    + left. by exists b, raw.
  - destruct (cached store tool_name ctx w) as [row|] eqn:Hc.
    + right. eexists. split; [done|]. split; [done|]. by exists row.
    + left. by exists b, raw.
Qed.

Lemma cached_remembered store tool_name ctx w :
  cached store tool_name ctx w = remembered store tool_name ctx w.
Proof.
  unfold cached, remembered, scoped_key.
  destruct (ec_idempotency_key ctx) as [k|]; [|done]. destruct store as [js|]; [|done].
  cbn [fmap option_fmap option_map mbind option_bind String.concat].
  by destruct (store_by_key _ _ _ _) as [[row|]|].
Qed.

Lemma check_tool_Err s tool_name e :
  check_tool s tool_name = Err e ->
  e = RCapabilityDenied (String.concat EmptyString
        ["tool '"; tool_name; "' not granted in scope '"; namespace s; "'"]).
Proof.
  unfold check_tool. induction (capabilities s) as [|g gs IH]; [by intros [= <-]|].
  by destruct (grant_matches g tool_name).
Qed.

Lemma wrap_guarded guards name bindings raw w env :
  listing (hash_order bindings) bindings ->
  guarded_call guards name bindings raw w env (invoke (wrap guards name bindings raw) w env).
Proof.
  intros Hl. unfold guarded_call, dispatch_denial, wrap.
  set (inner := if bool_decide (bindings = ∅) then raw else _).
  assert (bound_call raw bindings w env (invoke inner w env)) as Hin.
  { unfold inner. case_bool_decide as Hb.
    - unfold bound_call. by rewrite decide_True.
    - by apply virtualized_invoke. }
  assert (info inner = info raw) as Hi by (unfold inner; by case_bool_decide).
  destruct (guards !! name) as [g|]; [|done]. destruct (tg_rules g) as [|r rs]; [done|].
  cbn [invoke guarded_tool]. rewrite Hi, evaluate_denial. by destruct (guard_denial _ _ _ _).
Qed.

Lemma dispatch_envelope_expected tool_name input s ctx w :
  dispatch_envelope tool_name input s ctx w = expected_envelope tool_name input s ctx w.
Proof.
  unfold dispatch_envelope, expected_envelope, capability_patterns. cbn. f_equal.
  unfold from_patterns. by rewrite map_map.
Qed.

Lemma dispatch_interaction_expected tool_name bindings input s ctx w wi out :
  dispatch_interaction tool_name bindings s ctx (dispatch_envelope tool_name input s ctx w) w wi out
  = expected_interaction tool_name bindings s ctx w wi out.
Proof.
  unfold dispatch_interaction, expected_interaction. cbn [dispatch_envelope env_step_index env_stream_id for_tool_dispatch].
  f_equal. by destruct (bindings !! "namespace").
Qed.

Lemma dispatch_entry_expected tool_name s ctx i :
  dispatch_entry tool_name s ctx i = expected_entry tool_name s ctx i.
Proof.
  reflexivity.
Qed.

(** What a dispatch that goes ahead does: one invocation, then one append. *)
Lemma run_dispatch_spec store tool_name input s ctx bindings t w :
  let env := dispatch_envelope tool_name input s ctx w in
  let wi := fst (invoke t w env) in
  let out := snd (invoke t w env) in
  let entry := dispatch_entry tool_name s ctx (dispatch_interaction tool_name bindings s ctx env w wi out) in
  let '(evs, w', r) := run_dispatch store tool_name input s ctx bindings t w in
  evs <> [] /\
  w' = match store with Some js => snd (store_append js (now 5 wi) entry wi) | None => wi end /\
  r = match out with
      | Ok e => Ok (env_payload e)
      | Err e => Err (RTool tool_name (tool_error_to_string show_u64 e))
      end.
Proof.
  cbn zeta. unfold run_dispatch. destruct (invoke t w _) as [wi out]. cbn [fst snd].
  destruct store as [js|]; [|done].
  destruct (store_append js _ _ _) as [[seq|] w'']; done.
Qed.

(** C19: what a single-tool call does, on every branch.  Without a grant,
    without the tool or after the deadline it is refused, and under a key the
    journal knows it is answered with the recorded payload; in all these cases
    the world is untouched and nothing is emitted.  Otherwise the call is put to
    the tool's guard: denied, it never reaches the tool; admitted, it reaches it
    once with the grant's bindings forced, on an envelope that carries the
    scope's identity and whose own capabilities grant the tool.  Either way the
    outcome is announced, and with a journal one interaction is appended that
    records who called what and whether it failed, and announced when the append
    succeeded; the caller gets the tool's payload or its error. *)
Theorem dispatch_tool_spec guards store registry tool_name input s ctx w :
  (forall bindings, listing (hash_order bindings) bindings) ->
  let '(evs, w', r) := dispatch_tool guards store registry tool_name input s ctx w in
  let untouched answer := evs = [] /\ w' = w /\ r = answer in
  match check_tool s tool_name, registry !! tool_name with
  | Err _, _ => untouched (Err (RCapabilityDenied (String.concat EmptyString
        ["tool '"; tool_name; "' not granted in scope '"; namespace s; "'"])))
  | Ok _, None => untouched (Err (RCapabilityDenied (String.concat EmptyString
        ["tool '"; tool_name; "' not found in engine registry"])))
  | Ok bindings, Some raw =>
      if match ec_deadline ctx with Some d => (d <? now 0 w)%Z | None => false end
      then untouched (Err (RDeadlineExceeded tool_name))
      else match remembered store tool_name ctx w with
      | Some row => untouched (Ok (jr_payload row))
      | None =>
          exists wi out,
            let env := expected_envelope tool_name input s ctx w in
            let i := expected_interaction tool_name bindings s ctx w wi out in
            guarded_call guards tool_name bindings raw w env (wi, out) /\
            check_access (env_capabilities env) tool_name = Ok tt /\
            r = match out with
                | Ok e => Ok (env_payload e)
                | Err e => Err (RTool tool_name (tool_error_to_string show_u64 e))
                end /\
            let invoked := EvToolInvoked tool_name (namespace s) (now 4 wi)
                             (match out with Ok _ => true | Err _ => false end) in
            match store with
            | None => w' = wi /\ evs = [invoked]
            | Some js =>
                let '(appended, wj) := store_append js (now 5 wi) (expected_entry tool_name s ctx i) wi in
                w' = wj /\
                evs = match appended with
                      | Some seq => [invoked; EvJournalAppended seq "interaction" (namespace s) 0%N]
                      | None => [invoked]
                      end
            end
      end
  end.
Proof.
  intros Hord. unfold dispatch_tool. destruct (check_tool s tool_name) as [b|e] eqn:Hb.
  2:{ apply check_tool_Err in Hb as ->. done. }
  destruct (registry !! tool_name) as [raw|]; [|done].
  destruct (match ec_deadline ctx with Some d => _ | None => _ end); [done|].
  rewrite cached_remembered. destruct (remembered store tool_name ctx w) as [row|]; [done|].
  pose proof (wrap_guarded guards tool_name b raw w (dispatch_envelope tool_name input s ctx w) (Hord b)) as Hcall.
  assert (check_access (env_capabilities (dispatch_envelope tool_name input s ctx w)) tool_name = Ok tt) as Hacc.
  { apply check_tool_Ok. by rewrite Hb. }
  unfold run_dispatch. destruct (invoke (wrap guards tool_name b raw) w _) as [wi out].
  rewrite dispatch_interaction_expected, dispatch_entry_expected.
  rewrite dispatch_envelope_expected in Hcall, Hacc.
  destruct store as [js|]; [|exists wi, out; split_and!; done].
  destruct (store_append js _ _ _) as [[seq|] wj] eqn:Hs; exists wi, out; rewrite Hs; split_and!; done.
Qed.

(** A dispatch that went ahead under an idempotency key, with a journal
    that finds what it appends, is never repeated: a later dispatch of the
    tool under the same key, in the world it left, invokes nothing and changes
    nothing.  Its answer is the recorded interaction, not the tool's output,
    and it is [Ok] even when the first call failed. *)
Theorem idempotent_dispatch guards js good fits registry tool_name input s ctx w bindings raw k :
  StoreLaws js good fits ->
  ec_idempotency_key ctx = Some k ->
  goes_ahead (Some js) registry tool_name s ctx w bindings raw ->
  let env := dispatch_envelope tool_name input s ctx w in
  let wi := fst (invoke (wrap guards tool_name bindings raw) w env) in
  let out := snd (invoke (wrap guards tool_name bindings raw) w env) in
  let i := dispatch_interaction tool_name bindings s ctx env w wi out in
  good wi -> fits (dispatch_entry tool_name s ctx i) ->
  let '(_, w1, _) := dispatch_tool guards (Some js) registry tool_name input s ctx w in
  forall input' ctx',
    ec_idempotency_key ctx' = Some k ->
    match ec_deadline ctx' with Some d => (now 0 w1 <= d)%Z | None => True end ->
    dispatch_tool guards (Some js) registry tool_name input' s ctx' w1 =
      ([], w1, Ok (to_json show_uuid show_time i)).
Proof.
  intros Hlaws Hk Hgo env wi out i Hgood Hfits.
  destruct (dispatch_cases guards (Some js) registry tool_name input s ctx w)
    as [(b & raw' & (Hb & Hraw & _) & ->)|(r & Hr & Hcase)].
  2:{ exfalso. destruct Hgo as (Hb & Hraw & Hd & Hc). rewrite Hb in Hcase.
      destruct r as [v|[]]; try done.
      - destruct Hcase as [_ (row & Hrow & _)]. congruence.
      - destruct Hcase as [?|?]; [done|congruence].
      - destruct Hcase as [_ (d & Hd' & Hlt)]. rewrite Hd' in Hd. lia. }
  destruct Hgo as (Hb' & Hraw' & _). rewrite Hb in Hb'. injection Hb' as ->.
  rewrite Hraw in Hraw'. injection Hraw' as ->.
  pose proof (run_dispatch_spec (Some js) tool_name input s ctx bindings (wrap guards tool_name bindings raw) w) as Hrun.
  destruct (run_dispatch _ _ _ _ _ _ _ _) as [[evs w1] r]. destruct Hrun as (_ & Hw1 & _).
  intros input' ctx' Hk' Hd'.
  destruct (store_find (now 5 wi) (dispatch_entry tool_name s ctx i) wi
              (String.append tool_name (String.append ":" k)) Hgood Hfits) with (later := now 1 w1)
    as (row & Hrow & Hpay); [cbn; unfold scoped_key; by rewrite Hk|done|].
  unfold dispatch_tool. rewrite Hb, Hraw.
  replace (match ec_deadline ctx' with Some d => (d <? now 0 w1)%Z | None => false end) with false.
  2:{ destruct (ec_deadline ctx') as [d|]; [|done]. symmetry. by apply Z.ltb_ge. }
  assert (cached (Some js) tool_name ctx' w1 = Some row) as ->.
  { unfold cached, scoped_key. rewrite Hk'. cbn [fmap option_fmap option_map mbind option_bind].
    fold env wi out i in Hw1. rewrite <- Hw1 in Hrow. by rewrite Hrow. }
  by rewrite Hpay.
Qed.

(** What a tool that starts a workflow gets back from its envelope: the
    namespace, actor, depth, trace, session, deadline and key of the dispatch,
    and its capability patterns; but the grants have lost their bindings, the
    limits are the defaults, and the causal parent is gone. *)
Theorem dispatch_scope_roundtrip tool_name input s ctx w :
  let env := dispatch_envelope tool_name input s ctx w in
  from_envelope env = {|
    namespace := namespace s;
    capabilities := map (fun g => CapabilityGrant (g_pattern g) ∅) (capabilities s);
    limits := limits_default; scope_actor := scope_actor s; depth := depth s |} /\
  context_from_envelope env = {|
    ec_trace_id := ec_trace_id ctx; ec_parent_interaction_id := None;
    ec_session_id := ec_session_id ctx; ec_deadline := ec_deadline ctx;
    ec_idempotency_key := ec_idempotency_key ctx |} /\
  (forall t, is_ok (check_tool (from_envelope env) t) = is_ok (check_tool s t)).
Proof.
  split_and!; [apply env_scope|apply env_context|]. intros t.
  apply eq_true_iff_eq. rewrite !check_tool_Ok, env_scope.
  unfold capability_patterns. cbn [capabilities]. by rewrite map_map.
Qed.

(** The registry a run executes with holds nothing the scope does not
    grant: each tool is a granted one under its own name behind its bindings
    and guard, or the alias of a granted one.  Without aliases it holds every
    granted tool.  A tool with an alias is not in it under its own name, unless
    another tool's alias has that name. *)
Theorem scoped_registry_spec guards source s :
  registry_ok source -> tool_order source ≡ₚ (fun nt => info nt.2) <$> map_to_list source ->
  let scoped := scoped_registry guards source s in
  (forall name t, scoped !! name = Some t -> scoped_from guards source s name t) /\
  ((forall n, guards !! n ≫= tg_alias = None) ->
     forall name, scoped !! name =
       match source !! name with
       | Some raw => match check_tool s name with
                     | Ok b => Some (wrap guards name b raw) | Err _ => None end
       | None => None
       end) /\
  (forall n a, guards !! n ≫= tg_alias = Some a -> is_Some (source !! a) ->
     (forall m, guards !! m ≫= tg_alias <> Some n) -> scoped !! n = None).
Proof.
  intros Hok Hord scoped. split_and!.
  - intros name t. by apply scoped_registry_sound.
  - intros Hal name. by apply scoped_registry_plain.
  - intros n a Ha Hsrc Hno. destruct (scoped !! n) as [t|] eqn:Ht; [|done]. exfalso.
    apply scoped_registry_sound in Ht as [(b & raw & _ & _ & _ & Hna)|(m & _ & Hm & _)]; [| |done].
    + rewrite (Hna a Ha) in Hsrc. by destruct Hsrc.
    + by eapply Hno.
Qed.
End Dispatch.

(** * The redb journal as the dispatcher's journal *)

Section RedbStore.
Context {E R S X B : Type}.
Context `{LogTable E Z B} `{IndexTable R uuid} `{IndexTable S string} `{IndexTable X Z}.
Context (encode : stored_entry -> B) (decode : B -> option stored_entry).
Context (json_to_string : json -> string) (json_of_string : string -> option json).
Context (codec : forall s, decode (encode s) = Some s).
Context `{!LogTableLaws E Z B Z.lt}.
Context `{!IndexTableLaws R uuid} `{!IndexTableLaws S string} `{!IndexTableLaws X Z}.

Definition redb_store : journal_store (journal (E := E) (R := R) (S := S) (X := X)) := {|
  store_append now e j :=
    (Some (fst (append encode json_to_string now e j)), snd (append encode json_to_string now e j));
  store_by_key now key j := get_by_idempotency_key decode json_of_string now key j |}.

#[export] Instance redb_store_laws :
  StoreLaws redb_store (fun j => consistent decode json_of_string j /\ has_room 1 j)
    (storable json_to_string json_of_string).
Proof.
  split. intros now e j k [Hc Hr] He Hk Hv later.
  cbn [redb_store store_by_key store_append snd].
  rewrite (get_by_key_rows decode json_of_string) by by apply append_consistent.
  rewrite (rows_append encode decode json_to_string json_of_string codec) by done.
  rewrite List.filter_app. cbn [List.filter appended jr_idempotency_key].
  rewrite Hk, bool_decide_true, last_snoc by done.
  eexists. split; [unfold is_expired; cbn; rewrite Hv; reflexivity|reflexivity].
Qed.
End RedbStore.

(** * A dispatch, concretely *)

Module Demo.

Abbreviation world := Journal.Demo.demo_journal.

Definition echo : tool world := {|
  info := ToolInfo "echo" "" JNull None ["echo"] false annotations_default;
  invoke := fun w env => (w, Ok env) |}.

Definition registry : gmap string (tool world) := {["echo" := echo]}.
Definition order (_ : gmap string json) : list (string * json) := [("namespace", JString "konf:a")].
Definition tools (_ : gmap string (tool world)) : list tool_info := [info echo].
Definition clock (_ : nat) (_ : world) : datetime := 5000%Z.
Definition ids (n : nat) (_ : world) : uuid := N.of_nat n.
Definition no_hash (_ : string) (_ : world) : option (list Z) := None.
Definition show (_ : uuid) : string := "id".
Definition show_t (_ : datetime) : string := "now".
Definition show_n (_ : Z) : string := "0".

Definition scope : execution_scope := {|
  namespace := "konf:a"; capabilities := [CapabilityGrant "echo" {["namespace" := JString "konf:a"]}];
  limits := limits_default; scope_actor := {| actor_id := "u"; role := User |}; depth := 0 |}.
Definition ctx : execution_context := ExecutionContext 9 None "s" None (Some "k").

Definition start : world := Journal.Demo.start.
Definition env0 : envelope json := dispatch_envelope clock ids "echo" (JObject []) scope ctx start.
Definition bindings : gmap string json := {["namespace" := JString "konf:a"]}.
Definition out0 : result tool_error (envelope json) :=
  Ok (set_payload env0 (JObject [("namespace", JString "konf:a")])).
Definition recorded : json :=
  to_json show show_t (dispatch_interaction clock ids no_hash show_n "echo" bindings scope ctx env0 start start out0).

Definition to_text (_ : json) : string := "recorded".
Definition of_text (s : string) : option json := if String.eqb s "recorded" then Some recorded else None.
Definition store : journal_store world := redb_store id Some to_text of_text.

Abbreviation dispatch :=
  (dispatch_tool order clock ids no_hash show show_t show_n ∅ (Some store) registry "echo").

(** Called twice under one key, the tool runs once; the second answer is the
    record of the first. *)
Lemma idempotent_dispatch_witness :
  snd (dispatch (JObject []) scope ctx start) = Ok (JObject [("namespace", JString "konf:a")]) /\
  dispatch JNull scope ctx (snd (fst (dispatch (JObject []) scope ctx start)))
    = ([], snd (fst (dispatch (JObject []) scope ctx start)), Ok recorded).
Proof.
  split; [vm_compute; reflexivity|].
  pose proof (idempotent_dispatch order clock ids no_hash show show_t show_n ∅ store
    (fun j => consistent Some of_text j /\ has_room 1 j) (storable to_text of_text)
    registry "echo" (JObject []) scope ctx start bindings echo "k"
    (redb_store_laws id Some to_text of_text Journal.Demo.journal_codec_id) eq_refl) as H.
  specialize (H ltac:(split_and!; [vm_compute; reflexivity..|vm_compute; reflexivity])).
  cbn zeta in H. fold env0 in H.
  assert (invoke (wrap order ∅ "echo" bindings echo) start env0 = (start, out0)) as Hinv
    by (vm_compute; reflexivity).
  rewrite Hinv in H. cbn [fst snd] in H. fold recorded in H.
  assert (consistent Some of_text start /\ has_room 1 start) as Hgood.
  { split; [exact (new_consistent Some of_text)|vm_compute; discriminate]. }
  specialize (H Hgood).
  assert (forall i, to_json show show_t i = recorded ->
            storable to_text of_text (dispatch_entry show show_t "echo" scope ctx i)) as Hfits.
  { intros i Hi. unfold storable. cbn [dispatch_entry je_payload]. rewrite Hi. reflexivity. }
  specialize (H (Hfits _ eq_refl)).
  destruct (dispatch (JObject []) scope ctx start) as [[evs w1] r]. cbn [fst snd].
  rewrite (H JNull ctx eq_refl I). reflexivity.
Defined.

(** A guard that forbids the input: the tool does not run, and the refusal is
    announced and recorded as a failure. *)
Definition deny_all : gmap string tool_guard_entry :=
  {["echo" := {| tg_rules := [Deny (PExists "q") "no questions"]; tg_default_action := DefaultAllow; tg_alias := None |}]}.

Lemma dispatch_tool_spec_witness :
  let '(evs, _, r) :=
    dispatch_tool map_to_list clock ids no_hash show show_t show_n deny_all (Some store) registry "echo"
      (JObject [("q", JBool true)]) scope ctx start in
  r = Err (RTool "echo" "capability denied: guard denied: no questions") /\
  head evs = Some (EvToolInvoked "echo" "konf:a" 5000 false).
Proof.
  pose proof (dispatch_tool_spec map_to_list clock ids no_hash show show_t show_n deny_all (Some store)
    registry "echo" (JObject [("q", JBool true)]) scope ctx start (fun b => Permutation_refl _)) as H.
  destruct (dispatch_tool map_to_list clock ids no_hash show show_t show_n deny_all (Some store) registry "echo"
    (JObject [("q", JBool true)]) scope ctx start) as [[evs w'] r].
  change (check_tool scope "echo") with (@Ok runtime_error _ bindings) in H.
  change (registry !! "echo") with (Some echo) in H. cbn [ec_deadline ctx] in H.
  change (remembered clock (Some store) "echo" ctx start) with (@None journal_row) in H.
  destruct H as (wi & out & Hcall & _ & -> & H).
  change (guarded_call deny_all "echo" bindings echo start
    (expected_envelope clock ids "echo" (JObject [("q", JBool true)]) scope ctx start) (wi, out))
    with ((wi, out) = (start, @Err tool_error (envelope json)
      (ToolCapabilityDenied (String.append "guard denied: " "no questions")))) in Hcall.
  injection Hcall as -> ->. split; [reflexivity|].
  destruct (store_append _ _ _ _) as [[seq|] wj]; by destruct H as [_ ->].
Defined.

Lemma scoped_registry_spec_witness :
  registry_ok registry /\
  is_Some (scoped_registry order tools ∅ registry scope !! "echo").
Proof.
  assert (registry_ok registry) as Hok.
  { intros name t. unfold registry. rewrite lookup_singleton_Some. by intros [<- <-]. }
  split; [exact Hok|].
  destruct (scoped_registry_spec order tools ∅ registry scope Hok) as (_ & Hplain & _).
  { unfold registry. rewrite map_to_list_singleton. reflexivity. }
  rewrite Hplain by (intros n; reflexivity). eexists. reflexivity.
Defined.
End Demo.
