(* ===== verification/Agent.v ===== *)
(** The agent: [ai:complete] and its ReAct loop
    ([konf-tool-llm/src/lib.rs]), workflow validation ([validate.rs]) and
    introspection ([introspect.rs]).

    The model behind the loop is a parameter that may answer anything: rig's
    clients are third-party, and what they return decides which tools are
    called.  The tools are those of the engine's live registry. *)

From Stdlib Require Import Ascii.
From S2P Require Import Prelude Json Error Envelope Scope Tool Guard Workflow Config Schema Validator Table Stream Compiler Engine Dispatch.

Local Open Scope string_scope.
Local Open Scope list_scope.
Local Open Scope Z_scope.

(** * Data *)

(** [LlmConfig] with its default. *)
Record llm_config : Type := LlmConfig {
  provider : string;
  model : string;
  temperature : f64;
  max_tokens : Z;
  max_iterations : Z;
}.

Definition default_temperature : f64 := f64_of_decimal false 7 (-1).
Definition llm_config_default : llm_config := LlmConfig "openai" "gpt-4o" default_temperature 4096 10.

(** The rig messages the loop builds and reads; content it ignores is carried
    along. *)
Record tool_call : Type := ToolCall {
  tc_id : string; tc_call_id : option string; tc_name : string; tc_arguments : json }.
Inductive assistant_content : Type := AText (text : string) | AToolCall (tc : tool_call) | AOther (opaque : json).
Inductive user_content : Type :=
  | UText (text : string)
  | UToolResult (id : string) (call_id : option string) (text : string).
Inductive chat_message : Type :=
  | MSystem (content : string)
  | MUser (content : list user_content)
  | MAssistant (id : option string) (content : list assistant_content).
Record completion_response : Type := CompletionResponse {
  choice : list assistant_content; message_id : option string }.
Record tool_definition : Type := ToolDefinition {
  td_name : string; td_description : string; td_parameters : json }.

(** [ReactResult]. *)
Record react_result : Type := ReactResult { rr_text : string; rr_iterations : Z; rr_tool_call_count : Z }.

(** [truncate_utf8]: the first characters of a text, by leading bytes. *)
Fixpoint truncate_utf8 (s : string) (max_chars : nat) : string :=
  match s with
  | EmptyString => EmptyString
  | String a s' =>
      if N.eqb (byte_of a / 64) 2 then String a (truncate_utf8 s' max_chars)
      else match max_chars with
           | O => EmptyString
           | Datatypes.S n => String a (truncate_utf8 s' n)
           end
  end.

(** [parse_prior_messages]. *)
Definition prior_message (m : json) : option chat_message :=
  role ← get "role" m ≫= as_str;
  content ← get "content" m ≫= as_str;
  if String.eqb role "user" then Some (MUser [UText content])
  else if String.eqb role "assistant" then Some (MAssistant None [AText content])
  else if String.eqb role "system" then Some (MSystem content)
  else None.

Definition parse_prior_messages (input : json) : list chat_message :=
  match get "messages" input ≫= as_array with
  | Some arr => omap prior_message arr
  | None => []
  end.

(** [merge_config]. *)
Definition merge_config (c : llm_config) (input : json) : llm_config := {|
  provider := default (provider c) (get "provider" input ≫= as_str);
  model := default (model c) (get "model" input ≫= as_str);
  temperature := default (temperature c) (get "temperature" input ≫= as_f64);
  max_tokens := default (max_tokens c) (get "max_tokens" input ≫= as_u64);
  max_iterations := default (max_iterations c) (get "max_iterations" input ≫= as_u64) |}.

(** The optional whitelist of a call. *)
Definition whitelist_of (input : json) : option (list string) :=
  match get "tools" input ≫= as_array with
  | Some arr => Some (omap as_str arr)
  | None => None
  end.

Definition supported_providers : list string := ["openai"; "anthropic"; "gemini"; "ollama"].

(** * The loop *)

Section Agent.
Context {W : Type}.
Context (fresh : W -> uuid) (now : W -> datetime) (elapsed_ms : W -> W -> Z).
Context (show_u64 : Z -> string).
Context (json_to_string : json -> string) (json_of_string : string -> option json).
Context (json_error tool_call_error provider_error : string -> string).
Context (tool_order : gmap string (tool W) -> list tool_info).
(** The engine's registry, and one request to the model: the configuration, the
    history, the prompt and the tools. *)
Context (registry : W -> gmap string (tool W)).
Context (completion : llm_config -> list chat_message -> chat_message -> list tool_definition -> W ->
                      W * result string completion_response).

(** ** Tools for the model *)

(** [KonfluxToolBridge]. *)
Record bridge : Type := Bridge { br_tool : tool W; br_info : tool_info; br_parent : envelope json }.

Definition definition_of (b : bridge) : tool_definition :=
  ToolDefinition (ti_name (br_info b)) (ti_description (br_info b)) (ti_input_schema (br_info b)).

Definition listed (whitelist : option (list string)) (name : string) : bool :=
  match whitelist with Some wl => existsb (String.eqb name) wl | None => false end.

(** [resolve_tools]: whether one tool is shown to the model. *)
Definition visible (caps : list string) (whitelist : option (list string)) (name : string) : bool :=
  if String.eqb name "ai:complete" && negb (listed whitelist name) then false
  else if negb (is_ok (check_tool_access name caps)) then false
  else match whitelist with Some _ => listed whitelist name | None => true end.

Definition resolve_tools (w : W) (env : envelope json) (whitelist : option (list string)) : list bridge :=
  omap (fun i =>
    if visible (to_patterns (env_capabilities env)) whitelist (ti_name i)
    then (fun t => Bridge t i (respond (fresh w) (now w) env JNull)) <$> registry w !! ti_name i
    else None) (tool_order (registry w)).

(** [tool_map]: a later bridge of a name wins. *)
Definition find_bridge (tools : list bridge) (name : string) : option bridge :=
  last (List.filter (fun b => String.eqb (ti_name (br_info b)) name) tools).

(** [KonfluxToolBridge::call]: the world, the result, and the invocation. *)
Definition bridge_call (b : bridge) (args : string) (w : W)
  : W * result string string * list (tool W * envelope json) :=
  match json_of_string args with
  | None => (w, Err (json_error args), [])
  | Some input =>
      let child := respond (fresh w) (now w) (br_parent b) input in
      match invoke (br_tool b) w child with
      | (w', Err e) => (w', Err (tool_call_error (tool_error_to_string show_u64 e)), [(br_tool b, child)])
      | (w', Ok out) => (w', Ok (json_to_string (env_payload out)), [(br_tool b, child)])
      end
  end.

(** ** One answer of the model *)

Definition texts (l : list assistant_content) : list string :=
  omap (fun c => match c with AText t => Some t | _ => None end) l.
Definition tool_calls (l : list assistant_content) : list tool_call :=
  omap (fun c => match c with AToolCall tc => Some tc | _ => None end) l.

Definition opt_string (o : option string) : json := match o with Some s => JString s | None => JNull end.

(** One tool call: the text of its result, the events, the invocations. *)
Definition run_call (node_id : string) (tools : list bridge) (tc : tool_call) (w : W)
  : W * user_content * list stream_event * list (tool W * envelope json) :=
  let start := Progress node_id ToolStart (JObject (obj_of_list
    [("tool", JString (tc_name tc)); ("input", tc_arguments tc); ("call_id", JString (tc_id tc))])) in
  let '(w', result, calls) :=
    match find_bridge tools (tc_name tc) with
    | Some b =>
        let '(w', r, calls) := bridge_call b (json_to_string (tc_arguments tc)) w in
        (w', match r with Ok output => output | Err e => String.append "Tool error: " e end, calls)
    | None => (w, String.append "Unknown tool: " (tc_name tc), [])
    end in
  let stop := Progress node_id ToolEnd (JObject (obj_of_list
    [("tool", JString (tc_name tc)); ("call_id", JString (tc_id tc));
     ("duration_ms", JNumber (PosInt (wrap_u64 (elapsed_ms w w'))));
     ("output_preview", JString (truncate_utf8 result 200))])) in
  (w', UToolResult (tc_id tc) (tc_call_id tc) result, [start; stop], calls).

Fixpoint run_calls (node_id : string) (tools : list bridge) (tcs : list tool_call) (w : W)
  : W * list user_content * list stream_event * list (tool W * envelope json) :=
  match tcs with
  | [] => (w, [], [], [])
  | tc :: tcs' =>
      let '(w1, r, evs1, calls1) := run_call node_id tools tc w in
      let '(w2, rs, evs2, calls2) := run_calls node_id tools tcs' w1 in
      (w2, r :: rs, evs1 ++ evs2, calls1 ++ calls2)
  end.

(** [call_completion]: the last message is the prompt. *)
Definition call_completion (c : llm_config) (messages : list chat_message) (defs : list tool_definition) (w : W)
  : W * result string completion_response :=
  if existsb (String.eqb (provider c)) supported_providers then
    completion c (removelast messages) (default (MUser [UText EmptyString]) (last messages)) defs w
  else (w, Err (provider_error (String.append "Unknown LLM provider: '" (String.append (provider c)
                 "'. Supported: openai, anthropic, gemini, ollama")))).

(** ** [react_loop] *)

(** What a run of the loop did: its result, the events it emitted, the message
    lists it sent to the model, and the tools it invoked. *)
Record react_run : Type := ReactRun {
  ru_world : W;
  ru_result : result tool_error react_result;
  ru_events : list stream_event;
  ru_requests : list (list chat_message);
  ru_calls : list (tool W * envelope json);
}.

Definition prepend (evs : list stream_event) (request : list chat_message) (calls : list (tool W * envelope json))
    (r : react_run) : react_run :=
  ReactRun (ru_world r) (ru_result r) (evs ++ ru_events r) (request :: ru_requests r) (calls ++ ru_calls r).

Definition status_event (node_id : string) (iteration max : Z) : stream_event :=
  Progress node_id Status (JObject (obj_of_list
    [("iteration", JNumber (PosInt iteration)); ("max", JNumber (PosInt max))])).

Fixpoint react_iterations (n : nat) (c : llm_config) (tools : list bridge) (node_id : string)
    (iteration total : Z) (messages : list chat_message) (w : W) : react_run :=
  match n with
  | O => ReactRun w (Err (ExecutionFailed (String.concat EmptyString
           ["ai_complete exceeded max_iterations ("; show_u64 (max_iterations c);
            ") without producing a final response"]) false)) [] [] []
  | Datatypes.S n' =>
      let status := status_event node_id iteration (max_iterations c) in
      match call_completion c messages (map definition_of tools) w with
      | (w1, Err e) =>
          ReactRun w1 (Err (ExecutionFailed (String.append (provider c)
                              (String.append " completion failed: " e)) true)) [status] [messages] []
      | (w1, Ok response) =>
          let messages1 := messages ++ [MAssistant (message_id response) (choice response)] in
          match tool_calls (choice response) with
          | [] =>
              let final_text := String.concat EmptyString (texts (choice response)) in
              ReactRun w1 (Ok (ReactResult final_text (iteration + 1) total))
                (status :: if String.eqb final_text EmptyString then []
                           else [Progress node_id TextDelta (JString final_text)]) [messages] []
          | tcs =>
              let '(w2, results, evs, calls) := run_calls node_id tools tcs w1 in
              prepend (status :: evs) messages calls
                (match results with
                 | [] => ReactRun w2 (Err (ExecutionFailed "Failed to build tool results message" false)) [] [] []
                 | _ => react_iterations n' c tools node_id (iteration + 1) (total + Z.of_nat (length tcs))
                          (messages1 ++ [MUser results]) w2
                 end)
          end
      end
  end.

Definition initial_messages (system : option string) (prior : list chat_message) (prompt : string)
  : list chat_message :=
  (match system with Some s => [MSystem s] | None => [] end) ++ prior ++ [MUser [UText prompt]].

Definition react_loop (c : llm_config) (system : option string) (prior : list chat_message) (prompt : string)
    (tools : list bridge) (node_id : string) (w : W) : react_run :=
  react_iterations (Z.to_nat (max_iterations c)) c tools node_id 0 0 (initial_messages system prior prompt) w.

(** ** The tool *)

(** The loop of one invocation. *)
Definition ai_run (base : llm_config) (w : W) (env : envelope json) : react_run :=
  let input := env_payload env in
  let prompt := default EmptyString (get "prompt" input ≫= as_str) in
  let system := get "system" input ≫= as_str in
  react_loop (merge_config base input) system (parse_prior_messages input) prompt
    (resolve_tools w env (whitelist_of input)) (env_target env) w.

(** [AiCompleteTool::invoke_streaming]; [invoke] drops the events. *)
Definition ai_invoke (base : llm_config) (w : W) (env : envelope json) : W * result tool_error (envelope json) :=
  let c := merge_config base (env_payload env) in
  let r := ai_run base w env in
  let w' := ru_world r in
  (w',
   res ← ru_result r;
   Ok (respond (fresh w') (now w') env (JObject (obj_of_list
     [("text", JString (rr_text res));
      ("_meta", JObject (obj_of_list
        [("tool", JString "ai:complete"); ("provider", JString (provider c)); ("model", JString (model c));
         ("duration_ms", JNumber (PosInt (wrap_u64 (elapsed_ms w w'))));
         ("iterations", JNumber (PosInt (rr_iterations res)));
         ("tool_calls", JNumber (PosInt (rr_tool_call_count res)))]))])))).

(** [AiCompleteTool::info]; the schema is the source's. *)
Definition ai_info (schema : json) : tool_info :=
  ToolInfo "ai:complete"
    "Generate an LLM completion with optional tool calling (ReAct loop). Tools are filtered by the caller's capabilities and optional `tools` whitelist."
    schema None ["ai:complete"] true (ToolAnnotations false false false true).

Definition AiCompleteTool (base : llm_config) (schema : json) : tool W := Tool (ai_info schema) (ai_invoke base).
End Agent.
Arguments Bridge {W}. Arguments br_tool {W}. Arguments br_info {W}. Arguments br_parent {W}.
Arguments ReactRun {W}. Arguments ru_world {W}. Arguments ru_result {W}. Arguments ru_events {W}.
Arguments ru_requests {W}. Arguments ru_calls {W}.

(** * Validation and introspection *)

Section Inspect.
Context {W : Type}.
Context (fresh : W -> uuid) (now : W -> datetime) (show_u64 : Z -> string).
Context (unicode_alphanumeric : N -> bool) (yaml_schema : string -> result string workflow_schema).
Context (tool_order : gmap string (tool W) -> list tool_info).

(** [ValidateWorkflowTool::invoke]: the errors of a workflow that parses, and
    the answer. *)
Definition unregistered (registry : gmap string (tool W)) (s : step) : option string :=
  if contains registry (st_tool s) then None
  else Some (String.concat EmptyString
         ["Tool '"; st_tool s; "' (used in step '"; st_id s; "') is not registered"]).

Definition uncovered (patterns : list string) (cap : string) : option string :=
  if existsb (fun grant => matches (Capability grant) cap) patterns then None
  else Some (String.concat EmptyString
         ["Workflow requires '"; cap; "' but caller does not have a matching grant"]).

Definition validation_errors (registry : gmap string (tool W)) (patterns : list string) (wf : workflow) : list string :=
  omap (unregistered registry) (wf_steps wf) ++ omap (uncovered patterns) (wf_capabilities wf).

Definition invalid (errors : list string) : json :=
  JObject (obj_of_list [("valid", JBool false); ("errors", JArray (map JString errors))]).

Definition validate_workflow (config : engine_config) (registry : gmap string (tool W))
    (patterns : list string) (payload : json) : result tool_error json :=
  yaml ← ok_or (get "yaml" payload ≫= as_str)
           (InvalidInput "Missing required field 'yaml' (string)" (Some "yaml"));
  Ok (match parse_yaml show_u64 unicode_alphanumeric yaml_schema config yaml with
      | Err e => invalid [String.append "Parse error: " (konflux_error_to_string show_u64 e)]
      | Ok wf =>
          match validation_errors registry patterns wf with
          | [] => JObject (obj_of_list
              [("valid", JBool true); ("workflow_id", JString (wf_id wf));
               ("node_count", JNumber (PosInt (Z.of_nat (length (wf_steps wf)))));
               ("capabilities_required", JArray (map JString (wf_capabilities wf)))])
          | errors => invalid errors
          end
      end).

(** [matches_filter] and [IntrospectTool::invoke]. *)
Definition matches_filter (pattern tool_name : string) : bool :=
  if String.eqb pattern "*" then true
  else match strip_suffix ":*" pattern with
       | Some prefix =>
           starts_with tool_name prefix
           && String.eqb (String.substring (String.length prefix) 1 tool_name) ":"
       | None => String.eqb pattern tool_name
       end.

Definition annotations_json (a : tool_annotations) : json :=
  JObject (obj_of_list [("read_only", JBool (read_only a)); ("destructive", JBool (destructive a));
                        ("idempotent", JBool (idempotent a)); ("open_world", JBool (open_world a))]).
Definition tool_json (i : tool_info) : json :=
  JObject (obj_of_list [("name", JString (ti_name i)); ("description", JString (ti_description i));
                        ("input_schema", ti_input_schema i); ("annotations", annotations_json (ti_annotations i))]).

Definition introspect (registry : gmap string (tool W)) (payload : json) : json :=
  let all := tool_order registry in
  let filtered := match get "filter" payload ≫= as_str with
                  | Some pattern => List.filter (fun i => matches_filter pattern (ti_name i)) all
                  | None => all
                  end in
  JObject (obj_of_list [("tools", JArray (map tool_json filtered));
                        ("count", JNumber (PosInt (Z.of_nat (length filtered))))]).

(** The two tools, over the engine's live registry. *)
Context (live : W -> gmap string (tool W)).

Definition ValidateWorkflowTool (config : engine_config) : tool W := {|
  info := ToolInfo "yaml:validate_workflow"
            "Validate a workflow YAML string against the Konf kernel. Checks syntax, schema, tool references, and capability requirements."
            (JObject (obj_of_list
               [("type", JString "object");
                ("properties", JObject [("yaml", JObject (obj_of_list
                   [("type", JString "string"); ("description", JString "The workflow YAML string to validate")]))]);
                ("required", JArray [JString "yaml"])]))
            None ["yaml:validate_workflow"] false (ToolAnnotations true false true false);
  invoke w env :=
    (w, respond (fresh w) (now w) env <$>
          validate_workflow config (live w) (to_patterns (env_capabilities env)) (env_payload env)) |}.

Definition IntrospectTool : tool W := {|
  info := ToolInfo "system:introspect"
            "List all registered tools with their names, descriptions, input schemas, and annotations."
            (JObject (obj_of_list
               [("type", JString "object");
                ("properties", JObject [("filter", JObject (obj_of_list
                   [("type", JString "string");
                    ("description", JString "Optional glob pattern to filter tools (e.g. 'memory:*' or 'ai:complete')")]))])]))
            None [] false (ToolAnnotations true false true false);
  invoke w env := (w, Ok (respond (fresh w) (now w) env (introspect (live w) (env_payload env)))) |}.
End Inspect.

(** * Theory *)

Section AgentTheory.
Context {W : Type}.
Context (fresh : W -> uuid) (now : W -> datetime) (elapsed_ms : W -> W -> Z).
Context (show_u64 : Z -> string).
Context (json_to_string : json -> string) (json_of_string : string -> option json).
Context (json_error tool_call_error provider_error : string -> string).
Context (tool_order : gmap string (tool W) -> list tool_info).
Context (registry : W -> gmap string (tool W)).
Context (completion : llm_config -> list chat_message -> chat_message -> list tool_definition -> W ->
                      W * result string completion_response).

Abbreviation runs_calls := (run_calls fresh now elapsed_ms show_u64 json_to_string json_of_string json_error
  tool_call_error).
Abbreviation iterations := (react_iterations fresh now elapsed_ms show_u64 json_to_string json_of_string json_error
  tool_call_error provider_error completion).
Abbreviation loop := (react_loop fresh now elapsed_ms show_u64 json_to_string json_of_string json_error
  tool_call_error provider_error completion).
Abbreviation run_of := (ai_run fresh now elapsed_ms show_u64 json_to_string json_of_string json_error
  tool_call_error provider_error tool_order registry completion).
Abbreviation complete_tool := (AiCompleteTool fresh now elapsed_ms show_u64 json_to_string json_of_string json_error
  tool_call_error provider_error tool_order registry completion).

(** ** What is invoked *)

(** An invocation through one of the bridges. *)
Definition through (tools : list (bridge (W := W))) (call : tool W * envelope json) : Prop :=
  exists b id at_ input, b ∈ tools /\ call = (br_tool b, respond id at_ (br_parent b) input).

Lemma find_bridge_in (tools : list (bridge (W := W))) name b : find_bridge tools name = Some b -> b ∈ tools /\ ti_name (br_info b) = name.
Proof.
  unfold find_bridge. intros Hl%last_Some_elem_of. apply elem_of_bfilter in Hl as [? ?%String.eqb_eq]. done.
Qed.

Lemma run_calls_through node_id tools tcs w :
  Forall (through tools) (snd (runs_calls node_id tools tcs w)).
Proof.
  revert w. induction tcs as [|tc tcs IH]; intros w; cbn; [constructor|].
  destruct (run_call _ _ _ _ _ _ _ _ node_id tools tc w) as [[[w1 r] evs1] calls1] eqn:Hc.
  specialize (IH w1). destruct (runs_calls node_id tools tcs w1) as [[[w2 rs] evs2] calls2].
  cbn in IH |- *. apply Forall_app. split; [|done].
  unfold run_call in Hc. destruct (find_bridge tools (tc_name tc)) as [b|] eqn:Hb;
    [|injection Hc as _ _ _ <-; constructor].
  apply find_bridge_in in Hb as [Hin _]. unfold bridge_call in Hc.
  destruct (json_of_string _) as [input|]; [|injection Hc as _ _ _ <-; constructor].
  destruct (invoke (br_tool b) w _) as [w' [out|e]]; injection Hc as _ _ _ <-;
    (repeat constructor; by eexists _, _, _, _).
Qed.

Lemma run_calls_results node_id tools tcs w :
  map (fun r => match r with UToolResult id call _ => (id, call) | UText _ => (EmptyString, None) end)
    (snd (fst (fst (runs_calls node_id tools tcs w)))) =
  map (fun tc => (tc_id tc, tc_call_id tc)) tcs.
Proof.
  revert w. induction tcs as [|tc tcs IH]; intros w; cbn; [done|].
  destruct (run_call _ _ _ _ _ _ _ _ node_id tools tc w) as [[[w1 r] evs1] calls1] eqn:Hc.
  specialize (IH w1). destruct (runs_calls node_id tools tcs w1) as [[[w2 rs] evs2] calls2].
  cbn in IH |- *. rewrite IH. f_equal. unfold run_call in Hc.
  destruct (match find_bridge tools (tc_name tc) with Some _ => _ | None => _ end) as [[w' res] cs].
  by injection Hc as _ <- _ _.
Qed.

Lemma run_calls_length node_id tools tcs w :
  (length (snd (runs_calls node_id tools tcs w)) <= length tcs)%nat.
Proof.
  revert w. induction tcs as [|tc tcs IH]; intros w; cbn; [done|].
  destruct (run_call _ _ _ _ _ _ _ _ node_id tools tc w) as [[[w1 r] evs1] calls1] eqn:Hc.
  specialize (IH w1). destruct (runs_calls node_id tools tcs w1) as [[[w2 rs] evs2] calls2].
  cbn in IH |- *. rewrite length_app. enough (length calls1 <= 1)%nat by lia.
  unfold run_call, bridge_call in Hc. destruct (find_bridge tools (tc_name tc)) as [b|];
    [destruct (json_of_string _); [destruct (invoke _ _ _) as [w' [out|e]]|]|]; injection Hc as _ _ _ <-; cbn; lia.
Qed.

Lemma iterations_through n c tools node_id it total messages w :
  Forall (through tools) (ru_calls (iterations n c tools node_id it total messages w)).
Proof.
  revert it total messages w. induction n as [|n IH]; intros it total messages w; cbn -[run_calls]; [constructor|].
  destruct (call_completion _ _ c messages _ w) as [w1 [response|e]]; [|constructor].
  destruct (tool_calls (choice response)) as [|tc tcs]; [constructor|].
  pose proof (run_calls_through node_id tools (tc :: tcs) w1) as Hc.
  destruct (runs_calls node_id tools (tc :: tcs) w1) as [[[w2 rs] evs] calls]. cbn [snd] in Hc. cbn [ru_calls prepend].
  apply Forall_app. split; [done|]. destruct rs; [constructor|apply IH].
Qed.

(** The identity a bridged call keeps. *)
Record inherits (env child : envelope json) : Prop := {
  ih_capabilities : env_capabilities child = env_capabilities env;
  ih_namespace : env_namespace child = env_namespace env;
  ih_actor : env_actor_id child = env_actor_id env;
  ih_trace : env_trace_id child = env_trace_id env;
  ih_deadline : env_deadline child = env_deadline env;
  ih_metadata : env_metadata child = env_metadata env;
}.

Lemma visible_spec caps whitelist name :
  visible caps whitelist name = true ->
  check_tool_access name caps = Ok tt /\
  (forall wl, whitelist = Some wl -> name ∈ wl) /\
  (name = "ai:complete" -> exists wl, whitelist = Some wl /\ name ∈ wl).
Proof.
  assert (forall wl : list string, existsb (String.eqb name) wl = true -> name ∈ wl) as Hin.
  { intros wl (x & Hx & ->%String.eqb_eq)%existsb_exists. by apply list_elem_of_In. }
  unfold visible, listed. destruct (String.eqb_spec name "ai:complete") as [->|Hne]; cbn [andb].
  - destruct whitelist as [wl|]; [|done]. destruct (existsb _ wl) eqn:Hl; [|done]. cbn [negb].
    destruct (check_tool_access _ caps) as [[]|e]; [|done]. intros _. apply Hin in Hl.
    split_and!; [done|by intros wl' [= <-]|]. intros _. by exists wl.
  - destruct (check_tool_access name caps) as [[]|e]; [|done]. cbn. intros Hv. split_and!; [done| |done].
    intros wl ->. by apply Hin.
Qed.

Lemma calls_resolved base w env t child :
  (t, child) ∈ ru_calls (run_of base w env) ->
  exists name, registry w !! name = Some t /\
    check_tool_access name (to_patterns (env_capabilities env)) = Ok tt /\
    (forall wl, whitelist_of (env_payload env) = Some wl -> name ∈ wl) /\
    (name = "ai:complete" -> exists wl, whitelist_of (env_payload env) = Some wl /\ name ∈ wl) /\
    inherits env child.
Proof.
  unfold ai_run, react_loop. intros Hin.
  pose proof (iterations_through (Z.to_nat (max_iterations (merge_config base (env_payload env))))
    (merge_config base (env_payload env)) (resolve_tools fresh now tool_order registry w env (whitelist_of (env_payload env)))
    (env_target env) 0 0
    (initial_messages (get "system" (env_payload env) ≫= as_str) (parse_prior_messages (env_payload env))
       (default EmptyString (get "prompt" (env_payload env) ≫= as_str))) w) as Hall.
  rewrite Forall_forall in Hall. destruct (Hall _ Hin) as (b & id & at_ & input & Hb & [= -> ->]).
  unfold resolve_tools in Hb. apply list_elem_of_omap in Hb as (i & _ & Hi).
  destruct (visible _ _ (ti_name i)) eqn:Hv; [|done].
  destruct (registry w !! ti_name i) as [t'|] eqn:Ht; [|done]. injection Hi as <-.
  apply visible_spec in Hv as (Hacc & Hwl & Hself).
  exists (ti_name i). split_and!; [done..|]. by split.
Qed.

(** C27: whatever the model answers, an agent is confined: every tool an
    [ai:complete] call invokes is one of the engine's, registered under a name
    the caller's capabilities grant and, when the call has a whitelist, on it;
    [ai:complete] itself only if it is on a whitelist; and the envelope it gets
    has the caller's capabilities, namespace, actor, trace, deadline and
    metadata. *)
Theorem agent_confined base w env t child :
  (t, child) ∈ ru_calls (run_of base w env) ->
  exists name, registry w !! name = Some t /\
    check_tool_access name (to_patterns (env_capabilities env)) = Ok tt /\
    (forall wl, whitelist_of (env_payload env) = Some wl -> name ∈ wl) /\
    (name = "ai:complete" -> exists wl, whitelist_of (env_payload env) = Some wl /\ name ∈ wl) /\
    inherits env child.
Proof. apply calls_resolved. Qed.

(** ** How far the loop goes *)

(** The model's answer to a request: the last message is the prompt, those
    before it the history. *)
Definition answered (c : llm_config) (tools : list (bridge (W := W))) (request : list chat_message)
    (response : completion_response) : Prop :=
  exists w w', completion c (removelast request) (default (MUser [UText EmptyString]) (last request))
                 (map definition_of tools) w = (w', Ok response).

(** A round: the model's answer to a request has tool calls, and the next
    request adds that answer and one result for each call, under its id, in
    order. *)
Definition next_round (c : llm_config) (tools : list (bridge (W := W))) (request request' : list chat_message) : Prop :=
  exists response results, answered c tools request response /\ tool_calls (choice response) <> [] /\
    request' = request ++ [MAssistant (message_id response) (choice response); MUser results] /\
    map (fun r => match r with UToolResult i call _ => (i, call) | UText _ => (EmptyString, None) end) results =
      map (fun tc => (tc_id tc, tc_call_id tc)) (tool_calls (choice response)).

(** The tool calls in the answers of a conversation. *)
Definition calls_in (messages : list chat_message) : nat :=
  sum_list (map (fun m => match m with MAssistant _ content => length (tool_calls content) | _ => 0%nat end) messages).

(** What the loop may do from [start] on, after [k] requests and [total] tool
    calls, with [n] requests left. *)
Definition loop_ok (c : llm_config) (tools : list (bridge (W := W))) (start : list chat_message) (n k : nat)
    (total : Z) (r : react_run (W := W)) : Prop :=
  (length (ru_requests r) <= n)%nat /\
  (forall request, head (ru_requests r) = Some request -> request = start) /\
  (forall i request request', ru_requests r !! i = Some request ->
     ru_requests r !! Datatypes.S i = Some request' -> next_round c tools request request') /\
  match ru_result r with
  | Ok res =>
      rr_iterations res = Z.of_nat (k + length (ru_requests r)) /\
      total + Z.of_nat (length (ru_calls r)) <= rr_tool_call_count res /\
      exists tail response, last (ru_requests r) = Some (start ++ tail) /\
        rr_tool_call_count res = total + Z.of_nat (calls_in tail) /\
        answered c tools (start ++ tail) response /\ tool_calls (choice response) = [] /\
        rr_text res = String.concat EmptyString (texts (choice response))
  | Err e =>
      (exists m, e = ExecutionFailed (String.append (provider c) (String.append " completion failed: " m)) true) \/
      (length (ru_requests r) = n /\
       (forall request, last (ru_requests r) = Some request ->
          exists response, answered c tools request response /\ tool_calls (choice response) <> []) /\
       e = ExecutionFailed (String.concat EmptyString
             ["ai_complete exceeded max_iterations ("; show_u64 (max_iterations c);
              ") without producing a final response"]) false)
  end.

Lemma completion_answered c tools request w w' response :
  call_completion provider_error completion c request (map definition_of tools) w = (w', Ok response) ->
  answered c tools request response.
Proof.
  unfold call_completion. destruct (existsb _ _); [|done]. intros H. by exists w, w'.
Qed.

(** One more round in front of the rest of the loop. *)
Lemma loop_ok_round c tools start response results evs calls n k total (r : react_run (W := W)) :
  let next := start ++ [MAssistant (message_id response) (choice response); MUser results] in
  answered c tools start response -> tool_calls (choice response) <> [] -> next_round c tools start next ->
  (length calls <= length (tool_calls (choice response)))%nat ->
  loop_ok c tools next n (Datatypes.S k) (total + Z.of_nat (length (tool_calls (choice response)))) r ->
  loop_ok c tools start (Datatypes.S n) k total (prepend evs start calls r).
Proof.
  intros next Hans Hne Hnext Hlen (Hn & Hhead & Hsteps & Hres). unfold loop_ok, prepend.
  cbn [ru_requests ru_result ru_calls length]. split; [lia|]. split; [by intros request [= <-]|]. split.
  { intros [|i] request request'; cbn; [|apply Hsteps].
    intros [= <-] Hnx. rewrite (Hhead request'); [done|]. by destruct (ru_requests r). }
  destruct (ru_result r) as [res|e].
  - destruct Hres as (Hit & Hcalls & tail & final & Hlast & Hcount & Hfin). rewrite length_app. split_and!; [lia|lia|].
    exists ([MAssistant (message_id response) (choice response); MUser results] ++ tail), final.
    rewrite app_assoc. fold next. split_and!; [|rewrite Hcount; unfold calls_in; cbn; lia|apply Hfin..].
    rewrite last_cons. by rewrite Hlast.
  - destruct Hres as [?|(Hlen' & Hlast & ->)]; [by left|]. right. split_and!; [lia| |done].
    intros request. rewrite last_cons. destruct (last (ru_requests r)) as [req|]; [|].
    + intros [= <-]. by apply Hlast.
    + intros [= <-]. by exists response.
Qed.

Lemma iterations_ok n c tools node_id k total start w :
  loop_ok c tools start n k total (iterations n c tools node_id (Z.of_nat k) total start w).
Proof.
  revert k total start w. induction n as [|n IH]; intros k total start w; cbn -[run_calls].
  { split_and!; [done..|]. right. by split_and!. }
  destruct (call_completion _ _ c start _ w) as [w1 [response|e]] eqn:Hans; cycle 1.
  { split_and!; [cbn; lia|by intros ? [= <-]|by intros [|?]|]. left. by exists e. }
  apply completion_answered in Hans.
  destruct (tool_calls (choice response)) as [|tc tcs] eqn:Htcs.
  { split_and!; [cbn; lia|by intros ? [= <-]|by intros [|?]|]. cbn. split_and!; [lia|lia|].
    exists [], response. rewrite app_nil_r. split_and!; try done. cbn. lia. }
  pose proof (run_calls_results node_id tools (tc :: tcs) w1) as Hres.
  pose proof (run_calls_length node_id tools (tc :: tcs) w1) as Hlen.
  destruct (runs_calls node_id tools (tc :: tcs) w1) as [[[w2 results] evs] calls].
  cbn [fst snd] in Hres, Hlen. destruct results as [|r0 results]; [done|].
  apply loop_ok_round with response (r0 :: results).
  - done.
  - by rewrite Htcs.
  - exists response, (r0 :: results). rewrite Htcs. by split_and!.
  - by rewrite Htcs.
  - rewrite Htcs. rewrite <- app_assoc. cbn [app]. replace (Z.of_nat k + 1) with (Z.of_nat (Datatypes.S k)) by lia.
    apply IH.
Qed.

(** C28: the ReAct loop ends after at most [max_iterations] requests to the
    model.  The first is the system prompt, if any, the earlier messages and the
    prompt; each further one is the one before, the model's answer to it, which
    had tool calls, and one result for each call, under its id, in order.  The
    loop succeeds exactly with the first answer without tool calls, returns its
    text, and reports the number of requests made and of tool calls the model
    asked for; it fails only with the model's own error or after
    [max_iterations] answers that all had tool calls. *)
Theorem react_loop_spec c system prior prompt tools node_id w :
  0 <= max_iterations c ->
  let r := loop c system prior prompt tools node_id w in
  let start := match system with Some s => [MSystem s] | None => [] end ++ prior ++ [MUser [UText prompt]] in
  Z.of_nat (length (ru_requests r)) <= max_iterations c /\
  (forall request, head (ru_requests r) = Some request -> request = start) /\
  (forall i request request', ru_requests r !! i = Some request ->
     ru_requests r !! Datatypes.S i = Some request' -> next_round c tools request request') /\
  match ru_result r with
  | Ok res =>
      rr_iterations res = Z.of_nat (length (ru_requests r)) /\
      Z.of_nat (length (ru_calls r)) <= rr_tool_call_count res /\
      exists tail response, last (ru_requests r) = Some (start ++ tail) /\
        rr_tool_call_count res = Z.of_nat (calls_in tail) /\
        answered c tools (start ++ tail) response /\ tool_calls (choice response) = [] /\
        rr_text res = String.concat EmptyString (texts (choice response))
  | Err e =>
      (exists m, e = ExecutionFailed (String.append (provider c) (String.append " completion failed: " m)) true) \/
      (Z.of_nat (length (ru_requests r)) = max_iterations c /\
       (forall request, last (ru_requests r) = Some request ->
          exists response, answered c tools request response /\ tool_calls (choice response) <> []) /\
       e = ExecutionFailed (String.concat EmptyString
             ["ai_complete exceeded max_iterations ("; show_u64 (max_iterations c);
              ") without producing a final response"]) false)
  end.
Proof.
  intros Hc r start.
  pose proof (iterations_ok (Z.to_nat (max_iterations c)) c tools node_id 0 0 start w) as Hok.
  change (loop_ok c tools start (Z.to_nat (max_iterations c)) 0 0 r) in Hok.
  destruct Hok as (Hn & Hhead & Hsteps & Hcase). split; [lia|]. split; [exact Hhead|]. split; [exact Hsteps|].
  destruct (ru_result r) as [res|e]; [exact Hcase|].
  destruct Hcase as [?|(Hl & Hlast & He)]; [by left|right]. split; [lia|done].
Qed.

(** ** Guards and agents *)

(** Guards and parameter bindings do not reach an agent.  A step of a run
    sees the tools of the scoped registry, each wrapped with the guards and the
    bindings of the run's grants; [ai:complete], itself unguarded and unbound,
    resolves the tools of its model in the engine it was registered with.  So
    every tool the model gets invoked is the raw one: where the same run gives a
    step nothing, a guarded or a bound tool under that name, the model calls the
    tool without the refusal, the guard or the binding. *)
Theorem guards_do_not_reach_agents hash_order (guards : gmap string tool_guard_entry) base schema source s :
  registry_ok source -> tool_order source ≡ₚ (fun nt => info nt.2) <$> map_to_list source ->
  (forall n, guards !! n ≫= tg_alias = None) ->
  (forall w name, name <> "ai:complete" -> registry w !! name = source !! name) ->
  source !! "ai:complete" = Some (complete_tool base schema) ->
  guards !! "ai:complete" = None -> check_tool s "ai:complete" = Ok ∅ ->
  let scoped := scoped_registry hash_order tool_order guards source s in
  scoped !! "ai:complete" = Some (complete_tool base schema) /\
  forall w env raw child, (raw, child) ∈ ru_calls (run_of base w env) ->
    exists name, registry w !! name = Some raw /\
      (name <> "ai:complete" ->
       scoped !! name = match check_tool s name with
                        | Ok bindings => Some (wrap hash_order guards name bindings raw)
                        | Err _ => None
                        end).
Proof.
  intros Hok Hord Hal Hreg Hai Hg Hc scoped. unfold scoped. split.
  - rewrite scoped_registry_plain by done. unfold granted_tool. rewrite Hai, Hc. unfold wrap. rewrite Hg.
    by rewrite bool_decide_true.
  - intros w env raw child (name & Hraw & _)%calls_resolved. exists name. split; [done|]. intros Hne.
    rewrite scoped_registry_plain by done. unfold granted_tool. rewrite <- (Hreg w name Hne). by rewrite Hraw.
Qed.
End AgentTheory.

(** ** Validation and introspection *)

Section InspectTheory.
Context {W : Type}.

Lemma substring_get n t :
  String.eqb (String.substring n 1 t) ":" = bool_decide (String.get n t = Some ":"%char).
Proof.
  revert n. induction t as [|a t IH]; intros n; cbn.
  { by destruct n. }
  destruct n as [|n]; [|apply IH]. cbn. destruct t; cbn; destruct (Ascii.eqb_spec a ":") as [->|Hne];
    (by rewrite bool_decide_true) || (rewrite bool_decide_false; [done|congruence]).
Qed.

(** The filter of the introspection tool is the capability language. *)
Lemma matches_filter_is_matches p t : matches_filter p t = matches (Capability p) t.
Proof.
  unfold matches_filter, matches. cbn [pattern]. destruct (String.eqb p "*"); [done|].
  destruct (strip_suffix ":*" p); [|done]. by rewrite substring_get.
Qed.

Lemma omap_nil {A B} (f : A -> option B) l : omap f l = [] <-> Forall (fun x => f x = None) l.
Proof.
  induction l as [|x l IH]; cbn; [by split; [constructor|]|]. rewrite Forall_cons, <- IH.
  destruct (f x); naive_solver.
Qed.

Lemma validation_errors_nil registry patterns wf :
  validation_errors (W := W) registry patterns wf = [] <->
  Forall (fun s => contains registry (st_tool s) = true) (wf_steps wf) /\
  is_ok (validate_grant (wf_capabilities wf) patterns) = true.
Proof.
  unfold validation_errors.
  assert (omap (unregistered registry) (wf_steps wf) = [] <->
          Forall (fun s => contains registry (st_tool s) = true) (wf_steps wf)) as Hu.
  { rewrite omap_nil. apply Forall_proper; [|done]. intros s. unfold unregistered.
    by destruct (contains registry (st_tool s)). }
  assert (omap (uncovered patterns) (wf_capabilities wf) = [] <->
          is_ok (validate_grant (wf_capabilities wf) patterns) = true) as Hc.
  { assert (is_ok (validate_grant (wf_capabilities wf) patterns) = true <->
            covered_by (from_patterns patterns) (wf_capabilities wf)) as ->.
    { unfold validate_grant. destruct (attenuate _ _) as [child|e] eqn:Ha; cbn.
      - apply attenuate_Ok in Ha as [_ ?]. done.
      - split; [done|]. intros Hcov.
        enough (attenuate (from_patterns patterns) (wf_capabilities wf) = Ok (from_patterns (wf_capabilities wf)))
          by congruence.
        by apply attenuate_Ok. }
    rewrite omap_nil. unfold covered_by. apply Forall_proper; [|done]. intros cap. unfold uncovered.
    rewrite check_access_Ok, <- existsb_matches. unfold from_patterns.
    assert (existsb (fun c => matches c cap) (map Capability patterns) =
            existsb (fun g => matches (Capability g) cap) patterns) as ->.
    { induction patterns as [|g l IH]; cbn; [done|]. by rewrite IH. }
    by destruct (existsb _ patterns). }
  rewrite <- Hu, <- Hc. split; [by intros [? ?]%app_eq_nil|]. by intros [-> ->].
Qed.

(** The workflow validator says valid exactly when the text parses within
    the size limit, every step's tool is registered, and the engine would admit
    the workflow under the caller's capabilities. *)
Theorem validate_workflow_spec show_u64 alnum yaml_schema config registry patterns payload yaml :
  get "yaml" payload = Some (JString yaml) ->
  exists answer, validate_workflow (W := W) show_u64 alnum yaml_schema config registry patterns payload = Ok answer /\
  (get "valid" answer = Some (JBool true) <->
   exists wf, parse_yaml show_u64 alnum yaml_schema config yaml = Ok wf /\
     Forall (fun s => contains registry (st_tool s) = true) (wf_steps wf) /\
     is_ok (validate_grant (wf_capabilities wf) patterns) = true).
Proof.
  intros Hy. unfold validate_workflow. rewrite Hy. cbn [mbind option_bind as_str ok_or result_bind].
  eexists. split; [reflexivity|].
  destruct (parse_yaml show_u64 alnum yaml_schema config yaml) as [wf|e].
  - pose proof (validation_errors_nil registry patterns wf) as Hnil.
    destruct (validation_errors registry patterns wf) as [|err errs].
    + split; [|done]. intros _. exists wf. split; [done|]. by apply Hnil.
    + split; [by intros [=]|]. intros (wf' & [= <-] & Hok). by apply Hnil in Hok.
  - split; [by intros [=]|]. by intros (wf & ? & _).
Qed.
End InspectTheory.

(** * An agent run

    A model that calls [echo] once and then answers; a guard that denies every
    call of [echo]. *)

Lemma elem_of_list_to_map_exists {A} (l : list (string * A)) k v :
  (k, v) ∈ l -> is_Some ((list_to_map l : gmap string A) !! k).
Proof.
  intros Hin. destruct ((list_to_map l : gmap string A) !! k) eqn:E; [by eexists|].
  apply not_elem_of_list_to_map in E. destruct E. by apply (list_elem_of_fmap_2 fst _ (k, v)).
Qed.

Module Demo.

Definition echo : tool unit := {|
  info := ToolInfo "echo" "" JNull None ["echo"] false annotations_default;
  invoke := fun w env => (w, Ok env) |}.

Definition model_answers (c : llm_config) (history : list chat_message) (prompt : chat_message)
    (defs : list tool_definition) (w : unit) : unit * result string completion_response :=
  match prompt with
  | MUser [UText _] => (w, Ok (CompletionResponse [AToolCall (ToolCall "1" None "echo" (JObject []))] None))
  | _ => (w, Ok (CompletionResponse [AText "done"] None))
  end.

Definition raw_tools : gmap string (tool unit) := {["echo" := echo]}.
Definition order (_ : gmap string (tool unit)) : list tool_info := [info echo].
Definition listing (m : gmap string (tool unit)) : list tool_info := (fun nt => info nt.2) <$> map_to_list m.
Definition text_of (_ : json) : string := "{}".
Definition of_text (_ : string) : option json := Some (JObject []).
Definition show (_ : Z) : string := "0".
Definition quote (s : string) : string := s.
Definition base : llm_config := llm_config_default.
Definition run_with tool_order := ai_run (fun _ : unit => 1%N) (fun _ => 0) (fun _ _ => 0) show text_of of_text
  quote quote quote tool_order (fun _ => raw_tools) model_answers base tt.
Definition run_demo := run_with order.
Definition env0 : envelope json :=
  for_tool_dispatch 0%N 0 "ai:complete" (JObject [("prompt", JString "hi")]) ["*"] 7%N "konf:n" "u" "s".
Definition echo_env : envelope json := respond 1%N 0 (respond 1%N 0 env0 JNull) (JObject []).

Lemma calls_echo tool_order : tool_order raw_tools = [info echo] ->
  (echo, echo_env) ∈ ru_calls (run_with tool_order env0).
Proof.
  intros Ho. assert (ru_calls (run_with tool_order env0) = ru_calls (run_demo env0)) as ->.
  { unfold run_demo, run_with, ai_run, resolve_tools. by rewrite Ho. }
  replace (ru_calls (run_demo env0)) with [(echo, echo_env)] by (vm_compute; reflexivity). by left.
Qed.

Lemma agent_confined_witness :
  (echo, echo_env) ∈ ru_calls (run_demo env0) /\ inherits env0 echo_env.
Proof.
  pose proof (calls_echo order eq_refl) as Hin. split; [exact Hin|].
  destruct (agent_confined (fun _ : unit => 1%N) (fun _ => 0) (fun _ _ => 0) show text_of of_text quote quote quote
    order (fun _ => raw_tools) model_answers base tt env0 echo echo_env Hin) as (name & _ & _ & _ & _ & Hi).
  exact Hi.
Defined.

(** The demo model asks for one tool call, then answers: two requests, one call. *)
Lemma react_loop_spec_witness :
  0 <= max_iterations base /\
  match ru_result (run_demo env0) with
  | Ok res => rr_iterations res = 2 /\ rr_tool_call_count res = 1 /\
              exists tail, last (ru_requests (run_demo env0)) = Some ([MUser [UText "hi"]] ++ tail) /\
                           1 = Z.of_nat (calls_in tail)
  | Err _ => False
  end.
Proof.
  assert (0 <= max_iterations base) as Hb by (vm_compute; by intros ?).
  split; [exact Hb|].
  pose proof (react_loop_spec (fun _ : unit => 1%N) (fun _ => 0) (fun _ _ => 0) show text_of of_text quote quote quote
    model_answers (merge_config base (env_payload env0)) None [] "hi"
    (resolve_tools (fun _ => 1%N) (fun _ => 0) order (fun _ => raw_tools) tt env0 None) "ai:complete" tt Hb) as H.
  destruct H as (_ & _ & _ & H).
  change (react_loop (fun _ : unit => 1%N) (fun _ => 0) (fun _ _ => 0) show text_of of_text quote quote quote
    model_answers (merge_config base (env_payload env0)) None [] "hi"
    (resolve_tools (fun _ => 1%N) (fun _ => 0) order (fun _ => raw_tools) tt env0 None) "ai:complete" tt)
    with (run_demo env0) in H.
  destruct (ru_result (run_demo env0)) as [res|e] eqn:Hr; [|vm_compute in Hr; discriminate].
  assert (rr_tool_call_count res = 1) as Hone by (vm_compute in Hr; by injection Hr as <-).
  destruct H as (Hi & _ & tail & response & Hlast & Hcount & _). split_and!.
  - rewrite Hi. vm_compute. reflexivity.
  - exact Hone.
  - exists tail. split; [exact Hlast|]. by rewrite <- Hone.
Defined.

(** In a run with the guard, [echo] is denied to a step and open to the agent,
    whose [ai:complete] is that of the engine. *)
Definition ai : tool unit := AiCompleteTool (fun _ : unit => 1%N) (fun _ => 0) (fun _ _ => 0) show text_of of_text
  quote quote quote listing (fun _ => raw_tools) model_answers base JNull.
Definition source : gmap string (tool unit) := {["ai:complete" := ai; "echo" := echo]}.
Definition guards : gmap string tool_guard_entry :=
  {["echo" := ToolGuardEntry [Deny (PAll []) "no"] DefaultDeny None]}.
Definition all_scope : execution_scope := ExecutionScope "konf:n" [grant_new "*"] limits_default (Actor "u" User) 0.
Definition scoped (g : gmap string tool_guard_entry) : gmap string (tool unit) :=
  scoped_registry map_to_list listing g source all_scope.

Lemma guards_do_not_reach_agents_witness :
  (fun t => is_ok (snd (invoke t tt env0))) <$> scoped guards !! "echo" = Some false /\
  (echo, echo_env) ∈ ru_calls (run_with listing env0) /\
  scoped guards !! "ai:complete" = Some ai.
Proof.
  split; [vm_compute; reflexivity|]. split; [by apply calls_echo|].
  apply (guards_do_not_reach_agents (fun _ : unit => 1%N) (fun _ => 0) (fun _ _ => 0) show text_of of_text
    quote quote quote listing (fun _ => raw_tools) model_answers map_to_list guards base JNull source all_scope).
  - intros name t. unfold source. rewrite lookup_insert_Some, lookup_singleton_Some.
    intros [[<- <-]|[_ [<- <-]]]; reflexivity.
  - reflexivity.
  - intros n. unfold guards. destruct (decide ("echo" = n)) as [<-|Hn]; [reflexivity|].
    by rewrite lookup_singleton_ne.
  - intros w n Hn. unfold source, raw_tools. by rewrite lookup_insert_ne by (symmetry; exact Hn).
  - reflexivity.
  - reflexivity.
  - reflexivity.
Defined.

(** A workflow whose tools are all registered. *)
Definition yaml_of (_ : string) : result string workflow_schema := Ok (example_schema None).
Definition parsed : workflow :=
  match parse_yaml show (fun _ => false) yaml_of config_default "w" with Ok wf => wf | Err _ => Engine.Demo.wf end.
Definition its_tools : gmap string (tool unit) := list_to_map (map (fun s => (st_tool s, echo)) (wf_steps parsed)).

Lemma validate_workflow_spec_witness :
  exists answer, validate_workflow show (fun _ => false) yaml_of config_default its_tools ["*"]
    (JObject [("yaml", JString "w")]) = Ok answer /\ get "valid" answer = Some (JBool true).
Proof.
  destruct (validate_workflow_spec show (fun _ => false) yaml_of config_default its_tools ["*"]
    (JObject [("yaml", JString "w")]) "w" eq_refl) as (answer & Hok & Hv).
  exists answer. split; [exact Hok|]. apply Hv. exists parsed. split; [vm_compute; reflexivity|].
  split; [|vm_compute; reflexivity].
  apply Forall_forall. intros s Hs. unfold contains, its_tools. apply bool_decide_true.
  apply (elem_of_list_to_map_exists _ _ echo). by apply (list_elem_of_fmap_2 (fun s => (st_tool s, echo))).
Defined.
End Demo.
