(* ===== verification/Mcp.v ===== *)
(** The MCP client ([konf-tool-mcp/src/lib.rs]): tools of external servers,
    discovered at boot and registered under the server's name.

    Starting a server and calling it are the [rmcp] crate's: parameters. *)

From S2P Require Import Prelude Json Error Envelope Scope Tool Engine.

Local Open Scope string_scope.
Local Open Scope list_scope.
Local Open Scope Z_scope.

(** [McpServerConfig]; [env] in the order the map is listed. *)
Record mcp_server_config : Type := McpServerConfig {
  mc_name : string;
  mc_transport : string;
  mc_command : string;
  mc_args : list string;
  mc_env : list (string * string);
  mc_capabilities : list string;
  mc_idle_timeout : Z;
}.

(** What a server says of a tool, and what a call returns. *)
Record mcp_annotations : Type := McpAnnotations {
  read_only_hint : option bool; destructive_hint : option bool;
  idempotent_hint : option bool; open_world_hint : option bool }.
Record mcp_tool : Type := McpTool {
  mt_name : string; mt_description : option string; mt_input_schema : list (string * json);
  mt_annotations : option mcp_annotations }.
Record mcp_call_result : Type := McpCallResult { cr_content : list json; cr_is_error : option bool }.

Section Mcp.
Context {W : Type} (fresh : W -> uuid) (now : W -> datetime) (elapsed_ms : W -> W -> Z).
Context (env_var : string -> option string).
(** Starting a server and listing its tools; calling one. *)
Context (serve : string -> list string -> list (string * string) -> result string (list mcp_tool)).
Context (call_tool : string -> string -> option (list (string * json)) -> W -> W * result string mcp_call_result).
Context (servers_of_json : json -> result string (list mcp_server_config)).

(** [resolve_env_var]. *)
Definition resolve_env_var (value : string) : string :=
  match strip_prefix "${" value ≫= strip_suffix "}" with
  | Some var_name => default EmptyString (env_var var_name)
  | None => value
  end.

Definition full_name (c : mcp_server_config) (t : mcp_tool) : string :=
  String.concat EmptyString [mc_name c; ":"; mt_name t].

(** The capability filter of a server. *)
Definition admitted (c : mcp_server_config) (name : string) : bool :=
  match mc_capabilities c with
  | [] => true
  | caps => existsb (fun cap => bool_decide (is_Some (grant_matches (grant_new cap) name))) caps
  end.

Definition map_annotations (o : option mcp_annotations) : tool_annotations :=
  match o with
  | Some a => ToolAnnotations (default false (read_only_hint a)) (default false (destructive_hint a))
                (default false (idempotent_hint a)) (default true (open_world_hint a))
  | None => annotations_default
  end.

(** [McpToolWrapper]. *)
Definition mcp_invoke (c : mcp_server_config) (t : mcp_tool) (w : W) (env : envelope json)
  : W * result tool_error (envelope json) :=
  let arguments := match as_object (env_payload env) with Some (_ :: _ as obj) => Some obj | _ => None end in
  let '(w', r) := call_tool (mc_name c) (mt_name t) arguments w in
  (w',
   res ← map_err (fun e => ExecutionFailed (String.concat EmptyString
           ["MCP tool '"; full_name c t; "' failed: "; e]) true) r;
   Ok (respond (fresh w') (now w') env (JObject (obj_of_list
     [("content", JArray (cr_content res)); ("is_error", JBool (default false (cr_is_error res)));
      ("_meta", JObject (obj_of_list
        [("tool", JString (full_name c t)); ("server", JString (mc_name c));
         ("duration_ms", JNumber (PosInt (wrap_u64 (elapsed_ms w w'))))]))])))).

Definition McpToolWrapper (c : mcp_server_config) (t : mcp_tool) : tool W :=
  Tool (ToolInfo (full_name c t) (default EmptyString (mt_description t)) (JObject (mt_input_schema t)) None
          [full_name c t] false (map_annotations (mt_annotations t)))
       (mcp_invoke c t).

(** [connect_and_register]: the engine and how many tools were registered. *)
Definition connect_and_register (c : mcp_server_config) (e : engine W) : result string (engine W * nat) :=
  if negb (String.eqb (mc_transport c) "stdio") then
    Err (String.concat EmptyString ["MCP server '"; mc_name c;
           "': only 'stdio' transport is supported, got '"; mc_transport c; "'"])
  else
    tools ← serve (mc_command c) (mc_args c) (map (fun kv => (kv.1, resolve_env_var kv.2)) (mc_env c));
    let wanted := List.filter (fun t => admitted c (full_name c t)) tools in
    Ok (fold_left register_tool (map (McpToolWrapper c) wanted) e, length wanted).

(** [discover_and_register]: a server that fails is skipped. *)
Definition discover_and_register (configs : list mcp_server_config) (e : engine W) : engine W :=
  fold_left (fun e c => match connect_and_register c e with Ok (e', _) => e' | Err _ => e end) configs e.

(** [register]. *)
Definition register_mcp (e : engine W) (config : json) : result string (engine W) :=
  servers ← servers_of_json (default (JArray []) (get "mcp_servers" config));
  Ok (discover_and_register servers e).

(** * Theory *)

Lemma register_tools_lookup (l : list (tool W)) (e : engine W) name t :
  eng_tools (fold_left register_tool l e) !! name = Some t ->
  eng_tools e !! name = Some t \/ t ∈ l /\ ti_name (info t) = name.
Proof.
  revert e. induction l as [|x l IH]; intros e H; [by left|]. cbn in H.
  apply IH in H as [H|[H Hn]]; [|right; split; [by right|done]].
  cbn in H. unfold register in H. apply lookup_insert_Some in H as [[<- <-]|[_ H]]; [|by left].
  right. split; [by left|done].
Qed.

(** What discovery adds: tools of servers that answered, each under its server's
    name and admitted by its filter. *)
Lemma discovered configs e name t :
  eng_tools (discover_and_register configs e) !! name = Some t ->
  eng_tools e !! name = Some t \/
  exists c mt tools, c ∈ configs /\ mc_transport c = "stdio" /\
    serve (mc_command c) (mc_args c) (map (fun kv => (kv.1, resolve_env_var kv.2)) (mc_env c)) = Ok tools /\
    mt ∈ tools /\ name = full_name c mt /\ admitted c name = true /\ t = McpToolWrapper c mt.
Proof.
  unfold discover_and_register. revert e. induction configs as [|c configs IH]; intros e H; [by left|]. cbn in H.
  apply IH in H as [H|(c' & mt & tools & Hc & Hrest)]; [|right; exists c', mt, tools; split; [by right|done]].
  unfold connect_and_register in H. destruct (String.eqb_spec (mc_transport c) "stdio") as [Ht|]; [|by left].
  cbn [negb] in H. destruct (serve _ _ _) as [tools|] eqn:Hs; [|by left]. cbn in H.
  apply register_tools_lookup in H as [H|[(mt & -> & Hin)%list_elem_of_fmap <-]]; [by left|]. right.
  apply list_elem_of_In, filter_In in Hin as [Hin Ha]. apply list_elem_of_In in Hin.
  exists c, mt, tools. split_and!; try done. by left.
Qed.

(** Every name that discovery adds is a tool's, under its server's name. *)
Lemma mcp_registered_names configs e name :
  is_Some (eng_tools (discover_and_register configs e) !! name) -> eng_tools e !! name = None ->
  exists c mt, c ∈ configs /\ name = full_name c mt /\ admitted c name = true.
Proof.
  intros [t Ht] Hn. apply discovered in Ht as [Ht|(c & mt & tools & Hc & _ & _ & _ & Hname & Ha & _)].
  - by rewrite Ht in Hn.
  - by exists c, mt.
Qed.
End Mcp.
