(* ===== verification/MemoryTools.v ===== *)
(** The memory tools ([konf-tool-memory/src/lib.rs], [tools.rs]): seven tools
    that decode their payload into a request to a backend.

    [dyn MemoryBackend] is a record of operations over the world.  The
    namespace of a request is a field of the payload: whoever writes the field
    chooses the tenant, which is why the runtime binds it
    ([Guard.virtualized_tool]). *)

From S2P Require Import Prelude Json Error Envelope Tool Guard Engine.

Local Open Scope string_scope.
Local Open Scope list_scope.
Local Open Scope Z_scope.

(** * Data *)

(** [MemoryError] and its [Display]. *)
Inductive memory_error : Type :=
  | OperationFailed (message : string)
  | Validation (message : string)
  | Unavailable (message : string)
  | Unsupported (message : string).

Definition memory_error_to_string (e : memory_error) : string :=
  match e with
  | OperationFailed m => String.append "memory operation failed: " m
  | Validation m => String.append "validation error: " m
  | Unavailable m => String.append "backend unavailable: " m
  | Unsupported m => String.append "unsupported operation: " m
  end.

(** [SearchParams]. *)
Record search_params : Type := SearchParams {
  sp_query : option string;
  sp_mode : option string;
  sp_limit : option Z;
  sp_namespace : option string;
  sp_node_type : option string;
  sp_edge_type : option string;
  sp_metadata_filter : option json;
  sp_min_similarity : option f64;
}.

(** What a tool asks of its backend: the methods of [MemoryBackend] with their
    arguments. *)
Inductive memory_request : Type :=
  | RSearch (params : search_params)
  | RAddNodes (nodes : list json) (namespace : option string)
  | RStateSet (key : string) (value : json) (session_id : string) (namespace : option string) (ttl : option Z)
  | RStateGet (key session_id : string) (namespace : option string)
  | RStateDelete (key session_id : string) (namespace : option string)
  | RStateList (session_id : string) (namespace : option string)
  | RStateClear (session_id : string) (namespace : option string).

Definition request_namespace (r : memory_request) : option string :=
  match r with
  | RSearch p => sp_namespace p
  | RAddNodes _ ns | RStateSet _ _ _ ns _ | RStateGet _ _ ns | RStateDelete _ _ ns
  | RStateList _ ns | RStateClear _ ns => ns
  end.

(** [MemoryBackend]: what it answers to each method, and its search modes. *)
Record memory_backend (W : Type) : Type := MemoryBackend {
  mb_call : memory_request -> W -> W * result memory_error json;
  mb_search_modes : list string;
}.
Arguments MemoryBackend {W}. Arguments mb_call {W}. Arguments mb_search_modes {W}.

(** [mem_err]. *)
Definition mem_err (e : memory_error) : tool_error := ExecutionFailed (memory_error_to_string e) false.

(** * Payloads to requests *)

Definition str_field (k : string) (payload : json) : option string := get k payload ≫= as_str.
Definition missing (field : string) : tool_error :=
  InvalidInput (String.append "missing '" (String.append field "'")) (Some field).
Definition required_str (k : string) (payload : json) : result tool_error string :=
  ok_or (str_field k payload) (missing k).

Definition search_request (payload : json) : result tool_error memory_request :=
  Ok (RSearch (SearchParams (str_field "query" payload) (str_field "mode" payload)
    (get "limit" payload ≫= as_i64) (str_field "namespace" payload) (str_field "node_type" payload)
    (str_field "edge_type" payload) (get "metadata_filter" payload) (get "min_similarity" payload ≫= as_f64))).

Definition store_request (payload : json) : result tool_error memory_request :=
  nodes ← ok_or (get "nodes" payload ≫= as_array) (InvalidInput "missing 'nodes' array" (Some "nodes"));
  Ok (RAddNodes nodes (str_field "namespace" payload)).

Definition set_request (payload : json) : result tool_error memory_request :=
  key ← required_str "key" payload;
  value ← ok_or (get "value" payload) (missing "value");
  session_id ← required_str "session_id" payload;
  Ok (RStateSet key value session_id (str_field "namespace" payload) (get "ttl_seconds" payload ≫= as_i64)).

Definition get_request (payload : json) : result tool_error memory_request :=
  key ← required_str "key" payload;
  session_id ← required_str "session_id" payload;
  Ok (RStateGet key session_id (str_field "namespace" payload)).

Definition delete_request (payload : json) : result tool_error memory_request :=
  key ← required_str "key" payload;
  session_id ← required_str "session_id" payload;
  Ok (RStateDelete key session_id (str_field "namespace" payload)).

Definition list_request (payload : json) : result tool_error memory_request :=
  session_id ← required_str "session_id" payload;
  Ok (RStateList session_id (str_field "namespace" payload)).

Definition clear_request (payload : json) : result tool_error memory_request :=
  session_id ← required_str "session_id" payload;
  Ok (RStateClear session_id (str_field "namespace" payload)).

(** * The tools *)

Section Tools.
Context {W : Type} (fresh : W -> uuid) (now : W -> datetime).
Context (backend : memory_backend W).

(** The [invoke] of a tool that sends the request [f] reads. *)
Definition memory_invoke (f : json -> result tool_error memory_request) (w : W) (env : envelope json)
  : W * result tool_error (envelope json) :=
  match f (env_payload env) with
  | Err e => (w, Err e)
  | Ok r =>
      let '(w', res) := mb_call backend r w in
      (w', v ← map_err mem_err res; Ok (respond (fresh w') (now w') env v))
  end.

Definition object (fields : list (string * json)) : json := JObject (obj_of_list fields).
Definition typed (t : string) (more : list (string * json)) : json := object (("type", JString t) :: more).
Definition schema_of (properties : list (string * json)) (required : list string) : json :=
  object [("type", JString "object"); ("properties", object properties);
          ("required", JArray (map JString required))].
Definition described (t description : string) : json := typed t [("description", JString description)].

(** A tool without output schema or streaming. *)
Definition memory_tool (name description : string) (schema : json) (a : tool_annotations)
    (f : json -> result tool_error memory_request) : tool W :=
  Tool (ToolInfo name description schema None [name] false a) (memory_invoke f).

(** [ToolAnnotations]: read-only, destructive, idempotent, open world. *)
Definition reads : tool_annotations := ToolAnnotations true false true false.
Definition destroys : tool_annotations := ToolAnnotations false true false false.

Definition SearchTool : tool W :=
  memory_tool "memory:search"
    "Search the knowledge graph for relevant information. Returns nodes with similarity scores."
    (schema_of
       [("query", described "string" "What to search for");
        ("mode", typed "string" [("enum", JArray (map JString (mb_search_modes backend)));
                                 ("default", JString (default EmptyString (head (mb_search_modes backend))))]);
        ("limit", typed "integer" [("default", JNumber (PosInt 10)); ("minimum", JNumber (PosInt 1));
                                   ("maximum", JNumber (PosInt 100))]);
        ("node_type", described "string" "Filter by node type")] ["query"])
    reads search_request.
Definition StoreTool : tool W :=
  memory_tool "memory:store" "Add nodes to the knowledge graph."
    (schema_of
       [("nodes", typed "array"
           [("items", schema_of
               [("content", typed "string" []); ("node_type", typed "string" [("default", JString "memory")]);
                ("metadata", typed "object" [])] ["content"])])] ["nodes"])
    annotations_default store_request.
Definition StateSetTool : tool W :=
  memory_tool "state:set" "Set a session state key (working memory scratchpad)."
    (schema_of
       [("key", typed "string" []); ("value", object [("description", JString "Any JSON value")]);
        ("session_id", typed "string" []); ("ttl_seconds", described "integer" "Time-to-live in seconds")]
       ["key"; "value"; "session_id"])
    (ToolAnnotations false false true false) set_request.
Definition key_schema : json :=
  schema_of [("key", typed "string" []); ("session_id", typed "string" [])] ["key"; "session_id"].
Definition session_schema : json := schema_of [("session_id", typed "string" [])] ["session_id"].
Definition StateGetTool : tool W :=
  memory_tool "state:get" "Get a session state value by key." key_schema reads get_request.
Definition StateDeleteTool : tool W :=
  memory_tool "state:delete" "Delete a session state key." key_schema destroys delete_request.
Definition StateListTool : tool W :=
  memory_tool "state:list" "List all session state keys for a session." session_schema reads list_request.
Definition StateClearTool : tool W :=
  memory_tool "state:clear" "Clear all session state for a session." session_schema destroys clear_request.

Definition memory_tools : list (tool W) :=
  [SearchTool; StoreTool; StateSetTool; StateGetTool; StateDeleteTool; StateListTool; StateClearTool].

(** [register]. *)
Definition register_memory (e : engine W) : engine W := fold_left register_tool memory_tools e.
End Tools.

(** * Theory *)

(** Every request carries the namespace field of its payload. *)
Definition decoders : list (json -> result tool_error memory_request) :=
  [search_request; store_request; set_request; get_request; delete_request; list_request; clear_request].

Lemma request_namespace_of f payload r :
  f ∈ decoders -> f payload = Ok r -> request_namespace r = str_field "namespace" payload.
Proof.
  unfold decoders, search_request, store_request, set_request, get_request, delete_request, list_request,
    clear_request, required_str.
  rewrite !elem_of_cons, elem_of_nil.
  intros Hf H. destruct_or! Hf; try done; subst f;
    repeat match type of H with
    | context [ok_or ?o _] => destruct o; cbn in H; [|done]
    end; injection H as <-; reflexivity.
Qed.

Section MemoryTheory.
Context {W : Type} (fresh : W -> uuid) (now : W -> datetime).
Context (backend : memory_backend W).

Lemma memory_tools_decode t :
  t ∈ memory_tools fresh now backend ->
  exists f, f ∈ decoders /\ forall w env, invoke t w env = memory_invoke fresh now backend f w env.
Proof.
  unfold memory_tools. rewrite !elem_of_cons, elem_of_nil. intros Ht.
  destruct_or! Ht; try done; subst t; (eexists; split; [|intros; reflexivity]);
    unfold decoders; rewrite !elem_of_cons; tauto.
Qed.

(** A bound namespace is the namespace of the request, whatever the caller put
    in the payload. *)
Lemma bound_request order bindings f payload payload' ns r :
  listing order bindings -> bindings !! "namespace" = Some (JString ns) ->
  inject_bindings order payload = Ok payload' ->
  f ∈ decoders -> f payload' = Ok r -> request_namespace r = Some ns.
Proof.
  intros Hl Hb Hi Hf Hr. rewrite (request_namespace_of f payload' r Hf Hr). unfold str_field.
  assert (order <> []) as Hne.
  { intros ->. unfold listing in Hl. apply (elem_of_map_to_list bindings) in Hb. rewrite <- Hl in Hb.
    by apply elem_of_nil in Hb. }
  destruct order as [|kv order]; [done|]. cbn [inject_bindings] in Hi.
  destruct payload as [| | | | |m]; try done. injection Hi as <-. cbn [get].
  change (obj_get "namespace" (fold_left (fun m kv => obj_insert kv.1 kv.2 m) (kv :: order) m) ≫= as_str = Some ns).
  rewrite (fold_bindings_lookup (kv :: order) bindings m "namespace" Hl). by rewrite Hb.
Qed.

(** A memory tool behind its bindings answers without the backend, or sends one
    request, for the bound namespace. *)
Lemma bound_tool_request t order bindings ns w env :
  t ∈ memory_tools fresh now backend ->
  listing order bindings -> bindings !! "namespace" = Some (JString ns) ->
  (exists e, invoke (virtualized_tool t order) w env = (w, Err e)) \/
  (exists r (env' : envelope json), request_namespace r = Some ns /\
     invoke (virtualized_tool t order) w env =
       let '(w', res) := mb_call backend r w in
       (w', v ← map_err mem_err res; Ok (respond (fresh w') (now w') env' v))).
Proof.
  intros Ht Hl Hb. destruct (memory_tools_decode t Ht) as (f & Hf & Hinv). cbn.
  destruct (inject_bindings order (env_payload env)) as [payload|e] eqn:Hi; [|left; by eexists].
  rewrite Hinv. unfold memory_invoke. cbn.
  destruct (f payload) as [r|e] eqn:Hr; [|left; by eexists]. right.
  exists r. eexists. split; [by eapply bound_request|reflexivity].
Qed.
End MemoryTheory.
