(* ===== verification/Fanout.v ===== *)
(** Journals over journals: the [JournalStore] interface with its default
    methods ([konflux-substrate/src/journal.rs]), the store that fans writes out
    to secondaries ([konf-runtime/src/journal/fanout.rs]), and subscriptions
    ([journal/subscribe.rs]).

    A store is a record of operations over its own state; the writes to
    secondaries are tasks that run in any order, any time later. *)

From S2P Require Import Prelude Json Error Envelope Scope Tool Table Journal Events Dispatch.

Local Open Scope string_scope.
Local Open Scope list_scope.
Local Open Scope Z_scope.

(** * The interface *)

(** [dyn JournalStore]. *)
Record journal_ops (S : Type) : Type := JournalOps {
  jo_append : datetime -> journal_entry -> S -> result journal_error Z * S;
  jo_query_by_run : datetime -> uuid -> S -> result journal_error (list journal_row);
  jo_query_by_session : datetime -> string -> nat -> S -> result journal_error (list journal_row);
  jo_recent : datetime -> nat -> S -> result journal_error (list journal_row);
  jo_reconcile_zombies : datetime -> S -> result journal_error Z * S;
  jo_query : datetime -> journal_filter -> nat -> S -> result journal_error (list journal_row);
  jo_aggregate : datetime -> journal_filter -> aggregate_query -> S -> result journal_error aggregate_result;
  jo_by_key : datetime -> string -> S -> result journal_error (option journal_row);
  jo_delete_expired : datetime -> S -> result journal_error Z * S;
}.
Arguments JournalOps {S}. Arguments jo_append {S}. Arguments jo_query_by_run {S}.
Arguments jo_query_by_session {S}. Arguments jo_recent {S}. Arguments jo_reconcile_zombies {S}.
Arguments jo_query {S}. Arguments jo_aggregate {S}. Arguments jo_by_key {S}. Arguments jo_delete_expired {S}.

(** A store as the dispatcher uses it. *)
Definition as_store {S} (ops : journal_ops S) : journal_store S := {|
  store_append now e s := let '(r, s') := jo_append ops now e s in (to_option r, s');
  store_by_key now key s := to_option (jo_by_key ops now key s) |}.

(** The default methods of the trait. *)
Definition default_query {S} (now : datetime) (f : journal_filter) (limit : nat) (s : S)
  : result journal_error (list journal_row) := Ok [].
Definition default_aggregate {S} (now : datetime) (f : journal_filter) (q : aggregate_query) (s : S)
  : result journal_error aggregate_result := Ok (ResCount 0).
Definition default_by_key {S} (now : datetime) (key : string) (s : S)
  : result journal_error (option journal_row) := Ok None.
Definition default_delete_expired {S} (now : datetime) (s : S) : result journal_error Z * S := (Ok 0, s).

(** What subscriptions rely on: the rows of a store by ascending id. *)
Class JournalView {S} (ops : journal_ops S) (show_uuid : uuid -> string) (view : S -> list journal_row)
    (good : S -> Prop) := {
  view_recent now limit s : good s ->
    jo_recent ops now limit s = Ok (bfilter (fun r => negb (is_expired now r)) (take limit (rev (view s))));
  view_query now f limit s : good s ->
    jo_query ops now f limit s = Ok (take limit (bfilter (filter_matches show_uuid now f) (rev (view s))));
}.

(** A look-up, and its answer. *)
Inductive journal_query : Type :=
  | QByRun (run : uuid)
  | QBySession (session : string) (limit : nat)
  | QRecent (limit : nat)
  | QFilter (f : journal_filter) (limit : nat)
  | QAggregate (f : journal_filter) (q : aggregate_query)
  | QByKey (key : string).

Inductive journal_answer : Type :=
  | ARows (r : result journal_error (list journal_row))
  | AAggregate (r : result journal_error aggregate_result)
  | ARow (r : result journal_error (option journal_row)).

Definition ask {S} (ops : journal_ops S) (now : datetime) (q : journal_query) (s : S) : journal_answer :=
  match q with
  | QByRun run => ARows (jo_query_by_run ops now run s)
  | QBySession session limit => ARows (jo_query_by_session ops now session limit s)
  | QRecent limit => ARows (jo_recent ops now limit s)
  | QFilter f limit => ARows (jo_query ops now f limit s)
  | QAggregate f q => AAggregate (jo_aggregate ops now f q s)
  | QByKey key => ARow (jo_by_key ops now key s)
  end.

(** * Fan-out *)

Section Fanout.
Context {P Q : Type} (prim : journal_ops P) (sec : nat -> journal_ops Q).

(** [FanoutJournalStore] with the tasks it has spawned. *)
Record fanout : Type := Fanout {
  fo_primary : P;
  fo_secondaries : list Q;
  fo_pending : list (nat * journal_entry);
  fo_dropped : Z;
}.

(** [FanoutJournalStore::new]. *)
Definition fanout_new (p : P) (qs : list Q) : fanout := Fanout p qs [] 0.

Definition set_primary (p : P) (s : fanout) : fanout :=
  Fanout p (fo_secondaries s) (fo_pending s) (fo_dropped s).

(** The tasks spawned for one entry. *)
Definition fan_tasks (n : nat) (e : journal_entry) : list (nat * journal_entry) := (fun i => (i, e)) <$> seq 0 n.

(** [append]. *)
Definition fanout_append (now : datetime) (e : journal_entry) (s : fanout) : result journal_error Z * fanout :=
  match jo_append prim now e (fo_primary s) with
  | (Err err, p) => (Err err, set_primary p s)
  | (Ok seq_, p) =>
      (Ok seq_, Fanout p (fo_secondaries s)
                  (fo_pending s ++ fan_tasks (length (fo_secondaries s)) e) (fo_dropped s))
  end.

(** The body of a task. *)
Definition fanout_deliver (now : datetime) (k : nat) (s : fanout) : option fanout :=
  '(i, e) ← fo_pending s !! k;
  q ← fo_secondaries s !! i;
  let '(r, q') := jo_append (sec i) now e q in
  Some (Fanout (fo_primary s) (<[i := q']> (fo_secondaries s)) (delete k (fo_pending s))
          (if is_ok r then fo_dropped s else wrap_u64 (fo_dropped s + 1))).

(** [impl JournalStore for FanoutJournalStore]: every method the source gives;
    the others are the trait's. *)
Definition on_primary {A} (f : P -> A * P) (s : fanout) : A * fanout :=
  let '(r, p) := f (fo_primary s) in (r, set_primary p s).

Definition fanout_ops : journal_ops fanout := {|
  jo_append := fanout_append;
  jo_query_by_run now run s := jo_query_by_run prim now run (fo_primary s);
  jo_query_by_session now sess limit s := jo_query_by_session prim now sess limit (fo_primary s);
  jo_recent now limit s := jo_recent prim now limit (fo_primary s);
  jo_reconcile_zombies now := on_primary (jo_reconcile_zombies prim now);
  jo_query now f limit s := jo_query prim now f limit (fo_primary s);
  jo_aggregate now f q s := jo_aggregate prim now f q (fo_primary s);
  jo_by_key := default_by_key;
  jo_delete_expired now := on_primary (jo_delete_expired prim now) |}.

(** Callers and tasks, interleaved. *)
Inductive fan_label : Type :=
  | LQuery (now : datetime) (q : journal_query) (a : journal_answer)
  | LAppend (now : datetime) (e : journal_entry) (r : result journal_error Z)
  | LReconcile (now : datetime) (r : result journal_error Z)
  | LExpire (now : datetime) (r : result journal_error Z)
  | LDeliver (now : datetime) (i : nat) (e : journal_entry) (ok : bool).

Inductive fan_step : fan_label -> fanout -> fanout -> Prop :=
  | FanQuery now q s : fan_step (LQuery now q (ask fanout_ops now q s)) s s
  | FanAppend now e r s s' : fanout_append now e s = (r, s') -> fan_step (LAppend now e r) s s'
  | FanReconcile now r s s' :
      jo_reconcile_zombies fanout_ops now s = (r, s') -> fan_step (LReconcile now r) s s'
  | FanExpire now r s s' : jo_delete_expired fanout_ops now s = (r, s') -> fan_step (LExpire now r) s s'
  | FanDeliver now k i e q s s' :
      fo_pending s !! k = Some (i, e) -> fo_secondaries s !! i = Some q ->
      fanout_deliver now k s = Some s' ->
      fan_step (LDeliver now i e (is_ok (fst (jo_append (sec i) now e q)))) s s'.

Inductive fan_run : list fan_label -> fanout -> fanout -> Prop :=
  | FanNil s : fan_run [] s s
  | FanCons l ls s s1 s2 : fan_step l s s1 -> fan_run ls s1 s2 -> fan_run (l :: ls) s s2.

(** The primary by itself, through the same calls: every look-up answers what
    the primary does, one by idempotency key excepted, which finds nothing. *)
Inductive prim_step : fan_label -> P -> P -> Prop :=
  | PrimQuery now q p :
      prim_step (LQuery now q match q with QByKey _ => ARow (Ok None) | _ => ask prim now q p end) p p
  | PrimAppend now e r p p' : jo_append prim now e p = (r, p') -> prim_step (LAppend now e r) p p'
  | PrimReconcile now r p p' : jo_reconcile_zombies prim now p = (r, p') -> prim_step (LReconcile now r) p p'
  | PrimExpire now r p p' : jo_delete_expired prim now p = (r, p') -> prim_step (LExpire now r) p p'
  | PrimDeliver now i e ok p : prim_step (LDeliver now i e ok) p p.

Inductive prim_run : list fan_label -> P -> P -> Prop :=
  | PrimNil p : prim_run [] p p
  | PrimCons l ls p p1 p2 : prim_step l p p1 -> prim_run ls p1 p2 -> prim_run (l :: ls) p p2.

(** What a run accepted, and what it delivered to a secondary. *)
Definition accepted (ls : list fan_label) : list journal_entry :=
  omap (fun l => match l with LAppend _ e (Ok _) => Some e | _ => None end) ls.
Definition delivered (i : nat) (ls : list fan_label) : list (datetime * journal_entry) :=
  omap (fun l => match l with
                 | LDeliver now j e _ => if decide (j = i) then Some (now, e) else None
                 | _ => None
                 end) ls.
Definition failed (ls : list fan_label) : Z :=
  Z.of_nat (length (List.filter (fun l => match l with LDeliver _ _ _ false => true | _ => false end) ls)).
Definition pending_for (i : nat) (s : fanout) : list journal_entry :=
  omap (fun t => if decide (t.1 = i) then Some t.2 else None) (fo_pending s).

(** A secondary after a list of writes. *)
Definition write_all (i : nat) (l : list (datetime * journal_entry)) (q : Q) : Q :=
  fold_left (fun q te => snd (jo_append (sec i) te.1 te.2 q)) l q.
End Fanout.
Arguments fanout P Q : clear implicits.
Arguments Fanout {P Q}.

(** * Subscriptions *)

(** What a receiver of the event bus gets. *)
Inductive bus_message : Type := BusEvent (e : run_event) | BusLagged (n : Z) | BusClosed.

Section Subscription.
Context {S : Type} (ops : journal_ops S) (show_uuid : uuid -> string).

(** Phase 1: the replay. *)
Definition replay_rows (now : datetime) (f : journal_filter) (replay_limit : nat) (s : S) : list journal_row :=
  match jo_query ops now f replay_limit s with Ok rows => rows | Err _ => [] end.

(** Phase 2: one [JournalAppended] event, at the moment of its lookup. *)
Definition live_rows (now : datetime) (f : journal_filter) (s : S) (sequence : Z)
    (event_type namespace : string) : list journal_row :=
  if match jf_namespace f with Some n => negb (String.eqb n namespace) | None => false end then []
  else if match jf_event_type f with Some t => negb (String.eqb t event_type) | None => false end then []
  else
    match jo_recent ops now 1 s with
    | Ok rows => List.filter (fun row => (jr_id row =? sequence) && filter_matches show_uuid now f row) rows
    | Err _ => []
    end.

(** The live loop: each message with the clock and the store its lookup sees. *)
Fixpoint live_loop (f : journal_filter) (l : list (bus_message * datetime * S)) : list journal_row :=
  match l with
  | [] => []
  | (BusClosed, _, _) :: _ => []
  | (BusEvent (EvJournalAppended sequence ty ns _), now, s) :: l' =>
      live_rows now f s sequence ty ns ++ live_loop f l'
  | _ :: l' => live_loop f l'
  end.

(** [JournalSubscription::start]: the rows sent as long as the receiver takes
    them. *)
Definition subscription (f : journal_filter) (replay_limit : nat) (now : datetime) (s : S)
    (l : list (bus_message * datetime * S)) : list journal_row :=
  replay_rows now f replay_limit s ++ live_loop f l.
End Subscription.

(** * The redb journal as a store *)

Section RedbOps.
Context {E R S X B : Type}.
Context `{LogTable E Z B} `{IndexTable R uuid} `{IndexTable S string} `{IndexTable X Z}.
Context (encode : stored_entry -> B) (decode : B -> option stored_entry).
Context (json_to_string : json -> string) (json_of_string : string -> option json).
Context (show_uuid : uuid -> string).
Context (hash_order : gmap uuid (string * string) -> list (uuid * (string * string))).
Context (bad_value bad_window : string).

Abbreviation redb := (journal (E := E) (R := R) (S := S) (X := X)).

Definition or_bad {A} (o : option A) : result journal_error A := ok_or o (JSerialization bad_value).
Definition or_unchanged {A} (j : redb) (o : option (A * redb)) : result journal_error A * redb :=
  match o with Some (a, j') => (Ok a, j') | None => (Err (JSerialization bad_value), j) end.

Definition redb_ops : journal_ops redb := {|
  jo_append now e j := let '(id, j') := append encode json_to_string now e j in (Ok id, j');
  jo_query_by_run now run j := or_bad (query_by_run decode json_of_string now run j);
  jo_query_by_session now sess limit j := or_bad (query_by_session decode json_of_string now sess limit j);
  jo_recent now limit j := or_bad (recent decode json_of_string now limit j);
  jo_reconcile_zombies now j :=
    or_unchanged j (reconcile_zombies encode decode json_to_string hash_order now j);
  jo_query now f limit j := or_bad (query decode json_of_string show_uuid now f limit j);
  jo_aggregate now f q j :=
    o ← or_bad (aggregate decode json_of_string show_uuid now f q j);
    ok_or o (JStorage bad_window);
  jo_by_key now key j := or_bad (get_by_idempotency_key decode json_of_string now key j);
  jo_delete_expired now j := or_unchanged j (delete_expired decode now j) |}.

Context (codec : forall s, decode (encode s) = Some s).
Context `{!LogTableLaws E Z B Z.lt}.
Context `{!IndexTableLaws R uuid} `{!IndexTableLaws S string} `{!IndexTableLaws X Z}.

#[export] Instance redb_view :
  JournalView redb_ops show_uuid (rows decode json_of_string) (consistent decode json_of_string).
Proof.
  split.
  - intros now limit j Hc. cbn. by rewrite recent_rows.
  - intros now f limit j Hc. cbn. by rewrite query_rows.
Qed.
End RedbOps.

(** * Theory of the fan-out *)

Section FanoutTheory.
Context {P Q : Type} (prim : journal_ops P) (sec : nat -> journal_ops Q).

Abbreviation step := (fan_step prim sec).
Abbreviation fan_runs := (fan_run prim sec).

Lemma fan_step_primary l s s' : step l s s' -> prim_step prim l (fo_primary s) (fo_primary s').
Proof.
  intros Hs. destruct Hs as [now q s|now e r s s' Hs|now r s s' Hs|now r s s' Hs|now k i e q s s' Hk Hq Hs].
  - replace (ask (fanout_ops prim) now q s) with
      (match q with QByKey _ => ARow (Ok None) | _ => ask prim now q (fo_primary s) end) by by destruct q.
    constructor.
  - constructor. unfold fanout_append in Hs.
    destruct (jo_append prim now e (fo_primary s)) as [[x|x] p]; by injection Hs as <- <-.
  - constructor. cbn in Hs. unfold on_primary in Hs.
    destruct (jo_reconcile_zombies prim now (fo_primary s)) as [x p]. by injection Hs as <- <-.
  - constructor. cbn in Hs. unfold on_primary in Hs.
    destruct (jo_delete_expired prim now (fo_primary s)) as [x p]. by injection Hs as <- <-.
  - unfold fanout_deliver in Hs. rewrite Hk in Hs. cbn in Hs. rewrite Hq in Hs. cbn in Hs.
    destruct (jo_append (sec i) now e q) as [r q']. injection Hs as <-. constructor.
Qed.

(** A write never waits for the secondaries. *)
Lemma fan_append_enabled now e s : exists r s', step (LAppend now e r) s s'.
Proof. destruct (fanout_append prim now e s) as [r s'] eqn:He. exists r, s'. by constructor. Qed.

Lemma pending_for_app i (s : fanout P Q) l :
  omap (fun t : nat * journal_entry => if decide (t.1 = i) then Some t.2 else None) (fo_pending s ++ l) =
  pending_for i s ++ omap (fun t => if decide (t.1 = i) then Some t.2 else None) l.
Proof. apply omap_app. Qed.

Lemma fan_tasks_for i n e :
  omap (fun t => if decide (t.1 = i) then Some t.2 else None) (fan_tasks n e) =
  if decide (i < n)%nat then [e] else [].
Proof.
  unfold fan_tasks. enough (forall a, omap (fun t : nat * journal_entry => if decide (t.1 = i) then Some t.2 else None)
      ((fun i => (i, e)) <$> seq a n) = if decide (a <= i < a + n)%nat then [e] else []) as ->.
  { destruct (decide (0 <= i < 0 + n)%nat), (decide (i < n)%nat); done || lia. }
  induction n as [|n IH]; intros a; cbn.
  { by rewrite decide_False by lia. }
  rewrite IH. destruct (decide (a = i)) as [->|Ha].
  - rewrite decide_False by lia. by rewrite decide_True by lia.
  - destruct (decide (S a <= i < S a + n)%nat), (decide (a <= i < a + S n)%nat); done || lia.
Qed.

Lemma pending_for_delete i (l : list (nat * journal_entry)) k j e :
  l !! k = Some (j, e) ->
  omap (fun t => if decide (t.1 = i) then Some t.2 else None) l ≡ₚ
  (if decide (j = i) then [e] else []) ++ omap (fun t => if decide (t.1 = i) then Some t.2 else None) (delete k l).
Proof.
  intros Hk. rewrite <- (take_drop_middle l k (j, e) Hk) at 1. rewrite delete_take_drop, !omap_app. cbn.
  destruct (decide (j = i)); cbn; [by rewrite Permutation_middle|done].
Qed.

(** What a run has accepted has been delivered to each secondary or is
    pending for it, once. *)
Record mirror (qs : list Q) (ls : list fan_label) (s : fanout P Q) : Prop := {
  mr_count : length (fo_secondaries s) = length qs;
  mr_entries i : (i < length qs)%nat ->
    accepted ls ≡ₚ (snd <$> delivered i ls) ++ pending_for i s;
  mr_state i q : qs !! i = Some q -> fo_secondaries s !! i = Some (write_all sec i (delivered i ls) q);
  mr_dropped : fo_dropped s = wrap_u64 (failed ls);
}.

Lemma accepted_snoc ls l : accepted (ls ++ [l]) = accepted ls ++ accepted [l].
Proof. apply omap_app. Qed.
Lemma delivered_snoc i ls l : delivered i (ls ++ [l]) = delivered i ls ++ delivered i [l].
Proof. apply omap_app. Qed.
Lemma failed_snoc ls l : failed (ls ++ [l]) = failed ls + failed [l].
Proof. unfold failed. rewrite List.filter_app, length_app. lia. Qed.
Lemma write_all_app i l l' q : write_all sec i (l ++ l') q = write_all sec i l' (write_all sec i l q).
Proof. apply fold_left_app. Qed.

(** The steps that leave the tasks and the secondaries alone. *)
Lemma mirror_quiet qs ls l s p :
  mirror qs ls s -> accepted [l] = [] -> (forall i, delivered i [l] = []) -> failed [l] = 0 ->
  mirror qs (ls ++ [l]) (set_primary p s).
Proof.
  intros [Hn He Hq Hd] Ha Hdel Hf. split; cbn; [done|..].
  - intros i Hi. rewrite accepted_snoc, delivered_snoc, Ha, Hdel, !app_nil_r. by apply He.
  - intros i q Hi. rewrite delivered_snoc, Hdel, app_nil_r. by apply Hq.
  - by rewrite failed_snoc, Hf, Z.add_0_r.
Qed.

Lemma mirror_step qs ls l s s' : mirror qs ls s -> step l s s' -> mirror qs (ls ++ [l]) s'.
Proof.
  intros Hm Hs.
  destruct Hs as [now q s|now e r s s' Hs|now r s s' Hs|now r s s' Hs|now k i e q s s' Hk Hqi Hs].
  - replace s with (set_primary (fo_primary s) s) by by destruct s. by apply mirror_quiet.
  - unfold fanout_append in Hs. destruct (jo_append prim now e (fo_primary s)) as [[x|x] p]; injection Hs as <- <-;
      [|by apply mirror_quiet].
    destruct Hm as [Hn He Hq Hd]. split; cbn; [done|..].
    + intros i Hi. rewrite accepted_snoc, delivered_snoc. cbn. rewrite app_nil_r.
      unfold pending_for. cbn. rewrite pending_for_app, fan_tasks_for, decide_True by lia.
      rewrite app_assoc. by rewrite <- He.
    + intros i q Hi. rewrite delivered_snoc, app_nil_r. by apply Hq.
    + by rewrite failed_snoc, Z.add_0_r.
  - cbn in Hs. unfold on_primary in Hs. destruct (jo_reconcile_zombies prim now (fo_primary s)) as [x p].
    injection Hs as <- <-. by apply mirror_quiet.
  - cbn in Hs. unfold on_primary in Hs. destruct (jo_delete_expired prim now (fo_primary s)) as [x p].
    injection Hs as <- <-. by apply mirror_quiet.
  - destruct Hm as [Hn He Hq Hd]. unfold fanout_deliver in Hs. rewrite Hk in Hs. cbn in Hs. rewrite Hqi in Hs.
    cbn in Hs. destruct (jo_append (sec i) now e q) as [r q'] eqn:Hw. injection Hs as <-. cbn [fst].
    split; cbn [fo_secondaries fo_pending fo_dropped].
    + by rewrite length_insert.
    + intros i' Hi'. rewrite accepted_snoc, delivered_snoc, app_nil_r, (He i') by done.
      unfold pending_for. cbn [fo_pending]. rewrite (pending_for_delete i' _ _ _ _ Hk). cbn.
      destruct (decide (i = i')) as [->|]; cbn; [|by rewrite app_nil_r].
      by rewrite fmap_app, <- app_assoc.
    + intros i' q0 Hi'. rewrite delivered_snoc, write_all_app. pose proof (Hq i' q0 Hi') as Hs'. cbn.
      destruct (decide (i = i')) as [->|Hne].
      * assert (q = write_all sec i' (delivered i' ls) q0) as -> by congruence. cbn. rewrite Hw.
        rewrite list_lookup_insert, decide_True; [done|]. split; [done|]. by eapply lookup_lt_Some.
      * cbn. by rewrite list_lookup_insert_ne.
    + rewrite failed_snoc, Hd. unfold failed at 2. cbn. destruct (is_ok r); cbn; [by rewrite Z.add_0_r|].
      unfold wrap_u64. by rewrite Zplus_mod_idemp_l.
Qed.

Lemma mirror_new p qs : mirror qs [] (fanout_new p qs).
Proof. split; done. Qed.

Lemma mirror_run qs ls ls' s s' : mirror qs ls s -> fan_runs ls' s s' -> mirror qs (ls ++ ls') s'.
Proof.
  intros Hm Hr. revert ls Hm. induction Hr as [s|l ls' s s1 s2 Hs Hr IH]; intros ls Hm.
  - by rewrite app_nil_r.
  - replace (ls ++ l :: ls') with ((ls ++ [l]) ++ ls') by by rewrite <- app_assoc.
    apply IH. by eapply mirror_step.
Qed.

(** C26: fanning out is invisible to callers and complete for the mirrors.
    Whatever the order in which the spawned writes run and whichever of them
    fail, between the callers' appends, repairs, sweeps and look-ups, the
    primary goes through exactly the states it would go through alone, and every
    call gets the answer the primary alone would give, one look-up excepted: by
    idempotency key nothing is ever found.  A write is never blocked; each
    secondary is the result of the writes delivered to it, which are, with those
    still pending and up to order, the entries accepted by the primary (what
    [reconcile_zombies] appends is not among them); and the counter counts the
    failed ones. *)
Theorem fanout_isolates p qs ls s :
  fan_runs ls (fanout_new p qs) s ->
  prim_run prim ls p (fo_primary s) /\
  (forall now e, exists r s', step (LAppend now e r) s s') /\
  (forall i q, qs !! i = Some q ->
     fo_secondaries s !! i = Some (write_all sec i (delivered i ls) q) /\
     accepted ls ≡ₚ (snd <$> delivered i ls) ++ pending_for i s) /\
  fo_dropped s = wrap_u64 (failed ls).
Proof.
  intros Hr. destruct (mirror_run qs [] ls _ _ (mirror_new p qs) Hr) as [Hn He Hq Hd]. split_and!.
  - change p with (fo_primary (fanout_new p qs)). clear -Hr.
    induction Hr as [s|l ls s s1 s2 Hs Hr IH]; [constructor|].
    econstructor; [by apply fan_step_primary|done].
  - intros now e. apply fan_append_enabled.
  - intros i q Hi. split; [by apply Hq|]. apply He. by eapply lookup_lt_Some.
  - done.
Qed.
End FanoutTheory.

(** ** Idempotency keys *)

(** A dispatcher over a fan-out store has no idempotency: the store does
    not forward [get_by_idempotency_key], so the trait's default answers that
    no entry has the key, whatever the primary holds; every granted call of a
    registered tool within its deadline runs the tool, however often its key was
    used; and the law the dispatcher relies on fails as soon as one keyed entry
    can be appended. *)
Theorem fanout_forgets_keys {P Q : Type} (prim : journal_ops P)
    now fresh state_hash show_uuid show_time show_u64 hash_order guards registry tool_name input s ctx
    (w : fanout P Q) bindings raw :
  check_tool s tool_name = Ok bindings -> registry !! tool_name = Some raw ->
  match ec_deadline ctx with Some d => now 0%nat w <= d | None => True end ->
  let store := Some (as_store (fanout_ops prim)) in
  dispatch_tool hash_order now fresh state_hash show_uuid show_time show_u64 guards store registry tool_name
    input s ctx w =
  run_dispatch now fresh state_hash show_uuid show_time show_u64 store tool_name input s ctx bindings
    (wrap hash_order guards tool_name bindings raw) w /\
  (forall good fits e k, good w -> fits e -> je_idempotency_key e = Some k -> je_valid_to e = None ->
     StoreLaws (as_store (fanout_ops prim)) good fits -> False).
Proof.
  intros Hc Hraw Hd store. split.
  - unfold dispatch_tool. rewrite Hc, Hraw.
    assert (match ec_deadline ctx with Some d => d <? now 0%nat w | None => false end = false) as ->.
    { destruct (ec_deadline ctx); [by apply Z.ltb_ge|done]. }
    assert (cached now store tool_name ctx w = None) as ->; [|done].
    unfold cached. by destruct (scoped_key tool_name ctx).
  - intros good fits e k Hg Hf Hk Hv Hlaws.
    destruct (store_find 0 e w k Hg Hf Hk Hv 0) as (row & Hrow & _). discriminate Hrow.
Qed.

(** * Theory of subscriptions *)

Section SubscriptionTheory.
Context {S : Type} (ops : journal_ops S) (show_uuid : uuid -> string).
Context (view : S -> list journal_row) (good : S -> Prop) `{!JournalView ops show_uuid view good}.

Abbreviation live := (live_rows ops show_uuid).

(** The event tells the truth about the row it announces. *)
Definition announces (s : S) (sequence : Z) (event_type namespace : string) : Prop :=
  forall r, r ∈ view s -> jr_id r = sequence -> jr_event_type r = event_type /\ jr_namespace r = namespace.

(** What a row has to be for a subscriber to want it. *)
Definition wanted (now : datetime) (f : journal_filter) (r : journal_row) : bool :=
  filter_matches show_uuid now f r && negb (is_expired now r).

Lemma filter_matches_fields now f r :
  filter_matches show_uuid now f r = true ->
  field_matches (jf_namespace f) (jr_namespace r) = true /\
  field_matches (jf_event_type f) (jr_event_type r) = true.
Proof. unfold filter_matches. rewrite !andb_true_iff. tauto. Qed.

Lemma live_rows_last now f s sequence ty ns :
  good s -> announces s sequence ty ns ->
  live now f s sequence ty ns =
  match last (view s) with
  | Some r => if (jr_id r =? sequence) && wanted now f r then [r] else []
  | None => []
  end.
Proof.
  intros Hg Ha. unfold live_rows. rewrite (view_recent now 1 s Hg).
  assert (take 1 (rev (view s)) = match last (view s) with Some r => [r] | None => [] end) as ->.
  { destruct (view s) as [|r0 l _] using rev_ind; [done|]. by rewrite rev_app_distr, last_snoc. }
  destruct (last (view s)) as [r|] eqn:Hl; [|by repeat destruct (match _ with Some _ => _ | None => _ end)].
  unfold wanted.
  destruct (jr_id r =? sequence) eqn:Hid; cbn [andb].
  - destruct (filter_matches show_uuid now f r) eqn:Hm; cbn [andb].
    + destruct (filter_matches_fields now f r Hm) as [Hns Hty].
      apply Z.eqb_eq in Hid. destruct (Ha r) as [Ht Hn]; [by apply last_Some_elem_of|done|].
      rewrite Ht in Hty. rewrite Hn in Hns. unfold field_matches in Hns, Hty.
      assert (match jf_namespace f with Some n => negb (String.eqb n ns) | None => false end = false) as ->.
      { destruct (jf_namespace f); [|done]. by rewrite String.eqb_sym, Hns. }
      assert (match jf_event_type f with Some t => negb (String.eqb t ty) | None => false end = false) as ->.
      { destruct (jf_event_type f); [|done]. by rewrite String.eqb_sym, Hty. }
      cbn. destruct (is_expired now r); cbn; [done|]. by rewrite Hid, Z.eqb_refl, Hm.
    + repeat (destruct (match _ with Some _ => _ | None => _ end); [done|]). cbn.
      destruct (is_expired now r); cbn; [done|]. by rewrite Hid, Hm.
  - repeat (destruct (match _ with Some _ => _ | None => _ end); [done|]). cbn.
    destruct (is_expired now r); cbn; [done|]. by rewrite Hid.
Qed.
(** The messages before the bus closes. *)
Fixpoint before_close (l : list (bus_message * datetime * S)) : list (bus_message * datetime * S) :=
  match l with
  | [] => []
  | (BusClosed, _, _) :: _ => []
  | m :: l' => m :: before_close l'
  end.

(** The row a message leads to: the newest row at the moment of the lookup, if
    it is the announced one and wanted. *)
Definition delivery (f : journal_filter) (m : bus_message * datetime * S) : option journal_row :=
  match m with
  | (BusEvent (EvJournalAppended sequence _ _ _), now, s) =>
      r ← last (view s); if (jr_id r =? sequence) && wanted now f r then Some r else None
  | _ => None
  end.

Definition truthful (m : bus_message * datetime * S) : Prop :=
  match m with
  | (BusEvent (EvJournalAppended sequence ty ns _), _, s) => good s /\ announces s sequence ty ns
  | _ => True
  end.

Lemma live_loop_deliveries f l :
  Forall truthful l -> live_loop ops show_uuid f l = omap (delivery f) (before_close l).
Proof.
  induction 1 as [|[[m now] s] l Hm _ IH]; [done|].
  destruct m as [e|n|]; [|exact IH|done]. cbn [live_loop before_close omap list_omap].
  destruct e as [| | | | | | | | | | |sequence ty ns rid]; try exact IH.
  destruct Hm as [Hg Ha]. rewrite live_rows_last, IH by done. cbn [delivery].
  destruct (last (view s)) as [r|]; cbn [mbind option_bind]; [|done].
  destruct ((jr_id r =? sequence) && wanted now f r); done.
Qed.

(** What a subscriber is sent, exactly.  First the rows that match at the
    time of the replay, newest first and at most [replay_limit]; then, for each
    [JournalAppended] received, the announced row when it matches, has not
    expired and is still the newest row of the journal when it is looked up.  A
    row overtaken by another append before its lookup is never sent, and one
    appended between the subscription and the replay is sent twice. *)
Theorem subscription_spec f replay_limit now s l :
  good s -> Forall truthful l ->
  subscription ops show_uuid f replay_limit now s l =
    take replay_limit (bfilter (filter_matches show_uuid now f) (rev (view s))) ++
    omap (delivery f) (before_close l).
Proof.
  intros Hg Hl. unfold subscription, replay_rows. rewrite (view_query now f replay_limit s Hg).
  by rewrite live_loop_deliveries.
Qed.
End SubscriptionTheory.

(** * Runs *)

Module Demo.
Abbreviation db := Journal.Demo.demo_journal.
Definition ops : journal_ops db :=
  redb_ops id Some Journal.Demo.to_text Journal.Demo.of_text (fun _ => "u") map_to_list "bad" "window".
Definition e1 : journal_entry := Journal.Demo.ev 1 "workflow_started" None (Some "k").
Definition e2 : journal_entry := Journal.Demo.ev 2 "workflow_started" None None.
Abbreviation fan_db := (fanout db db).
Definition f0 : fan_db := fanout_new Journal.Demo.start [Journal.Demo.start].
Definition f1 : fan_db := snd (fanout_append ops 0 e1 f0).
Definition f2 : fan_db := snd (fanout_append ops 0 e2 f1).
Definition f3 : fan_db := default f2 (fanout_deliver (fun _ => ops) 0 1 f2).
Definition trail : list fan_label :=
  [LAppend 0 e1 (Ok 1); LAppend 0 e2 (Ok 2); LQuery 0 (QByKey "k") (ARow (Ok None)); LDeliver 0 0 e2 true].

(** The second entry overtakes the first on its way to the mirror. *)
Lemma trail_runs : fan_run ops (fun _ => ops) trail f0 f3.
Proof.
  eapply FanCons; [apply FanAppend; vm_compute; reflexivity|].
  eapply FanCons; [apply FanAppend; vm_compute; reflexivity|].
  eapply FanCons; [apply (FanQuery ops (fun _ => ops) 0 (QByKey "k") f2)|].
  eapply FanCons; [|apply FanNil].
  apply (FanDeliver ops (fun _ => ops) 0 1%nat 0%nat e2 Journal.Demo.start f2 f3); vm_compute; reflexivity.
Qed.

Lemma fanout_isolates_witness :
  fan_run ops (fun _ => ops) trail f0 f3 /\
  accepted trail ≡ₚ (snd <$> delivered 0 trail) ++ pending_for 0 f3 /\
  map je_run_id (accepted trail) = [Some 1%N; Some 2%N] /\
  map je_run_id ((snd <$> delivered 0 trail) ++ pending_for 0 f3) = [Some 2%N; Some 1%N].
Proof.
  split; [exact trail_runs|]. split.
  - refine (proj2 (proj1 (proj2 (proj2 (fanout_isolates ops (fun _ => ops) Journal.Demo.start
              [Journal.Demo.start] trail f3 trail_runs))) 0%nat Journal.Demo.start eq_refl)).
  - split; vm_compute; reflexivity.
Defined.

(** The keyed entry is in the primary, and the fan-out store does not find it. *)
Lemma fanout_forgets_keys_witness :
  jo_by_key (fanout_ops ops) 0 "k" f1 = Ok None /\
  is_ok (jo_by_key ops 0 "k" (fo_primary f1)) = true /\
  (StoreLaws (as_store (fanout_ops (Q := db) ops)) (fun _ => True) (fun _ => True) -> False).
Proof.
  split; [reflexivity|]. split; [vm_compute; reflexivity|].
  refine (proj2 (fanout_forgets_keys ops (fun _ _ => 0) (fun _ _ => 0%N) (fun _ _ => None) (fun _ => EmptyString)
    (fun _ => EmptyString) (fun _ => EmptyString) map_to_list ∅
    {["t" := Tool (ToolInfo "t" "" JNull None [] false annotations_default) (fun w _ => (w, Err (AccessDenied "")))]}
    "t" JNull (ExecutionScope "konf:n" [grant_new "*"] limits_default (Actor "u" User) 0)
    (ExecutionContext 0%N None "s" None None) f1 ∅ _ _ _ _) _ _ e1 "k" I I eq_refl eq_refl).
  - reflexivity.
  - reflexivity.
  - exact I.
Defined.

(** Two appends before the first lookup: the first row is lost.  A row already
    replayed whose event comes later is sent again. *)
Definition any : journal_filter := JournalFilter None None None None None false.
Definition j0 : db := Journal.Demo.start.
Definition j1 : db := Journal.Demo.add e1 j0.
Definition j2 : db := Journal.Demo.add e2 j1.
Definition says (n : Z) (r : uuid) (j : db) : bus_message * datetime * db :=
  (BusEvent (EvJournalAppended n "workflow_started" "konf:n" r), 0, j).

Lemma view_good : consistent Some Journal.Demo.of_text j0 /\ consistent Some Journal.Demo.of_text j1 /\
  consistent Some Journal.Demo.of_text j2.
Proof.
  assert (consistent Some Journal.Demo.of_text j0) as H0 by apply (new_consistent Some Journal.Demo.of_text).
  assert (consistent Some Journal.Demo.of_text j1) as H1.
  { apply (append_consistent id Some Journal.Demo.to_text Journal.Demo.of_text Journal.Demo.journal_codec_id);
      [done| |reflexivity]. vm_compute. by intros ?. }
  split_and!; [done..|].
  apply (append_consistent id Some Journal.Demo.to_text Journal.Demo.of_text Journal.Demo.journal_codec_id);
    [done| |reflexivity]. vm_compute. by intros ?.
Qed.

Lemma says_truthful n r j :
  consistent Some Journal.Demo.of_text j ->
  forallb (fun row => String.eqb (jr_event_type row) "workflow_started" && String.eqb (jr_namespace row) "konf:n")
    (rows Some Journal.Demo.of_text j) = true ->
  truthful (rows Some Journal.Demo.of_text) (consistent Some Journal.Demo.of_text) (says n r j).
Proof.
  intros Hc Hall. split; [done|]. intros row Hin _. rewrite forallb_forall in Hall.
  apply list_elem_of_In, Hall in Hin. apply andb_true_iff in Hin as [Ht%String.eqb_eq Hn%String.eqb_eq]. done.
Qed.

Lemma subscription_spec_witness :
  map jr_id (subscription ops (fun _ => "u") any 10 0 j0 [says 1 1 j2; says 2 2 j2]) = [2] /\
  map jr_id (subscription ops (fun _ => "u") any 10 0 j1 [says 1 1 j1; says 2 2 j2]) = [1; 1; 2].
Proof.
  destruct view_good as (H0 & H1 & H2).
  assert (JournalView ops (fun _ => "u") (rows Some Journal.Demo.of_text) (consistent Some Journal.Demo.of_text)) as Hv.
  { apply redb_view; first [exact Journal.Demo.journal_codec_id | apply _]. }
  pose proof (subscription_spec ops (fun _ => "u") (rows Some Journal.Demo.of_text)
                (consistent Some Journal.Demo.of_text) any 10 0) as Hspec.
  rewrite (Hspec j0), (Hspec j1); [split; vm_compute; reflexivity|done| |done|];
    (apply List.Forall_cons; [|apply List.Forall_cons; [|apply List.Forall_nil]]);
    (apply says_truthful; [done|vm_compute; reflexivity]).
Defined.
End Demo.
