(* ===== verification/Surreal.v ===== *)
(** The SurrealDB memory backend ([konf-tool-memory-surreal/src]): sessions
    ([session.rs]), search with rank fusion ([search.rs]), nodes and their audit
    events ([backend.rs]), its configuration ([config.rs]), and the journal
    mirror ([journal_store.rs]).

    The database is a parameter: a statement with its bindings, run on a world,
    answers rows or an error.  The statements are the program's own texts. *)

From S2P Require Import Prelude Json Error Envelope Tool Guard Engine MemoryTools Journal Table Fanout Template.

Local Open Scope string_scope.
Local Open Scope list_scope.
Local Open Scope Z_scope.

(** * Configuration *)

Definition DEFAULT_NAMESPACE : string := "default".
Inductive surreal_mode : Type := Embedded | Memory | Remote.

(** [SurrealConfig]. *)
Record surreal_config : Type := SurrealConfig {
  sc_mode : surreal_mode;
  sc_path : option string;
  sc_endpoint : option string;
  sc_username : option string;
  sc_password : option string;
  sc_namespace : string;
  sc_database : string;
  sc_vector_dimension : Z;
  sc_rrf_k : Z;
  sc_hybrid_candidate_pool : Z;
  sc_default_limit : Z;
}.

(** [SurrealConfig::validate]. *)
Definition surreal_validate (c : surreal_config) : result string unit :=
  _ ← match sc_mode c with
      | Embedded => if sc_path c is Some _ then Ok tt else Err "SurrealConfig.path is required when mode = embedded"
      | Memory => Ok tt
      | Remote => if sc_endpoint c is Some _ then Ok tt else Err "SurrealConfig.endpoint is required when mode = remote"
      end;
  if sc_vector_dimension c =? 0 then Err "SurrealConfig.vector_dimension must be > 0"
  else if sc_rrf_k c <=? 0 then Err "SurrealConfig.rrf_k must be > 0"
  else Ok tt.

(** * Statements *)

Definition quote : string := String (Ascii.ascii_of_nat 34) EmptyString.

Definition prune_sql : string := "
DELETE session_state
 WHERE namespace  = $ns
   AND session_id = $sid
   AND expires_at != NONE
   AND expires_at <  time::now()
".
Definition delete_sql : string := "
DELETE session_state
 WHERE namespace  = $ns
   AND session_id = $sid
   AND skey       = $k
".
Definition create_ttl_sql : string := String.concat quote ["
CREATE session_state SET
    namespace  = $ns,
    session_id = $sid,
    skey       = $k,
    sval       = $v,
    expires_at = time::now() + <duration>($ttl + "; "s"; ")
"].
Definition create_sql : string := "
CREATE session_state SET
    namespace  = $ns,
    session_id = $sid,
    skey       = $k,
    sval       = $v,
    expires_at = NONE
".
Definition select_sql : string := "
SELECT sval FROM session_state
 WHERE namespace  = $ns
   AND session_id = $sid
   AND skey       = $k
 LIMIT 1
".
Definition delete_before_sql : string := "
DELETE session_state
 WHERE namespace  = $ns
   AND session_id = $sid
   AND skey       = $k
RETURN BEFORE
".
Definition list_sql : string := "
SELECT skey FROM session_state
 WHERE namespace  = $ns
   AND session_id = $sid
 ORDER BY skey
".
Definition clear_sql : string := "
DELETE session_state
 WHERE namespace  = $ns
   AND session_id = $sid
RETURN BEFORE
".
Definition event_sql : string := "CREATE event SET namespace = $ns, event_type = $et, payload = $p".
Definition node_sql : string :=
  "CREATE node SET namespace = $ns, node_type = $nt, content = $c, metadata = $m;".
Definition node_embedding_sql : string := "
LET $created = (CREATE node SET
    namespace = $ns,
    node_type = $nt,
    content   = $c,
    metadata  = $m);
CREATE node_embedding SET
    node       = $created[0].id,
    namespace  = $ns,
    model_name = $mn,
    embedding  = $e;
".
Definition text_sql (with_node_type : bool) : string := String.concat EmptyString ["
SELECT id, node_type, content, metadata, search::score(0) AS score
  FROM node
 WHERE namespace = $ns
   AND is_retracted = false
   AND content @0@ $q
"; if with_node_type then "   AND node_type = $nt
" else EmptyString; " ORDER BY score DESC
 LIMIT $lim;
"].

Definition f64_add : f64 -> f64 -> f64 := SpecFloat.SFadd f64_prec f64_emax.
Definition f64_div : f64 -> f64 -> f64 := SpecFloat.SFdiv f64_prec f64_emax.

Definition of_f64 (f : f64) : json := JNumber (NFloat f).
Definition of_i64 (z : Z) : json := JNumber (if z <? 0 then NegInt z else PosInt z).
Definition of_len {A} (l : list A) : json := JNumber (PosInt (Z.of_nat (length l))).
Definition opt_json {A} (f : A -> json) (o : option A) : json := match o with Some x => f x | None => JNull end.

(** * The backend *)

Section Backend.
Context {W : Type} (db_query : string -> list (string * json) -> W -> W * result string (list json)).
Context (to_lowercase : string -> string) (show_i64 : Z -> string) (json_to_string : json -> string).
Context (hash_order : gmap string (f64 * json) -> list (string * (f64 * json))).
Context (cfg : surreal_config).

(** A computation on the database that may fail. *)
Definition action (A : Type) : Type := W -> W * result memory_error A.
Definition ret {A} (r : result memory_error A) : action A := fun w => (w, r).
Definition and_then {A B} (m : action A) (f : A -> action B) : action B := fun w =>
  match m w with (w', Ok a) => f a w' | (w', Err e) => (w', Err e) end.
#[local] Notation "x <~ m ; k" := (and_then m (fun x => k)) (at level 80, m at level 79, right associativity).

(** [db.query(sql).bind(...)] with its errors mapped by [map_db_error]. *)
Definition run_sql (sql : string) (binds : list (string * json)) : action (list json) := fun w =>
  let '(w', r) := db_query sql binds w in (w', map_err OperationFailed r).

Definition resolve_namespace (param : option string) : string := default DEFAULT_NAMESPACE param.

(** ** Sessions *)

Definition session_binds (ns session_id : string) : list (string * json) :=
  [("ns", JString ns); ("sid", JString session_id)].
Definition key_binds (ns session_id key : string) : list (string * json) :=
  session_binds ns session_id ++ [("k", JString key)].

Definition prune_expired (ns session_id : string) : action (list json) :=
  run_sql prune_sql (session_binds ns session_id).

Definition meta_of (fields : list (string * json)) : string * json := ("_meta", object fields).

Definition state_set (key : string) (value : json) (session_id : string) (namespace : option string)
    (ttl : option Z) : action json :=
  if String.eqb key EmptyString then ret (Err (Validation "state:set: key must be non-empty"))
  else
    let ns := resolve_namespace namespace in
    let live := match ttl with Some seconds => if 0 <? seconds then Some seconds else None | None => None end in
    _ <~ run_sql delete_sql (key_binds ns session_id key);
    _ <~ run_sql (match live with Some _ => create_ttl_sql | None => create_sql end)
           (key_binds ns session_id key ++ [("v", value)] ++
            match live with Some seconds => [("ttl", JString (show_i64 seconds))] | None => [] end);
    ret (Ok (object [("key", JString key); ("session_id", JString session_id);
                     meta_of [("namespace", JString ns); ("ttl", opt_json of_i64 ttl)]])).

Definition state_get (key session_id : string) (namespace : option string) : action json :=
  let ns := resolve_namespace namespace in
  _ <~ prune_expired ns session_id;
  rows <~ run_sql select_sql (key_binds ns session_id key);
  ret (Ok (object [("key", JString key); ("session_id", JString session_id);
                   ("value", default JNull (head rows ≫= get "sval")); meta_of [("namespace", JString ns)]])).

Definition state_delete (key session_id : string) (namespace : option string) : action json :=
  let ns := resolve_namespace namespace in
  removed <~ run_sql delete_before_sql (key_binds ns session_id key);
  ret (Ok (object [("deleted", JString key); ("removed_count", of_len removed);
                   meta_of [("namespace", JString ns)]])).

Definition state_list (session_id : string) (namespace : option string) : action json :=
  let ns := resolve_namespace namespace in
  _ <~ prune_expired ns session_id;
  rows <~ run_sql list_sql (session_binds ns session_id);
  ret (Ok (object [("keys", JArray (omap (get "skey") rows));
                   meta_of [("namespace", JString ns); ("session_id", JString session_id)]])).

Definition state_clear (session_id : string) (namespace : option string) : action json :=
  let ns := resolve_namespace namespace in
  removed <~ run_sql clear_sql (session_binds ns session_id);
  ret (Ok (object [("cleared", of_len removed);
                   meta_of [("namespace", JString ns); ("session_id", JString session_id)]])).

(** ** Search *)

Definition dimensions (what : string) (n : nat) : memory_error :=
  Validation (String.concat EmptyString
    [what; " has "; show_i64 (Z.of_nat n); " dims, expected "; show_i64 (sc_vector_dimension cfg)]).

Definition extract_query_vector (p : search_params) : result memory_error (option (list f64)) :=
  match (sp_metadata_filter p ≫= get "query_vector") ≫= as_array with
  | None => Ok None
  | Some arr =>
      let vec := omap as_f64 arr in
      if negb (Nat.eqb (length vec) (length arr)) then
        Err (Validation "metadata_filter.query_vector must be an array of numbers")
      else if negb (Z.of_nat (length vec) =? sc_vector_dimension cfg) then
        Err (dimensions "query_vector" (length vec))
      else Ok (Some vec)
  end.

Definition limit_of (p : search_params) : Z := Z.max (default (sc_default_limit cfg) (sp_limit p)) 1.

(** [MergedCount]: the count of the results written into the metadata. *)
Definition merged_count (v : json) : json :=
  match v with
  | JObject obj =>
      match obj_get "results" obj with
      | Some results =>
          let len := match as_array results with Some a => of_len a | None => JNumber (PosInt 0) end in
          match obj_get "_meta" obj with
          | Some (JObject meta) => JObject (obj_insert "_meta" (JObject (obj_insert "count" len meta)) obj)
          | _ => v
          end
      | None => v
      end
  | _ => v
  end.

Definition text_search (p : search_params) : action json :=
  query_text <~ ret (ok_or (sp_query p) (Validation "text search requires `query`"));
  let ns := resolve_namespace (sp_namespace p) in
  rows <~ run_sql (text_sql (bool_decide (is_Some (sp_node_type p))))
            ([("ns", JString ns); ("q", JString query_text); ("lim", of_i64 (limit_of p))] ++
             match sp_node_type p with Some nt => [("nt", JString nt)] | None => [] end);
  ret (Ok (merged_count (object [("results", JArray rows);
    meta_of [("mode", JString "text"); ("namespace", JString ns); ("count", JNumber (PosInt 0))]]))).

Definition vector_sql (k ef : Z) : string := String.concat EmptyString ["
SELECT
    node.id           AS id,
    node.node_type    AS node_type,
    node.content      AS content,
    node.metadata     AS metadata,
    vector::similarity::cosine(embedding, $qv) AS score
  FROM node_embedding
 WHERE namespace = $ns
   AND embedding <|"; show_i64 k; ","; show_i64 ef; "|> $qv
 ORDER BY score DESC
 LIMIT $lim;
"].

Definition vector_search (p : search_params) (query_vector : option (list f64)) : action json :=
  qv <~ ret (ok_or query_vector
          (Validation "vector search requires `metadata_filter.query_vector` (pre-embedded query)"));
  let ns := resolve_namespace (sp_namespace p) in
  let limit := limit_of p in
  rows <~ run_sql (vector_sql limit (Z.max (sc_hybrid_candidate_pool cfg) limit))
            [("ns", JString ns); ("qv", JArray (map of_f64 qv)); ("lim", of_i64 limit)];
  ret (Ok (object [("results", JArray rows);
    meta_of [("mode", JString "vector"); ("namespace", JString ns); ("count", of_len rows)]])).

(** *** Reciprocal rank fusion *)

Definition extract_results (v : json) : list json := default [] (get "results" v ≫= as_array).
Definition row_id (row : json) : string := default EmptyString (json_to_string <$> get "id" row).

Definition contribution (rrf_k : Z) (rank : nat) : f64 :=
  f64_div (f64_of_Z 1) (f64_add (f64_of_Z rrf_k) (f64_add (f64_of_Z (Z.of_nat rank)) (f64_of_Z 1))).

(** One ranked list poured into the map of scores. *)
Definition fuse_row (rrf_k : Z) (fused : gmap string (f64 * json)) (ranked : nat * json)
  : gmap string (f64 * json) :=
  let '(rank, row) := ranked in
  <[row_id row := match fused !! row_id row with
                  | Some (s, r) => (f64_add s (contribution rrf_k rank), r)
                  | None => (contribution rrf_k rank, row)
                  end]> fused.
Definition fuse (rrf_k : Z) (rows : list json) (fused : gmap string (f64 * json)) : gmap string (f64 * json) :=
  fold_left (fuse_row rrf_k) (imap pair rows) fused.

(** [sort_by] with the comparison of scores reversed. *)
Definition ranks_before (a b : f64 * json) : Prop := f64_lt a.1 b.1 = false.
#[local] Instance ranks_before_dec : RelDecision ranks_before := fun a b => decide (f64_lt a.1 b.1 = false).

Definition set_score (scored : f64 * json) : json :=
  match scored with
  | (score, JObject m) => JObject (obj_insert "score" (json_of_f64 score) m)
  | (_, row) => row
  end.

Definition fused_results (rrf_k : Z) (limit : Z) (text_rows vec_rows : list json) : list json :=
  let fused := fuse rrf_k vec_rows (fuse rrf_k text_rows ∅) in
  let ranked := merge_sort ranks_before (map snd (hash_order fused)) in
  map set_score (take (Z.to_nat limit) ranked).

Definition with_limit (p : search_params) (limit : Z) : search_params :=
  SearchParams (sp_query p) (sp_mode p) (Some limit) (sp_namespace p) (sp_node_type p) (sp_edge_type p)
    (sp_metadata_filter p) (sp_min_similarity p).

Definition rrf_fuse (p : search_params) (query_vector : list f64) : action json :=
  let ns := resolve_namespace (sp_namespace p) in
  let limit := limit_of p in
  let pool := Z.max (sc_hybrid_candidate_pool cfg) limit in
  text_json <~ text_search (with_limit p pool);
  vec_json <~ vector_search (with_limit p pool) (Some query_vector);
  let results := fused_results (sc_rrf_k cfg) limit (extract_results text_json) (extract_results vec_json) in
  ret (Ok (object [("results", JArray results);
    meta_of [("mode", JString "hybrid"); ("namespace", JString ns); ("count", of_len results);
             ("rrf_k", of_i64 (sc_rrf_k cfg)); ("pool", of_i64 pool)]])).

Definition hybrid_search (p : search_params) (query_vector : option (list f64)) : action json :=
  match sp_query p, query_vector with
  | None, None => ret (Err (Validation
      "hybrid search requires either `query` or `metadata_filter.query_vector` or both"))
  | Some _, None => text_search p
  | None, Some qv => vector_search p (Some qv)
  | Some _, Some qv => rrf_fuse p qv
  end.

(** [search::run]. *)
Definition search (p : search_params) : action json :=
  let mode := to_lowercase (default "text" (sp_mode p)) in
  query_vector <~ ret (extract_query_vector p);
  if String.eqb mode "text" then text_search p
  else if String.eqb mode "vector" then vector_search p query_vector
  else if String.eqb mode "hybrid" then hybrid_search p query_vector
  else ret (Err (Unsupported (String.concat EmptyString
         ["unknown search mode `"; mode; "` — supported: text, vector, hybrid"]))).

(** ** Nodes *)

Definition record_event (ns event_type : string) (payload : json) : action (list json) :=
  run_sql event_sql [("ns", JString ns); ("et", JString event_type); ("p", payload)].

(** One node: checked, then created. *)
Definition add_node (ns : string) (node : json) : action (list json) :=
  content <~ ret (ok_or (get "content" node ≫= as_str)
               (Validation "add_nodes: every node must have a `content` string"));
  let node_type := default "memory" (get "node_type" node ≫= as_str) in
  let metadata := default (JObject []) (get "metadata" node) in
  let embedding := default [] ((fun arr : list json => omap as_f64 arr) <$> (get "embedding" node ≫= as_array)) in
  let model_name := default "default" (get "model_name" node ≫= as_str) in
  let binds := [("ns", JString ns); ("nt", JString node_type); ("c", JString content); ("m", metadata)] in
  match embedding with
  | [] => run_sql node_sql binds
  | _ =>
      if negb (Z.of_nat (length embedding) =? sc_vector_dimension cfg) then
        ret (Err (dimensions "add_nodes: embedding" (length embedding)))
      else run_sql node_embedding_sql
             (binds ++ [("mn", JString model_name); ("e", JArray (map of_f64 embedding))])
  end.

Fixpoint add_each (ns : string) (nodes : list json) : action unit :=
  match nodes with
  | [] => ret (Ok tt)
  | node :: nodes' => _ <~ add_node ns node; add_each ns nodes'
  end.

Definition add_nodes (nodes : list json) (namespace : option string) : action json :=
  match nodes with
  | [] => ret (Err (Validation "add_nodes: nodes array is empty"))
  | _ =>
      let ns := resolve_namespace namespace in
      _ <~ add_each ns nodes;
      _ <~ record_event ns "nodes_added" (object [("count", of_len nodes)]);
      ret (Ok (object [("added", of_len nodes); meta_of [("namespace", JString ns)]]))
  end.

(** [impl MemoryBackend for SurrealBackend]. *)
Definition surreal_call (r : memory_request) : action json :=
  match r with
  | RSearch p => search p
  | RAddNodes nodes ns => add_nodes nodes ns
  | RStateSet key value sid ns ttl => state_set key value sid ns ttl
  | RStateGet key sid ns => state_get key sid ns
  | RStateDelete key sid ns => state_delete key sid ns
  | RStateList sid ns => state_list sid ns
  | RStateClear sid ns => state_clear sid ns
  end.

Definition surreal_backend : memory_backend W := MemoryBackend surreal_call ["text"; "vector"; "hybrid"].
End Backend.

(** * The journal mirror *)

Section Mirror.
Context {W : Type} (db_query : string -> list (string * json) -> W -> W * result string (list json)).
Context (show_uuid : uuid -> string) (uuid_parse : string -> option uuid).
Context (datetime_to_json : datetime -> json) (datetime_of_json : json -> option datetime).

(** [SurrealJournalStore]: the counter of this process and the database. *)
Record surreal_journal : Type := SurrealJournal { sj_counter : Z; sj_db : W }.
Definition surreal_journal_new (db : W) : surreal_journal := SurrealJournal 0 db.

(** [RawEventRow] and its deserialisation; [created_at] and [valid_to] are
    read by [chrono]. *)
Record raw_event_row : Type := RawEventRow {
  rer_namespace : string;
  rer_event_type : string;
  rer_payload : json;
  rer_created_at : datetime;
  rer_valid_to : option datetime;
  rer_idempotency_key : option string;
}.

Definition optional {A} (k : string) (read : json -> option A) (row : json) : option (option A) :=
  match get k row with None | Some JNull => Some None | Some v => Some <$> read v end.

Definition raw_event_row_of (row : json) : option raw_event_row :=
  namespace ← get "namespace" row ≫= as_str;
  event_type ← get "event_type" row ≫= as_str;
  payload ← get "payload" row;
  created_at ← get "created_at" row ≫= datetime_of_json;
  valid_to ← optional "valid_to" datetime_of_json row;
  key ← optional "idempotency_key" as_str row;
  Some (RawEventRow namespace event_type payload created_at valid_to key).

(** [RawEventRow::into_journal_row]. *)
Definition into_journal_row (r : raw_event_row) : journal_row := {|
  jr_id := default 0 (get "seq" (rer_payload r) ≫= as_u64);
  jr_run_id := get "run_id" (rer_payload r) ≫= (fun v => as_str v ≫= uuid_parse);
  jr_session_id := default EmptyString (get "session_id" (rer_payload r) ≫= as_str);
  jr_namespace := rer_namespace r;
  jr_event_type := rer_event_type r;
  jr_payload := default JNull (get "data" (rer_payload r));
  jr_created_at := rer_created_at r;
  jr_valid_to := rer_valid_to r;
  jr_idempotency_key := rer_idempotency_key r |}.

(** Rows that do not deserialise are skipped. *)
Definition rows_into_journal (rows : list json) : list journal_row :=
  omap (fun row => into_journal_row <$> raw_event_row_of row) rows.

Definition mirror_payload (seq : Z) (e : journal_entry) : json :=
  object [("seq", JNumber (PosInt seq)); ("run_id", opt_json (fun id => JString (show_uuid id)) (je_run_id e));
          ("session_id", JString (je_session_id e)); ("data", je_payload e)].

Definition wrap_db_err {A} (r : result string A) : result journal_error A := map_err JStorage r.

Definition mirror_event_sql : string :=
  "CREATE event SET namespace = $ns, event_type = $et, payload = $p, valid_to = $vt".
Definition by_run_sql : string := "SELECT namespace, event_type, payload, created_at, valid_to FROM event WHERE payload.run_id = $rid AND (valid_to IS NONE OR valid_to > time::now()) ORDER BY created_at ASC".
Definition by_session_sql : string := "SELECT namespace, event_type, payload, created_at, valid_to FROM event WHERE payload.session_id = $sid AND (valid_to IS NONE OR valid_to > time::now()) ORDER BY created_at DESC LIMIT $lim".
Definition recent_sql : string := "SELECT namespace, event_type, payload, created_at, valid_to FROM event WHERE valid_to IS NONE OR valid_to > time::now() ORDER BY created_at DESC LIMIT $lim".
Definition delete_expired_sql : string :=
  "DELETE event WHERE valid_to IS NOT NONE AND valid_to < time::now() RETURN BEFORE".

Definition mirror_append (e : journal_entry) (s : surreal_journal) : result journal_error Z * surreal_journal :=
  let seq := sj_counter s in
  let '(db, r) := db_query mirror_event_sql
    [("ns", JString (je_namespace e)); ("et", JString (je_event_type e)); ("p", mirror_payload seq e);
     ("vt", opt_json datetime_to_json (je_valid_to e))] (sj_db s) in
  (match r with Ok _ => Ok seq | Err m => Err (JStorage m) end,
   SurrealJournal (wrap_u64 (seq + 1)) db).

Definition mirror_read (sql : string) (binds : list (string * json)) (s : surreal_journal)
  : result journal_error (list journal_row) :=
  rows_into_journal <$> wrap_db_err (snd (db_query sql binds (sj_db s))).

Definition mirror_delete_expired (s : surreal_journal) : result journal_error Z * surreal_journal :=
  let '(db, r) := db_query delete_expired_sql [] (sj_db s) in
  ((fun deleted => Z.of_nat (length deleted)) <$> wrap_db_err r, SurrealJournal (sj_counter s) db).

(** [impl JournalStore for SurrealJournalStore]; filters, aggregates and
    idempotency keys are the trait's defaults. *)
Definition surreal_journal_ops : journal_ops surreal_journal := {|
  jo_append _ := mirror_append;
  jo_query_by_run _ run s := mirror_read by_run_sql [("rid", JString (show_uuid run))] s;
  jo_query_by_session _ sess limit s :=
    mirror_read by_session_sql [("sid", JString sess); ("lim", JNumber (PosInt (Z.of_nat limit)))] s;
  jo_recent _ limit s := mirror_read recent_sql [("lim", JNumber (PosInt (Z.of_nat limit)))] s;
  jo_reconcile_zombies _ s := (Ok 0, s);
  jo_query := default_query;
  jo_aggregate := default_aggregate;
  jo_by_key := default_by_key;
  jo_delete_expired _ := mirror_delete_expired |}.
End Mirror.
Arguments surreal_journal W : clear implicits.

(** * Theory *)

(** ** What reaches the database *)

(** A statement as issued. *)
Definition statement : Type := string * list (string * json).

(** The same database, keeping a log of its statements. *)
Definition logged {W} (db_query : string -> list (string * json) -> W -> W * result string (list json))
    (sql : string) (binds : list (string * json)) (w : W * list statement)
  : (W * list statement) * result string (list json) :=
  let '(w', r) := db_query sql binds w.1 in ((w', w.2 ++ [(sql, binds)]), r).

(** The texts the backend may issue: constants, but for the two numbers of a
    vector search. *)
Definition memory_sql (show_i64 : Z -> string) (sql : string) : Prop :=
  sql ∈ [prune_sql; delete_sql; create_ttl_sql; create_sql; select_sql; delete_before_sql; list_sql; clear_sql;
         event_sql; node_sql; node_embedding_sql; text_sql true; text_sql false] \/
  exists k ef, sql = vector_sql show_i64 k ef.

(** A statement of the backend, bound to one namespace. *)
Record for_namespace (show_i64 : Z -> string) (ns : string) (s : statement) : Prop := {
  fn_text : memory_sql show_i64 s.1;
  fn_bound : forall v, ("ns", v) ∈ s.2 <-> v = JString ns;
  fn_scoped : str_contains s.1 "namespace = $ns" || str_contains s.1 "namespace  = $ns" = true;
}.

Lemma str_contains_more a b p : str_contains a p = true -> str_contains (String.append a b) p = true.
Proof.
  unfold str_contains at 1. rewrite bool_decide_eq_true. intros [[x y] ->%split_once_Some].
  by rewrite <- !append_assoc, str_contains_append.
Qed.

(** Every text filters by, or writes, the namespace it is bound to. *)
Lemma memory_sql_scoped show_i64 sql :
  memory_sql show_i64 sql -> str_contains sql "namespace = $ns" || str_contains sql "namespace  = $ns" = true.
Proof.
  intros [Hin|(k & ef & ->)].
  - revert sql Hin. apply Forall_forall. repeat constructor.
  - unfold vector_sql. cbn [String.concat]. by rewrite str_contains_more.
Qed.

Section Emits.
Context {W : Type} (db_query : string -> list (string * json) -> W -> W * result string (list json)).
Context (to_lowercase : string -> string) (show_i64 : Z -> string) (json_to_string : json -> string).
Context (hash_order : gmap string (f64 * json) -> list (string * (f64 * json))).
Context (cfg : surreal_config).

Abbreviation act := (action (W := W * list statement)).

(** Whatever the database answers, an action issues only statements for [ns]. *)
Definition emits {A} (ns : string) (m : act A) : Prop := forall w log,
  exists stmts, snd (fst (m (w, log))) = log ++ stmts /\ Forall (for_namespace show_i64 ns) stmts.

Lemma emits_ret {A} ns (r : result memory_error A) : emits ns (ret r).
Proof. intros w log. exists []. by rewrite app_nil_r. Qed.

Lemma emits_then {A B} ns (m : act A) (f : A -> act B) :
  emits ns m -> (forall a, emits ns (f a)) -> emits ns (and_then m f).
Proof.
  intros Hm Hf w log. unfold and_then. destruct (Hm w log) as (s1 & H1 & Hs1).
  destruct (m (w, log)) as [[w1 log1] [a|e]]; cbn in H1; subst log1; [|by exists s1].
  destruct (Hf a w1 (log ++ s1)) as (s2 & -> & Hs2). exists (s1 ++ s2). rewrite app_assoc.
  split; [done|]. by apply Forall_app.
Qed.

Lemma emits_sql ns sql binds :
  memory_sql show_i64 sql -> (forall v, ("ns", v) ∈ binds <-> v = JString ns) ->
  emits ns (run_sql (logged db_query) sql binds).
Proof.
  intros Ht Hb w log. unfold run_sql, logged. cbn. destruct (db_query sql binds w) as [w' r].
  exists [(sql, binds)]. split; [done|]. apply Forall_singleton. split; [done..|].
  by eapply memory_sql_scoped.
Qed.

(** Bindings that name [ns] once, at their head. *)
Lemma binds_head ns binds v :
  "ns" ∉ map fst binds -> ("ns", v) ∈ ("ns", JString ns) :: binds <-> v = JString ns.
Proof.
  intros Hn. rewrite elem_of_cons. split.
  - intros [[= ->]|Hin]; [done|]. destruct Hn. by apply (list_elem_of_fmap_2 fst _ ("ns", v)).
  - intros ->. by left.
Qed.

Ltac emit :=
  repeat first
    [ apply emits_ret
    | apply emits_then; [|intros ?]
    | apply emits_sql;
        [first [right; by eexists _, _ | left; by apply (bool_decide_unpack _); vm_compute]
        |intros ?; apply binds_head; by apply (bool_decide_unpack _); vm_compute] ].

Lemma text_search_emits p ns :
  resolve_namespace (sp_namespace p) = ns -> emits ns (text_search (logged db_query) cfg p).
Proof.
  intros <-. unfold text_search. apply emits_then; [apply emits_ret|]. intros q.
  apply emits_then; [|intros rows; apply emits_ret]. destruct (sp_node_type p); emit.
Qed.

Lemma vector_search_emits p qv ns :
  resolve_namespace (sp_namespace p) = ns -> emits ns (vector_search (logged db_query) show_i64 cfg p qv).
Proof. intros <-. unfold vector_search. emit. Qed.

Lemma search_emits p ns :
  resolve_namespace (sp_namespace p) = ns ->
  emits ns (search (logged db_query) to_lowercase show_i64 json_to_string hash_order cfg p).
Proof.
  intros Hns. unfold search, hybrid_search, rrf_fuse. apply emits_then; [apply emits_ret|]. intros qv.
  repeat case_match; eauto using text_search_emits, vector_search_emits, emits_ret.
  apply emits_then; [by apply text_search_emits|]. intros t.
  apply emits_then; [by apply vector_search_emits|]. intros v. apply emits_ret.
Qed.

Lemma add_each_emits ns nodes : emits ns (add_each (logged db_query) show_i64 cfg ns nodes).
Proof.
  induction nodes as [|node nodes IH]; cbn [add_each]; [apply emits_ret|].
  apply emits_then; [|by intros _]. unfold add_node. apply emits_then; [apply emits_ret|]. intros content.
  cbv zeta. repeat case_match; emit.
Qed.

Lemma surreal_call_emits r :
  emits (resolve_namespace (request_namespace r))
    (surreal_call (logged db_query) to_lowercase show_i64 json_to_string hash_order cfg r).
Proof.
  destruct r as [p|nodes ns|key v sid ns ttl|key sid ns|key sid ns|sid ns|sid ns];
    cbn [surreal_call request_namespace].
  - by apply search_emits.
  - unfold add_nodes. destruct nodes as [|node nodes]; [apply emits_ret|].
    apply emits_then; [apply add_each_emits|]. intros _. unfold record_event. emit.
  - unfold state_set, key_binds, session_binds. destruct (String.eqb key EmptyString); [apply emits_ret|].
    cbv zeta. destruct ttl as [s|]; [destruct (0 <? s)|]; emit.
  - unfold state_get, prune_expired, key_binds, session_binds. emit.
  - unfold state_delete, key_binds, session_binds. emit.
  - unfold state_list, prune_expired, session_binds. emit.
  - unfold state_clear, session_binds. emit.
Qed.
End Emits.

(** Memory is isolated by namespace.  A memory tool whose [namespace]
    parameter is bound to [ns] (as the runtime binds it for every tenant) asks
    the database nothing, or only statements from a fixed list of texts, which no
    payload can change beyond the two numbers of a vector search, each filtering
    by or writing [$ns], with [$ns] bound to [ns] and to nothing else; whatever the payload says and
    whatever the database answers. *)
Theorem memory_isolated {W : Type}
    (db_query : string -> list (string * json) -> W -> W * result string (list json))
    to_lowercase show_i64 json_to_string hash_order cfg
    (fresh : W * list statement -> uuid) (now : W * list statement -> datetime)
    t order bindings ns w log env :
  let backend := surreal_backend (logged db_query) to_lowercase show_i64 json_to_string hash_order cfg in
  t ∈ memory_tools fresh now backend ->
  listing order bindings -> bindings !! "namespace" = Some (JString ns) ->
  exists stmts, snd (fst (invoke (virtualized_tool t order) (w, log) env)) = log ++ stmts /\
    Forall (for_namespace show_i64 ns) stmts.
Proof.
  intros backend Ht Hl Hb.
  destruct (bound_tool_request fresh now backend t order bindings ns (w, log) env Ht Hl Hb)
    as [[e ->]|(r & env' & Hns & ->)].
  - exists []. by rewrite app_nil_r.
  - pose proof (surreal_call_emits db_query to_lowercase show_i64 json_to_string hash_order cfg r w log) as Hr.
    rewrite Hns in Hr. cbn [mb_call backend surreal_backend] in *.
    by destruct (surreal_call _ _ _ _ _ _ r (w, log)) as [w' res].
Qed.

(** ** Sessions as a map *)

(** The rows of [session_state] under their unique index. *)
Abbreviation session_key := (string * string * string)%type.
Abbreviation session := (gmap session_key (json * option Z)).
Definition in_session (ns sid : string) (k : session_key) : Prop := k.1 = (ns, sid).
Definition expired (t : Z) (v : json * option Z) : Prop := match v.2 with Some at_ => at_ < t | None => False end.
#[local] Instance in_session_dec ns sid k : Decision (in_session ns sid k) := decide (k.1 = (ns, sid)).
#[local] Instance expired_dec t v : Decision (expired t v).
Proof. unfold expired. destruct v.2; apply _. Defined.

Definition prune (t : Z) (ns sid : string) (m : session) : session :=
  filter (fun kv => ~ (in_session ns sid kv.1 /\ expired t kv.2)) m.
Definition others (ns sid : string) (m : session) : session := filter (fun kv => ~ in_session ns sid kv.1) m.
Definition mine (ns sid : string) (m : session) : session := filter (fun kv => in_session ns sid kv.1) m.
Definition nanos (seconds : Z) : Z := seconds * 1000000000.

(** What the statements do, as SurrealQL documents it: one that fails changes
    nothing, one that succeeds does what it says at the time it starts.
    [CREATE] may fail for any reason, and does when the key is taken. *)
Class SessionDb {W} (db_query : string -> list (string * json) -> W -> W * result string (list json))
    (show_i64 : Z -> string) (view : W -> session) (clock : W -> Z) := {
  db_failed sql binds w w' e : db_query sql binds w = (w', Err e) -> view w' = view w;
  db_clock sql binds w : clock w <= clock (fst (db_query sql binds w));
  db_prune ns sid w w' rows : db_query prune_sql (session_binds ns sid) w = (w', Ok rows) ->
    view w' = prune (clock w) ns sid (view w);
  db_delete ns sid k w w' rows : db_query delete_sql (key_binds ns sid k) w = (w', Ok rows) ->
    view w' = delete (ns, sid, k) (view w);
  db_create ns sid k v w w' rows : db_query create_sql (key_binds ns sid k ++ [("v", v)]) w = (w', Ok rows) ->
    view w !! (ns, sid, k) = None -> view w' = <[(ns, sid, k) := (v, None)]> (view w);
  db_create_ttl ns sid k v seconds w w' rows :
    db_query create_ttl_sql (key_binds ns sid k ++ [("v", v); ("ttl", JString (show_i64 seconds))]) w = (w', Ok rows) ->
    view w !! (ns, sid, k) = None ->
    view w' = <[(ns, sid, k) := (v, Some (clock w + nanos seconds))]> (view w);
  db_select ns sid k w w' rows : db_query select_sql (key_binds ns sid k) w = (w', Ok rows) ->
    view w' = view w /\
    rows = match view w !! (ns, sid, k) with Some (v, _) => [object [("sval", v)]] | None => [] end;
  db_delete_before ns sid k w w' rows : db_query delete_before_sql (key_binds ns sid k) w = (w', Ok rows) ->
    view w' = delete (ns, sid, k) (view w) /\
    length rows = match view w !! (ns, sid, k) with Some _ => 1 | None => 0 end%nat;
  db_list ns sid w w' rows : db_query list_sql (session_binds ns sid) w = (w', Ok rows) ->
    view w' = view w /\
    exists keys, rows = map (fun k => object [("skey", JString k)]) keys /\ Sorted String.le keys /\
      keys ≡ₚ map (fun kv => snd (fst kv)) (map_to_list (mine ns sid (view w)));
  db_clear ns sid w w' rows : db_query clear_sql (session_binds ns sid) w = (w', Ok rows) ->
    view w' = others ns sid (view w) /\ length rows = size (mine ns sid (view w));
}.

(** The contract of the state tools over that map: [t] is the time of the
    operation, [t'] a later one. *)
Inductive session_step (t : Z) (m : session) : memory_request -> result memory_error json -> session -> Prop :=
  | SetOk key v sid ns ttl t' answer :
      key <> EmptyString -> t <= t' ->
      session_step t m (RStateSet key v sid ns ttl) (Ok answer)
        (<[(resolve_namespace ns, sid, key) :=
             (v, match ttl with Some s => if 0 <? s then Some (t' + nanos s) else None | None => None end)]> m)
  | SetErr key v sid ns ttl e m' :
      m' = m \/ key <> EmptyString /\ m' = delete (resolve_namespace ns, sid, key) m ->
      session_step t m (RStateSet key v sid ns ttl) (Err e) m'
  | GetOk key sid ns answer :
      let m' := prune t (resolve_namespace ns) sid m in
      get "value" answer = Some (from_option fst JNull (m' !! (resolve_namespace ns, sid, key))) ->
      session_step t m (RStateGet key sid ns) (Ok answer) m'
  | DeleteOk key sid ns answer :
      get "removed_count" answer =
        Some (JNumber (PosInt (if m !! (resolve_namespace ns, sid, key) is Some _ then 1 else 0))) ->
      session_step t m (RStateDelete key sid ns) (Ok answer) (delete (resolve_namespace ns, sid, key) m)
  | ListOk sid ns answer keys :
      let m' := prune t (resolve_namespace ns) sid m in
      get "keys" answer = Some (JArray (map JString keys)) -> Sorted String.le keys ->
      keys ≡ₚ map (fun kv => snd (fst kv)) (map_to_list (mine (resolve_namespace ns) sid m')) ->
      session_step t m (RStateList sid ns) (Ok answer) m'
  | ClearOk sid ns answer :
      get "cleared" answer = Some (JNumber (PosInt (Z.of_nat (size (mine (resolve_namespace ns) sid m))))) ->
      session_step t m (RStateClear sid ns) (Ok answer) (others (resolve_namespace ns) sid m)
  | ReadErr r e m' sid ns :
      r = RStateList sid ns \/ (exists key, r = RStateGet key sid ns) ->
      m' = m \/ m' = prune t (resolve_namespace ns) sid m ->
      session_step t m r (Err e) m'
  | WriteErr r e :
      (exists sid ns, r = RStateClear sid ns) \/ (exists key sid ns, r = RStateDelete key sid ns) ->
      session_step t m r (Err e) m.

(** The session a request is about. *)
Definition request_session (r : memory_request) : option string :=
  match r with
  | RSearch _ | RAddNodes _ _ => None
  | RStateSet _ _ sid _ _ | RStateGet _ sid _ | RStateDelete _ sid _ | RStateList sid _ | RStateClear sid _ => Some sid
  end.

Lemma prune_other t ns sid m (k : session_key) : k.1 <> (ns, sid) -> prune t ns sid m !! k = m !! k.
Proof.
  intros Hk. apply option_eq. intros v. unfold prune, in_session. rewrite map_lookup_filter_Some.
  cbn. naive_solver.
Qed.

Lemma others_other ns sid m (k : session_key) : k.1 <> (ns, sid) -> others ns sid m !! k = m !! k.
Proof.
  intros Hk. apply option_eq. intros v. unfold others, in_session. rewrite map_lookup_filter_Some. naive_solver.
Qed.

(** A step stays within its namespace and session. *)
Lemma session_step_others t m r res m' sid (k : session_key) :
  session_step t m r res m' -> request_session r = Some sid ->
  k.1 <> (resolve_namespace (request_namespace r), sid) -> m' !! k = m !! k.
Proof.
  assert (forall ns key, k.1 <> (ns, sid) -> (ns, sid, key) <> k) as Hne by (intros ns key Hk <-; by destruct Hk).
  destruct 1; cbn; try (intros [= ->] Hk).
  - apply lookup_insert_ne. auto.
  - destruct H as [->|[_ ->]]; [done|]. apply lookup_delete_ne. auto.
  - by apply prune_other.
  - apply lookup_delete_ne. auto.
  - by apply prune_other.
  - by apply others_other.
  - destruct H as [->|[key ->]]; cbn; intros [= ->] Hk;
      (destruct H0 as [->| ->]; [done|by apply prune_other]).
  - done.
Qed.

Section Sessions.
Context {W : Type} (db_query : string -> list (string * json) -> W -> W * result string (list json)).
Context (to_lowercase : string -> string) (show_i64 : Z -> string) (json_to_string : json -> string).
Context (hash_order : gmap string (f64 * json) -> list (string * (f64 * json))).
Context (cfg : surreal_config) (view : W -> session) (clock : W -> Z).
Context `{!SessionDb db_query show_i64 view clock}.

Lemma then_Ok {A B} (m : action A) (f : A -> action B) (w w' : W) b :
  and_then m f w = (w', Ok b) -> exists w1 a, m w = (w1, Ok a) /\ f a w1 = (w', Ok b).
Proof. unfold and_then. destruct (m w) as [w1 [a|e]]; [|done]. by exists w1, a. Qed.

Lemma run_sql_inv sql binds w w' r :
  run_sql db_query sql binds w = (w', r) ->
  exists r0, db_query sql binds w = (w', r0) /\ r = map_err OperationFailed r0.
Proof. unfold run_sql. destruct (db_query sql binds w) as [w1 r0]. intros [= <- <-]. by exists r0. Qed.

(** One statement: what it did, or nothing. *)
Lemma run_sql_cases sql binds w w' r :
  run_sql db_query sql binds w = (w', r) ->
  (exists rows, r = Ok rows /\ db_query sql binds w = (w', Ok rows)) \/ (exists e, r = Err e /\ view w' = view w).
Proof.
  intros (r0 & Hq & ->)%run_sql_inv. destruct r0 as [rows|e]; [left; by exists rows|right].
  eexists. split; [reflexivity|]. by eapply db_failed.
Qed.

Lemma run_sql_clock sql binds w : clock w <= clock (fst (run_sql db_query sql binds w)).
Proof. pose proof (db_clock sql binds w) as H. unfold run_sql. by destruct (db_query sql binds w). Qed.

Lemma omap_skey keys : omap (get "skey") (map (fun k => object [("skey", JString k)]) keys) = map JString keys.
Proof. induction keys as [|k keys IH]; cbn; [done|]. by rewrite IH. Qed.

Lemma state_set_step key v sid ns ttl w w' res :
  state_set db_query show_i64 key v sid ns ttl w = (w', res) ->
  session_step (clock w) (view w) (RStateSet key v sid ns ttl) res (view w').
Proof.
  unfold state_set. destruct (String.eqb_spec key EmptyString) as [->|Hne].
  { intros [= <- <-]. constructor. by left. }
  unfold and_then. pose proof (run_sql_clock delete_sql (key_binds (resolve_namespace ns) sid key) w) as Hc.
  destruct (run_sql db_query delete_sql _ w) as [w1 r1] eqn:H1.
  destruct (run_sql_cases _ _ _ _ _ H1) as [(rows & -> & Hq)|(e & -> & Hv)]; cycle 1.
  { intros [= <- <-]. constructor. by left. }
  apply db_delete in Hq. cbn [fst] in Hc.
  assert (view w1 !! (resolve_namespace ns, sid, key) = None) as Hnone by by rewrite Hq, lookup_delete_eq.
  destruct (run_sql db_query _ _ w1) as [w2 r2] eqn:H2.
  destruct (run_sql_cases _ _ _ _ _ H2) as [(rows2 & -> & Hq2)|(e & -> & Hv)]; cycle 1.
  { intros [= <- <-]. constructor. right. split; [done|]. by rewrite Hv. }
  intros [= <- <-].
  assert (view w2 = <[(resolve_namespace ns, sid, key) :=
    (v, match ttl with Some s => if 0 <? s then Some (clock w1 + nanos s) else None | None => None end)]>
    (view w)) as ->.
  { rewrite <- (insert_delete_eq (view w)), <- Hq.
    destruct ttl as [s|]; [destruct (0 <? s)|];
      [by apply db_create_ttl in Hq2|by apply db_create in Hq2..]. }
  by constructor.
Qed.

Lemma state_get_step key sid ns w w' res :
  state_get db_query key sid ns w = (w', res) ->
  session_step (clock w) (view w) (RStateGet key sid ns) res (view w').
Proof.
  unfold state_get, and_then, prune_expired.
  destruct (run_sql db_query prune_sql _ w) as [w1 r1] eqn:H1.
  destruct (run_sql_cases _ _ _ _ _ H1) as [(rows & -> & Hq)|(e & -> & Hv)]; cycle 1.
  { intros [= <- <-]. apply (ReadErr _ _ _ _ _ sid ns); [right; by eexists|by left]. }
  apply db_prune in Hq. destruct (run_sql db_query select_sql _ w1) as [w2 r2] eqn:H2.
  destruct (run_sql_cases _ _ _ _ _ H2) as [(rows2 & -> & Hq2)|(e & -> & Hv)]; cycle 1.
  { intros [= <- <-]. apply (ReadErr _ _ _ _ _ sid ns); [right; by eexists|right; by rewrite Hv]. }
  apply db_select in Hq2 as [Hv2 ->]. intros [= <- <-]. rewrite Hv2, Hq. constructor.
  by destruct (prune _ _ _ _ !! _) as [[x e]|].
Qed.

Lemma state_list_step sid ns w w' res :
  state_list db_query sid ns w = (w', res) ->
  session_step (clock w) (view w) (RStateList sid ns) res (view w').
Proof.
  unfold state_list, and_then, prune_expired.
  destruct (run_sql db_query prune_sql _ w) as [w1 r1] eqn:H1.
  destruct (run_sql_cases _ _ _ _ _ H1) as [(rows & -> & Hq)|(e & -> & Hv)]; cycle 1.
  { intros [= <- <-]. apply (ReadErr _ _ _ _ _ sid ns); [by left|by left]. }
  apply db_prune in Hq. destruct (run_sql db_query list_sql _ w1) as [w2 r2] eqn:H2.
  destruct (run_sql_cases _ _ _ _ _ H2) as [(rows2 & -> & Hq2)|(e & -> & Hv)]; cycle 1.
  { intros [= <- <-]. apply (ReadErr _ _ _ _ _ sid ns); [by left|right; by rewrite Hv]. }
  apply db_list in Hq2 as (Hv2 & keys & -> & Hs & Hp). intros [= <- <-]. rewrite Hv2, Hq.
  apply (ListOk _ _ _ _ _ keys); [|done|by rewrite <- Hq]. rewrite omap_skey. reflexivity.
Qed.

Lemma state_delete_step key sid ns w w' res :
  state_delete db_query key sid ns w = (w', res) ->
  session_step (clock w) (view w) (RStateDelete key sid ns) res (view w').
Proof.
  unfold state_delete, and_then. destruct (run_sql db_query _ _ w) as [w1 r1] eqn:H1.
  destruct (run_sql_cases _ _ _ _ _ H1) as [(rows & -> & Hq)|(e & -> & Hv)]; cycle 1.
  { intros [= <- <-]. rewrite Hv. apply WriteErr. right. by eexists _, _, _. }
  apply db_delete_before in Hq as [Hq Hl]. intros [= <- <-]. rewrite Hq. constructor.
  cbn. unfold of_len. rewrite Hl. by destruct (view w !! _).
Qed.

Lemma state_clear_step sid ns w w' res :
  state_clear db_query sid ns w = (w', res) ->
  session_step (clock w) (view w) (RStateClear sid ns) res (view w').
Proof.
  unfold state_clear, and_then. destruct (run_sql db_query _ _ w) as [w1 r1] eqn:H1.
  destruct (run_sql_cases _ _ _ _ _ H1) as [(rows & -> & Hq)|(e & -> & Hv)]; cycle 1.
  { intros [= <- <-]. rewrite Hv. apply WriteErr. left. by eexists _, _. }
  apply db_clear in Hq as [Hq Hl]. intros [= <- <-]. rewrite Hq. constructor.
  cbn. unfold of_len. by rewrite Hl.
Qed.

(** C29: the state tools of the SurrealDB backend implement a map from
    namespace, session and key to values that expire: over a database whose
    statements do what they say, each request is a step of that map with the
    answer it prescribes.  [state:get] and [state:list] show exactly what has not
    expired when they start; a failed request changes nothing but expired
    entries, except that a failed [state:set] may have removed the old value,
    since the row is deleted and created in two statements; and no request
    touches another session or another namespace. *)
Theorem state_tools_refine_map r w :
  match r with RSearch _ | RAddNodes _ _ => False | _ => True end ->
  let '(w', res) := surreal_call db_query to_lowercase show_i64 json_to_string hash_order cfg r w in
  session_step (clock w) (view w) r res (view w') /\
  forall sid k, request_session r = Some sid -> k.1 <> (resolve_namespace (request_namespace r), sid) ->
    view w' !! k = view w !! k.
Proof.
  intros Hr. destruct (surreal_call _ _ _ _ _ _ r w) as [w' res] eqn:Hc.
  assert (session_step (clock w) (view w) r res (view w')) as Hs.
  { destruct r; cbn [surreal_call] in Hc; try done;
      eauto using state_set_step, state_get_step, state_delete_step, state_list_step, state_clear_step. }
  split; [exact Hs|]. intros sid k. by apply session_step_others with (1 := Hs).
Qed.
End Sessions.

(** ** Rank fusion *)

Section Fusion.
Context (json_to_string : json -> string) (rrf_k : Z).
Context (hash_order : gmap string (f64 * json) -> list (string * (f64 * json))).

Abbreviation id_of := (row_id json_to_string).
Abbreviation pour := (fold_left (fuse_row json_to_string rrf_k)).

(** The contributions of a ranked list to one id, in order, and the row kept
    for it. *)
Definition contributions (id : string) (l : list (nat * json)) : list f64 :=
  omap (fun rr => if String.eqb (id_of rr.2) id then Some (contribution rrf_k rr.1) else None) l.
Definition kept_row (id : string) (l : list (nat * json)) : option json :=
  head (List.filter (fun row => String.eqb (id_of row) id) (map snd l)).

(** A score is the sum of the contributions, from the left. *)
Definition sum_scores (l : list f64) : option f64 :=
  match l with [] => None | c :: cs => Some (fold_left f64_add cs c) end.

Definition ranking (text_rows vec_rows : list json) : list (nat * json) :=
  imap pair text_rows ++ imap pair vec_rows.

Lemma pour_lookup id l m :
  pour l m !! id =
    match contributions id l, m !! id with
    | [], o => o
    | cs, Some (s, r) => Some (fold_left f64_add cs s, r)
    | c :: cs, None => (fun r => (fold_left f64_add cs c, r)) <$> kept_row id l
    end.
Proof.
  revert m. induction l as [|[rank row] l IH]; intros m; [done|]. cbn [fold_left]. rewrite IH.
  unfold contributions, kept_row. cbn [omap list_omap map List.filter fst snd]. unfold fuse_row at 1 2.
  destruct (String.eqb_spec (id_of row) id) as [<-|Hne].
  - rewrite lookup_insert_eq. destruct (m !! id_of row) as [[s r]|];
      by destruct (omap _ l) as [|c cs].
  - rewrite lookup_insert_ne by done. reflexivity.
Qed.

Lemma fused_lookup id text_rows vec_rows :
  fuse json_to_string rrf_k vec_rows (fuse json_to_string rrf_k text_rows ∅) !! id =
  s ← sum_scores (contributions id (ranking text_rows vec_rows));
  r ← kept_row id (ranking text_rows vec_rows); Some (s, r).
Proof.
  unfold fuse, ranking. rewrite <- fold_left_app, pour_lookup, lookup_empty. unfold sum_scores.
  destruct (contributions id _) as [|c cs]; [done|]. cbn. by destruct (kept_row id _).
Qed.

Lemma imap_snd {A} (l : list A) k : map snd (imap (fun i x => (i + k, x)%nat) l) = l.
Proof. revert k. induction l as [|x l IH]; intros k; cbn; [done|]. f_equal. rewrite <- (IH (S k)) at 2. f_equal.
  apply imap_ext. intros i y _. cbn. f_equal. lia. Qed.

Lemma ranking_rows text_rows vec_rows : map snd (ranking text_rows vec_rows) = text_rows ++ vec_rows.
Proof.
  assert (forall l : list json, map snd (imap pair l) = l) as H.
  { intros l. rewrite <- (imap_snd l 0) at 2. f_equal. apply imap_ext. intros i x _. f_equal. lia. }
  unfold ranking. by rewrite map_app, !H.
Qed.

Lemma kept_row_head id text_rows vec_rows :
  kept_row id (ranking text_rows vec_rows) =
  head (List.filter (fun row => String.eqb (id_of row) id) (text_rows ++ vec_rows)).
Proof. unfold kept_row. by rewrite ranking_rows. Qed.

Lemma contributions_kept id l : is_Some (sum_scores (contributions id l)) <-> is_Some (kept_row id l).
Proof.
  unfold contributions, kept_row. induction l as [|[rank row] l IH]; cbn; [done|].
  destruct (String.eqb (id_of row) id); [|done]. cbn. by split; eexists.
Qed.

Lemma fused_ids id text_rows vec_rows :
  is_Some (fuse json_to_string rrf_k vec_rows (fuse json_to_string rrf_k text_rows ∅) !! id) <->
  exists row, row ∈ text_rows ++ vec_rows /\ id_of row = id.
Proof.
  rewrite fused_lookup. pose proof (contributions_kept id (ranking text_rows vec_rows)) as Hk.
  assert (is_Some (kept_row id (ranking text_rows vec_rows)) <->
          exists row, row ∈ text_rows ++ vec_rows /\ id_of row = id) as <-.
  { rewrite kept_row_head. generalize (text_rows ++ vec_rows). intros l. induction l as [|row l IH]; cbn.
    - split; [by intros []|]. intros (r & Hr & _). by apply elem_of_nil in Hr.
    - setoid_rewrite elem_of_cons. destruct (String.eqb_spec (id_of row) id) as [He|He].
      + split; [|by eexists]. intros _. exists row. auto.
      + rewrite IH. naive_solver. }
  destruct (sum_scores _) as [s|], (kept_row _ _) as [r|]; cbn; naive_solver.
Qed.

#[local] Instance ranks_before_decision : RelDecision ranks_before := fun a b => decide (f64_lt a.1 b.1 = false).

Lemma f64_lt_asym a b : f64_lt a b = true -> f64_lt b a = false.
Proof.
  unfold f64_lt, SpecFloat.SFltb. destruct a as [[]|[]| |[] m e], b as [[]|[]| |[] m' e']; cbn; try done.
  all: rewrite ?(Z.compare_antisym e e'); destruct (e ?= e') eqn:E; cbn; try done.
  all: change (PosDef.Pos.compare_cont Eq m m') with (m ?= m')%positive;
    change (PosDef.Pos.compare_cont Eq m' m) with (m' ?= m)%positive;
    rewrite (Pos.compare_antisym m m'); by destruct (m ?= m')%positive.
Qed.

#[local] Instance ranks_before_total : Total ranks_before.
Proof.
  intros a b. unfold ranks_before. destruct (f64_lt a.1 b.1) eqn:H; [right; by apply f64_lt_asym|by left].
Qed.

(** Hybrid search is reciprocal rank fusion.  Every id that either search
    found is ranked once, with the row of its first occurrence (text results
    first) and as score the sum of [1 / (k + rank)] over its occurrences; the
    results are the first [limit] of all of them in an order in which no
    candidate is followed by one of a higher score. *)
Theorem fused_results_spec limit text_rows vec_rows :
  (forall m, hash_order m ≡ₚ map_to_list m) ->
  exists ids ranked,
    NoDup ids /\
    (forall id, id ∈ ids <-> exists row, row ∈ text_rows ++ vec_rows /\ id_of row = id) /\
    Forall2 (fun id sr =>
      sum_scores (contributions id (ranking text_rows vec_rows)) = Some sr.1 /\
      head (List.filter (fun row => String.eqb (id_of row) id) (text_rows ++ vec_rows)) = Some sr.2) ids ranked /\
    Sorted ranks_before ranked /\
    fused_results json_to_string hash_order rrf_k limit text_rows vec_rows =
      map set_score (take (Z.to_nat limit) ranked).
Proof.
  intros Ho. set (fused := fuse json_to_string rrf_k vec_rows (fuse json_to_string rrf_k text_rows ∅)).
  destruct (Permutation_map_inv snd (hash_order fused) (l1 := merge_sort ranks_before (map snd (hash_order fused))))
    as (l & Hl & Hp); [apply merge_sort_Permutation|].
  assert (forall id s r, (id, (s, r)) ∈ l <-> fused !! id = Some (s, r)) as Hin.
  { intros id s r. by rewrite <- Hp, Ho, elem_of_map_to_list. }
  exists (map fst l), (map snd l). split_and!.
  - change (NoDup (l.*1)). rewrite <- Hp, Ho. apply NoDup_fst_map_to_list.
  - intros id. rewrite <- (fused_ids id text_rows vec_rows). fold fused. split.
    + intros ([id' [s r]] & -> & Hx)%list_elem_of_fmap. apply Hin in Hx. by eexists.
    + intros [[s r] Hx]. by apply (list_elem_of_fmap_2 fst _ (id, (s, r))), Hin.
  - apply Forall2_fmap, Forall_Forall2_diag, Forall_forall. intros [id [s r]] Hx. cbn.
    apply Hin in Hx. unfold fused in Hx. rewrite fused_lookup in Hx.
    destruct (sum_scores _) as [s'|]; [|done]. cbn in Hx. rewrite kept_row_head in Hx.
    destruct (head _) as [r'|]; [|done]. by injection Hx as -> ->.
  - rewrite <- Hl. apply Sorted_merge_sort, _.
  - unfold fused_results. fold fused. by rewrite <- Hl.
Qed.
End Fusion.

(** ** The journal mirror *)

Section MirrorTheory.
Context (show_uuid : uuid -> string) (uuid_parse : string -> option uuid).
Context (datetime_to_json : datetime -> json) (datetime_of_json : json -> option datetime).
Hypothesis uuid_codec : forall id, uuid_parse (show_uuid id) = Some id.
Hypothesis datetime_codec : forall t, datetime_of_json (datetime_to_json t) = Some t.
Hypothesis datetime_not_null : forall t, datetime_to_json t <> JNull.

(** The row the mirror's queries select for an appended entry. *)
Definition event_row (seq : Z) (e : journal_entry) (created : datetime) : json :=
  object [("namespace", JString (je_namespace e)); ("event_type", JString (je_event_type e));
          ("payload", mirror_payload show_uuid seq e); ("created_at", datetime_to_json created);
          ("valid_to", opt_json datetime_to_json (je_valid_to e))].

(** A mirrored entry reads back as it was written, under the counter of the
    process that wrote it and without its idempotency key. *)
Lemma mirror_roundtrip (l : list (Z * journal_entry * datetime)) :
  rows_into_journal uuid_parse datetime_of_json (map (fun x => event_row x.1.1 x.1.2 x.2) l) =
  map (fun x => JournalRow x.1.1 (je_run_id x.1.2) (je_session_id x.1.2) (je_namespace x.1.2)
                  (je_event_type x.1.2) (je_payload x.1.2) x.2 (je_valid_to x.1.2) None) l.
Proof.
  assert (forall seq e created, raw_event_row_of datetime_of_json (event_row seq e created) =
    Some (RawEventRow (je_namespace e) (je_event_type e) (mirror_payload show_uuid seq e) created
            (je_valid_to e) None)) as Hraw.
  { intros seq e created. set (row := event_row seq e created). unfold raw_event_row_of.
    change (get "namespace" row) with (Some (JString (je_namespace e))).
    change (get "event_type" row) with (Some (JString (je_event_type e))).
    change (get "payload" row) with (Some (mirror_payload show_uuid seq e)).
    change (get "created_at" row) with (Some (datetime_to_json created)).
    change (optional "idempotency_key" as_str row) with (Some (@None string)).
    assert (optional "valid_to" datetime_of_json row = Some (je_valid_to e)) as ->.
    { unfold optional. change (get "valid_to" row) with (Some (opt_json datetime_to_json (je_valid_to e))).
      destruct (je_valid_to e) as [t|]; [|done]. pose proof (datetime_not_null t) as Hn.
      pose proof (datetime_codec t) as Ht. cbn [opt_json]. by destruct (datetime_to_json t); try rewrite Ht. }
    cbn [mbind option_bind as_str]. by rewrite datetime_codec. }
  unfold rows_into_journal. induction l as [|[[seq e] created] l IH]; [done|].
  cbn [map omap list_omap fst snd]. rewrite Hraw. cbn [fmap option_fmap option_map]. rewrite <- IH. f_equal. unfold into_journal_row.
  cbn [rer_payload rer_namespace rer_event_type rer_created_at rer_valid_to rer_idempotency_key].
  set (payload := mirror_payload show_uuid seq e).
  change (get "seq" payload) with (Some (JNumber (PosInt seq))).
  change (get "session_id" payload) with (Some (JString (je_session_id e))).
  change (get "data" payload) with (Some (je_payload e)).
  change (get "run_id" payload) with (Some (opt_json (fun id => JString (show_uuid id)) (je_run_id e))).
  f_equal. destruct (je_run_id e) as [id|]; [apply uuid_codec|done].
Qed.
End MirrorTheory.

(** * A database in memory *)

Module Demo.

(** The session table with a clock that ticks at every statement. *)
Definition db : Type := session * Z.
Definition bound (k : string) (binds : list (string * json)) : json := default JNull (obj_get k binds).
Definition text (k : string) (binds : list (string * json)) : string := default EmptyString (as_str (bound k binds)).
Fixpoint ticks (n : nat) : string := match n with O => EmptyString | S n => String.append "s" (ticks n) end.
Definition show (z : Z) : string := ticks (Z.to_nat z).
Definition read (s : string) : Z := Z.of_nat (String.length s).

Inductive stmt_kind : Type := Prune | Delete | Create | CreateTtl | Select | DeleteBefore | Listing | Clear.
Definition kinds : list (string * stmt_kind) :=
  [(prune_sql, Prune); (delete_sql, Delete); (create_sql, Create); (create_ttl_sql, CreateTtl);
   (select_sql, Select); (delete_before_sql, DeleteBefore); (list_sql, Listing); (clear_sql, Clear)].
Definition kind_of (sql : string) : option stmt_kind :=
  snd <$> head (List.filter (fun sk => String.eqb sk.1 sql) kinds).

Definition keys_of (ns sid : string) (m : session) : list string :=
  merge_sort String.le (map (fun kv => snd (fst kv)) (map_to_list (mine ns sid m))).

Definition perform (k : stmt_kind) (binds : list (string * json)) (m : session) (t : Z) : result string (list json * session) :=
  let ns := text "ns" binds in let sid := text "sid" binds in
  let key := (ns, sid, text "k" binds) in
  match k with
  | Prune => Ok ([], prune t ns sid m)
  | Delete => Ok ([], delete key m)
  | Create => match m !! key with Some _ => Err "duplicate" | None => Ok ([], <[key := (bound "v" binds, None)]> m) end
  | CreateTtl =>
      match m !! key with
      | Some _ => Err "duplicate"
      | None =>
          if read (text "ttl" binds) <=? 0 then Err "bad duration"
          else Ok ([], <[key := (bound "v" binds, Some (t + nanos (read (text "ttl" binds))))]> m)
      end
  | Select => Ok (match m !! key with Some (v, _) => [object [("sval", v)]] | None => [] end, m)
  | DeleteBefore => Ok (match m !! key with Some _ => [JNull] | None => [] end, delete key m)
  | Listing => Ok (map (fun k => object [("skey", JString k)]) (keys_of ns sid m), m)
  | Clear => Ok (repeat JNull (size (mine ns sid m)), others ns sid m)
  end.

Definition run (sql : string) (binds : list (string * json)) (w : db) : db * result string (list json) :=
  match kind_of sql ≫= (fun k => Some (perform k binds w.1 w.2)) with
  | Some (Ok (rows, m)) => ((m, w.2 + 1), Ok rows)
  | Some (Err e) => ((w.1, w.2 + 1), Err e)
  | None => ((w.1, w.2 + 1), Err "unknown statement")
  end.

Lemma kind_known sql k : kind_of sql = Some k -> forall binds w w' rows, run sql binds w = (w', Ok rows) ->
  perform k binds w.1 w.2 = Ok (rows, w'.1).
Proof.
  intros Hk binds w w' rows. unfold run. rewrite Hk. cbn.
  destruct (perform k binds w.1 w.2) as [[rows' m]|e]; [|done]. by intros [= <- <-].
Qed.

Lemma length_show z : 0 < z -> read (show z) = z.
Proof.
  intros Hz. unfold read, show.
  assert (forall n, String.length (ticks n) = n) as ->; [|lia].
  induction n as [|n IH]; cbn; [done|]. by rewrite IH.
Qed.

#[export] Instance db_laws : SessionDb run show fst snd.
Proof.
  split.
  - intros sql binds [m t] w' e. unfold run. destruct (kind_of sql) as [k|]; cbn.
    + destruct (perform k binds m t) as [[rows m']|e']; by intros [= <- _].
    + by intros [= <- _].
  - intros sql binds [m t]. unfold run. destruct (kind_of sql) as [k|]; cbn; [|lia].
    destruct (perform k binds m t) as [[rows m']|e']; cbn; lia.
  - intros ns sid w w' rows H. apply (kind_known prune_sql Prune eq_refl) in H. by injection H as _ <-.
  - intros ns sid k w w' rows H. apply (kind_known delete_sql Delete eq_refl) in H. by injection H as _ <-.
  - intros ns sid k v w w' rows H Hn. apply (kind_known create_sql Create eq_refl) in H. cbn in H.
    rewrite Hn in H. by injection H as _ <-.
  - intros ns sid k v s w w' rows H Hn. apply (kind_known create_ttl_sql CreateTtl eq_refl) in H. cbn in H.
    rewrite Hn in H. destruct (Z.leb_spec (read (show s)) 0) as [|Hs]; [done|]. injection H as _ <-.
    rewrite length_show; [done|]. destruct (Z.ltb_spec 0 s); [done|]. unfold show in Hs.
    replace (Z.to_nat s) with O in Hs by lia. by cbn in Hs.
  - intros ns sid k w w' rows H. apply (kind_known select_sql Select eq_refl) in H. by injection H as <- <-.
  - intros ns sid k w w' rows H. apply (kind_known delete_before_sql DeleteBefore eq_refl) in H.
    injection H as <- <-. split; [done|]. by destruct (w.1 !! _).
  - intros ns sid w w' rows H. apply (kind_known list_sql Listing eq_refl) in H. injection H as <- <-.
    split; [done|]. eexists. split; [reflexivity|]. split; [apply Sorted_merge_sort, _|apply merge_sort_Permutation].
  - intros ns sid w w' rows H. apply (kind_known clear_sql Clear eq_refl) in H. injection H as <- <-.
    split; [done|]. apply repeat_length.
Qed.

Definition cfg : surreal_config := SurrealConfig Memory None None None None "konf" "default" 2 60 100 10.
Definition json_text (_ : json) : string := "id".
Definition call : memory_request -> action json := surreal_call run id show json_text map_to_list cfg.
Definition empty_db : db := (∅, 0).
Definition set_plan : memory_request := RStateSet "plan" (JString "x") "s1" (Some "konf:a") (Some 5).

Lemma state_tools_refine_map_witness :
  True /\ let '(w', res) := call set_plan empty_db in session_step 0 ∅ set_plan res w'.1.
Proof.
  split; [exact I|].
  pose proof (state_tools_refine_map run id show json_text map_to_list cfg fst snd set_plan empty_db I) as H.
  destruct (surreal_call _ _ _ _ _ _ set_plan empty_db) as [w' res] eqn:Hc. unfold call. rewrite Hc. exact (proj1 H).
Defined.

(** Two hits for one id and one for another: the shared one comes first. *)
Definition hit (i : string) : json := JObject [("id", JString i)].
Definition id_text (v : json) : string := default EmptyString (as_str v).
Definition fused : list json := fused_results id_text map_to_list 60 2 [hit "b"; hit "a"] [hit "a"; hit "c"].
Example fused_order : map (get "id") fused = [Some (JString "a"); Some (JString "b")].
Proof. vm_compute. reflexivity. Qed.

Lemma fused_results_spec_witness :
  exists ranked, Sorted ranks_before ranked /\ fused = map set_score (take 2 ranked).
Proof.
  destruct (fused_results_spec id_text 60 map_to_list 2 [hit "b"; hit "a"] [hit "a"; hit "c"]
    (fun m => reflexivity _)) as (ids & ranked & _ & _ & _ & Hs & Hr).
  exists ranked. split; [exact Hs|exact Hr].
Defined.

(** A caller that asks for another tenant's namespace. *)
Definition logged_backend : memory_backend (db * list statement) :=
  surreal_backend (logged run) id show json_text map_to_list cfg.
Definition env0 : envelope json :=
  for_tool_dispatch 0%N 0 "state:get" (JObject [("key", JString "plan"); ("namespace", JString "konf:b");
    ("session_id", JString "s1")]) ["*"] 7%N "konf:a" "u" "s".
Definition bindings : list (string * json) := [("namespace", JString "konf:a")].

Lemma memory_isolated_witness :
  length (snd (fst (invoke (virtualized_tool (StateGetTool (fun _ => 1%N) (fun _ => 0) logged_backend) bindings)
    (empty_db, []) env0))) = 2%nat /\
  Forall (for_namespace show "konf:a")
    (snd (fst (invoke (virtualized_tool (StateGetTool (fun _ => 1%N) (fun _ => 0) logged_backend) bindings)
      (empty_db, []) env0))).
Proof.
  split; [vm_compute; reflexivity|].
  destruct (memory_isolated run id show json_text map_to_list cfg (fun _ => 1%N) (fun _ => 0)
    (StateGetTool (fun _ => 1%N) (fun _ => 0) logged_backend) bindings {["namespace" := JString "konf:a"]} "konf:a"
    empty_db [] env0) as (stmts & Heq & Hall).
  - unfold memory_tools, logged_backend. rewrite !elem_of_cons. tauto.
  - unfold listing. vm_compute. reflexivity.
  - reflexivity.
  - change stmts with ([] ++ stmts) in Hall. rewrite <- Heq in Hall. exact Hall.
Defined.
End Demo.
