(* ===== verification/Connect.v ===== *)
(** Opening the memory database
    ([konf-tool-memory-surreal/src/connect.rs], [schema.rs]).

    Connecting, signing in and running statements are the [surrealdb] crate's;
    the model says with what, in which order, and what a failure is called. *)

From S2P Require Import Prelude Json Surreal.

Local Open Scope string_scope.
Local Open Scope list_scope.

(** * The schema *)

Definition schema_before : string := String.concat quote ["
-- =================================================================
-- nodes: the knowledge-graph vertex table
-- =================================================================
DEFINE TABLE IF NOT EXISTS node SCHEMAFULL;
DEFINE FIELD IF NOT EXISTS namespace    ON node TYPE string;
DEFINE FIELD IF NOT EXISTS node_type    ON node TYPE string DEFAULT "; "memory"; ";
DEFINE FIELD IF NOT EXISTS content      ON node TYPE string;
DEFINE FIELD IF NOT EXISTS metadata     ON node TYPE object FLEXIBLE DEFAULT {};
DEFINE FIELD IF NOT EXISTS is_retracted ON node TYPE bool DEFAULT false;
DEFINE FIELD IF NOT EXISTS created_at   ON node TYPE datetime DEFAULT time::now();
DEFINE FIELD IF NOT EXISTS updated_at   ON node TYPE datetime VALUE time::now();

DEFINE INDEX IF NOT EXISTS node_namespace      ON node FIELDS namespace;
DEFINE INDEX IF NOT EXISTS node_namespace_type ON node FIELDS namespace, node_type;

-- Full-text BM25 index on node content.
-- SurrealDB 3.x: use FULLTEXT (the SEARCH form is legacy).
DEFINE ANALYZER IF NOT EXISTS konf_ft TOKENIZERS class FILTERS lowercase, ascii, snowball(english);
DEFINE INDEX IF NOT EXISTS node_content_fts ON node FIELDS content FULLTEXT ANALYZER konf_ft BM25 HIGHLIGHTS;

-- =================================================================
-- node_embedding: multi-model embeddings, separate from node rows
-- =================================================================
-- One row per (node, model_name). This matches smrti's design so a single
-- product can carry multiple embedding spaces (e.g. BGE + nomic) side by side.
DEFINE TABLE IF NOT EXISTS node_embedding SCHEMAFULL;
DEFINE FIELD IF NOT EXISTS node       ON node_embedding TYPE record<node>;
DEFINE FIELD IF NOT EXISTS namespace  ON node_embedding TYPE string;
DEFINE FIELD IF NOT EXISTS model_name ON node_embedding TYPE string;
DEFINE FIELD IF NOT EXISTS embedding  ON node_embedding TYPE array<float>;
DEFINE FIELD IF NOT EXISTS created_at ON node_embedding TYPE datetime DEFAULT time::now();

DEFINE INDEX IF NOT EXISTS node_embedding_unique
    ON node_embedding FIELDS node, model_name UNIQUE;

-- HNSW vector index — enables <|K,EF|> KNN queries.
DEFINE INDEX IF NOT EXISTS node_embedding_hnsw
    ON node_embedding FIELDS embedding
    HNSW DIMENSION "].
Definition schema_after : string := " DIST COSINE;

-- =================================================================
-- edge: typed, temporal relation between two nodes
-- =================================================================
DEFINE TABLE IF NOT EXISTS edge TYPE RELATION FROM node TO node SCHEMAFULL;
DEFINE FIELD IF NOT EXISTS edge_type    ON edge TYPE string;
DEFINE FIELD IF NOT EXISTS namespace    ON edge TYPE string;
DEFINE FIELD IF NOT EXISTS metadata     ON edge TYPE object FLEXIBLE DEFAULT {};
DEFINE FIELD IF NOT EXISTS valid_from   ON edge TYPE datetime DEFAULT time::now();
DEFINE FIELD IF NOT EXISTS valid_to     ON edge TYPE option<datetime>;
DEFINE FIELD IF NOT EXISTS is_retracted ON edge TYPE bool DEFAULT false;

DEFINE INDEX IF NOT EXISTS edge_namespace_type ON edge FIELDS namespace, edge_type;

-- =================================================================
-- event: append-only audit trail
-- =================================================================
-- Every mutation (add node, add edge, retract, state_set, ...) appends a row
-- here in the same transaction as the mutation itself. Matches smrti's
-- event-sourced shape without pretending to be a full event store.
DEFINE TABLE IF NOT EXISTS event SCHEMAFULL;
DEFINE FIELD IF NOT EXISTS namespace  ON event TYPE string;
DEFINE FIELD IF NOT EXISTS event_type ON event TYPE string;
DEFINE FIELD IF NOT EXISTS payload    ON event TYPE object FLEXIBLE DEFAULT {};
DEFINE FIELD IF NOT EXISTS valid_to   ON event TYPE option<datetime>;
DEFINE FIELD IF NOT EXISTS created_at ON event TYPE datetime DEFAULT time::now();

DEFINE INDEX IF NOT EXISTS event_namespace_created
    ON event FIELDS namespace, created_at;

-- =================================================================
-- session_state: session-scoped KV with optional TTL
-- =================================================================
-- Prune happens on-read in state_get/state_list — no background sweeper.
DEFINE TABLE IF NOT EXISTS session_state SCHEMAFULL;
DEFINE FIELD IF NOT EXISTS namespace  ON session_state TYPE string;
DEFINE FIELD IF NOT EXISTS session_id ON session_state TYPE string;
DEFINE FIELD IF NOT EXISTS skey       ON session_state TYPE string;
DEFINE FIELD IF NOT EXISTS sval       ON session_state TYPE any;
DEFINE FIELD IF NOT EXISTS expires_at ON session_state TYPE option<datetime>;
DEFINE FIELD IF NOT EXISTS created_at ON session_state TYPE datetime DEFAULT time::now();
DEFINE FIELD IF NOT EXISTS updated_at ON session_state TYPE datetime VALUE time::now();

DEFINE INDEX IF NOT EXISTS session_state_pk
    ON session_state FIELDS namespace, session_id, skey UNIQUE;
".

(** [build_schema]. *)
Definition build_schema (show_dim : Z -> string) (c : surreal_config) : string :=
  String.append schema_before (String.append (show_dim (sc_vector_dimension c)) schema_after).

(** * The connection *)

(** The connection string of a configuration. *)
Definition connection_string (c : surreal_config) : result string string :=
  match sc_mode c with
  | Embedded => String.append "rocksdb://" <$> ok_or (sc_path c) "embedded mode requires path"
  | Memory => Ok "mem://"
  | Remote => ok_or (sc_endpoint c) "remote mode requires endpoint"
  end.

(** The user and password to sign in with: of a remote database only, and only
    when both are given. *)
Definition credentials (c : surreal_config) : option (string * string) :=
  match sc_mode c, sc_username c, sc_password c with
  | Remote, Some user, Some pass => Some (user, pass)
  | _, _, _ => None
  end.

Section Connect.
(** A world of databases and the handles to them. *)
Context {V D : Type}.
Context (surreal_connect : string -> V -> V * result string D).
Context (signin : D -> string -> string -> V -> V * result string unit).
Context (use_ns_db : D -> string -> string -> V -> V * result string unit).
(** A query, and the check of its response. *)
Context (query : D -> string -> V -> V * result string (result string unit)).
Context (config_of_json : json -> result string surreal_config) (show_dim : Z -> string).

(** [open_connection]. *)
Definition open_connection (c : surreal_config) (v : V) : V * result string D :=
  match connection_string c with
  | Err e => (v, Err e)
  | Ok s =>
      match surreal_connect s v with
      | (v1, Err e) => (v1, Err (String.concat EmptyString ["failed to open SurrealDB connection ("; s; "): "; e]))
      | (v1, Ok db) =>
          match credentials c with
          | None => (v1, Ok db)
          | Some (user, pass) =>
              let '(v2, r) := signin db user pass v1 in
              (v2, _ ← map_err (String.append "surrealdb signin failed: ") r; Ok db)
          end
      end
  end.

(** What [connect] and [connect_journal] share: they open a connection each. *)
Definition establish (config : json) (v : V) : V * result string (D * surreal_config) :=
  match map_err (String.append "invalid SurrealConfig: ")
          (c ← config_of_json config; _ ← surreal_validate c; Ok c) with
  | Err e => (v, Err e)
  | Ok c =>
      match open_connection c v with
      | (v1, Err e) => (v1, Err e)
      | (v1, Ok db) =>
          match use_ns_db db (sc_namespace c) (sc_database c) v1 with
          | (v2, Err e) =>
              (v2, Err (String.concat EmptyString ["failed to select namespace="; sc_namespace c; ", database=";
                                                   sc_database c; ": "; e]))
          | (v2, Ok _) =>
              let '(v3, r) := query db (build_schema show_dim c) v2 in
              (v3, checked ← map_err (String.append "failed to apply SurrealDB schema: ") r;
                   _ ← map_err (String.append "schema query reported error: ") checked;
                   Ok (db, c))
          end
      end
  end.

(** [connect]: the handle and the configuration of [SurrealBackend::new]. *)
Definition connect (config : json) (v : V) : V * result string (D * surreal_config) := establish config v.

(** [connect_journal]: the handle of [SurrealJournalStore::new], whose counter
    starts at zero. *)
Definition connect_journal (config : json) (v : V) : V * result string (surreal_journal D) :=
  let '(v', r) := establish config v in (v', surreal_journal_new ∘ fst <$> r).

(** * Theory *)

(** A configuration that passes validation has a connection string. *)
Lemma validated_connection c : surreal_validate c = Ok tt -> exists s, connection_string c = Ok s.
Proof.
  unfold surreal_validate, connection_string. destruct (sc_mode c).
  - destruct (sc_path c); [by eexists|done].
  - by eexists.
  - destruct (sc_endpoint c); [by eexists|done].
Qed.

(** A database is handed out only after its configuration was validated, its
    namespace and database were selected and its schema was applied; nothing is
    opened for a configuration that is not valid. *)
Theorem establish_spec config v v' r : establish config v = (v', r) ->
  match r with
  | Ok (db, c) =>
      config_of_json config = Ok c /\ surreal_validate c = Ok tt /\
      exists s v1 v2, connection_string c = Ok s /\ open_connection c v = (v1, Ok db) /\
        use_ns_db db (sc_namespace c) (sc_database c) v1 = (v2, Ok tt) /\
        query db (build_schema show_dim c) v2 = (v', Ok (Ok tt))
  | Err _ =>
      v' = v \/ exists c, config_of_json config = Ok c /\ surreal_validate c = Ok tt
  end.
Proof.
  unfold establish. destruct (config_of_json config) as [c|e]; cbn; [|intros [= <- <-]; by left].
  destruct (surreal_validate c) as [[]|e] eqn:Hv; cbn; [|intros [= <- <-]; by left].
  destruct (validated_connection c Hv) as [s Hs].
  destruct (open_connection c v) as [v1 [db|e]] eqn:Ho; [|intros [= <- <-]; right; by exists c].
  destruct (use_ns_db db _ _ v1) as [v2 [[]|e]] eqn:Hu; [|intros [= <- <-]; right; by exists c].
  destruct (query db _ v2) as [v3 [[[]|e]|e]] eqn:Hq; intros [= <- <-]; [|right; by exists c|right; by exists c].
  split; [done|]. split; [done|]. by exists s, v1, v2.
Qed.
End Connect.

(** * The schema can be applied again *)

(** How often a text occurs. *)
Fixpoint occurrences (pattern s : string) : nat :=
  match s with
  | EmptyString => 0
  | String _ s' => (if starts_with s pattern then 1 else 0) + occurrences pattern s'
  end.

(** Every [DEFINE] of the schema names a kind and goes on with
    [IF NOT EXISTS]. *)
Example schema_is_guarded :
  let schema := String.append schema_before schema_after in
  let defines := list_sum (map (fun kind => occurrences (String.concat " " ["DEFINE"; kind; "IF NOT EXISTS"]) schema)
                             ["TABLE"; "FIELD"; "INDEX"; "ANALYZER"]) in
  occurrences "DEFINE " schema = defines /\ defines = 44.
Proof. vm_compute. split; reflexivity. Qed.
