(* ===== verification/Runtime.v ===== *)
(** The life of a run ([konf-runtime/src/runtime.rs], [process.rs],
    [hooks.rs], [monitor.rs]): the process table, starting, the hooks that
    update it, finishing, cancelling, garbage collection, and what the journal
    knows of each run when the process dies.

    A step of the runtime is what happens between two suspension points: a
    start checks the limits, inserts the run and reports it, then journals it
    and spawns its task; the end of a task updates the table, the counters and
    the bus, then journals it.  An append may fail, or there may be no journal. *)

From S2P Require Import Prelude Json Error Envelope Scope Executor Table Journal Stream Events.

Local Open Scope string_scope.
Local Open Scope list_scope.

(** * The process table *)

(** [WorkflowRun]; [wr_cancelled] is the state of its cancellation token. *)
Record workflow_run : Type := WorkflowRun {
  wr_id : uuid;
  wr_parent_id : option uuid;
  wr_workflow_id : string;
  wr_namespace : string;
  wr_actor : actor;
  wr_capabilities : list string;
  wr_metadata : gmap string json;
  wr_started_at : datetime;
  wr_status : run_status;
  wr_completed_at : option datetime;
  wr_active_nodes : list active_node;
  wr_steps_executed : Z;
  wr_cancelled : bool;
}.

Abbreviation process_table := (gmap uuid workflow_run).

Definition is_running (r : workflow_run) : bool :=
  match wr_status r with RsRunning => true | _ => false end.

(** [RunSummary], [RunDetail], [ProcessTree], [RuntimeMetrics]. *)
Record run_summary : Type := RunSummary {
  rs_id : uuid;
  rs_parent_id : option uuid;
  rs_workflow_id : string;
  rs_namespace : string;
  rs_status : run_status;
  rs_actor_id : string;
  rs_actor_role : actor_role;
  rs_started_at : datetime;
  rs_active_node_count : Z;
  rs_steps_executed : Z;
}.

Record run_detail : Type := RunDetail {
  rd_summary : run_summary;
  rd_active_nodes : list active_node;
  rd_capabilities : list string;
  rd_children : list run_summary;
}.

Record runtime_metrics : Type := RuntimeMetrics {
  active_runs : Z;
  total_completed : Z;
  total_failed : Z;
  total_cancelled : Z;
  uptime_seconds : Z;
}.

(** [WorkflowRun::to_summary]. *)
Definition to_summary (r : workflow_run) : run_summary := {|
  rs_id := wr_id r; rs_parent_id := wr_parent_id r; rs_workflow_id := wr_workflow_id r;
  rs_namespace := wr_namespace r; rs_status := wr_status r; rs_actor_id := actor_id (wr_actor r);
  rs_actor_role := role (wr_actor r); rs_started_at := wr_started_at r;
  rs_active_node_count := Z.of_nat (length (wr_active_nodes r));
  rs_steps_executed := wr_steps_executed r |}.

(** [ProcessTable::update]: whether the run is there, and the table. *)
Definition update (t : process_table) (id : uuid) (f : workflow_run -> workflow_run)
  : bool * process_table :=
  match t !! id with Some r => (true, <[id := f r]> t) | None => (false, t) end.

(** [ProcessTable::active_count], [active_count_in_namespace]. *)
Definition active_count (t : process_table) : nat :=
  length (List.filter (fun kv => is_running kv.2) (map_to_list t)).

Definition active_count_in_namespace (t : process_table) (namespace_prefix : string) : nat :=
  length (List.filter (fun kv => is_running kv.2 && starts_with (wr_namespace kv.2) namespace_prefix)
            (map_to_list t)).

(** [ProcessTable::gc]. *)
Definition gc_able (cutoff : datetime) (r : workflow_run) : bool :=
  is_terminal (wr_status r) &&
  match wr_completed_at r with Some t => (t <? cutoff)%Z | None => false end.

Definition gc (now max_age : datetime) (t : process_table) : process_table :=
  filter (fun kv => gc_able (now - max_age)%Z kv.2 = false) t.

(** [ExecutionScope::validate_start]. *)
Definition validate_start (s : execution_scope) (t : process_table) : result runtime_error unit :=
  if (max_active_runs_per_namespace (limits s)
        <=? Z.of_nat (active_count_in_namespace t (namespace s)))%Z
  then Err (RResourceLimit "max_active_runs_per_namespace" (max_active_runs_per_namespace (limits s)))
  else if (max_child_depth (limits s) <=? depth s)%Z
  then Err (RResourceLimit "max_child_depth" (max_child_depth (limits s)))
  else Ok tt.

Section Runtime.
(** The iteration order of the concurrent map, the renderings of the [uuid]
    and [chrono] crates and of integers. *)
Context (map_order : process_table -> list (uuid * workflow_run)).
Context (show_uuid : uuid -> string) (show_time : datetime -> string) (show_u64 : Z -> string).

(** [ProcessTable::list] and [children_of]. *)
Definition list_runs (t : process_table) (prefix : option string) : list run_summary :=
  map (fun kv => to_summary kv.2)
    (List.filter (fun kv => match prefix with
                            | Some p => starts_with (wr_namespace kv.2) p | None => true end)
       (map_order t)).

Definition children_of (t : process_table) (parent : uuid) : list run_summary :=
  map (fun kv => to_summary kv.2)
    (List.filter (fun kv => bool_decide (wr_parent_id kv.2 = Some parent)) (map_order t)).

(** [Runtime::get_run]. *)
Definition get_run (t : process_table) (id : uuid) : option run_detail :=
  r ← t !! id;
  Some {| rd_summary := to_summary r; rd_active_nodes := wr_active_nodes r;
          rd_capabilities := wr_capabilities r; rd_children := children_of t id |}.

(** ** The state of the runtime

    [rt_starting] and [rt_closing] are the tasks about to append their start
    or end entry, [rt_live] the runs whose task executes, [rt_spawned] the
    entries handed to append tasks of their own.  [rt_stuck], [rt_used],
    [rt_unstarted] and [rt_unended] are kept for the statements: the runs whose
    engine refused to stream after they had been entered in the table, the ids
    given out, the runs whose start entry failed to be written, and the runs
    that ended without an end entry, because its append failed or because a
    stream broke off without a terminal event. *)
Record starting_run : Type := StartingRun { sr_entry : journal_entry; sr_admitted : bool }.

Record runtime : Type := Rt {
  rt_table : process_table;
  rt_starting : gmap uuid starting_run;
  rt_live : gset uuid;
  rt_closing : gmap uuid journal_entry;
  rt_journal : list journal_entry;
  rt_spawned : list journal_entry;
  rt_events : list run_event;
  rt_completed : Z;
  rt_failed : Z;
  rt_cancelled : Z;
  rt_stuck : gset uuid;
  rt_used : gset uuid;
  rt_unstarted : gset uuid;
  rt_unended : gset uuid;
}.

Definition runtime_new : runtime := Rt ∅ ∅ ∅ ∅ [] [] [] 0 0 0 ∅ ∅ ∅ ∅.

(** ** Starting *)

(** [Runtime::start] and [start_streaming] up to the first await: the limits,
    the run entry and its event. *)
Definition new_run (id : uuid) (now : datetime) (workflow_id : string) (s : execution_scope)
  : workflow_run := {|
  wr_id := id; wr_parent_id := None; wr_workflow_id := workflow_id; wr_namespace := namespace s;
  wr_actor := scope_actor s; wr_capabilities := capability_patterns s; wr_metadata := ∅;
  wr_started_at := now; wr_status := RsRunning; wr_completed_at := None; wr_active_nodes := [];
  wr_steps_executed := 0; wr_cancelled := false |}.

Definition started_entry (id : uuid) (workflow_id : string) (s : execution_scope)
    (ctx : execution_context) (streaming : bool) : journal_entry := {|
  je_run_id := Some id; je_session_id := ec_session_id ctx; je_namespace := namespace s;
  je_event_type := "workflow_started";
  je_payload := JObject (obj_of_list
    ([("workflow_id", JString workflow_id); ("namespace", JString (namespace s));
      ("actor_id", JString (actor_id (scope_actor s)))] ++
     (if streaming then [("streaming", JBool true)]
      else [("actor_role", JString (role_to_string (role (scope_actor s))))])));
  je_valid_to := None; je_idempotency_key := None |}.

(** [Engine::run_streaming] checks the grant before it spawns; [Engine::run]
    does so inside the task. *)
Definition admits (streaming : bool) (workflow_capabilities : list string) (s : execution_scope) : bool :=
  negb streaming ||
  match validate_grant workflow_capabilities (capability_patterns s) with Ok _ => true | Err _ => false end.

Definition enter (id : uuid) (now : datetime) (workflow_id : string) (workflow_capabilities : list string)
    (s : execution_scope) (ctx : execution_context) (streaming : bool) (st : runtime) : runtime := {|
  rt_table := <[id := new_run id now workflow_id s]> (rt_table st);
  rt_starting := <[id := StartingRun (started_entry id workflow_id s ctx streaming)
                           (admits streaming workflow_capabilities s)]> (rt_starting st);
  rt_live := rt_live st; rt_closing := rt_closing st;
  rt_journal := rt_journal st; rt_spawned := rt_spawned st;
  rt_events := rt_events st ++ [EvRunStarted id workflow_id (namespace s) None now];
  rt_completed := rt_completed st; rt_failed := rt_failed st; rt_cancelled := rt_cancelled st;
  rt_stuck := rt_stuck st; rt_used := {[id]} ∪ rt_used st; rt_unstarted := rt_unstarted st; rt_unended := rt_unended st |}.

Definition start (id : uuid) (now : datetime) (workflow_id : string) (workflow_capabilities : list string)
    (s : execution_scope) (ctx : execution_context) (streaming : bool) (st : runtime)
  : result runtime_error runtime :=
  _ ← validate_start s (rt_table st);
  Ok (enter id now workflow_id workflow_capabilities s ctx streaming st).

(** The rest of [start]: the append, whose failure is ignored, and the spawn
    of the task; a streaming start that is not admitted returns its error here. *)
Definition spawn_run (id : uuid) (appended : bool) (sr : starting_run) (st : runtime) : runtime := {|
  rt_table := rt_table st; rt_starting := delete id (rt_starting st);
  rt_live := if sr_admitted sr then {[id]} ∪ rt_live st else rt_live st; rt_closing := rt_closing st;
  rt_journal := if appended then rt_journal st ++ [sr_entry sr] else rt_journal st;
  rt_spawned := rt_spawned st; rt_events := rt_events st;
  rt_completed := rt_completed st; rt_failed := rt_failed st; rt_cancelled := rt_cancelled st;
  rt_stuck := if sr_admitted sr then rt_stuck st else {[id]} ∪ rt_stuck st;
  rt_used := rt_used st;
  rt_unstarted := if appended then rt_unstarted st else {[id]} ∪ rt_unstarted st;
  rt_unended := rt_unended st |}.

(** ** Finishing *)

(** How a run ended. *)
Inductive run_end : Type :=
  | EndOk (output : json)
  | EndCancelled (reason : string)
  | EndFailed (error : string).

(** The end of a run that was started with [start]: its engine's result. *)
Definition end_of_result (r : result konflux_error json) : run_end :=
  match r with
  | Ok output => EndOk output
  | Err e =>
      match e with
      | EExecution (Cancelled _) => EndCancelled (konflux_error_to_string show_u64 e)
      | _ => EndFailed (konflux_error_to_string show_u64 e)
      end
  end.

Definition status_of_end (e : run_end) (duration_ms : Z) : run_status :=
  match e with
  | EndOk output => RsCompleted duration_ms output
  | EndCancelled reason => RsCancelled reason duration_ms
  | EndFailed error => RsFailed error duration_ms
  end.

Definition event_of_end (id : uuid) (e : run_end) (duration_ms : Z) : run_event :=
  match e with
  | EndOk _ => EvRunCompleted id duration_ms
  | EndCancelled reason => EvRunCancelled id reason
  | EndFailed error => EvRunFailed id duration_ms error
  end.

Definition entry_of_end (id : uuid) (session_id ns : string) (e : run_end) : journal_entry := {|
  je_run_id := Some id; je_session_id := session_id; je_namespace := ns;
  je_event_type := match e with
                   | EndOk _ => "workflow_completed"
                   | EndCancelled _ => "workflow_cancelled"
                   | EndFailed _ => "workflow_failed"
                   end;
  je_payload := match e with
                | EndOk _ => JObject []
                | EndCancelled reason => JObject [("reason", JString reason)]
                | EndFailed error => JObject [("error", JString error)]
                end;
  je_valid_to := None; je_idempotency_key := None |}.

(** What the forwarding task of [start_streaming] makes of the events it sees:
    it stops at the first terminal event, or when the caller has gone, after
    [forwarded] events.  The table gets its status, the journal its entry; no
    terminal event means a failure and no entry. *)
Definition message_says_cancelled (code message : string) : bool :=
  String.eqb code "cancelled" || str_contains message "cancelled".

Fixpoint final_status (l : list stream_event) : option run_end :=
  match l with
  | [] => None
  | Done _ :: _ => Some (EndOk JNull)
  | Error code message _ :: _ =>
      Some (if message_says_cancelled code message then EndCancelled message else EndFailed message)
  | _ :: l' => final_status l'
  end.

Definition streaming_status (e : option run_end) (duration_ms : Z) : run_status :=
  match e with
  | Some (EndCancelled _) => RsCancelled "cancelled" duration_ms
  | Some e => status_of_end e duration_ms
  | None => RsFailed "stream ended without terminal event" duration_ms
  end.

Definition streaming_event (id : uuid) (e : option run_end) (duration_ms : Z) : run_event :=
  event_of_end id (default (EndFailed "stream ended without terminal event") e) duration_ms.

Definition duration_since (t : process_table) (id : uuid) (now : datetime) : Z :=
  let started := match t !! id with Some r => wr_started_at r | None => now end in
  Z.max 0 ((now - started) / 1000000).

Definition ended (now : datetime) (s : run_status) (r : workflow_run) : workflow_run := {|
  wr_id := wr_id r; wr_parent_id := wr_parent_id r; wr_workflow_id := wr_workflow_id r;
  wr_namespace := wr_namespace r; wr_actor := wr_actor r; wr_capabilities := wr_capabilities r;
  wr_metadata := wr_metadata r; wr_started_at := wr_started_at r; wr_status := s;
  wr_completed_at := Some now; wr_active_nodes := wr_active_nodes r;
  wr_steps_executed := wr_steps_executed r; wr_cancelled := wr_cancelled r |}.

(** The end of a task up to its append: table, counters, bus. *)
Definition finish (id : uuid) (now : datetime) (s : run_status) (ev : run_event)
    (entry : option journal_entry) (st : runtime) : runtime := {|
  rt_table := snd (update (rt_table st) id (ended now s));
  rt_starting := rt_starting st; rt_live := rt_live st ∖ {[id]};
  rt_closing := match entry with Some e => <[id := e]> (rt_closing st) | None => rt_closing st end;
  rt_journal := rt_journal st; rt_spawned := rt_spawned st; rt_events := rt_events st ++ [ev];
  rt_completed := match s with RsCompleted _ _ => rt_completed st + 1 | _ => rt_completed st end;
  rt_failed := match s with RsFailed _ _ => rt_failed st + 1 | _ => rt_failed st end;
  rt_cancelled := match s with RsCancelled _ _ => rt_cancelled st + 1 | _ => rt_cancelled st end;
  rt_stuck := rt_stuck st; rt_used := rt_used st;
  rt_unstarted := rt_unstarted st;
  rt_unended := match entry with Some _ => rt_unended st | None => {[id]} ∪ rt_unended st end |}%Z.

(** The task spawned by [start]. *)
Definition finish_run (id : uuid) (now : datetime) (session_id ns : string)
    (r : result konflux_error json) (st : runtime) : runtime :=
  let e := end_of_result r in
  let d := duration_since (rt_table st) id now in
  finish id now (status_of_end e d) (event_of_end id e d) (Some (entry_of_end id session_id ns e)) st.

(** The task spawned by [start_streaming]. *)
Definition finish_streaming (id : uuid) (now : datetime) (session_id ns : string)
    (forwarded : list stream_event) (st : runtime) : runtime :=
  let e := final_status forwarded in
  let d := duration_since (rt_table st) id now in
  finish id now (streaming_status e d) (streaming_event id e d)
    (entry_of_end id session_id ns <$> e) st.

(** The append at the end of either task. *)
Definition close_run (id : uuid) (appended : bool) (e : journal_entry) (st : runtime) : runtime := {|
  rt_table := rt_table st; rt_starting := rt_starting st; rt_live := rt_live st;
  rt_closing := delete id (rt_closing st);
  rt_journal := if appended then rt_journal st ++ [e] else rt_journal st;
  rt_spawned := rt_spawned st; rt_events := rt_events st;
  rt_completed := rt_completed st; rt_failed := rt_failed st; rt_cancelled := rt_cancelled st;
  rt_stuck := rt_stuck st; rt_used := rt_used st; rt_unstarted := rt_unstarted st;
  rt_unended := if appended then rt_unended st else {[id]} ∪ rt_unended st |}.

(** ** Hooks *)

Definition with_nodes (f : list active_node -> list active_node) (steps : Z) (r : workflow_run)
  : workflow_run := {|
  wr_id := wr_id r; wr_parent_id := wr_parent_id r; wr_workflow_id := wr_workflow_id r;
  wr_namespace := wr_namespace r; wr_actor := wr_actor r; wr_capabilities := wr_capabilities r;
  wr_metadata := wr_metadata r; wr_started_at := wr_started_at r; wr_status := wr_status r;
  wr_completed_at := wr_completed_at r; wr_active_nodes := f (wr_active_nodes r);
  wr_steps_executed := (wr_steps_executed r + steps)%Z; wr_cancelled := wr_cancelled r |}.

(** [RuntimeHooks]: what a run's hooks carry. *)
Record hooks : Type := Hooks {
  hk_run_id : uuid; hk_namespace : string; hk_session_id : string; hk_actor : actor; hk_trace_id : uuid;
}.

(** [build_node_interaction_entry]. *)
Definition node_entry (h : hooks) (fresh : uuid) (now : datetime) (node_id tool phase : string)
    (status : interaction_status) (attributes : list (string * json)) : journal_entry := {|
  je_run_id := Some (hk_run_id h); je_session_id := hk_session_id h; je_namespace := hk_namespace h;
  je_event_type := "interaction";
  je_payload := to_json show_uuid show_time {|
    in_id := fresh; in_parent_id := None; in_trace_id := hk_trace_id h; in_run_id := Some (hk_run_id h);
    in_node_id := Some node_id; in_actor := hk_actor h; in_namespace := hk_namespace h;
    in_target := String.append "node:" node_id; in_kind := NodeLifecycle;
    in_attributes := JObject (obj_insert "phase" (JString phase)
      (obj_insert "tool" (JString tool) (obj_insert "node_id" (JString node_id) attributes)));
    in_edge_rules_fired := []; in_status := status; in_summary := None; in_timestamp := now;
    in_step_index := 0; in_stream_id := EmptyString; in_state_before_hash := None;
    in_state_after_hash := None; in_references := []; in_in_reply_to := None |};
  je_valid_to := None; je_idempotency_key := None |}.

(** [iter_mut().find(..)]: the first node with the id retries. *)
Fixpoint mark_retrying (node_id : string) (attempt : Z) (l : list active_node) : list active_node :=
  match l with
  | [] => []
  | n :: l' =>
      if String.eqb (an_node_id n) node_id
      then ActiveNode (an_node_id n) (an_tool_name n) (an_started_at n) (NsRetrying attempt 0) :: l'
      else n :: mark_retrying node_id attempt l'
  end.

Definition drop_node (node_id : string) (l : list active_node) : list active_node :=
  List.filter (fun n => negb (String.eqb (an_node_id n) node_id)) l.

(** [on_event]: the table update, the bus events and the journal entry handed
    to a task of its own; [duration_ms] is what the executor measured. *)
Definition on_event (h : hooks) (fresh : uuid) (now : datetime) (duration_ms : Z)
    (ev : Executor.event) (st : runtime) : runtime :=
  let act upd steps bus entry :=
    {| rt_table := snd (Runtime.update (rt_table st) (hk_run_id h) (with_nodes upd steps));
       rt_starting := rt_starting st; rt_live := rt_live st; rt_closing := rt_closing st;
       rt_journal := rt_journal st; rt_spawned := rt_spawned st ++ [entry];
       rt_events := rt_events st ++ bus;
       rt_completed := rt_completed st; rt_failed := rt_failed st; rt_cancelled := rt_cancelled st;
       rt_stuck := rt_stuck st; rt_used := rt_used st; rt_unstarted := rt_unstarted st; rt_unended := rt_unended st |} in
  match ev with
  | EvNodeStarted node tool =>
      act (fun l => l ++ [ActiveNode node tool now NsRunning]) 0%Z
        [EvNodeStart (hk_run_id h) node tool now]
        (node_entry h fresh now node tool "start" Pending [])
  | EvNodeCompleted node tool _ =>
      act (drop_node node) 1%Z
        [EvNodeEnd (hk_run_id h) node (NsCompleted duration_ms) now]
        (node_entry h fresh now node tool "end" StOk [("duration_ms", JNumber (PosInt duration_ms))])
  | EvNodeFailed node tool error =>
      act (drop_node node) 0%Z
        [EvNodeEnd (hk_run_id h) node (NsFailed error) now]
        (node_entry h fresh now node tool "failed" (Events.Failed error) [])
  | EvToolRetry node tool attempt error =>
      act (mark_retrying node attempt) 0%Z []
        (node_entry h fresh now node tool "retry" Pending
           [("attempt", JNumber (PosInt attempt)); ("error", JString error)])
  | _ => st
  end.

(** The task of [spawn_journal_append]: the entry is written and announced
    under the sequence number it got, or dropped. *)
Definition append_node (sequence : option Z) (l1 : list journal_entry) (e : journal_entry)
    (l2 : list journal_entry) (st : runtime) : runtime := {|
  rt_table := rt_table st; rt_starting := rt_starting st; rt_live := rt_live st;
  rt_closing := rt_closing st;
  rt_journal := match sequence with Some _ => rt_journal st ++ [e] | None => rt_journal st end;
  rt_spawned := l1 ++ l2;
  rt_events := match sequence with
               | Some n => rt_events st ++ [EvJournalAppended n (je_event_type e) (je_namespace e)
                                             (default 0%N (je_run_id e))]
               | None => rt_events st
               end;
  rt_completed := rt_completed st; rt_failed := rt_failed st; rt_cancelled := rt_cancelled st;
  rt_stuck := rt_stuck st; rt_used := rt_used st; rt_unstarted := rt_unstarted st; rt_unended := rt_unended st |}.

(** ** Cancelling *)

Definition cancel_token (r : workflow_run) : workflow_run := {|
  wr_id := wr_id r; wr_parent_id := wr_parent_id r; wr_workflow_id := wr_workflow_id r;
  wr_namespace := wr_namespace r; wr_actor := wr_actor r; wr_capabilities := wr_capabilities r;
  wr_metadata := wr_metadata r; wr_started_at := wr_started_at r; wr_status := wr_status r;
  wr_completed_at := wr_completed_at r; wr_active_nodes := wr_active_nodes r;
  wr_steps_executed := wr_steps_executed r; wr_cancelled := true |}.

(** [Runtime::cancel]; the fuel bounds the depth of the recursion into
    children.  The results for children are ignored. *)
Fixpoint cancel (fuel : nat) (id : uuid) (t : process_table) : result runtime_error unit * process_table :=
  match fuel with
  | O => (Ok tt, t)
  | S fuel =>
      match t !! id with
      | None => (Err (RNotFound id), t)
      | Some r =>
          if is_running r then
            let t1 := snd (update t id cancel_token) in
            (Ok tt,
             fold_left (fun t child =>
                if is_terminal (rs_status child) then t else snd (cancel fuel (rs_id child) t))
               (children_of t1 id) t1)
          else (Err (RNotRunning id), t)
      end
  end.

Definition with_table (t : process_table) (st : runtime) : runtime := {|
  rt_table := t; rt_starting := rt_starting st; rt_live := rt_live st; rt_closing := rt_closing st;
  rt_journal := rt_journal st; rt_spawned := rt_spawned st; rt_events := rt_events st;
  rt_completed := rt_completed st; rt_failed := rt_failed st; rt_cancelled := rt_cancelled st;
  rt_stuck := rt_stuck st; rt_used := rt_used st; rt_unstarted := rt_unstarted st; rt_unended := rt_unended st |}.

(** One poll of [Runtime::wait]: the answer, or [None] to sleep and poll again. *)
Definition wait_poll (t : process_table) (id : uuid) : option (result runtime_error json) :=
  match t !! id with
  | None => Some (Err (RNotFound id))
  | Some r =>
      match wr_status r with
      | RsCompleted _ output => Some (Ok output)
      | RsFailed error _ => Some (Err (REngine (EExecution (NodeFailed "runtime" "wait" error))))
      | RsCancelled reason _ => Some (Err (REngine (EExecution (Cancelled reason))))
      | _ => None
      end
  end.

(** [Runtime::metrics]; the uptime is read off the clock. *)
Definition metrics (uptime : Z) (st : runtime) : runtime_metrics := {|
  active_runs := Z.of_nat (active_count (rt_table st));
  total_completed := rt_completed st; total_failed := rt_failed st; total_cancelled := rt_cancelled st;
  uptime_seconds := uptime |}.

(** * The runtime as a transition system

    The check of the limits and the insertion of [start] are not one atomic
    action of a runtime with several threads, so a run may be entered in a
    state other than the one that was checked. *)

Inductive rt_step : runtime -> runtime -> Prop :=
  | REnter st id now wf caps s ctx streaming :
      (id ∉ rt_used st) -> rt_step st (enter id now wf caps s ctx streaming st)
  | RSpawn st id sr appended : rt_starting st !! id = Some sr -> rt_step st (spawn_run id appended sr st)
  | RHook st h fresh now d ev : rt_step st (on_event h fresh now d ev st)
  | RNode st sequence l1 e l2 : rt_spawned st = l1 ++ e :: l2 -> rt_step st (append_node sequence l1 e l2 st)
  | RFinish st id now sess ns r : id ∈ rt_live st -> rt_step st (finish_run id now sess ns r st)
  | RFinishStreaming st id now sess ns l :
      id ∈ rt_live st -> rt_step st (finish_streaming id now sess ns l st)
  | RClose st id e appended : rt_closing st !! id = Some e -> rt_step st (close_run id appended e st)
  | RCancel st fuel id : rt_step st (with_table (snd (cancel fuel id (rt_table st))) st)
  | RGc st now age : rt_step st (with_table (gc now age (rt_table st)) st).

(** A run as far as its life is concerned: hooks and cancellation change the
    rest. *)
Definition same_life (r r' : workflow_run) : Prop :=
  wr_id r' = wr_id r /\ wr_parent_id r' = wr_parent_id r /\ wr_status r' = wr_status r /\
  wr_completed_at r' = wr_completed_at r.

Definition tables_alike (t t' : process_table) : Prop :=
  forall id, option_Forall2 same_life (t !! id) (t' !! id).

(** The start and end entries of a run in a list of journal entries. *)
Definition has_start (id : uuid) (l : list journal_entry) : bool :=
  existsb (fun e => starts id (je_run_id e) (je_event_type e)) l.
Definition has_end (id : uuid) (l : list journal_entry) : bool :=
  existsb (fun e => ends id (je_run_id e) (je_event_type e)) l.

(** A run has been entered and its end has not been recorded. *)
Definition active (id : uuid) (st : runtime) : Prop :=
  id ∈ rt_live st \/ is_Some (rt_starting st !! id) \/ id ∈ rt_stuck st.

Record rt_invariant (st : runtime) : Prop := {
  ri_starting id sr : rt_starting st !! id = Some sr ->
    starts id (je_run_id (sr_entry sr)) (je_event_type (sr_entry sr)) = true /\ id ∈ rt_used st /\
    (id ∉ rt_live st) /\ (id ∉ rt_stuck st) /\ rt_closing st !! id = None;
  ri_live id : id ∈ rt_live st -> id ∈ rt_used st /\ (id ∉ rt_stuck st) /\ rt_closing st !! id = None;
  ri_stuck id : id ∈ rt_stuck st -> id ∈ rt_used st /\ rt_closing st !! id = None;
  ri_closing id e : rt_closing st !! id = Some e ->
    ends id (je_run_id e) (je_event_type e) = true /\ id ∈ rt_used st;
  ri_spawned : Forall (fun e => je_event_type e = "interaction") (rt_spawned st);
  ri_active id : active id st -> is_Some (rt_table st !! id);
  ri_table id r : rt_table st !! id = Some r ->
    wr_id r = id /\ wr_parent_id r = None /\ id ∈ rt_used st /\
    ((wr_status r = RsRunning /\ wr_completed_at r = None /\ active id st) \/
     (is_terminal (wr_status r) = true /\ is_Some (wr_completed_at r) /\ ~ active id st));
  ri_count : (rt_completed st + rt_failed st + rt_cancelled st
              + Z.of_nat (size (rt_live st)) + Z.of_nat (size (dom (rt_starting st)))
              + Z.of_nat (size (rt_stuck st)) = Z.of_nat (size (rt_used st)))%Z;
  ri_start id : has_start id (rt_journal st) = true <->
    id ∈ rt_used st /\ rt_starting st !! id = None /\ (id ∉ rt_unstarted st);
  ri_end id : has_end id (rt_journal st) = true <->
    id ∈ rt_used st /\ ~ active id st /\ rt_closing st !! id = None /\ (id ∉ rt_unended st);
  ri_unstarted id : id ∈ rt_unstarted st -> id ∈ rt_used st /\ rt_starting st !! id = None;
  ri_unended id : id ∈ rt_unended st ->
    id ∈ rt_used st /\ ~ active id st /\ rt_closing st !! id = None;
}.

(** * Theory *)

Lemma update_lookup t id f id' :
  snd (update t id f) !! id' = if decide (id = id') then f <$> t !! id' else t !! id'.
Proof.
  unfold update. destruct (t !! id) as [r|] eqn:Hr; cbn.
  - rewrite lookup_insert. destruct (decide (id = id')) as [<-|]; [by rewrite Hr|done].
  - destruct (decide (id = id')) as [<-|]; [by rewrite Hr|done].
Qed.

Lemma tables_alike_refl t : tables_alike t t.
Proof. intros id. destruct (t !! id); constructor. by repeat split. Qed.

Lemma tables_alike_trans t1 t2 t3 : tables_alike t1 t2 -> tables_alike t2 t3 -> tables_alike t1 t3.
Proof.
  intros Ha Hb id. specialize (Ha id). specialize (Hb id).
  destruct Ha as [r1 r2 H12|]; inversion Hb as [? r3 H23|]; constructor.
  destruct H12 as (? & ? & ? & ?), H23 as (? & ? & ? & ?). repeat split; congruence.
Qed.

Lemma tables_alike_update t id f :
  (forall r, same_life r (f r)) -> tables_alike t (snd (update t id f)).
Proof.
  intros Hf id'. rewrite update_lookup. destruct (decide (id = id')) as [<-|].
  - destruct (t !! id) as [r|]; constructor. apply Hf.
  - apply tables_alike_refl.
Qed.

Lemma cancel_alike fuel id t : tables_alike t (snd (cancel fuel id t)).
Proof.
  revert id t. induction fuel as [|fuel IH]; intros id t; cbn; [apply tables_alike_refl|].
  destruct (t !! id) as [r|] eqn:Hr; [|apply tables_alike_refl].
  destruct (is_running r); [|apply tables_alike_refl]. cbn [snd].
  apply tables_alike_trans with (snd (update t id cancel_token)).
  { apply tables_alike_update. by intros r'. }
  generalize (snd (update t id cancel_token)). intros t1. generalize (children_of t1 id). intros l.
  revert t1. induction l as [|c l IHl]; intros t1; cbn; [apply tables_alike_refl|].
  destruct (is_terminal (rs_status c)); [apply IHl|].
  eapply tables_alike_trans; [apply IH|apply IHl].
Qed.

Instance active_dec id st : Decision (active id st).
Proof. unfold active. apply _. Defined.

(** Changing nothing of a run's life keeps the invariant. *)
Lemma invariant_alike st st' :
  rt_invariant st -> tables_alike (rt_table st) (rt_table st') ->
  Forall (fun e => je_event_type e = "interaction") (rt_spawned st') ->
  rt_starting st' = rt_starting st -> rt_live st' = rt_live st -> rt_closing st' = rt_closing st ->
  rt_journal st' = rt_journal st -> rt_completed st' = rt_completed st -> rt_failed st' = rt_failed st ->
  rt_cancelled st' = rt_cancelled st -> rt_stuck st' = rt_stuck st -> rt_used st' = rt_used st ->
  rt_unstarted st' = rt_unstarted st -> rt_unended st' = rt_unended st -> rt_invariant st'.
Proof.
  intros [I1 I2 I3 I4 I5 I6 I7 I8 I9 I10 I11 I12] Ht Hs E1 E2 E3 E4 E5 E6 E7 E8 E9 E10 E11.
  split; unfold active in *; rewrite ?E1, ?E2, ?E3, ?E4, ?E5, ?E6, ?E7, ?E8, ?E9, ?E10, ?E11; try done.
  - intros id Ha. specialize (Ht id). destruct (I6 id Ha) as [r Hr]. rewrite Hr in Ht. by inversion Ht.
  - intros id r' Hr'. specialize (Ht id). rewrite Hr' in Ht.
    inversion Ht as [r r'' (Hi & Hp & Hst & Hc) Hr Heq|]; subst. symmetry in Hr.
    rewrite Hi, Hp, Hst, Hc. by apply I7.
Qed.

Lemma gc_invariant now age st : rt_invariant st -> rt_invariant (with_table (gc now age (rt_table st)) st).
Proof.
  intros [I1 I2 I3 I4 I5 I6 I7 I8 I9 I10 I11 I12]. split; try done.
  - intros id Ha. cbn. destruct (I6 id Ha) as [r Hr]. exists r. unfold gc.
    apply map_lookup_filter_Some. split; [done|]. cbn. unfold gc_able.
    destruct (I7 id r Hr) as (_ & _ & _ & [(-> & _)|(_ & _ & Hn)]); [done|].
    by destruct Hn.
  - intros id r. cbn. unfold gc. intros [Hr _]%map_lookup_filter_Some. by apply I7.
Qed.

Lemma existsb_snoc {A} (p : A -> bool) l x : existsb p (l ++ [x]) = existsb p l || p x.
Proof. rewrite existsb_app. cbn. by rewrite orb_false_r. Qed.

Lemma starts_other id id' e : starts id (je_run_id e) (je_event_type e) = true -> id <> id' ->
  starts id' (je_run_id e) (je_event_type e) = false /\ ends id' (je_run_id e) (je_event_type e) = false.
Proof.
  unfold starts, ends. intros [->%bool_decide_eq_true _]%andb_prop Hne.
  by rewrite bool_decide_false by by intros [= ->].
Qed.

Lemma ends_other id id' e : ends id (je_run_id e) (je_event_type e) = true -> id <> id' ->
  starts id' (je_run_id e) (je_event_type e) = false /\ ends id' (je_run_id e) (je_event_type e) = false.
Proof.
  unfold starts, ends. intros [->%bool_decide_eq_true _]%andb_prop Hne.
  by rewrite bool_decide_false by by intros [= ->].
Qed.

Lemma starts_not_ends id e :
  starts id (je_run_id e) (je_event_type e) = true -> ends id (je_run_id e) (je_event_type e) = false.
Proof.
  unfold starts, ends. intros [_ ->%String.eqb_eq]%andb_prop. by rewrite andb_false_r.
Qed.

Lemma ends_not_starts id e :
  ends id (je_run_id e) (je_event_type e) = true -> starts id (je_run_id e) (je_event_type e) = false.
Proof.
  intros He. apply not_true_iff_false. intros Hs%starts_not_ends. congruence.
Qed.

Lemma size_add (id : uuid) (X : gset uuid) : (id ∉ X) -> size ({[id]} ∪ X) = S (size X).
Proof. intros Hid. rewrite size_union by set_solver. by rewrite size_singleton. Qed.

Lemma size_remove (id : uuid) (X : gset uuid) : id ∈ X -> size X = S (size (X ∖ {[id]})).
Proof.
  intros Hid. rewrite <- (size_add id) by set_solver. f_equal.
  by rewrite <- union_difference_singleton_L.
Qed.

(** An entry of another type, or about another run, says nothing of a run. *)
Lemma has_start_snoc id l e :
  has_start id (l ++ [e]) = has_start id l || starts id (je_run_id e) (je_event_type e).
Proof. unfold has_start. by rewrite existsb_snoc. Qed.

Lemma has_end_snoc id l e :
  has_end id (l ++ [e]) = has_end id l || ends id (je_run_id e) (je_event_type e).
Proof. unfold has_end. by rewrite existsb_snoc. Qed.

Lemma started_entry_starts id wf s ctx streaming :
  let e := started_entry id wf s ctx streaming in starts id (je_run_id e) (je_event_type e) = true.
Proof. cbn. unfold starts. by rewrite bool_decide_true. Qed.

Lemma entry_of_end_ends id sess ns e :
  let j := entry_of_end id sess ns e in ends id (je_run_id j) (je_event_type j) = true.
Proof. cbn. unfold ends. rewrite bool_decide_true by done. by destruct e. Qed.

(** A fresh id is nowhere. *)
Lemma fresh_id st id : rt_invariant st -> (id ∉ rt_used st) ->
  (id ∉ rt_live st) /\ (id ∉ rt_stuck st) /\ rt_closing st !! id = None /\
  rt_starting st !! id = None /\ rt_table st !! id = None.
Proof.
  intros [I1 I2 I3 I4 I5 I6 I7 I8 I9 I10 I11 I12] Hid. split_and!.
  - intros Hc. by apply Hid, I2.
  - intros Hc. by apply Hid, I3.
  - destruct (rt_closing st !! id) eqn:Hx; [|done]. by destruct Hid, (I4 _ _ Hx).
  - destruct (rt_starting st !! id) eqn:Hx; [|done]. by destruct Hid, (I1 _ _ Hx) as (_ & ? & _).
  - destruct (rt_table st !! id) eqn:Hx; [|done]. by destruct Hid, (I7 _ _ Hx) as (_ & _ & ? & _).
Qed.

Lemma enter_invariant st id now wf caps s ctx streaming :
  rt_invariant st -> (id ∉ rt_used st) -> rt_invariant (enter id now wf caps s ctx streaming st).
Proof.
  intros HI Hid.
  destruct (fresh_id st id HI Hid) as (Hl & Hk & Hc & Hs & Ht).
  destruct HI as [I1 I2 I3 I4 I5 I6 I7 I8 I9 I10 I11 I12].
  assert (Hsplit : forall id', is_Some (<[id := StartingRun (started_entry id wf s ctx streaming)
                                    (admits streaming caps s)]> (rt_starting st) !! id')
                     <-> id = id' \/ is_Some (rt_starting st !! id')).
  { intros id'. apply lookup_insert_is_Some'. }
  split; unfold active; cbn -[starts ends started_entry has_start has_end].
  - intros id' sr. rewrite lookup_insert. case_decide as Hd.
    + intros [= <-]. subst id'. split_and!; [apply started_entry_starts|set_solver|done..].
    + intros (? & ? & ?)%I1. set_solver.
  - intros id' (? & ? & ?)%I2. set_solver.
  - intros id' (? & ?)%I3. set_solver.
  - intros id' e (? & ?)%I4. set_solver.
  - done.
  - intros id'. rewrite Hsplit, lookup_insert. case_decide; [by eexists|]. intros Ha. apply I6.
    unfold active. naive_solver.
  - intros id' r. rewrite lookup_insert, Hsplit. case_decide as Hd.
    + intros [= <-]. subst id'. cbn. split_and!; try done; [set_solver|]. left. naive_solver.
    + intros (? & ? & ? & Hst)%I7. unfold active in Hst. split_and!; [done..|set_solver|].
      destruct Hst as [(? & ? & ?)|(? & ? & Hn)]; [left; naive_solver|right].
      split_and!; [done..|]. intros [?|[[?|?]|?]]; naive_solver.
  - rewrite size_add by done. rewrite dom_insert_L, size_add by (by rewrite not_elem_of_dom). lia.
  - intros id'. rewrite I9, lookup_insert. case_decide as Hd; [|set_solver].
    subst id'. split; [by intros []|by intros (_ & ? & _)].
  - intros id'. rewrite I10, Hsplit. unfold active.
    destruct (decide (id = id')) as [<-|Hd]; [split; [by intros []|naive_solver]|].
    rewrite elem_of_union, elem_of_singleton. naive_solver.
  - intros id' [Hu Hn]%I11. rewrite lookup_insert, decide_False by (by intros <-). set_solver.
  - intros id' (Hu & Hn & Hcl)%I12. rewrite Hsplit. unfold active in Hn.
    assert (id <> id') by (by intros <-). split_and!; [set_solver|naive_solver|done].
Qed.


(** Appending its start entry makes a run started, and changes no other. *)
Lemma has_start_start id id' appended e l :
  starts id (je_run_id e) (je_event_type e) = true ->
  has_start id' (if appended : bool then l ++ [e] else l)
  = has_start id' l || (appended && bool_decide (id = id')).
Proof.
  intros He. destruct appended; cbn; [|by rewrite orb_false_r]. rewrite has_start_snoc. f_equal.
  case_bool_decide as Hd; [by subst|]. by destruct (starts_other _ _ _ He Hd).
Qed.

Lemma has_end_start id id' appended e l :
  starts id (je_run_id e) (je_event_type e) = true ->
  has_end id' (if appended : bool then l ++ [e] else l) = has_end id' l.
Proof.
  intros He. destruct appended; [|done]. rewrite has_end_snoc.
  destruct (decide (id = id')) as [<-|Hd]; [by rewrite starts_not_ends, orb_false_r|].
  destruct (starts_other _ _ _ He Hd) as [_ ->]. by rewrite orb_false_r.
Qed.

Lemma has_start_end id id' appended e l :
  ends id (je_run_id e) (je_event_type e) = true ->
  has_start id' (if appended : bool then l ++ [e] else l) = has_start id' l.
Proof.
  intros He. destruct appended; [|done]. rewrite has_start_snoc.
  destruct (decide (id = id')) as [<-|Hd]; [by rewrite ends_not_starts, orb_false_r|].
  destruct (ends_other _ _ _ He Hd) as [-> _]. by rewrite orb_false_r.
Qed.

Lemma has_end_end id id' appended e l :
  ends id (je_run_id e) (je_event_type e) = true ->
  has_end id' (if appended : bool then l ++ [e] else l)
  = has_end id' l || (appended && bool_decide (id = id')).
Proof.
  intros He. destruct appended; cbn; [|by rewrite orb_false_r]. rewrite has_end_snoc. f_equal.
  case_bool_decide as Hd; [by subst|]. by destruct (ends_other _ _ _ He Hd).
Qed.

Lemma spawn_active st id sr appended id' :
  rt_starting st !! id = Some sr -> active id' (spawn_run id appended sr st) <-> active id' st.
Proof.
  intros Hs. unfold active; cbn. rewrite lookup_delete_is_Some.
  destruct (decide (id = id')) as [<-|Hd].
  - split; intros _; [right; left; by exists sr|].
    destruct (sr_admitted sr); [left|right; right]; set_solver.
  - destruct (sr_admitted sr); rewrite elem_of_union, elem_of_singleton; intuition congruence.
Qed.

Lemma spawn_invariant st id sr appended :
  rt_invariant st -> rt_starting st !! id = Some sr -> rt_invariant (spawn_run id appended sr st).
Proof.
  intros HI Hs. pose proof (ri_starting _ HI _ _ Hs) as (Hst & Hu & Hl & Hk & Hc).
  pose proof (fun id' => spawn_active st id sr appended id' Hs) as Hact.
  destruct HI as [I1 I2 I3 I4 I5 I6 I7 I8 I9 I10 I11 I12].
  split; cbn -[starts ends has_start has_end active].
  - intros id' sr'. rewrite lookup_delete. case_decide as Hd; [done|]. intros (? & ? & ? & ? & ?)%I1.
    destruct (sr_admitted sr); split_and!; try done; by intros [->%elem_of_singleton|?]%elem_of_union.
  - intros id'. specialize (I2 id'). destruct (sr_admitted sr).
    + intros [->%elem_of_singleton|?]%elem_of_union; auto.
    + intros Hin. destruct (I2 Hin) as (? & ? & ?). split_and!; try done.
      by intros [->%elem_of_singleton|?]%elem_of_union.
  - intros id'. specialize (I3 id'). destruct (sr_admitted sr); [done|].
    intros [->%elem_of_singleton|?]%elem_of_union; auto.
  - done.
  - done.
  - intros id'. rewrite Hact. apply I6.
  - intros id' r Hr. rewrite Hact. by apply I7.
  - rewrite <- I8. assert (Hd : id ∈ dom (rt_starting st)) by (by apply elem_of_dom_2 in Hs).
    rewrite dom_delete_L, (size_remove id (dom (rt_starting st)) Hd).
    destruct (sr_admitted sr); rewrite size_add by done; lia.
  - intros id'. rewrite (has_start_start _ _ _ _ _ Hst), orb_true_iff, lookup_delete, I9.
    assert (id ∉ rt_unstarted st) as Hun by (intros [_ ?]%I11; congruence).
    destruct appended; cbn; rewrite ?bool_decide_eq_true, ?elem_of_union, ?elem_of_singleton;
      destruct (decide (id = id')) as [<-|Hd]; intuition congruence.
  - intros id'. rewrite (has_end_start _ _ _ _ _ Hst), Hact. apply I10.
  - intros id'. rewrite lookup_delete. destruct appended.
    + intros [? ?]%I11. by case_decide.
    + intros [->%elem_of_singleton|[? ?]%I11]%elem_of_union; [by rewrite decide_True|by case_decide].
  - intros id'. rewrite Hact. apply I12.
Qed.


Lemma finish_active st id now status ev entry id' :
  rt_invariant st -> id ∈ rt_live st ->
  active id' (finish id now status ev entry st) <-> id <> id' /\ active id' st.
Proof.
  intros HI Hl. unfold active; cbn. rewrite elem_of_difference, elem_of_singleton.
  destruct (decide (id = id')) as [<-|Hd]; [|intuition congruence].
  split; [|by intros [? _]]. intros [[_ ?]|[[sr Hs]|Hk]]; [done|exfalso..].
  - by destruct (ri_starting _ HI _ _ Hs) as (_ & _ & ? & _).
  - by destruct (ri_live _ HI _ Hl) as (_ & ? & _).
Qed.

(** The end of a live run, whatever its status and entry. *)
Lemma finish_invariant st id now status ev entry :
  rt_invariant st -> id ∈ rt_live st -> is_terminal status = true ->
  (forall e, entry = Some e -> ends id (je_run_id e) (je_event_type e) = true) ->
  rt_invariant (finish id now status ev entry st).
Proof.
  intros HI Hl Hterm Hentry.
  pose proof (fun id' => finish_active st id now status ev entry id' HI Hl) as Hact.
  destruct (ri_live _ HI _ Hl) as (Hu & Hk & Hc).
  destruct HI as [I1 I2 I3 I4 I5 I6 I7 I8 I9 I10 I11 I12].
  assert (Hcl : forall id' e, rt_closing (finish id now status ev entry st) !! id' = Some e ->
            (id = id' /\ entry = Some e) \/ rt_closing st !! id' = Some e).
  { intros id' e. cbn. destruct entry as [e'|]; [|by right]. rewrite lookup_insert.
    case_decide; [intros [= ->]; by left|by right]. }
  assert (Hcn : forall id', id <> id' ->
            rt_closing (finish id now status ev entry st) !! id' = rt_closing st !! id').
  { intros id' Hd. cbn. destruct entry; [|done]. by rewrite lookup_insert, decide_False. }
  split; cbn -[starts ends has_start has_end active update] in *.
  - intros id' sr Hs. destruct (I1 _ _ Hs) as (? & ? & Hn & ? & ?).
    assert (id <> id') by (by intros <-). rewrite Hcn by done.
    split_and!; try done. by intros [? _]%elem_of_difference.
  - intros id' [Hin Hne%not_elem_of_singleton]%elem_of_difference. rewrite Hcn by done. by apply I2.
  - intros id' Hin. assert (id <> id') by (by intros <-). rewrite Hcn by done. by apply I3.
  - intros id' e [[<- He]|He]%Hcl; [|by apply I4]. split; [by apply Hentry|done].
  - done.
  - intros id'. rewrite Hact, update_lookup. intros [Hd Ha]. rewrite decide_False by done. by apply I6.
  - intros id' r. rewrite Hact, update_lookup. case_decide as Hd.
    + subst id'. destruct (rt_table st !! id) as [r0|] eqn:Hr; [|done]. intros [= <-]. cbn.
      destruct (I7 _ _ Hr) as (? & ? & ? & _). split_and!; try done. right. split_and!; [done|done|].
      by intros [? _].
    + intros (? & ? & ? & Hst)%I7. split_and!; try done.
      destruct Hst as [(? & ? & ?)|(? & ? & Hn)]; [left|right]; split_and!; try done. by intros [_ ?].
  - rewrite <- I8, (size_remove id (rt_live st) Hl). destruct status; try done; lia.
  - done.
  - intros id'. rewrite Hact, I10. destruct (decide (id = id')) as [<-|Hd].
    + assert (active id st) by (by left).
      destruct entry as [e|]; [rewrite lookup_insert, decide_True by done|set_solver].
      split; [by intros (_ & ? & _)|by intros (_ & _ & ? & _)].
    + destruct entry as [e|]; [rewrite lookup_insert, decide_False by done; intuition congruence|].
      rewrite elem_of_union, elem_of_singleton. intuition congruence.
  - done.
  - intros id' Hin. rewrite Hact.
    assert (id' ∈ rt_unended st -> id <> id') as Hne.
    { intros (_ & Hn & _)%I12 <-. by destruct Hn; left. }
    destruct entry as [e|].
    + rewrite lookup_insert, decide_False by auto. destruct (I12 _ Hin) as (? & ? & ?). intuition congruence.
    + apply elem_of_union in Hin as [->%elem_of_singleton|Hin]; [intuition congruence|].
      destruct (I12 _ Hin) as (? & ? & ?). intuition congruence.
Qed.

Lemma close_invariant st id e appended :
  rt_invariant st -> rt_closing st !! id = Some e -> rt_invariant (close_run id appended e st).
Proof.
  intros HI He. destruct (ri_closing _ HI _ _ He) as [Hends Hu].
  assert (Hna : ~ active id st).
  { intros [Hl|[[sr Hs]|Hk]].
    - destruct (ri_live _ HI _ Hl) as (_ & _ & ?). congruence.
    - destruct (ri_starting _ HI _ _ Hs) as (_ & _ & _ & _ & ?). congruence.
    - destruct (ri_stuck _ HI _ Hk). congruence. }
  destruct HI as [I1 I2 I3 I4 I5 I6 I7 I8 I9 I10 I11 I12].
  assert (Hdel : forall id', rt_closing st !! id' = None -> delete id (rt_closing st) !! id' = None).
  { intros id'. rewrite lookup_delete. by case_decide. }
  split; unfold active in *; cbn -[starts ends has_start has_end] in *.
  - intros id' sr (? & ? & ? & ? & ?)%I1. split_and!; auto.
  - intros id' (? & ? & ?)%I2. split_and!; auto.
  - intros id' (? & ?)%I3. split_and!; auto.
  - intros id' e'. rewrite lookup_delete. case_decide; [done|]. apply I4.
  - done.
  - done.
  - done.
  - done.
  - intros id'. rewrite (has_start_end _ _ _ _ _ Hends). apply I9.
  - intros id'. rewrite (has_end_end _ _ _ _ _ Hends), orb_true_iff, lookup_delete, I10.
    assert (id ∉ rt_unended st) as Hun by (intros (_ & _ & ?)%I12; congruence).
    destruct appended; cbn; rewrite ?bool_decide_eq_true, ?elem_of_union, ?elem_of_singleton;
      destruct (decide (id = id')) as [<-|Hd]; intuition congruence.
  - done.
  - intros id'. destruct appended.
    + intros (? & ? & ?)%I12. auto.
    + intros [->%elem_of_singleton|(? & ? & ?)%I12]%elem_of_union; [|by auto].
      split_and!; [done|done|]. by rewrite lookup_delete, decide_True.
Qed.

Lemma interaction_neutral id e : je_event_type e = "interaction" ->
  starts id (je_run_id e) (je_event_type e) = false /\ ends id (je_run_id e) (je_event_type e) = false.
Proof. intros ->. unfold starts, ends. by rewrite !andb_false_r. Qed.

Lemma node_invariant st sequence l1 e l2 :
  rt_invariant st -> rt_spawned st = l1 ++ e :: l2 -> rt_invariant (append_node sequence l1 e l2 st).
Proof.
  intros [I1 I2 I3 I4 I5 I6 I7 I8 I9 I10 I11 I12] Hl. rewrite Hl in I5.
  apply Forall_app in I5 as [Hl1 [He Hl2]%Forall_cons].
  split; cbn -[starts ends has_start has_end] in *; try done.
  - by apply Forall_app.
  - intros id. rewrite <- I9. destruct sequence; [|done].
    rewrite has_start_snoc. by rewrite (proj1 (interaction_neutral id e He)), orb_false_r.
  - intros id. rewrite <- I10. destruct sequence; [|done].
    rewrite has_end_snoc. by rewrite (proj2 (interaction_neutral id e He)), orb_false_r.
Qed.

Lemma hook_invariant st h fresh now d ev : rt_invariant st -> rt_invariant (on_event h fresh now d ev st).
Proof.
  intros HI. pose proof (ri_spawned _ HI) as Hs.
  destruct ev; cbn -[node_entry]; try done;
    (eapply invariant_alike; [exact HI| |by apply Forall_app; split; [|by repeat constructor]|done..]);
    apply tables_alike_update; by intros r.
Qed.

Lemma end_is_terminal e d : is_terminal (status_of_end e d) = true.
Proof. by destruct e. Qed.

Lemma streaming_is_terminal e d : is_terminal (streaming_status e d) = true.
Proof. by destruct e as [[]|]. Qed.

Lemma step_invariant st st' : rt_step st st' -> rt_invariant st -> rt_invariant st'.
Proof.
  intros Hstep HI. destruct Hstep.
  - by apply enter_invariant.
  - by apply spawn_invariant.
  - by apply hook_invariant.
  - by apply node_invariant.
  - apply finish_invariant; [done|done|apply end_is_terminal|]. intros e [= <-]. apply entry_of_end_ends.
  - apply finish_invariant; [done|done|apply streaming_is_terminal|].
    intros e [x [_ ->]]%fmap_Some. apply entry_of_end_ends.
  - by apply close_invariant.
  - eapply invariant_alike; [exact HI|apply cancel_alike|apply HI|done..].
  - by apply gc_invariant.
Qed.

Lemma new_invariant : rt_invariant runtime_new.
Proof.
  split; unfold active; cbn; try done; try set_solver.
  - intros id [?|[[? ?]|?]]; [set_solver|done|set_solver].
Qed.


Lemma reachable_invariant st : rtc rt_step runtime_new st -> rt_invariant st.
Proof.
  intros Hr. assert (Hgen : forall st0, rtc rt_step st0 st -> rt_invariant st0 -> rt_invariant st).
  { clear Hr. intros st0 Hr. induction Hr; [done|]. intros. eauto using step_invariant. }
  by apply Hgen with runtime_new, new_invariant.
Qed.

(** The runs the table shows as running, by where their tasks are. *)
Lemma running_active st id r :
  rt_invariant st -> rt_table st !! id = Some r -> is_running r = true <-> active id st.
Proof.
  intros HI Hr. destruct (ri_table _ HI _ _ Hr) as (_ & _ & _ & [(Hs & _ & Ha)|(Hs & _ & Ha)]);
    unfold is_running.
  - by rewrite Hs.
  - destruct (wr_status r); [done..|]; split; done.
Qed.


(** [active_count] counts exactly these. *)
Lemma active_count_active st : rt_invariant st ->
  active_count (rt_table st) = size (rt_live st ∪ dom (rt_starting st) ∪ rt_stuck st).
Proof.
  intros HI. set (p := fun kv : uuid * workflow_run => is_running kv.2).
  change (active_count (rt_table st)) with (length (bfilter p (map_to_list (rt_table st)))).
  rewrite <- (length_fmap fst). unfold size, set_size. cbn. apply Permutation_length, NoDup_Permutation.
  - apply NoDup_bfilter, NoDup_fst_map_to_list.
  - apply NoDup_elements.
  - intros id. rewrite elem_of_elements, !elem_of_union, elem_of_dom, list_elem_of_fmap.
    assert (Ha : active id st <-> (id ∈ rt_live st \/ is_Some (rt_starting st !! id)) \/ id ∈ rt_stuck st)
      by (unfold active; tauto). rewrite <- Ha. split.
    + intros ([id' r] & -> & [Hr Hp]%elem_of_bfilter). apply elem_of_map_to_list in Hr.
      by apply (running_active st id' r).
    + intros Hact. destruct (ri_active _ HI _ Hact) as [r Hr]. exists (id, r). split; [done|].
      apply elem_of_bfilter. split; [by apply elem_of_map_to_list|]. by apply (running_active st id r).
Qed.

Lemma metrics_sum uptime st : rt_invariant st ->
  let m := metrics uptime st in
  (total_completed m + total_failed m + total_cancelled m + active_runs m = Z.of_nat (size (rt_used st)))%Z.
Proof.
  intros HI. cbn. rewrite active_count_active by done. rewrite <- (ri_count _ HI).
  rewrite !size_union; [lia| |].
  - intros id Hl Hs%elem_of_dom. destruct Hs as [sr Hs]. by destruct (ri_starting _ HI _ _ Hs) as (_ & _ & ? & _).
  - intros id [Hl|[sr Hs]%elem_of_dom]%elem_of_union Hk.
    + by destruct (ri_live _ HI _ Hl) as (_ & ? & _).
    + by destruct (ri_starting _ HI _ _ Hs) as (_ & _ & _ & ? & _).
Qed.

(** A run whose end is recorded keeps it, until it is collected. *)
Lemma ended_step st st' id :
  rt_invariant st -> rt_step st st' -> id ∈ rt_used st -> ~ active id st ->
  id ∈ rt_used st' /\ ~ active id st' /\
  (rt_table st' !! id = None \/ option_Forall2 same_life (rt_table st !! id) (rt_table st' !! id)).
Proof.
  intros HI Hstep Hu Hn. destruct Hstep; cbn [rt_used rt_table] in *.
  - assert (id0 <> id) by congruence. split_and!.
    + set_solver.
    + intros Ha. apply Hn. unfold active in *; cbn in Ha. by rewrite lookup_insert_ne in Ha.
    + right. cbn. rewrite lookup_insert_ne by done. apply tables_alike_refl.
  - rewrite spawn_active by done. split_and!; [done..|]. right. apply tables_alike_refl.
  - assert (Ht : tables_alike (rt_table st) (rt_table (on_event h fresh now d ev st))).
    { destruct ev; cbn; try apply tables_alike_refl; apply tables_alike_update; by intros r. }
    destruct ev; split_and!; try done; by right.
  - split_and!; [done..|]. right. apply tables_alike_refl.
  - unfold finish_run. rewrite finish_active by done. split_and!; [done|tauto|]. right. cbn [finish rt_table].
    assert (id0 <> id) by (intros ->; destruct Hn; by left).
    rewrite update_lookup, decide_False by done. apply tables_alike_refl.
  - unfold finish_streaming. rewrite finish_active by done. split_and!; [done|tauto|]. right. cbn [finish rt_table].
    assert (id0 <> id) by (intros ->; destruct Hn; by left).
    rewrite update_lookup, decide_False by done. apply tables_alike_refl.
  - split_and!; [done..|]. right. apply tables_alike_refl.
  - split_and!; [done..|]. right. apply cancel_alike.
  - split_and!; [done..|]. cbn. destruct (gc now age (rt_table st) !! id) as [r|] eqn:Hg; [right|by left].
    apply map_lookup_filter_Some in Hg as [-> _]. constructor. by repeat split.
Qed.

Lemma wait_poll_alike t t' id : option_Forall2 same_life (t !! id) (t' !! id) ->
  wait_poll t' id = wait_poll t id.
Proof.
  unfold wait_poll. intros Ht. inversion Ht as [r r' (_ & _ & Hs & _)|]; [by rewrite Hs|done].
Qed.

Lemma stuck_step st st' id : rt_step st st' -> id ∈ rt_stuck st -> id ∈ rt_stuck st'.
Proof.
  intros Hstep Hk. destruct Hstep; cbn; try done.
  - destruct (sr_admitted sr); [done|]. by apply elem_of_union_r.
  - by destruct ev.
Qed.

(** Reachable runs have no parent, so a run has no children to cancel. *)
Lemma no_children t id :
  (forall t, map_order t ≡ₚ map_to_list t) -> (forall id r, t !! id = Some r -> wr_parent_id r = None) ->
  children_of t id = [].
Proof.
  intros Ho Hp. unfold children_of.
  assert (forall kv, kv ∈ map_order t -> bool_decide (wr_parent_id kv.2 = Some id) = false) as Hno.
  { intros [id' r] Hin. rewrite Ho in Hin. apply elem_of_map_to_list in Hin. cbn.
    by rewrite (Hp _ _ Hin). }
  induction (map_order t) as [|kv l IH]; [done|]. cbn.
  rewrite Hno by left. apply IH. intros kv' ?. apply Hno. by right.
Qed.

(** * Properties *)

(** C20: in every reachable state of the runtime, under any interleaving of
    starts, hooks, ends, appends, cancellations and collections, the table
    shows a run as running exactly when its task has not ended, a run has a
    completion time exactly when its status is terminal, no running run is
    ever missing from the table, and the three counters together with the
    number of active runs account for every run that was ever entered. *)
Theorem runtime_invariant st : rtc rt_step runtime_new st ->
  (forall id r, rt_table st !! id = Some r ->
     wr_id r = id /\ (is_running r = true <-> active id st) /\
     (is_terminal (wr_status r) = true <-> is_Some (wr_completed_at r))) /\
  (forall id, active id st -> exists r, rt_table st !! id = Some r /\ is_running r = true) /\
  forall uptime, let m := metrics uptime st in
  (total_completed m + total_failed m + total_cancelled m + active_runs m = Z.of_nat (size (rt_used st)))%Z.
Proof.
  intros HI%reachable_invariant. split_and!; [| |intros uptime; by apply metrics_sum].
  - intros id r Hr. pose proof (running_active _ _ _ HI Hr) as Hra.
    destruct (ri_table _ HI _ _ Hr) as (? & _ & _ & [(Hs & Hc & _)|(Hs & Hc & _)]); split_and!; try done.
    rewrite Hs, Hc. split; [done|by intros []].
  - intros id Ha. destruct (ri_active _ HI _ Ha) as [r Hr]. exists r. split; [done|].
    by apply (running_active _ _ _ HI Hr).
Qed.

(** A run that executes, is ending, ended unrecorded or was refused has been
    entered, and its start is behind it. *)
Lemma interrupted_begun st id : rt_invariant st ->
  id ∈ rt_live st \/ rt_closing st !! id <> None \/ id ∈ rt_unended st \/ id ∈ rt_stuck st ->
  id ∈ rt_used st /\ rt_starting st !! id = None.
Proof.
  intros HI H. destruct (rt_starting st !! id) as [sr|] eqn:Hs.
  - destruct (ri_starting _ HI _ _ Hs) as (_ & _ & Hl & Hk & Hc).
    assert (id ∉ rt_unended st); [|tauto].
    intros (_ & Hn & _)%(ri_unended _ HI). apply Hn. right; left. by exists sr.
  - split; [|done]. destruct H as [Hl|[Hc|[Hu|Hk]]].
    + by apply (ri_live _ HI).
    + destruct (rt_closing st !! id) as [e|] eqn:He; [|done]. by destruct (ri_closing _ HI _ _ He).
    + by apply (ri_unended _ HI).
    + by apply (ri_stuck _ HI).
Qed.


(** What [wait] has answered for a run it goes on answering: in any later
    state it gives the same output or error, or no longer finds the run. *)
Theorem wait_answer_is_final st st' id answer :
  rtc rt_step runtime_new st -> id ∈ rt_used st -> wait_poll (rt_table st) id = Some answer ->
  rtc rt_step st st' ->
  wait_poll (rt_table st') id = Some answer \/ wait_poll (rt_table st') id = Some (Err (RNotFound id)).
Proof.
  intros Hreach Hu Hans Hlater. pose proof (reachable_invariant _ Hreach) as HI.
  assert (Hn : ~ active id st).
  { intros Ha. destruct (ri_active _ HI _ Ha) as [r Hr]. pose proof (proj2 (running_active _ _ _ HI Hr) Ha) as Hrun.
    revert Hans Hrun. unfold wait_poll, is_running. rewrite Hr. by destruct (wr_status r). }
  clear Hreach. revert Hu Hans HI Hn.
  induction Hlater as [|st st1 st' Hstep Hlater IH]; intros Hu Hans HI Hn; [by left|].
  destruct (ended_step st st1 id HI Hstep Hu Hn) as (Hu1 & Hn1 & Ht).
  assert (HI1 : rt_invariant st1) by eauto using step_invariant.
  destruct Ht as [Ht|Ht].
  - right. clear IH Hans Hstep HI. revert Hu1 Hn1 Ht HI1.
    induction Hlater as [|st1 st2 st' Hstep Hlater IH]; intros Hu1 Hn1 Ht HI1; [unfold wait_poll; by rewrite Ht|].
    destruct (ended_step st1 st2 id HI1 Hstep Hu1 Hn1) as (Hu2 & Hn2 & Ht2).
    apply IH; eauto using step_invariant. destruct Ht2 as [?|Ht2]; [done|].
    rewrite Ht in Ht2. by inversion Ht2.
  - apply IH; try done. by rewrite (wait_poll_alike _ _ _ Ht).
Qed.


(** Cancelling fails exactly on a run the table does not hold or does not
    show as running; otherwise it sets the token of that one run and nothing
    else.  No child is ever reached, since no run is ever given a parent. *)
Theorem cancel_spec st fuel id :
  (forall t, map_order t ≡ₚ map_to_list t) -> rtc rt_step runtime_new st ->
  cancel (S fuel) id (rt_table st) =
    match rt_table st !! id with
    | None => (Err (RNotFound id), rt_table st)
    | Some r => if is_running r then (Ok tt, <[id := cancel_token r]> (rt_table st))
                else (Err (RNotRunning id), rt_table st)
    end.
Proof.
  intros Ho HI%reachable_invariant. cbn -[children_of update].
  destruct (rt_table st !! id) as [r|] eqn:Hr; [|done]. destruct (is_running r); [|done].
  unfold update. rewrite Hr. cbn [snd]. rewrite no_children; [done..|].
  intros id' r'. rewrite lookup_insert. case_decide; intros Hr'.
  - injection Hr' as <-. cbn. by destruct (ri_table _ HI _ _ Hr) as (_ & ? & _).
  - by destruct (ri_table _ HI _ _ Hr') as (_ & ? & _).
Qed.

(** A streaming start whose workflow asks for a capability outside the
    scope leaves a run behind: its caller gets the engine's error, yet in every
    later state the table shows the run as running, [wait] has no answer for
    it, no cancellation ends it, and it counts as active. *)
Theorem refused_stream_never_ends st id now wf caps s ctx appended st' :
  rtc rt_step runtime_new st -> (id ∉ rt_used st) ->
  is_ok (validate_grant caps (capability_patterns s)) = false ->
  let st1 := enter id now wf caps s ctx true st in
  let sr := StartingRun (started_entry id wf s ctx true) (admits true caps s) in
  rtc rt_step (spawn_run id appended sr st1) st' ->
  (exists r, rt_table st' !! id = Some r /\ is_running r = true) /\
  wait_poll (rt_table st') id = None /\ (1 <= active_runs (metrics 0 st'))%Z.
Proof.
  intros Hreach Hid Hcaps st1 sr Hlater.
  assert (Hadm : admits true caps s = false).
  { unfold admits. cbn. by destruct (validate_grant caps (capability_patterns s)). }
  assert (Hr1 : rtc rt_step runtime_new (spawn_run id appended sr st1)).
  { eapply rtc_r; [eapply rtc_r; [exact Hreach|by apply REnter]|]. apply RSpawn. cbn. by rewrite lookup_insert_eq. }
  assert (Hk : id ∈ rt_stuck (spawn_run id appended sr st1)).
  { unfold sr. cbn -[admits]. rewrite Hadm. by apply elem_of_union_l, elem_of_singleton. }
  assert (Hk' : id ∈ rt_stuck st').
  { clear Hr1. induction Hlater; [done|]. eauto using stuck_step. }
  assert (HI : rt_invariant st') by (apply reachable_invariant; by transitivity (spawn_run id appended sr st1)).
  assert (Ha : active id st') by (by right; right).
  destruct (ri_active _ HI _ Ha) as [r Hr]. pose proof (proj2 (running_active _ _ _ HI Hr) Ha) as Hrun.
  split_and!.
  - by exists r.
  - unfold wait_poll. rewrite Hr. revert Hrun. unfold is_running. by destruct (wr_status r).
  - cbn. rewrite active_count_active by done. assert (size (rt_live st' ∪ dom (rt_starting st') ∪ rt_stuck st') <> 0)
      as Hsz; [|lia]. rewrite size_non_empty_iff. intros He. apply (elem_of_empty (C:=gset uuid) id).
    apply He. by apply elem_of_union_r.
Qed.

End Runtime.

(** * Runs

    A run that completes, one that is under way and one whose streaming start
    was refused. *)

Module Demo.

Definition scope : execution_scope :=
  ExecutionScope "konf:a" [CapabilityGrant "echo" ∅] limits_default (Actor "u" User) 0.
Definition ctx : execution_context := ExecutionContext 9 None "s" None None.
Definition show (_ : Z) : string := "0".

Definition starting (id : uuid) (caps : list string) (streaming : bool) : starting_run :=
  StartingRun (started_entry id "wf" scope ctx streaming) (admits streaming caps scope).
Definition begin (id : uuid) (caps : list string) (streaming : bool) (st : runtime) : runtime :=
  spawn_run id true (starting id caps streaming) (enter id 0 "wf" caps scope ctx streaming st).

Definition one : runtime := begin 1 ["echo"] false runtime_new.
Definition one_ended : runtime := finish_run show 1 5000000 "s" "konf:a" (Ok (JString "done")) one.
Definition one_closed : runtime :=
  close_run 1 true (entry_of_end 1 "s" "konf:a" (EndOk (JString "done"))) one_ended.
Definition two : runtime := begin 2 ["echo"] false one_closed.
Definition three : runtime := begin 3 ["shell_exec"] true two.

Abbreviation step := (rt_step map_to_list (fun _ => EmptyString) (fun _ => EmptyString) show).

Lemma begin_steps id caps streaming st :
  (id ∉ rt_used st) -> rtc step st (begin id caps streaming st).
Proof.
  intros Hid. eapply rtc_l; [by apply REnter|]. apply rtc_once, RSpawn. cbn. by rewrite lookup_insert_eq.
Qed.

Lemma one_reachable : rtc step runtime_new one.
Proof. apply begin_steps. set_solver. Qed.

Lemma one_ended_steps : rtc step one one_ended.
Proof. apply rtc_once, RFinish. apply (bool_decide_unpack _). vm_compute. done. Qed.

Lemma three_steps : rtc step one_ended three.
Proof.
  transitivity one_closed.
  { apply rtc_once, RClose. vm_compute. done. }
  transitivity two; apply begin_steps; apply (bool_decide_unpack _); vm_compute; done.
Qed.

Lemma one_ended_reachable : rtc step runtime_new one_ended.
Proof. etransitivity; [exact one_reachable|exact one_ended_steps]. Qed.

Lemma three_reachable : rtc step runtime_new three.
Proof. etransitivity; [exact one_ended_reachable|exact three_steps]. Qed.

Lemma runtime_invariant_witness :
  let m := metrics 7 three in total_completed m = 1%Z /\ active_runs m = 2%Z /\
  (total_completed m + total_failed m + total_cancelled m + active_runs m = 3)%Z.
Proof.
  split; [reflexivity|]. split; [vm_compute; reflexivity|].
  rewrite (proj2 (proj2 (runtime_invariant _ _ _ _ three three_reachable)) 7%Z). vm_compute. reflexivity.
Defined.


Lemma wait_answer_is_final_witness :
  wait_poll (rt_table three) 1 = Some (Ok (JString "done")) \/
  wait_poll (rt_table three) 1 = Some (Err (RNotFound 1)).
Proof.
  apply (wait_answer_is_final map_to_list (fun _ => EmptyString) (fun _ => EmptyString) show one_ended).
  - exact one_ended_reachable.
  - apply (bool_decide_unpack _). vm_compute. done.
  - vm_compute. reflexivity.
  - exact three_steps.
Defined.

Lemma cancel_spec_witness :
  fst (cancel map_to_list 1 2 (rt_table three)) = Ok tt /\
  fst (cancel map_to_list 1 1 (rt_table three)) = Err (RNotRunning 1).
Proof.
  pose proof (fun id => cancel_spec map_to_list (fun _ => EmptyString) (fun _ => EmptyString) show
                three 0 id (fun t => reflexivity _) three_reachable) as H.
  split; rewrite H; vm_compute; reflexivity.
Defined.

Lemma refused_stream_never_ends_witness :
  is_ok (validate_grant ["shell_exec"] (capability_patterns scope)) = false /\
  wait_poll (rt_table three) 3 = None.
Proof.
  assert (Hg : is_ok (validate_grant ["shell_exec"] (capability_patterns scope)) = false)
    by (vm_compute; reflexivity).
  split; [exact Hg|].
  assert (Hr : rtc step runtime_new two).
  { etransitivity; [exact one_ended_reachable|]. transitivity one_closed.
    - apply rtc_once, RClose. vm_compute. done.
    - apply begin_steps. apply (bool_decide_unpack _). vm_compute. done. }
  refine (proj1 (proj2 (refused_stream_never_ends map_to_list (fun _ => EmptyString) (fun _ => EmptyString)
            show two 3 0 "wf" ["shell_exec"] scope ctx true three Hr _ Hg (rtc_refl _ _)))).
  apply (bool_decide_unpack _). vm_compute. done.
Defined.

(** Two starts that are checked before either is entered pass a limit of one. *)
Example limit_is_not_atomic :
  let s := ExecutionScope "konf:a" [] (ResourceLimits 1 1 1 1 1 1) (Actor "u" User) 0 in
  validate_start s (rt_table runtime_new) = Ok tt /\
  active_count_in_namespace (rt_table (enter 2 0 "wf" [] s ctx false (enter 1 0 "wf" [] s ctx false runtime_new)))
    "konf:a" = 2.
Proof. split; vm_compute; reflexivity. Qed.

End Demo.
