(* ===== verification/Monitor.v ===== *)
(** Views of the runtime for its monitors: the tree of a run
    ([Runtime::get_tree], [konf-runtime/src/runtime.rs]) and the JSON of
    summaries, details, trees and metrics ([konf-runtime/src/monitor.rs]). *)

From S2P Require Import Prelude Json Error Envelope Scope Events Runtime.

Local Open Scope string_scope.
Local Open Scope list_scope.

(** [ProcessTree]. *)
Inductive process_tree : Type :=
  ProcessTree (pt_run : run_summary) (pt_children : list process_tree) (pt_active_nodes : list active_node).

Section Trees.
Context (map_order : process_table -> list (uuid * workflow_run)).

(** [Runtime::build_tree].  The code recurses without a bound; the fuel of
    [get_tree] is enough for every table whose parents form a forest
    ([build_tree_unfold]). *)
Fixpoint build_tree (fuel : nat) (t : process_table) (id : uuid) : option process_tree :=
  match fuel with
  | O => None
  | S fuel =>
      r ← t !! id;
      Some (ProcessTree (to_summary r)
              (omap (fun c => build_tree fuel t (rs_id c)) (children_of map_order t id))
              (wr_active_nodes r))
  end.

(** [Runtime::get_tree]. *)
Definition get_tree (t : process_table) (id : uuid) : option process_tree := build_tree (S (size t)) t id.
End Trees.

(** * JSON

    The derived serializations, as values. *)

Section Views.
Context (show_uuid : uuid -> string) (show_time : datetime -> string).

Definition summary_to_json (s : run_summary) : json :=
  JObject (obj_of_list
    [("id", JString (show_uuid (rs_id s)));
     ("parent_id", opt_json (fun p => JString (show_uuid p)) (rs_parent_id s));
     ("workflow_id", JString (rs_workflow_id s)); ("namespace", JString (rs_namespace s));
     ("status", JObject (obj_of_list (run_status_members (rs_status s))));
     ("actor_id", JString (rs_actor_id s)); ("actor_role", JString (role_to_string (rs_actor_role s)));
     ("started_at", JString (show_time (rs_started_at s)));
     ("active_node_count", JNumber (PosInt (rs_active_node_count s)));
     ("steps_executed", JNumber (PosInt (rs_steps_executed s)))]).

Definition detail_to_json (d : run_detail) : json :=
  JObject (obj_of_list
    [("summary", summary_to_json (rd_summary d));
     ("active_nodes", JArray (map (active_node_to_json show_time) (rd_active_nodes d)));
     ("capabilities", JArray (map JString (rd_capabilities d)));
     ("children", JArray (map summary_to_json (rd_children d)))]).

Fixpoint tree_to_json (t : process_tree) : json :=
  match t with
  | ProcessTree run children nodes =>
      JObject (obj_of_list
        [("run", summary_to_json run); ("children", JArray (map tree_to_json children));
         ("active_nodes", JArray (map (active_node_to_json show_time) nodes))])
  end.

Definition metrics_to_json (m : runtime_metrics) : json :=
  JObject (obj_of_list
    [("active_runs", JNumber (PosInt (active_runs m))); ("total_completed", JNumber (PosInt (total_completed m)));
     ("total_failed", JNumber (PosInt (total_failed m))); ("total_cancelled", JNumber (PosInt (total_cancelled m)));
     ("uptime_seconds", JNumber (PosInt (uptime_seconds m)))]).
End Views.

(** * Theory *)

Section TreeTheory.
Context (map_order : process_table -> list (uuid * workflow_run)).
Context (map_order_ok : forall t, map_order t ≡ₚ map_to_list t).

(** Parents form a forest: [rank] grows from parent to child. *)
Definition forest (rank : uuid -> nat) (t : process_table) : Prop :=
  forall id r p, t !! id = Some r -> wr_id r = id /\ (wr_parent_id r = Some p -> rank p < rank id).

Lemma children_rank rank t id c :
  forest rank t -> c ∈ children_of map_order t id ->
  rank id < rank (rs_id c) /\ is_Some (t !! rs_id c).
Proof.
  intros Hf (kv & -> & Hin)%list_elem_of_fmap.
  apply list_elem_of_In, filter_In in Hin as [Hin Hp%bool_decide_eq_true].
  apply list_elem_of_In in Hin. rewrite map_order_ok in Hin. destruct kv as [k r].
  apply elem_of_map_to_list in Hin. cbn in *. destruct (Hf k r id Hin) as [-> Hr]. split; [by apply Hr|by exists r].
Qed.

Lemma omap_ext_in {A B} (f g : A -> option B) (l : list A) :
  (forall x, x ∈ l -> f x = g x) -> omap f l = omap g l.
Proof.
  induction l as [|x l IH]; intros H; [done|]. cbn. rewrite (H x) by left.
  rewrite IH; [done|]. intros y Hy. apply H. by right.
Qed.

(** More fuel than ranks left above a run changes nothing. *)
Lemma build_tree_fuel rank bound t n m id :
  forest rank t -> (forall id, is_Some (t !! id) -> rank id <= bound) ->
  (is_Some (t !! id) -> bound < n + rank id) -> n <= m ->
  (0 < n) -> build_tree map_order m t id = build_tree map_order n t id.
Proof.
  intros Hf Hb. revert m id. induction n as [|n IH]; intros m id Hn Hm Hpos; [lia|].
  destruct m as [|m]; [lia|]. cbn [build_tree].
  destruct (t !! id) as [r|] eqn:Hr; [|done]. cbn. f_equal. f_equal.
  apply omap_ext_in. intros c Hc. destruct (children_rank rank t id c Hf Hc) as [Hrank Hsome].
  specialize (Hb _ Hsome). assert (bound < S n + rank id) as Hlt by (apply Hn; by exists r).
  apply IH; try lia.
Qed.

(** [get_tree] answers what the code's unbounded recursion answers. *)
Lemma build_tree_unfold rank t id :
  forest rank t -> (forall id, is_Some (t !! id) -> rank id < S (size t)) ->
  get_tree map_order t id =
    r ← t !! id;
    Some (ProcessTree (to_summary r)
            (omap (fun c => get_tree map_order t (rs_id c)) (children_of map_order t id))
            (wr_active_nodes r)).
Proof.
  intros Hf Hb. unfold get_tree at 1. cbn [build_tree]. destruct (t !! id) as [r|] eqn:Hr; [|done].
  cbn [mbind option_bind]. f_equal. f_equal. apply omap_ext_in. intros c Hc.
  destruct (children_rank rank t id c Hf Hc) as [Hrank Hsome]. symmetry. unfold get_tree.
  assert (0 < size t) as Hs.
  { apply Nat.neq_0_lt_0, (map_size_ne_0_lookup_2 t id). by exists r. }
  apply (build_tree_fuel rank (size t)); [done| |intros _; lia|lia|done].
  intros id' Hid. specialize (Hb id' Hid). lia.
Qed.

(** Reachable runs have no parents, so every tree is a leaf. *)
Lemma reachable_tree show_uuid show_time show_u64 st id :
  rtc (rt_step map_order show_uuid show_time show_u64) runtime_new st ->
  get_tree map_order (rt_table st) id =
    r ← rt_table st !! id; Some (ProcessTree (to_summary r) [] (wr_active_nodes r)).
Proof.
  intros Hst%reachable_invariant.
  assert (forall id r, rt_table st !! id = Some r -> wr_id r = id /\ wr_parent_id r = None) as Hp.
  { intros i r Hr. by destruct (ri_table st Hst i r Hr) as (? & ? & _). }
  rewrite (build_tree_unfold (fun _ => 0)); [|intros i r p Hr; destruct (Hp i r Hr) as [? ->]; by split|lia].
  rewrite (no_children map_order (rt_table st) id map_order_ok); [done|]. intros i r Hr. by destruct (Hp i r Hr).
Qed.
End TreeTheory.
