(* ===== verification/Budget.v ===== *)
(** Budget cells ([konf-runtime/src/budget.rs]): one shared amount per trace,
    taken from by decrements.

    Every operation holds the lock of the table, so what several tasks do is
    one sequence of operations. *)

From S2P Require Import Prelude Json Envelope.

Local Open Scope string_scope.
Local Open Scope list_scope.
Local Open Scope Z_scope.

(** [BudgetError]. *)
Inductive budget_error : Type :=
  | BeNotFound
  | BeAlreadyExists
  | BeInsufficient (remaining requested : Z).

Abbreviation budget_table := (gmap uuid Z).

(** [BudgetTable::mint]. *)
Definition mint (trace_id : uuid) (amount : Z) (cells : budget_table)
  : result budget_error unit * budget_table :=
  match cells !! trace_id with
  | Some _ => (Err BeAlreadyExists, cells)
  | None => (Ok tt, <[trace_id := amount]> cells)
  end.

(** [BudgetTable::decrement]; the subtraction is one of [i64]. *)
Definition decrement (trace_id : uuid) (amount : Z) (cells : budget_table)
  : result budget_error Z * budget_table :=
  match cells !! trace_id with
  | None => (Err BeNotFound, cells)
  | Some current =>
      if current <? amount then (Err (BeInsufficient current amount), cells)
      else
        let new := wrap_i64 (current - amount) in
        (Ok new, <[trace_id := new]> cells)
  end.

(** [BudgetTable::remaining] and [remove]. *)
Definition remaining (trace_id : uuid) (cells : budget_table) : option Z := cells !! trace_id.
Definition remove (trace_id : uuid) (cells : budget_table) : option Z * budget_table :=
  (cells !! trace_id, delete trace_id cells).

(** [Display] of a [BudgetError]. *)
Definition budget_error_to_string (show_i64 : Z -> string) (e : budget_error) : string :=
  match e with
  | BeNotFound => "no budget cell found for trace"
  | BeAlreadyExists => "budget cell already exists for trace"
  | BeInsufficient r q =>
      String.append "insufficient budget: " (String.append (show_i64 r)
        (String.append " remaining, " (String.append (show_i64 q) " requested")))
  end.

(** * Sequences of decrements *)

(** The amounts asked for, in the order the lock was taken: the answers, and
    the table they leave. *)
Fixpoint decrements (trace_id : uuid) (amounts : list Z) (cells : budget_table)
  : list (result budget_error Z) * budget_table :=
  match amounts with
  | [] => ([], cells)
  | a :: rest =>
      let '(r, cells1) := decrement trace_id a cells in
      let '(rs, cells2) := decrements trace_id rest cells1 in
      (r :: rs, cells2)
  end.

(** What was granted of what was asked. *)
Fixpoint granted (amounts : list Z) (answers : list (result budget_error Z)) : Z :=
  match amounts, answers with
  | a :: amounts, r :: answers => (if is_ok r then a else 0) + granted amounts answers
  | _, _ => 0
  end.

(** * Theory *)

Lemma wrap_i64_id z : in_i64 z -> wrap_i64 z = z.
Proof. unfold in_i64, i64_min, i64_max, wrap_i64. intros. rewrite Z.mod_small; lia. Qed.

Lemma decrement_spec trace_id a cells current :
  cells !! trace_id = Some current -> in_i64 current -> 0 <= a ->
  decrement trace_id a cells =
    if current <? a then (Err (BeInsufficient current a), cells)
    else (Ok (current - a), <[trace_id := current - a]> cells).
Proof.
  intros Hc Hi Ha. unfold decrement. rewrite Hc. destruct (Z.ltb_spec current a); [done|].
  rewrite wrap_i64_id; [done|]. unfold in_i64, i64_min, i64_max in *. lia.
Qed.

(** A decrement by a negative amount is granted whatever is left, and refills
    the cell. *)
Example negative_decrement_refills :
  decrement 1%N (-50) {[1%N := 0]} = (Ok 50, {[1%N := 50]}).
Proof. vm_compute. reflexivity. Qed.

(** C22: however decrements of one cell interleave, with amounts that are not
    negative, the cell is never overdrawn and nothing is lost: what is left is
    what it held less what was granted, no subtraction overflows, and a request
    is refused exactly when it exceeds what is left at its turn, leaving the
    cell as it is; the other cells are untouched. *)
Theorem budget_conserved trace_id amounts cells current :
  cells !! trace_id = Some current -> in_i64 current -> 0 <= current -> Forall (fun a => 0 <= a) amounts ->
  let '(answers, cells') := decrements trace_id amounts cells in
  let left_ := current - granted amounts answers in
  remaining trace_id cells' = Some left_ /\ 0 <= left_ <= current /\
  (forall id, id <> trace_id -> remaining id cells' = remaining id cells) /\
  (forall i a r, amounts !! i = Some a -> answers !! i = Some r ->
     let before := current - granted (take i amounts) (take i answers) in
     r = if before <? a then Err (BeInsufficient before a) else Ok (before - a)).
Proof.
  revert cells current. induction amounts as [|a rest IH]; intros cells current Hc Hi Hpos Hall; cbn.
  { unfold remaining. split_and!; [rewrite Hc; f_equal; lia|lia|lia|done|]. by intros []. }
  apply Forall_cons in Hall as [Ha Hrest]. rewrite (decrement_spec _ _ _ current) by done.
  destruct (Z.ltb_spec current a) as [Hlt|Hge].
  - specialize (IH cells current Hc Hi Hpos Hrest).
    destruct (decrements trace_id rest cells) as [rs cells2]. destruct IH as (H1 & H2 & H3 & H4).
    cbn. split_and!; [done|lia|lia|done|]. intros [|i] b r; cbn.
    + intros [= <-] [= <-]. rewrite Z.sub_0_r. by destruct (Z.ltb_spec current a); [|lia].
    + intros Hb Hr. exact (H4 i b r Hb Hr).
  - specialize (IH (<[trace_id := current - a]> cells) (current - a)).
    destruct (decrements trace_id rest _) as [rs cells2].
    destruct IH as (H1 & H2 & H3 & H4); [by rewrite lookup_insert_eq| |lia|done|].
    { unfold in_i64, i64_min, i64_max in *. lia. }
    cbn. split_and!; [rewrite H1; f_equal; lia|lia|lia| |].
    + intros id Hid. rewrite H3 by done. unfold remaining. by rewrite lookup_insert_ne.
    + intros [|i] b r; cbn.
      * intros [= <-] [= <-]. rewrite Z.sub_0_r. by destruct (Z.ltb_spec current a); [lia|].
      * intros Hb Hr. specialize (H4 i b r Hb Hr). cbn in H4.
        by rewrite Z.sub_add_distr.
Qed.

Lemma budget_conserved_witness :
  decrements 1%N [30; 80; 70] {[1%N := 100]}
    = ([Ok 70; Err (BeInsufficient 70 80); Ok 0], {[1%N := 0]}) /\
  remaining 1%N {[1%N := 0]} = Some (100 - granted [30; 80; 70] [Ok 70; Err (BeInsufficient 70 80); Ok 0]).
Proof.
  split; [vm_compute; reflexivity|].
  pose proof (budget_conserved 1%N [30; 80; 70] {[1%N := 100]} 100 eq_refl
    ltac:(unfold in_i64, i64_min, i64_max; lia) ltac:(lia) ltac:(repeat constructor; lia)) as H.
  exact (proj1 H).
Defined.
