(* ===== verification/Intents.v ===== *)
(** The durable store of runner intents ([konf-runtime/src/runner_intents.rs]):
    what a spawn leaves on disk so that the next boot can replay it.

    The two redb tables are a finite map and a finite set of pairs; the order
    in which a table is iterated, the postcard encoding and the JSON printer
    are parameters.  An operation of [None] is a serialization error; storage
    errors and the joins of blocking tasks are left to the callers, which treat
    them alike. *)

From S2P Require Import Prelude Json Envelope Scope Table Journal.

Local Open Scope string_scope.
Local Open Scope list_scope.

(** [TerminalStatus]. *)
Inductive terminal_status : Type :=
  | TsSucceeded
  | TsFailed (error : string)
  | TsCancelled (reason : string).

(** [RunnerIntent]. *)
Record runner_intent : Type := RunnerIntent {
  ri_run_id : string;
  ri_parent_id : option string;
  ri_workflow : string;
  ri_input : json;
  ri_namespace : string;
  ri_capabilities : list string;
  ri_actor : actor;
  ri_session_id : string;
  ri_spawned_at : datetime;
  ri_terminal : option terminal_status;
  ri_replay_count : Z;
}.

(** [RunnerIntent::new]. *)
Definition intent_new (now : datetime) (run_id workflow : string) (input : json) (ns : string)
    (capabilities : list string) (a : actor) (session_id : string) : runner_intent := {|
  ri_run_id := run_id; ri_parent_id := None; ri_workflow := workflow; ri_input := input;
  ri_namespace := ns; ri_capabilities := capabilities; ri_actor := a; ri_session_id := session_id;
  ri_spawned_at := now; ri_terminal := None; ri_replay_count := 0 |}.

(** [StoredIntent]. *)
Record stored_intent : Type := StoredIntent {
  si_run_id : string;
  si_parent_id : option string;
  si_workflow : string;
  si_input_json : string;
  si_namespace : string;
  si_capabilities : list string;
  si_actor : actor;
  si_session_id : string;
  si_spawned_at_micros : Z;
  si_terminal : option terminal_status;
  si_replay_count : Z;
}.

Definition with_terminal (s : option terminal_status) (i : runner_intent) : runner_intent := {|
  ri_run_id := ri_run_id i; ri_parent_id := ri_parent_id i; ri_workflow := ri_workflow i;
  ri_input := ri_input i; ri_namespace := ri_namespace i; ri_capabilities := ri_capabilities i;
  ri_actor := ri_actor i; ri_session_id := ri_session_id i; ri_spawned_at := ri_spawned_at i;
  ri_terminal := s; ri_replay_count := ri_replay_count i |}.

(** What survives of an intent: its time stamp is cut to microseconds. *)
Definition truncated (i : runner_intent) : runner_intent := {|
  ri_run_id := ri_run_id i; ri_parent_id := ri_parent_id i; ri_workflow := ri_workflow i;
  ri_input := ri_input i; ri_namespace := ri_namespace i; ri_capabilities := ri_capabilities i;
  ri_actor := ri_actor i; ri_session_id := ri_session_id i;
  ri_spawned_at := from_micros (timestamp_micros (ri_spawned_at i));
  ri_terminal := ri_terminal i; ri_replay_count := ri_replay_count i |}.

Definition is_terminated (i : runner_intent) : bool :=
  match ri_terminal i with Some _ => true | None => false end.

Section Store.
Context {B : Type}.
Context (encode : stored_intent -> B) (decode : B -> option stored_intent).
Context (json_to_string : json -> string) (json_of_string : string -> option json).
Context (iter : gmap string B -> list (string * B)).

(** The tables of [RunnerIntentStore]. *)
Record intent_store : Type := IntentTables {
  intents : gmap string B;
  intents_by_namespace : gset (string * string);
}.

(** [RunnerIntentStore::open] on an empty database. *)
Definition store_open : intent_store := IntentTables ∅ ∅.

(** [StoredIntent::from_intent] and [into_intent]. *)
Definition from_intent (i : runner_intent) : stored_intent := {|
  si_run_id := ri_run_id i; si_parent_id := ri_parent_id i; si_workflow := ri_workflow i;
  si_input_json := json_to_string (ri_input i); si_namespace := ri_namespace i;
  si_capabilities := ri_capabilities i; si_actor := ri_actor i; si_session_id := ri_session_id i;
  si_spawned_at_micros := timestamp_micros (ri_spawned_at i); si_terminal := ri_terminal i;
  si_replay_count := ri_replay_count i |}.

Definition into_intent (s : stored_intent) : option runner_intent :=
  input ← json_of_string (si_input_json s);
  Some {| ri_run_id := si_run_id s; ri_parent_id := si_parent_id s; ri_workflow := si_workflow s;
          ri_input := input; ri_namespace := si_namespace s; ri_capabilities := si_capabilities s;
          ri_actor := si_actor s; ri_session_id := si_session_id s;
          ri_spawned_at := from_micros (si_spawned_at_micros s); ri_terminal := si_terminal s;
          ri_replay_count := si_replay_count s |}.

(** [insert]: one transaction over both tables. *)
Definition insert_intent (i : runner_intent) (st : intent_store) : intent_store := {|
  intents := <[ri_run_id i := encode (from_intent i)]> (intents st);
  intents_by_namespace := {[(ri_namespace i, ri_run_id i)]} ∪ intents_by_namespace st |}.

(** [get]: [Some None] when there is no such intent. *)
Definition get_intent (run_id : string) (st : intent_store) : option (option runner_intent) :=
  match intents st !! run_id with
  | None => Some None
  | Some b => s ← decode b; i ← into_intent s; Some (Some i)
  end.

(** [mark_terminal]. *)
Definition mark_terminal_intent (run_id : string) (status : terminal_status) (st : intent_store)
  : option intent_store :=
  found ← get_intent run_id st;
  match found with
  | None => Some st
  | Some i => Some (insert_intent (with_terminal (Some status) i) st)
  end.

(** The scan of [list_unterminated] and [list_by_namespace]: every value is
    decoded, the input only of those that are kept. *)
Fixpoint scan_intents (keep : stored_intent -> bool) (l : list (string * B)) : option (list runner_intent) :=
  match l with
  | [] => Some []
  | (_, b) :: l' =>
      s ← decode b;
      if keep s then i ← into_intent s; rest ← scan_intents keep l'; Some (i :: rest)
      else scan_intents keep l'
  end.

Definition unterminated (s : stored_intent) : bool :=
  match si_terminal s with None => true | Some _ => false end.

(** [list_unterminated]. *)
Definition list_unterminated (st : intent_store) : option (list runner_intent) :=
  out ← scan_intents unterminated (iter (intents st));
  Some (sort_by_key ri_spawned_at out).

(** [list_by_namespace]. *)
Definition list_by_namespace (prefix : string) (include_terminal : bool) (st : intent_store)
  : option (list runner_intent) :=
  out ← scan_intents (fun s => starts_with (si_namespace s) prefix && (include_terminal || unterminated s))
          (iter (intents st));
  Some (sort_by_key ri_spawned_at out).

(** The first pass of [gc]. *)
Fixpoint gc_victims (cutoff_micros : Z) (l : list (string * B)) : option (list (string * string)) :=
  match l with
  | [] => Some []
  | (k, b) :: l' =>
      s ← decode b;
      rest ← gc_victims cutoff_micros l';
      Some (if negb (unterminated s) && (si_spawned_at_micros s <? cutoff_micros)%Z
            then (k, si_namespace s) :: rest else rest)
  end.

(** [gc]: the number of entries removed, and the tables. *)
Definition gc_intents (older_than : datetime) (st : intent_store) : option (Z * intent_store) :=
  victims ← gc_victims (timestamp_micros older_than) (iter (intents st));
  Some (Z.of_nat (length victims),
        {| intents := fold_left (fun t v => delete v.1 t) victims (intents st);
           intents_by_namespace :=
             fold_left (fun ns v => ns ∖ {[(v.2, v.1)]}) victims (intents_by_namespace st) |}).

(** * The abstract store: a finite map of intents *)

(** The printer and the parser of JSON agree on an intent's input. *)
Definition printable (i : runner_intent) : Prop :=
  json_of_string (json_to_string (ri_input i)) = Some (ri_input i).

(** Every value is the encoding of an intent of its own key, which the
    namespace index lists. *)
Record represents (st : intent_store) (m : gmap string runner_intent) : Prop := {
  rep_values : intents st = (fun i => encode (from_intent i)) <$> m;
  rep_keys k i : m !! k = Some i -> ri_run_id i = k /\ truncated i = i /\ printable i;
  rep_index k i : m !! k = Some i -> (ri_namespace i, k) ∈ intents_by_namespace st;
}.

(** The intents that [gc] takes. *)
Definition collectable (older_than : datetime) (i : runner_intent) : bool :=
  is_terminated i && (timestamp_micros (ri_spawned_at i) <? timestamp_micros older_than)%Z.

(** * Theory *)

Context (codec : forall s, decode (encode s) = Some s).
Context (iter_perm : forall t, iter t ≡ₚ map_to_list t).

Lemma into_from_intent i : printable i -> into_intent (from_intent i) = Some (truncated i).
Proof. unfold into_intent, printable. cbn. by intros ->. Qed.

Lemma truncated_idemp i : truncated (truncated i) = truncated i.
Proof. unfold truncated, from_micros, timestamp_micros. cbn. by rewrite Z.div_mul. Qed.

Lemma represents_open : represents store_open ∅.
Proof. split; [by rewrite fmap_empty|by intros k i|by intros k i]. Qed.

Lemma represents_insert st m i :
  represents st m -> printable i -> represents (insert_intent i st) (<[ri_run_id i := truncated i]> m).
Proof.
  intros [Hv Hk Hi] Hp. split; cbn.
  - rewrite fmap_insert, Hv. f_equal. f_equal. unfold from_intent. cbn.
    unfold from_micros, timestamp_micros. by rewrite Z.div_mul.
  - intros k i'. rewrite lookup_insert. case_decide; [intros [= <-]; split_and!; [done|apply truncated_idemp|done]|apply Hk].
  - intros k i'. rewrite lookup_insert. case_decide as Hd.
    + intros [= <-]. subst k. cbn. by apply elem_of_union_l, elem_of_singleton.
    + intros H. by apply elem_of_union_r, Hi.
Qed.

Lemma represents_get st m k : represents st m -> get_intent k st = Some (m !! k).
Proof.
  intros [Hv Hk _]. unfold get_intent. rewrite Hv, lookup_fmap. destruct (m !! k) as [i|] eqn:Hm; cbn; [|done].
  destruct (Hk _ _ Hm) as (_ & Ht & Hp). rewrite codec. cbn. rewrite into_from_intent by done. cbn. by rewrite Ht.
Qed.

Lemma represents_iter st m : represents st m ->
  exists l, iter (intents st) = prod_map id (fun i => encode (from_intent i)) <$> l /\ l ≡ₚ map_to_list m.
Proof.
  intros [Hv _ _]. pose proof (iter_perm (intents st)) as Hp. rewrite Hv in Hp at 2.
  rewrite map_to_list_fmap in Hp.
  destruct (Permutation_map_inv _ _ Hp) as (l & Hl & Hpl).
  exists l. split; [|by symmetry]. rewrite Hl. apply list_fmap_ext. by intros i [].
Qed.

Lemma scan_spec keep (l : list (string * runner_intent)) :
  Forall (fun kv => truncated kv.2 = kv.2 /\ printable kv.2) l ->
  scan_intents keep (prod_map id (fun i => encode (from_intent i)) <$> l)
  = Some (snd <$> bfilter (fun kv => keep (from_intent kv.2)) l).
Proof.
  induction 1 as [|[k i] l [Hi Hp] Hl IH]; cbn; [done|]. rewrite codec. cbn -[from_intent].
  destruct (keep (from_intent i)); [|exact IH].
  rewrite into_from_intent by done. cbn -[from_intent]. rewrite IH. cbn in *. by rewrite Hi.
Qed.

Lemma represents_truncated (m : gmap string runner_intent) :
  (forall k i, m !! k = Some i -> ri_run_id i = k /\ truncated i = i /\ printable i) ->
  forall l, l ≡ₚ map_to_list m -> Forall (fun kv => truncated kv.2 = kv.2 /\ printable kv.2) l.
Proof.
  intros Hk l Hl. apply Forall_forall. intros [k i] Hin. rewrite Hl in Hin.
  apply elem_of_map_to_list in Hin. by apply (Hk k i).
Qed.

(** A scan of the store is a scan of the abstract map, in some order. *)
Lemma represents_scan st m keep : represents st m ->
  exists out, scan_intents keep (iter (intents st)) = Some out /\
    out ≡ₚ bfilter (fun i => keep (from_intent i)) (snd <$> map_to_list m).
Proof.
  intros Hr. destruct (represents_iter _ _ Hr) as (l & -> & Hl).
  rewrite scan_spec by (eapply represents_truncated; [apply Hr|done]).
  eexists. split; [done|]. rewrite <- Hl. clear Hl Hr.
  induction l as [|[k i] l IH]; cbn; [done|]. destruct (keep _); cbn; [by rewrite IH|done].
Qed.

Lemma victims_spec cutoff (l : list (string * runner_intent)) :
  Forall (fun kv => truncated kv.2 = kv.2 /\ printable kv.2) l ->
  gc_victims (timestamp_micros cutoff)
    (prod_map id (fun i => encode (from_intent i)) <$> l)
  = Some ((fun kv => (kv.1, ri_namespace kv.2)) <$> bfilter (fun kv => collectable cutoff kv.2) l).
Proof.
  induction 1 as [|[k i] l Hi Hl IH]; cbn; [done|]. rewrite codec. cbn -[from_intent].
  rewrite IH. cbn. unfold collectable, unterminated, is_terminated. cbn.
  destruct (ri_terminal i); cbn; [|done]. by destruct (_ <? _)%Z.
Qed.

Lemma fold_delete_lookup {A V} (f : A -> string) (l : list A) (t : gmap string V) k :
  fold_left (fun t v => delete (f v) t) l t !! k = if decide (k ∈ f <$> l) then None else t !! k.
Proof.
  revert t. induction l as [|a l IH]; intros t; cbn; [by rewrite decide_False by apply not_elem_of_nil|].
  rewrite IH. destruct (decide (k ∈ f <$> l)) as [Hin|Hn].
  - rewrite decide_True; [done|by right].
  - destruct (decide (f a = k)) as [<-|Hd].
    + rewrite lookup_delete_eq, decide_True; [done|by left].
    + rewrite lookup_delete_ne, decide_False by (done || by intros [?|?]%elem_of_cons). done.
Qed.

Lemma fold_difference_elem {A} (f : A -> string * string) (l : list A) (X : gset (string * string)) p :
  p ∈ fold_left (fun X v => X ∖ {[f v]}) l X <-> p ∈ X /\ (p ∉ f <$> l).
Proof.
  revert X. induction l as [|a l IH]; intros X; cbn; [rewrite elem_of_nil; tauto|].
  rewrite IH, elem_of_difference, elem_of_singleton, elem_of_cons. tauto.
Qed.

Lemma represents_gc st m cutoff : represents st m ->
  exists st', gc_intents cutoff st
    = Some (Z.of_nat (length (bfilter (collectable cutoff) (snd <$> map_to_list m))), st') /\
  represents st' (filter (fun kv => collectable cutoff kv.2 = false) m).
Proof.
  intros Hr. destruct (represents_iter _ _ Hr) as (l & Hit & Hl). unfold gc_intents. rewrite Hit.
  rewrite victims_spec by (eapply represents_truncated; [apply Hr|done]). cbn [mbind option_bind].
  eexists. split.
  - f_equal. f_equal. rewrite length_fmap. f_equal. rewrite <- Hl. clear.
    induction l as [|[k i] l IH]; cbn; [done|]. destruct (collectable cutoff i); cbn; by rewrite IH.
  - assert (Hv : forall k i, m !! k = Some i ->
      (k ∈ fst <$> ((fun kv => (kv.1, ri_namespace kv.2)) <$> bfilter (fun kv => collectable cutoff kv.2) l))
      <-> collectable cutoff i = true).
    { intros k i Hm. rewrite <- list_fmap_compose, list_elem_of_fmap. split.
      - intros ([k' i'] & -> & [Hin Hc]%elem_of_bfilter). rewrite Hl, elem_of_map_to_list in Hin.
        cbn in *. congruence.
      - intros Hc. exists (k, i). split; [done|]. apply elem_of_bfilter. split; [|done].
        by rewrite Hl, elem_of_map_to_list. }
    destruct Hr as [Hval Hk Hi]. split; cbn.
    + apply map_eq. intros k. rewrite fold_delete_lookup, lookup_fmap, map_lookup_filter, Hval, lookup_fmap.
      destruct (m !! k) as [i|] eqn:Hm; cbn; [|by case_decide]. pose proof (Hv k i Hm) as Hvk.
      destruct (collectable cutoff i); case_decide as Hd; case_guard as Hg; cbn; try done.
      * by destruct Hd; apply Hvk.
      * by apply Hvk in Hd.
    + intros k i [Hm _]%map_lookup_filter_Some. by apply Hk.
    + intros k i [Hm Hc]%map_lookup_filter_Some. cbn in Hc.
      apply (fold_difference_elem (fun v => (v.2, v.1))). split; [by apply Hi|].
      rewrite <- list_fmap_compose, list_elem_of_fmap. intros ([k' i'] & [= Hns ->] & [Hin Hc']%elem_of_bfilter).
      rewrite Hl, elem_of_map_to_list in Hin. cbn in *. congruence.
Qed.

Lemma represents_mark st m k s : represents st m ->
  exists st', mark_terminal_intent k s st = Some st' /\ represents st' (alter (with_terminal (Some s)) k m).
Proof.
  intros Hr. unfold mark_terminal_intent. rewrite (represents_get _ _ k Hr). cbn [mbind option_bind].
  destruct (m !! k) as [i|] eqn:Hm; eexists; (split; [done|]).
  + destruct (rep_keys _ _ Hr _ _ Hm) as (Hid & Ht & Hp).
    pose proof (represents_insert _ _ (with_terminal (Some s) i) Hr Hp) as Hi. cbn in Hi. rewrite Hid in Hi.
    replace (alter (with_terminal (Some s)) k m) with (<[k:=truncated (with_terminal (Some s) i)]> m); [done|].
    apply map_eq. intros k'. rewrite lookup_insert, lookup_alter. case_decide as Hd; [|done].
    subst k'. rewrite Hm. cbn. f_equal. rewrite <- Ht at 2. done.
  + replace (alter (with_terminal (Some s)) k m) with m; [done|].
    apply map_eq. intros k'. rewrite lookup_alter. case_decide as Hd; [|done]. subst k'. by rewrite Hm.
Qed.

Lemma represents_unterminated st m : represents st m ->
  exists l, list_unterminated st = Some l /\
    StronglySorted (fun a b => (ri_spawned_at a <= ri_spawned_at b)%Z) l /\
    l ≡ₚ bfilter (fun i => negb (is_terminated i)) (snd <$> map_to_list m).
Proof.
  intros Hr. destruct (represents_scan _ _ unterminated Hr) as (out & Ho & Hp). unfold list_unterminated. rewrite Ho.
  eexists. split; [done|]. split; [apply sort_by_key_sorted|]. rewrite sort_by_key_perm, Hp.
  erewrite bfilter_ext; [done|]. intros i _. unfold unterminated, is_terminated. cbn. by destruct (ri_terminal i).
Qed.

Lemma represents_NoDup st m : represents st m -> NoDup (snd <$> map_to_list m).
Proof.
  intros Hr. apply (NoDup_fmap_1 ri_run_id).
  replace (ri_run_id <$> (snd <$> map_to_list m)) with (fst <$> map_to_list m); [apply NoDup_fst_map_to_list|].
  rewrite <- list_fmap_compose. apply list_fmap_ext. intros n [k i] Hin. cbn.
  apply list_elem_of_lookup_2, elem_of_map_to_list in Hin. symmetry. by apply (rep_keys _ _ Hr).
Qed.

(** A store that represents a finite map of intents keeps doing so, and
    each operation is the evident one on the map: [get] is lookup, [insert]
    replaces, [mark_terminal] sets the status of a known intent and ignores an
    unknown one, the two listings are the matching intents by spawn time, and
    [gc] removes exactly the terminated intents older than the cutoff. *)
Theorem intents_refine st m : represents st m ->
  (forall k, get_intent k st = Some (m !! k)) /\
  (forall i, printable i -> represents (insert_intent i st) (<[ri_run_id i := truncated i]> m)) /\
  (forall k s, exists st',
     mark_terminal_intent k s st = Some st' /\
     represents st' (alter (with_terminal (Some s)) k m)) /\
  (exists l, list_unterminated st = Some l /\
     StronglySorted (fun a b => (ri_spawned_at a <= ri_spawned_at b)%Z) l /\
     l ≡ₚ bfilter (fun i => negb (is_terminated i)) (snd <$> map_to_list m)) /\
  (forall prefix all, exists l, list_by_namespace prefix all st = Some l /\
     StronglySorted (fun a b => (ri_spawned_at a <= ri_spawned_at b)%Z) l /\
     l ≡ₚ bfilter (fun i => starts_with (ri_namespace i) prefix && (all || negb (is_terminated i)))
            (snd <$> map_to_list m)) /\
  (forall cutoff, exists st', gc_intents cutoff st
     = Some (Z.of_nat (length (bfilter (collectable cutoff) (snd <$> map_to_list m))), st') /\
     represents st' (filter (fun kv => collectable cutoff kv.2 = false) m)).
Proof.
  intros Hr. split_and!.
  - intros k. by apply represents_get.
  - intros i Hp. by apply represents_insert.
  - intros k s. by apply represents_mark.
  - by apply represents_unterminated.
  - intros prefix all. unfold list_by_namespace.
    destruct (represents_scan _ _
      (fun s => starts_with (si_namespace s) prefix && (all || unterminated s)) Hr) as (out & Ho & Hp). rewrite Ho.
    eexists. split; [done|]. split; [apply sort_by_key_sorted|]. rewrite sort_by_key_perm, Hp.
    erewrite bfilter_ext; [done|]. intros i _. unfold unterminated, is_terminated. cbn. by destruct (ri_terminal i).
  - intros cutoff. by apply represents_gc.
Qed.

End Store.

(** * The interface to the runner

    What the runner needs of a store: to insert an intent, to mark one
    terminal, to list the ones to replay.  [rep] relates a store to the map it
    holds, [good] says which intents it can hold. *)

Class IntentOps (T : Type) := {
  is_insert : runner_intent -> T -> T;
  is_mark : string -> terminal_status -> T -> option T;
  is_unterminated : T -> option (list runner_intent);
}.

Class IntentLaws (T : Type) `{IntentOps T} (rep : T -> gmap string runner_intent -> Prop)
    (good : runner_intent -> Prop) := {
  is_keys_rep st m k i : rep st m -> m !! k = Some i -> ri_run_id i = k;
  is_insert_rep st m i : rep st m -> good i -> rep (is_insert i st) (<[ri_run_id i := truncated i]> m);
  is_mark_rep st m k s : rep st m ->
    exists st', is_mark k s st = Some st' /\ rep st' (alter (with_terminal (Some s)) k m);
  is_unterminated_rep st m : rep st m ->
    exists l, is_unterminated st = Some l /\ NoDup l /\
      forall i, i ∈ l <-> m !! ri_run_id i = Some i /\ ri_terminal i = None;
}.

#[export] Instance redb_intents {B} (encode : stored_intent -> B) (decode : B -> option stored_intent)
    (to_text : json -> string) (of_text : string -> option json)
    (iter : gmap string B -> list (string * B))   : IntentOps (intent_store (B:=B)) := {
  is_insert := insert_intent encode to_text;
  is_mark := mark_terminal_intent encode decode to_text of_text;
  is_unterminated := list_unterminated decode of_text iter;
}.

#[export] Instance redb_intents_laws {B} (encode : stored_intent -> B) (decode : B -> option stored_intent)
    (to_text : json -> string) (of_text : string -> option json) (iter : gmap string B -> list (string * B))
    (codec : forall s, decode (encode s) = Some s) (iter_perm : forall t, iter t ≡ₚ map_to_list t) :
  IntentLaws intent_store (H := redb_intents encode decode to_text of_text iter)
    (represents encode to_text of_text) (printable to_text of_text).
Proof.
  split; cbn.
  - intros st m k i Hr Hk. by destruct (rep_keys _ _ _ _ _ Hr _ _ Hk) as (? & _).
  - intros st m i. apply represents_insert.
  - intros st m k s Hr. by apply represents_mark.
  - intros st m Hr. destruct (represents_unterminated encode decode to_text of_text iter codec iter_perm st m Hr)
      as (l & Hl & _ & Hp). exists l. split; [done|]. split; [rewrite Hp; apply base.NoDup_ListNoDup, List.NoDup_filter, base.NoDup_ListNoDup; by eapply represents_NoDup|].
    intros i. rewrite Hp, elem_of_bfilter, list_elem_of_fmap.
    unfold is_terminated. split.
    + intros [([k i'] & -> & Hin) Ht]. apply elem_of_map_to_list in Hin. cbn in *.
      destruct (rep_keys _ _ _ _ _ Hr _ _ Hin) as (-> & _ & _). split; [done|].
      by destruct (ri_terminal i').
    + intros [Hm Ht]. rewrite Ht. split; [|done]. exists (ri_run_id i, i). split; [done|].
      by apply elem_of_map_to_list.
Qed.

(** * A store with two intents *)

Module Demo.

Definition to_text (_ : json) : string := "null".
Definition of_text (s : string) : option json := if String.eqb s "null" then Some JNull else None.

Definition spawned (run_id : string) (at_ : datetime) : runner_intent :=
  intent_new at_ run_id "brief" JNull "konf:a" ["memory_*"] (Actor "u" User) "s".

Definition store : intent_store :=
  insert_intent id to_text (spawned "r2" 2000) (insert_intent id to_text (spawned "r1" 5000) store_open).

Definition view : gmap string runner_intent := {["r2" := spawned "r2" 2000; "r1" := spawned "r1" 5000]}.

Lemma store_view : represents id to_text of_text store view.
Proof.
  apply (represents_insert id to_text of_text _ ({["r1" := spawned "r1" 5000]} : gmap string runner_intent)
           (spawned "r2" 2000)); [|done].
  apply (represents_insert id to_text of_text _ ∅ (spawned "r1" 5000)); [|done]. apply represents_open.
Qed.

Lemma intents_refine_witness :
  get_intent Some of_text "r1" store = Some (Some (spawned "r1" 5000)) /\
  exists st', gc_intents Some map_to_list 9000 store = Some (0%Z, st').
Proof.
  pose proof (intents_refine id Some to_text of_text map_to_list (fun s => eq_refl) (fun t => reflexivity _)
                store view store_view) as (Hget & _ & _ & _ & _ & Hgc).
  split; [rewrite (Hget "r1"); reflexivity|]. destruct (Hgc 9000%Z) as (st' & Hst & _).
  exists st'. exact Hst.
Defined.

End Demo.
