(* ===== verification/Runner.v ===== *)
(** The runner ([konf-tool-runner/src]): the registry of runs
    ([registry.rs]), the inline backend ([runners/inline.rs]) with its durable
    intents, and the tools that expose them ([tools.rs]).

    A run is a task of its own.  A step is what happens between two suspension
    points of a spawner, a task, a canceller or a waiter; an abort takes effect
    at some later suspension point of the task, if it still has one. *)

From S2P Require Import Prelude Json Error Envelope Scope Tool Events Intents.

Local Open Scope string_scope.
Local Open Scope list_scope.

(** * The registry *)

(** [RunState], with [is_terminal] and [label]. *)
Inductive run_state : Type :=
  | RPending
  | RRunning
  | RSucceeded (result : json)
  | RFailed (error : string)
  | RCancelled.

Definition state_is_terminal (s : run_state) : bool :=
  match s with RSucceeded _ | RFailed _ | RCancelled => true | _ => false end.

Definition label (s : run_state) : string :=
  match s with
  | RPending => "pending"
  | RRunning => "running"
  | RSucceeded _ => "succeeded"
  | RFailed _ => "failed"
  | RCancelled => "cancelled"
  end.

(** [RunRecord]. *)
Record run_record : Type := RunRecord {
  rr_id : string;
  rr_workflow : string;
  rr_backend : string;
  rr_state : run_state;
  rr_created_at : datetime;
  rr_started_at : option datetime;
  rr_finished_at : option datetime;
}.

(** [RunSlot]: the record, and whether a cancel hook is registered. *)
Record slot : Type := Slot { sl_record : run_record; sl_hook : bool }.

Abbreviation run_registry := (gmap string slot).

(** [insert_pending_with_id]. *)
Definition insert_pending (now : datetime) (id workflow backend : string) (reg : run_registry) : run_registry :=
  <[id := Slot (RunRecord id workflow backend RPending now None None) false]> reg.

(** [record]. *)
Definition record (id : string) (reg : run_registry) : option run_record := sl_record <$> reg !! id.

(** [mark_running]. *)
Definition mark_running (now : datetime) (id : string) (reg : run_registry) : run_registry :=
  alter (fun s => Slot
    (match rr_state (sl_record s) with
     | RPending =>
         let r := sl_record s in
         RunRecord (rr_id r) (rr_workflow r) (rr_backend r) RRunning (rr_created_at r) (Some now) (rr_finished_at r)
     | _ => sl_record s
     end) (sl_hook s)) id reg.

(** [mark_terminal]; the waiters it notifies are elsewhere. *)
Definition finish_record (now : datetime) (st : run_state) (r : run_record) : run_record :=
  if state_is_terminal (rr_state r) then r
  else RunRecord (rr_id r) (rr_workflow r) (rr_backend r) st (rr_created_at r) (rr_started_at r) (Some now).

Definition mark_terminal (now : datetime) (id : string) (st : run_state) (reg : run_registry) : run_registry :=
  alter (fun s => Slot (finish_record now st (sl_record s)) (sl_hook s)) id reg.

(** The hook is taken by [cancel] and set by [register_cancel_hook]. *)
Definition set_hook (b : bool) (id : string) (reg : run_registry) : run_registry :=
  alter (fun s => Slot (sl_record s) b) id reg.

Definition has_hook (id : string) (reg : run_registry) : bool :=
  match reg !! id with Some s => sl_hook s | None => false end.

(** * Specifications and envelopes *)

(** [RunnerError] with [Display]; the inline runner raises the second and the
    third variant. *)
Inductive runner_error : Type :=
  | RunNotFound (id : string)
  | WorkflowNotFound (name : string)
  | Backend (message : string)
  | InvalidRunnerInput (message : string)
  | UnsupportedOperation (message : string).

Definition runner_error_to_string (e : runner_error) : string :=
  match e with
  | RunNotFound id => String.append "run not found: " id
  | WorkflowNotFound n => String.append "workflow not found: " n
  | Backend m => String.append "runner backend failed: " m
  | InvalidRunnerInput m => String.append "invalid runner input: " m
  | UnsupportedOperation m => String.append "runner operation unsupported: " m
  end.

(** [WorkflowSpec]. *)
Record workflow_spec : Type := WorkflowSpec {
  ws_workflow : string;
  ws_input : json;
  ws_parent_scope : execution_scope;
  ws_parent_ctx : execution_context;
}.

(** [InlineRunner::tool_name]. *)
Definition tool_name (workflow : string) : string := String.append "workflow:" workflow.

(** The intent that [spawn_with_id] persists. *)
Definition spawn_intent (now : datetime) (id : string) (spec : workflow_spec) : runner_intent :=
  intent_new now id (ws_workflow spec) (ws_input spec) (namespace (ws_parent_scope spec))
    (capability_patterns (ws_parent_scope spec)) (scope_actor (ws_parent_scope spec))
    (ec_session_id (ws_parent_ctx spec)).

(** The envelope the task hands to the workflow tool. *)
Definition task_envelope (fresh : uuid) (now : datetime) (spec : workflow_spec) : envelope json :=
  let env := for_tool_dispatch fresh now (tool_name (ws_workflow spec)) (ws_input spec)
    (capability_patterns (ws_parent_scope spec)) (ec_trace_id (ws_parent_ctx spec))
    (namespace (ws_parent_scope spec)) "runner:inline" (String.append "runner_" (ws_workflow spec)) in
  {| env_id := env_id env; env_trace_id := env_trace_id env; env_parent_id := env_parent_id env;
     env_actor_id := env_actor_id env; env_namespace := env_namespace env;
     env_capabilities := env_capabilities env; env_target := env_target env;
     env_payload_type := env_payload_type env; env_payload := env_payload env;
     env_emitted_at := env_emitted_at env; env_step_index := env_step_index env;
     env_stream_id := env_stream_id env; env_deadline := env_deadline env;
     env_idempotency_key := env_idempotency_key env; env_qos_class := env_qos_class env;
     env_references := env_references env;
     env_metadata := obj_insert "session_id" (JString (ec_session_id (ws_parent_ctx spec))) (env_metadata env) |}.

(** The specification a replay rebuilds from a persisted intent; [fresh] is
    its new trace. *)
Definition replay_spec (fresh : uuid) (i : runner_intent) : workflow_spec := {|
  ws_workflow := ri_workflow i; ws_input := ri_input i;
  ws_parent_scope := ExecutionScope (ri_namespace i) (map grant_new (ri_capabilities i)) limits_default
                       (ri_actor i) 0;
  ws_parent_ctx := new_root fresh (ri_session_id i) |}.

Definition with_replay_count (n : Z) (i : runner_intent) : runner_intent := {|
  ri_run_id := ri_run_id i; ri_parent_id := ri_parent_id i; ri_workflow := ri_workflow i;
  ri_input := ri_input i; ri_namespace := ri_namespace i; ri_capabilities := ri_capabilities i;
  ri_actor := ri_actor i; ri_session_id := ri_session_id i; ri_spawned_at := ri_spawned_at i;
  ri_terminal := ri_terminal i; ri_replay_count := n |}.

Definition replay_limit_error : string := "replay loop exceeded limit (>10 restarts)".

(** * The inline runner as a transition system *)

(** Where a task stands: not polled yet, in the workflow tool, its result in
    hand, its record written, finished (with whether the intent was marked), or
    dropped by an abort. *)
Inductive task_phase : Type :=
  | TkReady
  | TkInvoking
  | TkReturned (r : result tool_error json)
  | TkRecorded (r : result tool_error json)
  | TkDone (marked : bool)
  | TkAborted.

Record run_task : Type := RunTask { tk_spec : workflow_spec; tk_phase : task_phase; tk_abort : bool }.

(** What is left of a spawn: to persist the intent, to start the task, to
    register the hook. *)
Inductive spawn_phase : Type :=
  | SpPersist (spec : workflow_spec)
  | SpStart (spec : workflow_spec)
  | SpHook.

(** A caller of [wait_terminal]: about to look, has seen a run in progress
    and is about to subscribe, subscribed, answered. *)
Inductive wait_phase : Type :=
  | WLook
  | WSubscribe
  | WWaiting
  | WAnswered (answer : option run_record).

Record waiter : Type := Waiter { wt_run : string; wt_phase : wait_phase }.

Section Runner.
Context {T W : Type} `{IntentOps T}.
Context (show_u64 : Z -> string).
(** The engine's tools, and whether the runner was built with intents. *)
Context (registry : gmap string (tool W)) (durable : bool).

(** The state of a process.  [rn_persisted], kept for the statements, holds
    the runs whose intent was written by this process. *)
Record runner : Type := Rn {
  rn_runs : run_registry;
  rn_spawning : gmap string spawn_phase;
  rn_tasks : gmap string run_task;
  rn_cancelling : list string;
  rn_waiters : gmap nat waiter;
  rn_store : T;
  rn_persisted : gset string;
}.

Definition runner_new (store : T) : runner := Rn ∅ ∅ ∅ [] ∅ store ∅.

Definition is_some_b {A} (o : option A) : bool := match o with Some _ => true | None => false end.

(** [spawn_with_id] up to its first await. *)
Definition spawn_with_id (now : datetime) (id : string) (spec : workflow_spec) (st : runner)
  : result runner_error runner :=
  if is_some_b (registry !! tool_name (ws_workflow spec)) then
    Ok {| rn_runs := insert_pending now id (ws_workflow spec) "inline" (rn_runs st);
          rn_spawning := <[id := if durable then SpPersist spec else SpStart spec]> (rn_spawning st);
          rn_tasks := rn_tasks st; rn_cancelling := rn_cancelling st; rn_waiters := rn_waiters st;
          rn_store := rn_store st; rn_persisted := rn_persisted st |}
  else Err (WorkflowNotFound (ws_workflow spec)).

(** The insertion of the intent, which may fail without stopping the spawn. *)
Definition persist (now : datetime) (id : string) (spec : workflow_spec) (written : bool) (st : runner)
  : runner := {|
  rn_runs := rn_runs st; rn_spawning := <[id := SpStart spec]> (rn_spawning st); rn_tasks := rn_tasks st;
  rn_cancelling := rn_cancelling st; rn_waiters := rn_waiters st;
  rn_store := if written then is_insert (spawn_intent now id spec) (rn_store st) else rn_store st;
  rn_persisted := if written then {[id]} ∪ rn_persisted st else rn_persisted st |}.

(** [tokio::spawn]. *)
Definition start_task (id : string) (spec : workflow_spec) (st : runner) : runner := {|
  rn_runs := rn_runs st; rn_spawning := <[id := SpHook]> (rn_spawning st);
  rn_tasks := <[id := RunTask spec TkReady false]> (rn_tasks st);
  rn_cancelling := rn_cancelling st; rn_waiters := rn_waiters st; rn_store := rn_store st;
  rn_persisted := rn_persisted st |}.

(** [register_cancel_hook], and the spawn returns. *)
Definition register_hook (id : string) (st : runner) : runner := {|
  rn_runs := set_hook true id (rn_runs st); rn_spawning := delete id (rn_spawning st);
  rn_tasks := rn_tasks st; rn_cancelling := rn_cancelling st; rn_waiters := rn_waiters st;
  rn_store := rn_store st; rn_persisted := rn_persisted st |}.

Definition with_runs (runs : run_registry) (st : runner) : runner := {|
  rn_runs := runs; rn_spawning := rn_spawning st; rn_tasks := rn_tasks st;
  rn_cancelling := rn_cancelling st; rn_waiters := rn_waiters st; rn_store := rn_store st;
  rn_persisted := rn_persisted st |}.

Definition at_phase (id : string) (ph : task_phase) (st : runner) : runner := {|
  rn_runs := rn_runs st; rn_spawning := rn_spawning st;
  rn_tasks := alter (fun t => RunTask (tk_spec t) ph (tk_abort t)) id (rn_tasks st);
  rn_cancelling := rn_cancelling st; rn_waiters := rn_waiters st; rn_store := rn_store st;
  rn_persisted := rn_persisted st |}.

(** [notify_waiters]: the subscribed callers look again. *)
Definition notify (id : string) (st : runner) : runner := {|
  rn_runs := rn_runs st; rn_spawning := rn_spawning st; rn_tasks := rn_tasks st;
  rn_cancelling := rn_cancelling st;
  rn_waiters := (fun w => match wt_phase w with
                          | WWaiting => if String.eqb (wt_run w) id then Waiter (wt_run w) WLook else w
                          | _ => w end) <$> rn_waiters st;
  rn_store := rn_store st; rn_persisted := rn_persisted st |}.

(** The states a task's result stands for. *)
Definition record_state (r : result tool_error json) : run_state :=
  match r with Ok v => RSucceeded v | Err e => RFailed (tool_error_to_string show_u64 e) end.
Definition intent_status (r : result tool_error json) : terminal_status :=
  match r with Ok _ => TsSucceeded | Err e => TsFailed (tool_error_to_string show_u64 e) end.

(** The steps of a task. *)
Definition task_running (now : datetime) (id : string) (st : runner) : runner :=
  at_phase id TkInvoking (with_runs (mark_running now id (rn_runs st)) st).
Definition task_returns (id : string) (r : result tool_error json) (st : runner) : runner :=
  at_phase id (TkReturned r) st.
Definition task_records (now : datetime) (id : string) (r : result tool_error json) (st : runner) : runner :=
  at_phase id (TkRecorded r) (notify id (with_runs (mark_terminal now id (record_state r) (rn_runs st)) st)).

(** Marking the intent, which may fail. *)
Definition task_marks (id : string) (r : result tool_error json) (written : bool) (st : runner) : runner :=
  let st1 :=
    match is_mark id (intent_status r) (rn_store st) with
    | Some store =>
        if durable && written
        then {| rn_runs := rn_runs st; rn_spawning := rn_spawning st; rn_tasks := rn_tasks st;
                rn_cancelling := rn_cancelling st; rn_waiters := rn_waiters st; rn_store := store;
                rn_persisted := rn_persisted st |}
        else st
    | None => st
    end in
  at_phase id (TkDone (durable && written && is_some_b (is_mark id (intent_status r) (rn_store st)))) st1.

(** [RunRegistry::cancel]: the hook is taken and called, which asks the task
    to stop; then the record is marked. *)
Definition cancel_begin (id : string) (st : runner) : runner := {|
  rn_runs := set_hook false id (rn_runs st); rn_spawning := rn_spawning st;
  rn_tasks := if has_hook id (rn_runs st)
              then alter (fun t => RunTask (tk_spec t) (tk_phase t) true) id (rn_tasks st)
              else rn_tasks st;
  rn_cancelling := if is_some_b (rn_runs st !! id) then id :: rn_cancelling st else rn_cancelling st;
  rn_waiters := rn_waiters st; rn_store := rn_store st; rn_persisted := rn_persisted st |}.

Definition cancel_end (now : datetime) (id : string) (l1 l2 : list string) (st : runner) : runner :=
  notify id {|
    rn_runs := mark_terminal now id RCancelled (rn_runs st); rn_spawning := rn_spawning st;
    rn_tasks := rn_tasks st; rn_cancelling := l1 ++ l2; rn_waiters := rn_waiters st;
    rn_store := rn_store st; rn_persisted := rn_persisted st |}.

(** [wait_terminal], one look at the record. *)
Definition look (w : waiter) (runs : run_registry) : wait_phase :=
  match record (wt_run w) runs with
  | None => WAnswered None
  | Some r => if state_is_terminal (rr_state r) then WAnswered (Some r) else WSubscribe
  end.

Definition set_waiter (n : nat) (w : waiter) (st : runner) : runner := {|
  rn_runs := rn_runs st; rn_spawning := rn_spawning st; rn_tasks := rn_tasks st;
  rn_cancelling := rn_cancelling st; rn_waiters := <[n := w]> (rn_waiters st); rn_store := rn_store st;
  rn_persisted := rn_persisted st |}.

Definition with_store (store : T) (st : runner) : runner := {|
  rn_runs := rn_runs st; rn_spawning := rn_spawning st; rn_tasks := rn_tasks st;
  rn_cancelling := rn_cancelling st; rn_waiters := rn_waiters st; rn_store := store;
  rn_persisted := rn_persisted st |}.

(** [InlineRunner::replay] with a durable runner, up to the first await of its
    spawn; [kept] says whether the new count was written. *)
Definition replay (fresh : uuid) (now : datetime) (kept : bool) (i : runner_intent) (st : runner)
  : result runner_error runner * runner :=
  let n := wrap_u32 (ri_replay_count i + 1) in
  if (10 <? n)%Z then
    let st' := match is_mark (ri_run_id i) (TsFailed replay_limit_error) (rn_store st) with
               | Some store => with_store store st
               | None => st
               end in
    (Err (Backend "replay loop exceeded limit"), st')
  else
    let st' := if kept then with_store (is_insert (with_replay_count n i) (rn_store st)) st else st in
    (spawn_with_id now (ri_run_id i) (replay_spec fresh i) st', st').

(** A boot that replays one intent, gets as far as writing its new one, and
    crashes: the intent it leaves for the next boot. *)
Definition restart (fresh : uuid) (now : datetime) (i : runner_intent) (store : T)
  : result runner_error (runner_intent * T) :=
  match fst (replay fresh now true i (runner_new store)) with
  | Ok st => Ok (truncated (spawn_intent now (ri_run_id i) (replay_spec fresh i)),
                 rn_store (persist now (ri_run_id i) (replay_spec fresh i) true st))
  | Err e => Err e
  end.

(** Crashing over and over. *)
Fixpoint restarts (l : list (uuid * datetime)) (i : runner_intent) (store : T)
  : result runner_error (runner_intent * T) :=
  match l with
  | [] => Ok (i, store)
  | (fresh, now) :: l' => '(i', store') ← restart fresh now i store; restarts l' i' store'
  end.

(** ** Steps *)

(** An intent the store can hold. *)
Context (good : runner_intent -> Prop).

(** What a step is to others: the start of a run, its replay, the record of its
    end, or none of these. *)
Inductive rn_label : Type :=
  | RnQuiet
  | RnSpawns (id : string)
  | RnReplays (id : string)
  | RnEnds (id : string).

Inductive rn_step : rn_label -> runner -> runner -> Prop :=
  | SSpawn now id spec st st' : rn_runs st !! id = None ->
      spawn_with_id now id spec st = Ok st' -> rn_step (RnSpawns id) st st'
  | SReplay fresh now kept i st st' : rn_runs st !! ri_run_id i = None ->
      (kept = true -> good (with_replay_count (wrap_u32 (ri_replay_count i + 1)) i)) ->
      fst (replay fresh now kept i st) = Ok st' -> rn_step (RnReplays (ri_run_id i)) st st'
  | SRefuse fresh now kept i st e : rn_runs st !! ri_run_id i = None ->
      (kept = true -> good (with_replay_count (wrap_u32 (ri_replay_count i + 1)) i)) ->
      fst (replay fresh now kept i st) = Err e ->
      rn_step (RnReplays (ri_run_id i)) st (snd (replay fresh now kept i st))
  | SPersist now id spec written st : rn_spawning st !! id = Some (SpPersist spec) ->
      (written = true -> good (spawn_intent now id spec)) -> rn_step RnQuiet st (persist now id spec written st)
  | SStart id spec st : rn_spawning st !! id = Some (SpStart spec) -> rn_step RnQuiet st (start_task id spec st)
  | SHook id st : rn_spawning st !! id = Some SpHook -> rn_step RnQuiet st (register_hook id st)
  | SRunning now id t st : rn_tasks st !! id = Some t -> tk_phase t = TkReady ->
      rn_step RnQuiet st (task_running now id st)
  | SReturns id t r st : rn_tasks st !! id = Some t -> tk_phase t = TkInvoking ->
      rn_step RnQuiet st (task_returns id r st)
  | SRecords now id t r st : rn_tasks st !! id = Some t -> tk_phase t = TkReturned r ->
      rn_step (RnEnds id) st (task_records now id r st)
  | SMarks id t r written st : rn_tasks st !! id = Some t -> tk_phase t = TkRecorded r ->
      rn_step RnQuiet st (task_marks id r written st)
  | SAborted id t st : rn_tasks st !! id = Some t -> tk_abort t = true ->
      (forall b, tk_phase t <> TkDone b) -> rn_step RnQuiet st (at_phase id TkAborted st)
  | SCancel id st : rn_step RnQuiet st (cancel_begin id st)
  | SCancelled now id l1 l2 st : rn_cancelling st = l1 ++ id :: l2 ->
      rn_step (RnEnds id) st (cancel_end now id l1 l2 st)
  | SWait n id st : rn_waiters st !! n = None -> rn_step RnQuiet st (set_waiter n (Waiter id WLook) st)
  | SLook n w st : rn_waiters st !! n = Some w -> wt_phase w = WLook ->
      rn_step RnQuiet st (set_waiter n (Waiter (wt_run w) (look w (rn_runs st))) st)
  | SSubscribe n w st : rn_waiters st !! n = Some w -> wt_phase w = WSubscribe ->
      rn_step RnQuiet st (set_waiter n (Waiter (wt_run w) WWaiting) st).

Definition rn_step_any (st st' : runner) : Prop := exists l, rn_step l st st'.

(** A run's record says that it has ended. *)
Definition recorded_end (id : string) (st : runner) : Prop :=
  exists r, record id (rn_runs st) = Some r /\ state_is_terminal (rr_state r) = true.

Definition marked (id : string) (st : runner) : Prop :=
  exists t, rn_tasks st !! id = Some t /\ tk_phase t = TkDone true.

Context (rep : T -> gmap string runner_intent -> Prop) {laws : IntentLaws T rep good}.

Record rn_invariant (st : runner) : Prop := {
  rn_slots id s : rn_runs st !! id = Some s ->
    rr_id (sl_record s) = id /\
    (state_is_terminal (rr_state (sl_record s)) = true <-> is_Some (rr_finished_at (sl_record s))) /\
    (sl_hook s = true -> is_Some (rn_tasks st !! id));
  rn_spawns id ph : rn_spawning st !! id = Some ph ->
    is_Some (rn_runs st !! id) /\
    match ph with SpHook => is_Some (rn_tasks st !! id) | _ => rn_tasks st !! id = None end;
  rn_task id t : rn_tasks st !! id = Some t ->
    is_Some (rn_runs st !! id) /\
    (tk_abort t = true -> id ∈ rn_cancelling st \/ recorded_end id st) /\
    match tk_phase t with
    | TkRecorded _ | TkDone _ => recorded_end id st
    | TkAborted => tk_abort t = true
    | _ => True
    end;
  rn_answers n w r : rn_waiters st !! n = Some w -> wt_phase w = WAnswered (Some r) ->
    record (wt_run w) (rn_runs st) = Some r /\ state_is_terminal (rr_state r) = true;
  rn_intents : exists m, rep (rn_store st) m /\
    forall id, id ∈ rn_persisted st ->
      is_Some (rn_runs st !! id) /\ exists i, m !! id = Some i /\ (ri_terminal i = None <-> ~ marked id st);
}.

(** * Theory *)

(** How a step may change a record: not at all once it has ended. *)
Definition records_grow (runs runs' : run_registry) : Prop :=
  forall id s, runs !! id = Some s -> exists s', runs' !! id = Some s' /\
    (state_is_terminal (rr_state (sl_record s)) = true -> sl_record s' = sl_record s).

Lemma records_grow_refl runs : records_grow runs runs.
Proof. intros id s Hs. by exists s. Qed.

Lemma records_grow_alter runs id f :
  (forall s, state_is_terminal (rr_state (sl_record s)) = true -> sl_record (f s) = sl_record s) ->
  records_grow runs (alter f id runs).
Proof.
  intros Hf id' s Hs. rewrite lookup_alter. destruct (decide (id = id')) as [->|Hd]; rewrite Hs.
  - exists (f s). split; [reflexivity|]. apply Hf.
  - by exists s.
Qed.

Lemma finish_record_terminal now st r : state_is_terminal st = true ->
  state_is_terminal (rr_state (finish_record now st r)) = true.
Proof. intros Hs. unfold finish_record. by destruct (state_is_terminal (rr_state r)) eqn:Hr. Qed.

Lemma finish_record_keeps now st r : state_is_terminal (rr_state r) = true -> finish_record now st r = r.
Proof. unfold finish_record. by intros ->. Qed.

Lemma mark_terminal_grow now id st runs : records_grow runs (mark_terminal now id st runs).
Proof. apply records_grow_alter. intros s Hs. cbn. by apply finish_record_keeps. Qed.

Lemma mark_running_grow now id runs : records_grow runs (mark_running now id runs).
Proof. apply records_grow_alter. intros s Hs. cbn. by destruct (rr_state (sl_record s)). Qed.

Lemma set_hook_grow b id runs : records_grow runs (set_hook b id runs).
Proof. by apply records_grow_alter. Qed.

Lemma insert_pending_grow now id wf backend runs : runs !! id = None ->
  records_grow runs (insert_pending now id wf backend runs).
Proof.
  intros Hid id' s Hs. unfold insert_pending. exists s. split; [|done].
  rewrite lookup_insert_ne; [done|]. intros ->. congruence.
Qed.

Lemma recorded_end_grow st st' id :
  records_grow (rn_runs st) (rn_runs st') -> recorded_end id st -> recorded_end id st'.
Proof.
  intros Hg (r & Hr & Ht). unfold recorded_end, record in *.
  destruct (rn_runs st !! id) as [s|] eqn:Hs; [|done]. injection Hr as <-.
  destruct (Hg _ _ Hs) as (s' & -> & Hk). exists (sl_record s'). split; [done|]. by rewrite (Hk Ht).
Qed.


(** A replay changes the store only, and spawns or refuses. *)
Inductive store_step (i : runner_intent) : T -> T -> Prop :=
  | StKeep t : store_step i t t
  | StInsert t : good (with_replay_count (wrap_u32 (ri_replay_count i + 1)) i) ->
      store_step i t (is_insert (with_replay_count (wrap_u32 (ri_replay_count i + 1)) i) t)
  | StMark t t' s : is_mark (ri_run_id i) s t = Some t' -> store_step i t t'.

Lemma with_store_same st : with_store (rn_store st) st = st.
Proof. by destruct st. Qed.

Lemma replay_store fresh now kept i st :
  (kept = true -> good (with_replay_count (wrap_u32 (ri_replay_count i + 1)) i)) ->
  exists t, store_step i (rn_store st) t /\ snd (replay fresh now kept i st) = with_store t st /\
    (forall st', fst (replay fresh now kept i st) = Ok st' ->
       spawn_with_id now (ri_run_id i) (replay_spec fresh i) (with_store t st) = Ok st').
Proof.
  intros Hg. unfold replay. destruct (10 <? wrap_u32 (ri_replay_count i + 1))%Z; cbn.
  - destruct (is_mark (ri_run_id i) (TsFailed replay_limit_error) (rn_store st)) as [t|] eqn:Hm.
    + exists t. split_and!; [by eapply StMark|done|done].
    + exists (rn_store st). split_and!; [constructor|by rewrite with_store_same|done].
  - destruct kept.
    + eexists. split_and!; [by apply StInsert, Hg|done|done].
    + exists (rn_store st). split_and!; [constructor|by rewrite with_store_same|].
      intros st'. by rewrite with_store_same.
Qed.

Lemma spawn_Ok now id spec st st' : spawn_with_id now id spec st = Ok st' ->
  st' = {| rn_runs := insert_pending now id (ws_workflow spec) "inline" (rn_runs st);
           rn_spawning := <[id := if durable then SpPersist spec else SpStart spec]> (rn_spawning st);
           rn_tasks := rn_tasks st; rn_cancelling := rn_cancelling st; rn_waiters := rn_waiters st;
           rn_store := rn_store st; rn_persisted := rn_persisted st |}.
Proof. unfold spawn_with_id. destruct (is_some_b _); [by intros [= <-]|done]. Qed.

(** Every step keeps the records that have ended. *)
Lemma step_grow l st st' : rn_step l st st' -> records_grow (rn_runs st) (rn_runs st').
Proof.
  destruct 1; cbn; try apply records_grow_refl;
    try apply mark_running_grow; try apply mark_terminal_grow; try apply set_hook_grow.
  - apply spawn_Ok in H1 as ->. by apply insert_pending_grow.
  - destruct (replay_store fresh now kept i st H1) as (t & _ & _ & Hsp).
    apply Hsp, spawn_Ok in H2 as ->. by apply insert_pending_grow.
  - destruct (replay_store fresh now kept i st H1) as (t & _ & -> & _). apply records_grow_refl.
  - unfold task_marks. cbn. destruct (is_mark _ _ _); [|apply records_grow_refl].
    destruct (durable && written); apply records_grow_refl.
Qed.

Lemma steps_grow st st' : rtc rn_step_any st st' -> records_grow (rn_runs st) (rn_runs st').
Proof.
  induction 1 as [|st st1 st' [l Hs] _ IH]; [apply records_grow_refl|].
  intros id s Hid. destruct (step_grow _ _ _ Hs _ _ Hid) as (s1 & Hs1 & Hk1).
  destruct (IH _ _ Hs1) as (s2 & Hs2 & Hk2). exists s2. split; [done|].
  intros Ht. rewrite <- (Hk1 Ht). apply Hk2. by rewrite (Hk1 Ht).
Qed.


Lemma record_grow runs runs' id r : records_grow runs runs' ->
  record id runs = Some r -> state_is_terminal (rr_state r) = true -> record id runs' = Some r.
Proof.
  unfold record. intros Hg Hr Ht. destruct (runs !! id) as [s|] eqn:Hs; [|done]. injection Hr as <-.
  destruct (Hg _ _ Hs) as (s' & -> & Hk). cbn. by rewrite (Hk Ht).
Qed.

Lemma notify_answered (f : waiter -> waiter) (ws : gmap nat waiter) n w a :
  (forall w, wt_phase (f w) = wt_phase w /\ f w = w \/ wt_phase (f w) = WLook) ->
  (f <$> ws) !! n = Some w -> wt_phase w = WAnswered a -> ws !! n = Some w.
Proof.
  intros Hf. rewrite lookup_fmap. destruct (ws !! n) as [w0|]; cbn; [|done]. intros [= <-] Ha.
  destruct (Hf w0) as [[_ ->]|Hl]; [done|congruence].
Qed.

(** A waiter is answered by a look only. *)
Lemma step_answered l st st' n w r :
  rn_step l st st' -> rn_waiters st' !! n = Some w -> wt_phase w = WAnswered (Some r) ->
  rn_waiters st !! n = Some w \/
  (record (wt_run w) (rn_runs st') = Some r /\ state_is_terminal (rr_state r) = true).
Proof.
  assert (Hn : forall id w, wt_phase (match wt_phase w with
      | WWaiting => if String.eqb (wt_run w) id then Waiter (wt_run w) WLook else w | _ => w end) = wt_phase w /\
      match wt_phase w with
      | WWaiting => if String.eqb (wt_run w) id then Waiter (wt_run w) WLook else w | _ => w end = w \/
      wt_phase (match wt_phase w with
      | WWaiting => if String.eqb (wt_run w) id then Waiter (wt_run w) WLook else w | _ => w end) = WLook).
  { intros id w0. destruct (wt_phase w0) eqn:Hw; try (left; by rewrite Hw).
    destruct (String.eqb (wt_run w0) id); [by right|left; by rewrite Hw]. }
  destruct 1; cbn; intros Hw Ha; try (by left).
  - apply spawn_Ok in H1 as ->. by left.
  - destruct (replay_store fresh now kept i st H1) as (t & _ & _ & Hsp).
    apply Hsp, spawn_Ok in H2 as ->. by left.
  - destruct (replay_store fresh now kept i st H1) as (t & _ & Hs & _). rewrite Hs in Hw. by left.
  - left. eapply notify_answered; [apply (Hn id)|exact Hw|exact Ha].
  - left. unfold task_marks in Hw. cbn in Hw. destruct (is_mark _ _ _), (durable && written); exact Hw.
  - left. eapply notify_answered; [apply (Hn id)|exact Hw|exact Ha].
  - rewrite lookup_insert in Hw. case_decide; [injection Hw as <-; done|by left].
  - rewrite lookup_insert in Hw. case_decide; [|by left]. injection Hw as <-. right. cbn in *.
    unfold look in Ha. destruct (record (wt_run w0) (rn_runs st)) as [r0|]; [|done].
    destruct (state_is_terminal (rr_state r0)) eqn:Ht; [|done]. injection Ha as <-. done.
  - rewrite lookup_insert in Hw. case_decide; [injection Hw as <-; done|by left].
Qed.

Lemma answers_step l st st' : rn_invariant st -> rn_step l st st' ->
  forall n w r, rn_waiters st' !! n = Some w -> wt_phase w = WAnswered (Some r) ->
    record (wt_run w) (rn_runs st') = Some r /\ state_is_terminal (rr_state r) = true.
Proof.
  intros HI Hs n w r Hw Ha. destruct (step_answered _ _ _ _ _ _ Hs Hw Ha) as [Ho|?]; [|done].
  destruct (rn_answers _ HI _ _ _ Ho Ha) as [Hr Ht]. split; [|done].
  eapply record_grow; [by eapply step_grow|done..].
Qed.

(** The slots. *)
Definition slot_ok (id : string) (task : option run_task) (s : slot) : Prop :=
  rr_id (sl_record s) = id /\
  (state_is_terminal (rr_state (sl_record s)) = true <-> is_Some (rr_finished_at (sl_record s))) /\
  (sl_hook s = true -> is_Some task).

Lemma slot_alter id id' f (runs : run_registry) (tasks tasks' : gmap string run_task) :
  (forall s, slot_ok id (tasks !! id) s -> slot_ok id (tasks' !! id) (f s)) ->
  (forall id0, is_Some (tasks !! id0) -> is_Some (tasks' !! id0)) ->
  (forall id s, runs !! id = Some s -> slot_ok id (tasks !! id) s) ->
  forall s, alter f id runs !! id' = Some s -> slot_ok id' (tasks' !! id') s.
Proof.
  intros Hf Ht Hok s. rewrite lookup_alter. destruct (decide (id = id')) as [<-|Hd].
  - destruct (runs !! id) as [s0|] eqn:Hs; cbn; [|done]. intros [= <-]. by apply Hf, Hok.
  - intros Hs. destruct (Hok _ _ Hs) as (? & ? & ?). split_and!; auto.
Qed.

Lemma mark_running_ok now id task s : slot_ok id task s -> slot_ok id task (Slot
    (match rr_state (sl_record s) with
     | RPending => let r := sl_record s in
         RunRecord (rr_id r) (rr_workflow r) (rr_backend r) RRunning (rr_created_at r) (Some now) (rr_finished_at r)
     | _ => sl_record s
     end) (sl_hook s)).
Proof. intros (Hi & Ht & Hh). unfold slot_ok. cbn. by destruct (rr_state (sl_record s)) eqn:Hs; cbn; rewrite ?Hs. Qed.

Lemma finish_record_ok now st id task s : state_is_terminal st = true ->
  slot_ok id task s -> slot_ok id task (Slot (finish_record now st (sl_record s)) (sl_hook s)).
Proof.
  intros Hst (Hi & Ht & Hh). unfold slot_ok, finish_record. cbn.
  destruct (state_is_terminal (rr_state (sl_record s))) eqn:Hs; cbn; rewrite ?Hs; [done|].
  split_and!; [done| |done]. rewrite Hst. split; [by eexists|done].
Qed.

Lemma record_state_terminal r : state_is_terminal (record_state r) = true.
Proof. by destruct r. Qed.

Lemma marks_state id r written st :
  rn_runs (task_marks id r written st) = rn_runs st /\
  rn_spawning (task_marks id r written st) = rn_spawning st /\
  rn_cancelling (task_marks id r written st) = rn_cancelling st /\
  rn_persisted (task_marks id r written st) = rn_persisted st /\
  exists b, rn_tasks (task_marks id r written st)
    = alter (fun t => RunTask (tk_spec t) (TkDone b) (tk_abort t)) id (rn_tasks st).
Proof.
  unfold task_marks. cbn. destruct (is_mark _ _ _); cbn; [|split_and!; try done; by eexists].
  destruct (durable && written); cbn; split_and!; try done; by eexists.
Qed.

Lemma alter_is_Some {A} (f : A -> A) (m : gmap string A) k k' : is_Some (m !! k') <-> is_Some (alter f k m !! k').
Proof. rewrite lookup_alter. case_decide as Hd; [subst; by rewrite fmap_is_Some|done]. Qed.

(** A step keeps the tasks there are. *)
Lemma step_tasks l st st' id : rn_step l st st' -> is_Some (rn_tasks st !! id) -> is_Some (rn_tasks st' !! id).
Proof.
  destruct 1; try (cbn; done); try (cbn; intros ?; by apply alter_is_Some).
  - by apply spawn_Ok in H1 as ->.
  - destruct (replay_store fresh now kept i st H1) as (t & _ & _ & Hsp). by apply Hsp, spawn_Ok in H2 as ->.
  - destruct (replay_store fresh now kept i st H1) as (t & _ & -> & _). done.
  - cbn. intros ?. rewrite lookup_insert. by case_decide.
  - destruct (marks_state id0 r written st) as (_ & _ & _ & _ & b & ->). intros ?. by apply alter_is_Some.
  - cbn. intros ?. destruct (has_hook _ _); [by apply alter_is_Some|done].
Qed.

Lemma slots_step l st st' : rn_invariant st -> rn_step l st st' ->
  forall id s, rn_runs st' !! id = Some s -> slot_ok id (rn_tasks st' !! id) s.
Proof.
  intros HI Hstep id s Hs. pose proof (fun id => step_tasks _ _ _ id Hstep) as Ht.
  assert (Hok : forall id s, rn_runs st !! id = Some s -> slot_ok id (rn_tasks st !! id) s)
    by (intros ? ? Hx; exact (rn_slots _ HI _ _ Hx)).
  assert (Hsame : rn_runs st !! id = Some s -> slot_ok id (rn_tasks st' !! id) s).
  { intros Ho. destruct (Hok _ _ Ho) as (? & ? & ?). split_and!; auto. }
  assert (Hnew : forall now wf, rn_runs st !! id = None ->
     slot_ok id (rn_tasks st' !! id) (Slot (RunRecord id wf "inline" RPending now None None) false)).
  { intros now wf _. split_and!; [done|split; [done|by intros []]|done]. }
  destruct Hstep; try (apply Hsame; exact Hs).
  - apply spawn_Ok in H1 as ->. cbn in *. unfold insert_pending in Hs. rewrite lookup_insert in Hs.
    case_decide as Hd; [|auto]. subst. injection Hs as <-. auto.
  - destruct (replay_store fresh now kept i st H1) as (t & _ & _ & Hsp).
    apply Hsp, spawn_Ok in H2 as ->. cbn in *. unfold insert_pending in Hs. rewrite lookup_insert in Hs.
    case_decide as Hd; [|auto]. subst. injection Hs as <-. auto.
  - destruct (replay_store fresh now kept i st H1) as (t & _ & He & _). rewrite He in Hs. auto.
  - revert Hs. apply (slot_alter _ _ _ _ (rn_tasks st)); [|done|done]. intros s0 (? & ? & ?). split_and!; try done.
    intros _. exact (proj2 (rn_spawns _ HI _ _ H0)).
  - revert Hs. apply (slot_alter _ _ _ _ (rn_tasks st)); [|done|done]. intros s0 (Hi & Hf & Hh).
    apply mark_running_ok. split_and!; auto.
  - revert Hs. apply (slot_alter _ _ _ _ (rn_tasks st)); [|done|done]. intros s0 (Hi & Hf & Hh).
    apply finish_record_ok; [apply record_state_terminal|]. split_and!; auto.
  - destruct (marks_state id0 r written st) as (Hr & _). rewrite Hr in Hs. auto.
  - revert Hs. apply (slot_alter _ _ _ _ (rn_tasks st)); [|done|done]. by intros s0 (Hi & Hf & _).
  - revert Hs. apply (slot_alter _ _ _ _ (rn_tasks st)); [|done|done]. intros s0 (Hi & Hf & Hh).
    apply finish_record_ok; [done|]. split_and!; auto.
Qed.


(** The store work of a replay concerns no run of this process. *)
Lemma store_invariant st i t : rn_invariant st -> rn_runs st !! ri_run_id i = None ->
  store_step i (rn_store st) t -> rn_invariant (with_store t st).
Proof.
  intros [I1 I2 I3 I4 (m & Hm & Hp)] Hid Hst. split; [exact I1|exact I2|exact I3|exact I4|].
  assert (Hne : forall id, id ∈ rn_persisted st -> id <> ri_run_id i).
  { intros id Hin ->. destruct (Hp _ Hin) as [[s Hs] _]. congruence. }
  assert (Hgoal : exists m', rep t m' /\ forall id, id <> ri_run_id i -> m' !! id = m !! id).
  { inversion Hst as [t0|t0 Hg|t0 t' s Hmk]; subst.
    - by exists m.
    - eexists. split; [by apply (is_insert_rep _ _ _ Hm Hg)|]. intros id Hd. cbn. by rewrite lookup_insert_ne.
    - destruct (is_mark_rep _ _ (ri_run_id i) s Hm) as (t'' & Ht & Hr). rewrite Ht in Hmk.
      injection Hmk as <-. eexists. split; [exact Hr|]. intros id Hd. by rewrite lookup_alter_ne. }
  destruct Hgoal as (m' & Hm' & Hsame). exists m'. split; [exact Hm'|].
  intros id Hin. cbn in Hin. destruct (Hp _ Hin) as (Hr & j & Hj & Hiff). split; [exact Hr|].
  exists j. split; [rewrite Hsame; auto|exact Hiff].
Qed.

Lemma alter_None {A} (f : A -> A) (m : gmap string A) k k' : m !! k' = None -> alter f k m !! k' = None.
Proof. intros Hn. rewrite lookup_alter. case_decide as Hd; [subst; by rewrite Hn|done]. Qed.

(** Spawns in progress. *)
Definition spawn_ok (st : runner) (id : string) (ph : spawn_phase) : Prop :=
  is_Some (rn_runs st !! id) /\
  match ph with SpHook => is_Some (rn_tasks st !! id) | _ => rn_tasks st !! id = None end.

Lemma grow_is_Some runs runs' id : records_grow runs runs' -> is_Some (runs !! id) -> is_Some (runs' !! id).
Proof. intros Hg [s Hs]. destruct (Hg _ _ Hs) as (s' & Hs' & _). by exists s'. Qed.

Lemma spawn_ok_mono st st' id ph :
  records_grow (rn_runs st) (rn_runs st') ->
  (is_Some (rn_tasks st !! id) -> is_Some (rn_tasks st' !! id)) ->
  (rn_tasks st !! id = None -> rn_tasks st' !! id = None) ->
  spawn_ok st id ph -> spawn_ok st' id ph.
Proof.
  intros Hg Hs Hn [Hr Hp]. split; [by eapply grow_is_Some|]. destruct ph; auto.
Qed.

Lemma no_task st id : rn_invariant st -> rn_runs st !! id = None -> rn_tasks st !! id = None.
Proof.
  intros HI Hn. apply eq_None_not_Some. intros [t Ht].
  destruct (rn_task _ HI _ _ Ht) as ([s Hs] & _). congruence.
Qed.

Lemma spawned_ok now id spec st st' : rn_invariant st -> rn_runs st !! id = None ->
  spawn_with_id now id spec st = Ok st' -> forall id' ph, rn_spawning st' !! id' = Some ph -> spawn_ok st' id' ph.
Proof.
  intros HI Hid Hsp id' ph. apply spawn_Ok in Hsp as ->. cbn. rewrite lookup_insert. case_decide as Hd.
  - intros [= <-]. subst id'. split; cbn.
    + unfold insert_pending. rewrite lookup_insert_eq. by eexists.
    + pose proof (no_task _ _ HI Hid) as Hn. by destruct durable.
  - intros Hph. apply (spawn_ok_mono st); cbn; [by apply insert_pending_grow|done|done|].
    exact (rn_spawns _ HI _ _ Hph).
Qed.

Lemma spawns_step l st st' : rn_invariant st -> rn_step l st st' ->
  forall id ph, rn_spawning st' !! id = Some ph -> spawn_ok st' id ph.
Proof.
  intros HI Hstep id ph. pose proof (step_grow _ _ _ Hstep) as Hg.
  pose proof (step_tasks _ _ _ id Hstep) as Ht.
  assert (Hmono : (rn_tasks st !! id = None -> rn_tasks st' !! id = None) ->
     rn_spawning st !! id = Some ph -> spawn_ok st' id ph).
  { intros Hn Hph. eapply spawn_ok_mono; [exact Hg|exact Ht|exact Hn|exact (rn_spawns _ HI _ _ Hph)]. }
  destruct Hstep; try (by apply Hmono); try (apply Hmono; cbn; apply alter_None).
  - by eapply spawned_ok.
  - destruct (replay_store fresh now kept i st H1) as (t & Hst & _ & Hsp). revert H2. intros H2%Hsp.
    apply (spawned_ok now (ri_run_id i) (replay_spec fresh i) (with_store t st)); [|done|done].
    by apply (store_invariant st i).
  - destruct (replay_store fresh now kept i st H1) as (t & _ & He & _). rewrite He in *. by apply Hmono.
  - cbn. rewrite lookup_insert. case_decide as Hd; [|by apply Hmono]. intros [= <-]. subst id0.
    split; [|exact (proj2 (rn_spawns _ HI _ _ H0))]. exact (proj1 (rn_spawns _ HI _ _ H0)).
  - cbn. rewrite lookup_insert. case_decide as Hd.
    + intros [= <-]. subst id0. split; cbn; [exact (proj1 (rn_spawns _ HI _ _ H0))|].
      rewrite lookup_insert_eq. by eexists.
    + apply Hmono. cbn. by rewrite lookup_insert_ne.
  - cbn. rewrite lookup_delete. case_decide as Hd; [done|]. by apply Hmono.
  - destruct (marks_state id0 r written st) as (_ & Hs & _ & _ & b & Hts). rewrite Hs. apply Hmono.
    rewrite Hts. apply alter_None.
  - cbn. apply Hmono. cbn. destruct (has_hook _ _); [apply alter_None|done].
Qed.


(** Tasks. *)
Definition task_ok (st : runner) (id : string) (t : run_task) : Prop :=
  is_Some (rn_runs st !! id) /\
  (tk_abort t = true -> id ∈ rn_cancelling st \/ recorded_end id st) /\
  match tk_phase t with
  | TkRecorded _ | TkDone _ => recorded_end id st
  | TkAborted => tk_abort t = true
  | _ => True
  end.

Lemma task_ok_mono st st' id t :
  records_grow (rn_runs st) (rn_runs st') ->
  (is_Some (rn_runs st !! id) -> id ∈ rn_cancelling st -> id ∈ rn_cancelling st' \/ recorded_end id st') ->
  task_ok st id t -> task_ok st' id t.
Proof.
  intros Hg Hc (Hr & Ha & Hp). split_and!.
  - by eapply grow_is_Some.
  - intros Habort. destruct (Ha Habort) as [Hin|He]; [auto|right; by eapply recorded_end_grow].
  - destruct (tk_phase t); try done; by eapply recorded_end_grow.
Qed.

(** A task's own step: its new phase asks no more than a recorded end. *)
Lemma task_ok_phase st st' id ph :
  records_grow (rn_runs st) (rn_runs st') -> rn_cancelling st' = rn_cancelling st ->
  match ph with
  | TkRecorded _ | TkDone _ => recorded_end id st'
  | TkAborted => forall t, rn_tasks st !! id = Some t -> tk_abort t = true
  | _ => True
  end ->
  (forall id t, rn_tasks st !! id = Some t -> task_ok st id t) ->
  rn_tasks st' = alter (fun t => RunTask (tk_spec t) ph (tk_abort t)) id (rn_tasks st) ->
  forall id' t, rn_tasks st' !! id' = Some t -> task_ok st' id' t.
Proof.
  intros Hg Hc Hph Hok Hts id' t. rewrite Hts, lookup_alter.
  assert (Hmono : forall t, rn_tasks st !! id' = Some t -> task_ok st' id' t).
  { intros t0 Ht0. apply (task_ok_mono st); [done| |by apply Hok]. rewrite Hc. by left. }
  destruct (decide (id = id')) as [<-|Hd]; [|apply Hmono].
  destruct (rn_tasks st !! id) as [t0|] eqn:Ht; cbn; [|done]. intros [= <-].
  destruct (Hmono _ eq_refl) as (Hr & Ha & Hp). split_and!; [done|done|]. cbn. destruct ph; auto.
Qed.

Lemma record_mark_terminal now id st runs : state_is_terminal st = true -> is_Some (runs !! id) ->
  exists r, record id (mark_terminal now id st runs) = Some r /\ state_is_terminal (rr_state r) = true.
Proof.
  intros Hst [s Hs]. unfold record, mark_terminal. rewrite lookup_alter_eq, Hs. cbn. eexists.
  split; [reflexivity|]. by apply finish_record_terminal.
Qed.

Lemma tasks_step l st st' : rn_invariant st -> rn_step l st st' ->
  forall id t, rn_tasks st' !! id = Some t -> task_ok st' id t.
Proof.
  intros HI Hstep. pose proof (step_grow _ _ _ Hstep) as Hg.
  assert (Hok : forall id t, rn_tasks st !! id = Some t -> task_ok st id t) by (intros ? ? Hx; exact (rn_task _ HI _ _ Hx)).
  assert (Hmono : rn_cancelling st' = rn_cancelling st -> rn_tasks st' = rn_tasks st ->
     forall id t, rn_tasks st' !! id = Some t -> task_ok st' id t).
  { intros Hc Hts id t. rewrite Hts. intros Ht. apply (task_ok_mono st); [done| |by apply Hok].
    rewrite Hc. by left. }
  destruct Hstep; try (by apply Hmono).
  - apply spawn_Ok in H1 as ->. by apply Hmono.
  - destruct (replay_store fresh now kept i st H1) as (t & _ & _ & Hsp). apply Hsp, spawn_Ok in H2 as ->.
    by apply Hmono.
  - destruct (replay_store fresh now kept i st H1) as (t & _ & He & _). rewrite He in *. by apply Hmono.
  - intros id' t. cbn. rewrite lookup_insert. case_decide as Hd.
    + intros [= <-]. subst id'. split_and!; cbn; [exact (proj1 (rn_spawns _ HI _ _ H0))|done|done].
    + intros Ht. apply (task_ok_mono st); [done|by left|by apply Hok].
  - apply (task_ok_phase st _ id TkInvoking); done.
  - apply (task_ok_phase st _ id (TkReturned r)); done.
  - apply (task_ok_phase st _ id (TkRecorded r)); [done|done| |done|done]. cbn.
    destruct (record_mark_terminal now id (record_state r) (rn_runs st)) as (r' & Hr & Ht);
      [apply record_state_terminal|exact (proj1 (Hok _ _ H0))|]. exists r'. by split.
  - destruct (marks_state id r written st) as (Hr & _ & Hc & _ & b & Hts).
    apply (task_ok_phase st _ id (TkDone b)); [done|done| |done|done].
    destruct (Hok _ _ H0) as (_ & _ & Hp). rewrite H1 in Hp. eapply recorded_end_grow; [exact Hg|exact Hp].
  - apply (task_ok_phase st _ id TkAborted); [done|done| |done|done]. cbn. congruence.
  - intros id' t Ht. cbn in Ht.
    assert (Hin : forall x, x ∈ rn_cancelling st -> x ∈ rn_cancelling (cancel_begin id st)).
    { intros x Hx. cbn. destruct (is_some_b _); [by right|done]. }
    assert (Hm : forall t0, rn_tasks st !! id' = Some t0 -> task_ok (cancel_begin id st) id' t0).
    { intros t0 Ht0. apply (task_ok_mono st); [done| |by apply Hok]. intros _ Hx. left. by apply Hin. }
    destruct (has_hook id (rn_runs st)) eqn:Hh; [|by apply Hm].
    rewrite lookup_alter in Ht. destruct (decide (id = id')) as [<-|Hd]; [|by apply Hm].
    destruct (rn_tasks st !! id) as [t0|] eqn:Ht0; [|done]. injection Ht as <-.
    destruct (Hm _ eq_refl) as (Hr & Ha & Hp). split_and!; [done| |cbn; by destruct (tk_phase t0)].
    intros _. left. cbn. unfold has_hook in Hh. destruct (rn_runs st !! id); [cbn; by left|done].
  - intros id' t Ht. cbn in Ht. apply (task_ok_mono st); [done| |by apply Hok].
    rewrite H0. cbn. intros Hs [Hx|[->|Hx]%elem_of_cons]%elem_of_app.
    + left. apply elem_of_app. by left.
    + right. destruct (record_mark_terminal now id RCancelled (rn_runs st)) as (r' & Hr & Ht'); [done..|].
      exists r'. by split.
    + left. apply elem_of_app. by right.
Qed.



(** Intents. *)
Definition intents_ok (st : runner) : Prop :=
  exists m, rep (rn_store st) m /\
    forall id, id ∈ rn_persisted st ->
      is_Some (rn_runs st !! id) /\ exists i, m !! id = Some i /\ (ri_terminal i = None <-> ~ marked id st).

Lemma intents_same st st' : intents_ok st ->
  records_grow (rn_runs st) (rn_runs st') -> rn_store st' = rn_store st -> rn_persisted st' = rn_persisted st ->
  (forall id, marked id st' <-> marked id st) -> intents_ok st'.
Proof.
  intros (m & Hm & Hp) Hg Hs Hpe Hmk. exists m. rewrite Hs, Hpe. split; [done|].
  intros id Hin. destruct (Hp id Hin) as (Hr & i & Hi & Hiff). split; [by eapply grow_is_Some|].
  exists i. by rewrite Hmk.
Qed.

(** A task that moves without finishing does not change what is marked. *)
Lemma marked_phase st st' id t ph b :
  rn_tasks st !! id = Some t -> tk_phase t <> TkDone true -> ph <> TkDone true ->
  rn_tasks st' = alter (fun t => RunTask (tk_spec t) ph (b t)) id (rn_tasks st) ->
  forall id', marked id' st' <-> marked id' st.
Proof.
  intros Ht Hph Hph' Hts id'. unfold marked. rewrite Hts, lookup_alter.
  destruct (decide (id = id')) as [<-|Hd]; [|done]. rewrite Ht. cbn.
  split; intros (t0 & [= <-] & H0); cbn in H0; congruence.
Qed.

Lemma marked_abort st st' id :
  rn_tasks st' = alter (fun t => RunTask (tk_spec t) (tk_phase t) true) id (rn_tasks st) ->
  forall id', marked id' st' <-> marked id' st.
Proof.
  intros Hts id'. unfold marked. rewrite Hts, lookup_alter.
  destruct (decide (id = id')) as [<-|Hd]; [|done]. destruct (rn_tasks st !! id) as [t|]; cbn; [|done].
  split.
  - intros (t0 & [= <-] & H0). exists t. by split.
  - intros (t0 & [= <-] & H0). eexists. split; [reflexivity|done].
Qed.

Lemma persist_intents now id spec written st : rn_invariant st ->
  rn_spawning st !! id = Some (SpPersist spec) -> (written = true -> good (spawn_intent now id spec)) ->
  intents_ok (persist now id spec written st).
Proof.
  intros HI Hsp Hg. destruct (rn_intents _ HI) as (m & Hm & Hp).
  destruct written; [|by exists m]. exists (<[id := truncated (spawn_intent now id spec)]> m).
  split; [exact (is_insert_rep _ _ _ Hm (Hg eq_refl))|]. intros id' Hin. cbn in Hin.
  destruct (rn_spawns _ HI _ _ Hsp) as [Hr Hn]. rewrite lookup_insert. case_decide as Hd.
  - subst id'. split; [done|]. eexists. split; [done|]. cbn. split; [|done]. intros _ (t & Ht & _). cbn in Ht. congruence.
  - apply Hp. by apply elem_of_union in Hin as [?%elem_of_singleton|].
Qed.

Lemma marks_intents id t r written st : rn_invariant st ->
  rn_tasks st !! id = Some t -> tk_phase t = TkRecorded r -> intents_ok (task_marks id r written st).
Proof.
  intros HI Ht Hph. destruct (rn_intents _ HI) as (m & Hm & Hp).
  destruct (is_mark_rep _ _ id (intent_status r) Hm) as (t' & Hmk & Hm').
  assert (Hno : ~ marked id st) by (intros (t0 & Ht0 & Hd); congruence).
  unfold task_marks. rewrite Hmk. cbn [is_some_b]. rewrite andb_true_r. destruct (durable && written).
  - exists (alter (with_terminal (Some (intent_status r))) id m). split; [exact Hm'|].
    intros id' Hin. destruct (Hp id' Hin) as (Hr & i & Hi & Hiff). split; [exact Hr|].
    rewrite lookup_alter. unfold marked. cbn. rewrite lookup_alter.
    destruct (decide (id = id')) as [<-|Hd]; [|by exists i].
    rewrite Hi, Ht. cbn. eexists. split; [done|]. cbn. split; [done|].
    intros Hn. destruct Hn. eexists. split; [reflexivity|done].
  - apply (intents_same st); [by exists m|apply records_grow_refl|done|done|].
    apply (marked_phase st _ id t (TkDone false) tk_abort); [done|congruence|done|done].
Qed.

Lemma intents_step l st st' : rn_invariant st -> rn_step l st st' -> intents_ok st'.
Proof.
  intros HI Hstep. pose proof (step_grow _ _ _ Hstep) as Hg. pose proof (rn_intents _ HI) as Hi.
  destruct Hstep; try (by apply (intents_same st)).
  - apply spawn_Ok in H1 as ->. by apply (intents_same st).
  - destruct (replay_store fresh now kept i st H1) as (t & Hst & _ & Hsp).
    pose proof (store_invariant _ _ _ HI H0 Hst) as HI'. apply Hsp, spawn_Ok in H2 as ->.
    apply (intents_same (with_store t st)); [exact (rn_intents _ HI')|done..].
  - destruct (replay_store fresh now kept i st H1) as (t & Hst & He & _). rewrite He.
    exact (rn_intents _ (store_invariant _ _ _ HI H0 Hst)).
  - by apply persist_intents.
  - apply (intents_same st); try done. intros id'. unfold marked. cbn. rewrite lookup_insert. case_decide as Hd; [|done].
    subst id'. destruct (rn_spawns _ HI _ _ H0) as [_ ->]. by split; [intros (t & [= <-] & ?)|intros (t & ? & ?)].
  - apply (intents_same st); try done. apply (marked_phase st _ id t TkInvoking tk_abort); congruence || done.
  - apply (intents_same st); try done. apply (marked_phase st _ id t (TkReturned r) tk_abort); congruence || done.
  - apply (intents_same st); try done. apply (marked_phase st _ id t (TkRecorded r) tk_abort); congruence || done.
  - by eapply marks_intents.
  - apply (intents_same st); try done. apply (marked_phase st _ id t TkAborted tk_abort); [done| |done|done].
    intros Hd. by apply (H2 true).
  - apply (intents_same st); try done. destruct (has_hook id (rn_runs st)) eqn:Hh.
    + apply (marked_abort st _ id). cbn. by rewrite Hh.
    + intros id'. unfold marked. cbn. by rewrite Hh.
Qed.

Lemma step_preserves l st st' : rn_step l st st' -> rn_invariant st -> rn_invariant st'.
Proof.
  intros Hs HI. split.
  - intros id s. by eapply slots_step.
  - intros id ph. by eapply spawns_step.
  - intros id t. by eapply tasks_step.
  - intros n w r. by eapply answers_step.
  - by eapply intents_step.
Qed.

Lemma new_runner_invariant store m : rep store m -> rn_invariant (runner_new store).
Proof. intros Hm. split; cbn; try done. exists m. split; [done|]. intros id Hin. by apply elem_of_empty in Hin. Qed.

Lemma runner_reachable store m st : rep store m -> rtc rn_step_any (runner_new store) st -> rn_invariant st.
Proof.
  intros Hm Hr. assert (Hgen : forall st0, rtc rn_step_any st0 st -> rn_invariant st0 -> rn_invariant st).
  { clear Hr. intros st0 Hr. induction Hr as [|st0 st1 st2 [l Hl] _ IH]; [done|]. intros. eauto using step_preserves. }
  by apply (Hgen (runner_new store)), (new_runner_invariant store m).
Qed.


(** * Properties *)

(** C23: in every interleaving of spawns, tasks, cancellations and waiters, a
    run's record is terminal exactly when it has an end time, and a record that
    is terminal never changes again; a task that has finished, or was dropped by
    an abort, has a terminal record as soon as no cancellation of it is under
    way; and whatever a waiter was answered is the run's final record. *)
Theorem runner_lifecycle store m st st' : rep store m ->
  rtc rn_step_any (runner_new store) st -> rtc rn_step_any st st' ->
  (forall id r, record id (rn_runs st) = Some r ->
     rr_id r = id /\ (state_is_terminal (rr_state r) = true <-> is_Some (rr_finished_at r)) /\
     (state_is_terminal (rr_state r) = true -> record id (rn_runs st') = Some r)) /\
  (forall id t, rn_tasks st !! id = Some t ->
     (exists b, tk_phase t = TkDone b) \/ (tk_phase t = TkAborted /\ (id ∉ rn_cancelling st)) ->
     recorded_end id st) /\
  (forall n w r, rn_waiters st !! n = Some w -> wt_phase w = WAnswered (Some r) ->
     state_is_terminal (rr_state r) = true /\ record (wt_run w) (rn_runs st') = Some r).
Proof.
  intros Hm Hr Hl. pose proof (runner_reachable _ _ _ Hm Hr) as HI. pose proof (steps_grow _ _ Hl) as Hg.
  split_and!.
  - intros id r Hrec. unfold record in Hrec. destruct (rn_runs st !! id) as [s|] eqn:Hs; [|done].
    injection Hrec as <-. destruct (rn_slots _ HI _ _ Hs) as (? & ? & _). split_and!; [done|done|].
    intros Ht. eapply record_grow; [exact Hg| |done]. unfold record. by rewrite Hs.
  - intros id t Ht Hph. destruct (rn_task _ HI _ _ Ht) as (_ & Ha & Hp).
    destruct Hph as [[b Hb]|[Hb Hn]]; rewrite Hb in Hp; [done|]. by destruct (Ha Hp).
  - intros n w r Hw Ha. destruct (rn_answers _ HI _ _ _ Hw Ha) as [Hrec Ht]. split; [done|].
    by eapply record_grow.
Qed.

(** The intents the next boot will replay: of the runs whose intent this
    process wrote, exactly those whose task has not marked it, at whatever
    point the process dies.  A run that was cancelled before its task marked it
    is among them, although its record says that it was cancelled. *)
Theorem replay_set store m st : rep store m -> rtc rn_step_any (runner_new store) st ->
  exists l, is_unterminated (rn_store st) = Some l /\
    (forall id, id ∈ rn_persisted st -> (exists i, i ∈ l /\ ri_run_id i = id) <-> ~ marked id st) /\
    (forall id t, id ∈ rn_persisted st -> rn_tasks st !! id = Some t -> tk_phase t = TkAborted ->
       exists i, i ∈ l /\ ri_run_id i = id).
Proof.
  intros Hm Hr. pose proof (runner_reachable _ _ _ Hm Hr) as HI.
  destruct (rn_intents _ HI) as (m1 & Hm1 & Hp). destruct (is_unterminated_rep _ _ Hm1) as (l & Hl & _ & Hin).
  assert (Hset : forall id, id ∈ rn_persisted st -> (exists i, i ∈ l /\ ri_run_id i = id) <-> ~ marked id st).
  { intros id Hid. destruct (Hp id Hid) as (_ & i & Hi & Hiff). rewrite <- Hiff.
    pose proof (is_keys_rep _ _ _ _ Hm1 Hi) as Hkey. split.
    - intros (i' & [Hi' Ht]%Hin & <-). congruence.
    - intros Ht. exists i. split; [|done]. apply Hin. by rewrite Hkey. }
  exists l. split_and!; [done|exact Hset|].
  intros id t Hid Ht Hph. apply Hset; [done|]. intros (t' & Ht' & Hd). congruence.
Qed.

(** The bound on replays is never reached: each replay writes the counter
    and then overwrites the intent with a fresh one whose counter is zero, so a
    run that crashes the process at every boot is replayed at every boot, for
    ever. *)
Theorem replay_loop_unbounded (l : list (uuid * datetime)) i store m :
  rep store m -> (forall j, ri_input j = ri_input i -> good j) ->
  m !! ri_run_id i = Some i -> ri_terminal i = None ->
  (0 <= ri_replay_count i <= 9)%Z -> is_some_b (registry !! tool_name (ri_workflow i)) = true ->
  exists i' store' m', restarts l i store = Ok (i', store') /\ rep store' m' /\
    m' !! ri_run_id i = Some i' /\ ri_terminal i' = None /\
    ri_workflow i' = ri_workflow i /\ ri_input i' = ri_input i /\
    ri_replay_count i' = match l with [] => ri_replay_count i | _ => 0%Z end.
Proof.
  revert i store m. induction l as [|[fresh now] l IH]; intros i store m Hm Hgood Hi Ht Hc Hreg.
  { by exists i, store, m. }
  cbn [restarts]. unfold restart, replay.
  assert (Hw : wrap_u32 (ri_replay_count i + 1) = (ri_replay_count i + 1)%Z)
    by (unfold wrap_u32; rewrite Z.mod_small; lia).
  rewrite Hw. destruct (Z.ltb_spec 10 (ri_replay_count i + 1)); [lia|]. unfold spawn_with_id.
  cbn -[is_insert is_some_b tool_name]. rewrite Hreg. cbn -[is_insert is_some_b tool_name].
  set (i1 := with_replay_count _ i). set (j := spawn_intent now (ri_run_id i) _).
  pose proof (is_insert_rep _ _ i1 Hm (Hgood i1 eq_refl)) as Hm1.
  pose proof (is_insert_rep _ _ j Hm1 (Hgood j eq_refl)) as Hm2.
  destruct (IH (truncated j) _ _ Hm2) as (i' & store' & m' & Hrs & Hm' & Hi' & Ht' & Hwf & Hin & Hcount);
    [done|cbn; by rewrite lookup_insert_eq|done|cbn; lia|exact Hreg|].
  exists i', store', m'. split_and!; [exact Hrs|done|exact Hi'|done|done|done|]. by destruct l.
Qed.

(** Who waits is woken by a step that marks the run, and by no other. *)
Lemma waiting_until_marked st st' n id :
  rtc (fun a b => exists l, rn_step l a b /\ l <> RnEnds id) st st' ->
  rn_waiters st !! n = Some (Waiter id WWaiting) ->
  rn_waiters st' !! n = Some (Waiter id WWaiting).
Proof.
  intros Hsteps Hw. induction Hsteps as [|st st1 st2 (l & Hs & Hne) _ IH]; [done|]. apply IH. clear IH.
  destruct Hs; cbn in *; try done.
  - by apply spawn_Ok in H1 as ->.
  - destruct (replay_store fresh now kept i st H1) as (t & _ & _ & Hsp). by apply Hsp, spawn_Ok in H2 as ->.
  - destruct (replay_store fresh now kept i st H1) as (t & _ & -> & _). done.
  - rewrite lookup_fmap, Hw. cbn. destruct (String.eqb_spec id id0); congruence.
  - unfold task_marks. cbn. destruct (is_mark _ _ _), (durable && written); exact Hw.
  - rewrite lookup_fmap, Hw. cbn. destruct (String.eqb_spec id id0); congruence.
  - rewrite lookup_insert_ne; [done|congruence].
  - rewrite lookup_insert_ne; [done|]. intros ->. rewrite Hw in H0. injection H0 as <-. done.
  - rewrite lookup_insert_ne; [done|]. intros ->. rewrite Hw in H0. injection H0 as <-. done.
Qed.

End Runner.

(** * A run that ends while somebody is about to wait for it *)

Module Demo.

Definition brief_tool : tool unit := {|
  info := ToolInfo "workflow:brief" "" JNull None ["workflow:brief"] true annotations_default;
  invoke := fun w env => (w, Ok env) |}.
Definition registry : gmap string (tool unit) := {["workflow:brief" := brief_tool]}.
Definition show (_ : Z) : string := "0".

Definition scope : execution_scope :=
  ExecutionScope "konf:a" [CapabilityGrant "memory_search" {["namespace" := JString "konf:a"]}]
    limits_default (Actor "u" User) 3.
Definition spec : workflow_spec := WorkflowSpec "brief" JNull scope (ExecutionContext 7 None "s" None None).

(** The store of [Intents.Demo], empty. *)
#[export] Instance ops : IntentOps (intent_store (B:=stored_intent)) :=
  redb_intents id Some Intents.Demo.to_text Intents.Demo.of_text map_to_list.
#[export] Instance laws :
  IntentLaws intent_store (represents id Intents.Demo.to_text Intents.Demo.of_text)
    (printable Intents.Demo.to_text Intents.Demo.of_text) :=
  redb_intents_laws id Some Intents.Demo.to_text Intents.Demo.of_text map_to_list
    (fun s => eq_refl) (fun t => reflexivity _).

Abbreviation state := (runner (T:=intent_store (B:=stored_intent))).
Abbreviation step :=
  (rn_step show registry true (printable Intents.Demo.to_text Intents.Demo.of_text)).
Abbreviation steps :=
  (rtc (rn_step_any show registry true (printable Intents.Demo.to_text Intents.Demo.of_text))).

Definition st0 : state := runner_new store_open.
Definition st1 : state :=
  match spawn_with_id registry true 0 "r" spec st0 with Ok st => st | Err _ => st0 end.
Definition st2 : state := persist 0 "r" spec true st1.
Definition st3 : state := register_hook "r" (start_task "r" spec st2).
(** Somebody looks while the run is in progress. *)
Definition st4 : state := set_waiter 0 (Waiter "r" WSubscribe) (set_waiter 0 (Waiter "r" WLook) (task_running 1 "r" st3)).
Definition st5 : state := task_records show 2 "r" (Ok JNull) (task_returns "r" (Ok JNull) st4).
(** ... and subscribes after its end. *)
Definition st6 : state :=
  set_waiter 0 (Waiter "r" WWaiting) (task_marks show true "r" (Ok JNull) true st5).

Lemma one l (a b : state) : step l a b -> steps a b.
Proof. intros Hs. apply rtc_once. by exists l. Qed.

Lemma to_st3 : steps st0 st3.
Proof.
  transitivity st1; [apply (one (RnSpawns "r")), SSpawn with 0%Z spec; reflexivity|].
  transitivity st2; [apply (one RnQuiet), SPersist; [reflexivity|done]|].
  transitivity (start_task "r" spec st2); [apply (one RnQuiet), SStart; reflexivity|].
  apply (one RnQuiet), SHook. reflexivity.
Qed.

Lemma to_st5 : steps st0 st5.
Proof.
  transitivity st3; [exact to_st3|].
  transitivity (task_running 1 "r" st3);
    [apply (one RnQuiet); eapply SRunning; [vm_compute; reflexivity|reflexivity]|].
  transitivity (set_waiter 0 (Waiter "r" WLook) (task_running 1 "r" st3));
    [apply (one RnQuiet), SWait; vm_compute; reflexivity|].
  transitivity st4; [apply (one RnQuiet), (SLook _ _ _ _ 0 (Waiter "r" WLook)); vm_compute; reflexivity|].
  transitivity (task_returns "r" (Ok JNull) st4);
    [apply (one RnQuiet); eapply SReturns; [vm_compute; reflexivity|reflexivity]|].
  apply (one (RnEnds "r")). eapply SRecords; [vm_compute; reflexivity|reflexivity].
Qed.

Lemma to_st6 : steps st0 st6.
Proof.
  transitivity st5; [exact to_st5|].
  transitivity (task_marks show true "r" (Ok JNull) true st5);
    [apply (one RnQuiet); eapply SMarks; [vm_compute; reflexivity|reflexivity]|].
  apply (one RnQuiet), (SSubscribe _ _ _ _ 0 (Waiter "r" WSubscribe)); vm_compute; reflexivity.
Qed.

(** A cancellation between the start of the task and its first step. *)
Definition st7 : state := at_phase "r" TkAborted (cancel_end 1 "r" [] [] (cancel_begin "r" st3)).

Lemma to_st7 : steps st0 st7.
Proof.
  transitivity st3; [exact to_st3|].
  transitivity (cancel_begin "r" st3); [apply (one RnQuiet), SCancel|].
  transitivity (cancel_end 1 "r" [] [] (cancel_begin "r" st3));
    [apply (one (RnEnds "r")), SCancelled; vm_compute; reflexivity|].
  apply (one RnQuiet). eapply SAborted; [vm_compute; reflexivity|reflexivity|]. intros b. vm_compute. discriminate.
Qed.

Lemma store_empty : represents id Intents.Demo.to_text Intents.Demo.of_text store_open ∅.
Proof. apply represents_open. Qed.

Lemma runner_lifecycle_witness :
  record "r" (rn_runs st5) = Some (RunRecord "r" "brief" "inline" (RSucceeded JNull) 0 (Some 1%Z) (Some 2%Z)) /\
  record "r" (rn_runs st6) = Some (RunRecord "r" "brief" "inline" (RSucceeded JNull) 0 (Some 1%Z) (Some 2%Z)).
Proof.
  assert (H5 : record "r" (rn_runs st5)
    = Some (RunRecord "r" "brief" "inline" (RSucceeded JNull) 0 (Some 1%Z) (Some 2%Z))) by (vm_compute; reflexivity).
  split; [exact H5|].
  assert (Hl : steps st5 st6).
  { transitivity (task_marks show true "r" (Ok JNull) true st5);
      [apply (one RnQuiet); eapply SMarks; [vm_compute; reflexivity|reflexivity]|].
    apply (one RnQuiet), (SSubscribe _ _ _ _ 0 (Waiter "r" WSubscribe)); vm_compute; reflexivity. }
  destruct (runner_lifecycle show registry true _ _ store_open ∅ st5 st6 store_empty to_st5 Hl) as (H & _ & _).
  destruct (H _ _ H5) as (_ & _ & Hf). exact (Hf eq_refl).
Defined.

Lemma replay_set_witness :
  record "r" (rn_runs st7) = Some (RunRecord "r" "brief" "inline" RCancelled 0 None (Some 1%Z)) /\
  exists l, is_unterminated (rn_store st7) = Some l /\ exists i, i ∈ l /\ ri_run_id i = "r".
Proof.
  split; [vm_compute; reflexivity|].
  destruct (replay_set show registry true _ _ store_open ∅ st7 store_empty to_st7) as (l & Hl & _ & Ha).
  exists l. split; [exact Hl|]. apply (Ha "r" (RunTask spec TkAborted true)).
  - apply (bool_decide_unpack _). vm_compute. done.
  - vm_compute. reflexivity.
  - reflexivity.
Defined.

(** Twelve boots in a row, each crashing: the twelfth replays as well. *)
Lemma replay_loop_unbounded_witness :
  exists i' store', restarts registry true (replicate 12 (1%N, 5000%Z)) (Intents.Demo.spawned "r1" 5000)
      (insert_intent id Intents.Demo.to_text (Intents.Demo.spawned "r1" 5000) store_open) = Ok (i', store') /\
    ri_terminal i' = None /\ ri_replay_count i' = 0%Z.
Proof.
  pose proof (represents_insert id Intents.Demo.to_text Intents.Demo.of_text store_open ∅
                (Intents.Demo.spawned "r1" 5000) store_empty eq_refl) as Hr.
  destruct (replay_loop_unbounded registry true (printable Intents.Demo.to_text Intents.Demo.of_text)
              (represents id Intents.Demo.to_text Intents.Demo.of_text)
              (replicate 12 (1%N, 5000%Z)) (Intents.Demo.spawned "r1" 5000) _ _ Hr)
    as (i' & store' & m' & Hrs & _ & _ & Ht & _ & _ & Hc).
  - intros j Hj. unfold printable. rewrite Hj. reflexivity.
  - vm_compute. reflexivity.
  - reflexivity.
  - cbn. lia.
  - vm_compute. reflexivity.
  - exists i', store'. split; [exact Hrs|]. split; [exact Ht|exact Hc].
Defined.

(** A notification can be missed: in a reachable state the run has ended,
    its task is done and nothing is under way, yet a caller of [wait], who saw
    the run in progress and subscribed after its end was recorded, waits; and it
    goes on waiting through every further step that does not mark the run
    again, which only a new cancellation of the finished run can do. *)
Theorem wait_misses_the_end :
  exists st, steps st0 st /\ recorded_end "r" st /\
    (exists t, rn_tasks st !! "r" = Some t /\ tk_phase t = TkDone true) /\ rn_cancelling st = [] /\
    rn_waiters st !! 0 = Some (Waiter "r" WWaiting) /\
    forall st', rtc (fun a b => exists l, step l a b /\ l <> RnEnds "r") st st' ->
      rn_waiters st' !! 0 = Some (Waiter "r" WWaiting).
Proof.
  exists st6. assert (Hw : rn_waiters st6 !! 0 = Some (Waiter "r" WWaiting)) by (vm_compute; reflexivity).
  split; [exact to_st6|]. split; [eexists; split; [vm_compute; reflexivity|reflexivity]|].
  split; [eexists; split; [vm_compute; reflexivity|reflexivity]|]. split; [vm_compute; reflexivity|].
  split; [exact Hw|]. intros st' Hs. exact (waiting_until_marked _ _ _ _ st6 st' 0 "r" Hs Hw).
Qed.
End Demo.
