(* ===== verification/WorkflowTool.v ===== *)
(** Workflows as tools ([konf-runtime/src/workflow_tool.rs]) and the tools of
    the runner ([konf-tool-runner/src/tools.rs]): the two ways a tool call
    starts a run, and the scope the run gets.

    [Runtime::run] and the [Runner] trait object are operations over the world
    the tools share. *)

From S2P Require Import Prelude Json Error Envelope Scope Tool Workflow Template Config Executor Events Runtime Intents Runner Engine.

Local Open Scope string_scope.
Local Open Scope list_scope.

(** [Display] of [JournalError] and [RuntimeError]. *)
Definition journal_error_to_string (e : journal_error) : string :=
  match e with
  | JStorage c => String.append "storage: " c
  | JSerialization c => String.append "serialization: " c
  | JNotFound => "not found"
  end.

Definition runtime_error_to_string (show_uuid : uuid -> string) (show_u64 : Z -> string) (e : runtime_error)
  : string :=
  match e with
  | RNotFound r => String.append "workflow run not found: " (show_uuid r)
  | RNotRunning r => String.append "workflow run " (String.append (show_uuid r) " is not running")
  | RResourceLimit l v =>
      String.append "resource limit exceeded: " (String.append l
        (String.append " (max " (String.append (show_u64 v) ")")))
  | RCapabilityDenied m => String.append "capability denied: " m
  | RDeadlineExceeded t => String.append "deadline exceeded for tool '" (String.append t "'")
  | RTool t m => String.append "tool '" (String.append t (String.append "' failed: " m))
  | REngine e => String.append "engine error: " (konflux_error_to_string show_u64 e)
  | RJoinFailed m => String.append "join failed: " m
  | RJournal e => String.append "journal: " (journal_error_to_string e)
  end.

(** * The workflow tool *)

Section WorkflowTool.
Context {W : Type}.
Context (show_uuid : uuid -> string) (show_u64 : Z -> string).
(** The id and the time stamp of a response; [Runtime::run]. *)
Context (fresh : W -> uuid) (now : W -> datetime).
Context (run : workflow -> json -> execution_scope -> execution_context -> W ->
               W * result runtime_error json).

(** [WorkflowTool::info]. *)
Definition workflow_tool_info (wf : workflow) : tool_info := {|
  ti_name := String.append "workflow:" (wf_id wf);
  ti_description := default EmptyString (wf_description wf);
  ti_input_schema := default (JObject [("type", JString "object")]) (wf_input_schema wf);
  ti_output_schema := wf_output_schema wf;
  ti_capabilities := [String.append "workflow:" (wf_id wf)];
  ti_supports_streaming := true;
  ti_annotations := ToolAnnotations false false false true |}.

(** The scope of the nested run. *)
Definition nested_scope (env : envelope json) : result runtime_error execution_scope :=
  let caller := from_envelope env in
  child_scope caller (Scope.capabilities caller) None.

(** [WorkflowTool::invoke]. *)
Definition workflow_tool_invoke (wf : workflow) (w : W) (env : envelope json)
  : W * result tool_error (envelope json) :=
  match nested_scope env with
  | Err e =>
      (w, Err (ExecutionFailed (String.append "Failed to create child scope: "
                                  (runtime_error_to_string show_uuid show_u64 e)) false))
  | Ok s =>
      match run wf (env_payload env) s (context_from_envelope env) w with
      | (w', Err e) =>
          (w', Err (ExecutionFailed (String.append "Workflow '" (String.append (wf_id wf)
                     (String.append "' failed: " (runtime_error_to_string show_uuid show_u64 e)))) false))
      | (w', Ok output) => (w', Ok (respond (fresh w') (now w') env output))
      end
  end.

Definition workflow_tool (wf : workflow) : tool W := Tool (workflow_tool_info wf) (workflow_tool_invoke wf).
End WorkflowTool.

(** * The runner's tools *)

(** What the tools use of [dyn Runner] and its registry; a wait that the time
    limit cuts is [None]. *)
Record runner_ops (W : Type) : Type := RunnerOps {
  op_name : string;
  op_spawn : workflow_spec -> W -> W * result runner_error string;
  op_cancel : string -> W -> W * bool;
  op_record : string -> W -> option run_record;
  op_wait : Z -> string -> W -> W * option (option run_record);
}.
Arguments op_name {W}. Arguments op_spawn {W}. Arguments op_cancel {W}. Arguments op_record {W}.
Arguments op_wait {W}.

(** [RunRecord] as JSON: the state flattened into the record. *)
Definition state_fields (s : run_state) : list (string * json) :=
  ("state", JString (label s)) ::
  match s with
  | RSucceeded v => [("result", v)]
  | RFailed e => [("error", JString e)]
  | _ => []
  end.

Definition record_to_json (show_time : datetime -> string) (r : run_record) : json :=
  JObject (obj_of_list
    ([("id", JString (rr_id r)); ("workflow", JString (rr_workflow r)); ("backend", JString (rr_backend r))] ++
     state_fields (rr_state r) ++
     [("created_at", JString (show_time (rr_created_at r)));
      ("started_at", opt_json (fun t => JString (show_time t)) (rr_started_at r));
      ("finished_at", opt_json (fun t => JString (show_time t)) (rr_finished_at r))])).

(** [require_run_id]. *)
Definition require_run_id (input : json) (tool_name : string) : result tool_error string :=
  ok_or (get "run_id" input ≫= as_str)
    (ExecutionFailed (String.append tool_name " missing required field `run_id`") false).

Definition run_not_found (run_id : string) : tool_error :=
  ExecutionFailed (String.append "run_id " (String.append run_id " not found")) false.

(** [reconstruct_parent_scope]: an unknown role is that of the system. *)
Definition parent_role (env : envelope json) : actor_role :=
  match obj_get "actor_role" (env_metadata env) ≫= as_str with
  | Some s =>
      if String.eqb s "infra_admin" then InfraAdmin
      else if String.eqb s "product_admin" then ProductAdmin
      else if String.eqb s "user" then User
      else if String.eqb s "infra_agent" then InfraAgent
      else if String.eqb s "product_agent" then ProductAgent
      else if String.eqb s "user_agent" then UserAgent
      else System
  | None => System
  end.

Definition reconstruct_parent_scope (env : envelope json) : execution_scope :=
  ExecutionScope (env_namespace env) (map grant_new (to_patterns (env_capabilities env))) limits_default
    (Actor (env_actor_id env) (parent_role env)) 0.

(** [reconstruct_parent_context]. *)
Definition reconstruct_parent_context (env : envelope json) : execution_context :=
  with_trace (env_trace_id env) (default "runner" (obj_get "session_id" (env_metadata env) ≫= as_str)).

Section RunnerTools.
Context {W : Type}.
Context (show_u64 : Z -> string) (show_time : datetime -> string).
Context (fresh : W -> uuid) (now : W -> datetime).
Context (runner : runner_ops W).

Definition answer (w : W) (env : envelope json) (payload : json) : W * result tool_error (envelope json) :=
  (w, Ok (respond (fresh w) (now w) env payload)).

(** What [runner:spawn] asks of the runner. *)
Definition spawn_request (env : envelope json) : result tool_error workflow_spec :=
  workflow ← ok_or (get "workflow" (env_payload env) ≫= as_str)
               (ExecutionFailed "runner:spawn missing required field `workflow`" false);
  Ok {| ws_workflow := workflow;
        ws_input := default (JObject []) (get "input" (env_payload env));
        ws_parent_scope := reconstruct_parent_scope env;
        ws_parent_ctx := reconstruct_parent_context env |}.

(** [SpawnTool::invoke]. *)
Definition spawn_tool (w : W) (env : envelope json) : W * result tool_error (envelope json) :=
  match spawn_request env with
  | Err e => (w, Err e)
  | Ok spec =>
      match op_spawn runner spec w with
      | (w', Err e) => (w', Err (ExecutionFailed (runner_error_to_string e) false))
      | (w', Ok id) =>
          answer w' env (JObject (obj_of_list
            [("run_id", JString id); ("workflow", JString (ws_workflow spec));
             ("backend", JString (op_name runner))]))
      end
  end.

(** [StatusTool::invoke]. *)
Definition status_tool (w : W) (env : envelope json) : W * result tool_error (envelope json) :=
  match require_run_id (env_payload env) "runner:status" with
  | Err e => (w, Err e)
  | Ok id =>
      match op_record runner id w with
      | None => (w, Err (run_not_found id))
      | Some r => answer w env (record_to_json show_time r)
      end
  end.

(** [WaitTool::invoke]. *)
Definition wait_tool (w : W) (env : envelope json) : W * result tool_error (envelope json) :=
  match require_run_id (env_payload env) "runner:wait" with
  | Err e => (w, Err e)
  | Ok id =>
      let timeout := default 300%Z (get "timeout_secs" (env_payload env) ≫= as_u64) in
      match op_wait runner timeout id w with
      | (w', None) =>
          (w', Err (ExecutionFailed (String.append "runner:wait timed out after "
                 (String.append (show_u64 timeout) (String.append "s for run_id " id))) true))
      | (w', Some None) => (w', Err (run_not_found id))
      | (w', Some (Some r)) => answer w' env (record_to_json show_time r)
      end
  end.

(** [CancelTool::invoke]. *)
Definition cancel_tool (w : W) (env : envelope json) : W * result tool_error (envelope json) :=
  match require_run_id (env_payload env) "runner:cancel" with
  | Err e => (w, Err e)
  | Ok id =>
      let '(w', cancelled) := op_cancel runner id w in
      answer w' env (JObject [("cancelled", JBool cancelled); ("run_id", JString id)])
  end.

(** Metadata.  The schemas have one required string each. *)
Definition runner_schema (required : string) (properties : list (string * json)) : json :=
  JObject (obj_of_list [("type", JString "object"); ("properties", JObject (obj_of_list properties));
                        ("required", JArray [JString required])]).
Definition string_type : json := JObject [("type", JString "string")].

Definition SpawnTool : tool W := {|
  info := ToolInfo "runner:spawn"
    "Spawn a registered workflow as a new run. Returns immediately with a run_id; use runner:wait to collect the result."
    (runner_schema "workflow"
       [("workflow", JObject [("description", JString "Workflow id (matches workflow:<id> in the engine registry)");
                              ("type", JString "string")]);
        ("input", JObject [("description", JString "Input payload for the workflow (default: {})");
                           ("type", JString "object")])])
    None ["runner:spawn"] false annotations_default;
  invoke := spawn_tool |}.

Definition StatusTool : tool W := {|
  info := ToolInfo "runner:status" "Query the current state of a run by id. Non-blocking."
    (runner_schema "run_id" [("run_id", string_type)])
    None ["runner:status"] false (ToolAnnotations true false true false);
  invoke := status_tool |}.

Definition WaitTool : tool W := {|
  info := ToolInfo "runner:wait"
    "Block until a run reaches a terminal state. Optional timeout_secs; defaults to 300 seconds."
    (runner_schema "run_id"
       [("run_id", string_type);
        ("timeout_secs", JObject [("maximum", JNumber (PosInt 86400)); ("minimum", JNumber (PosInt 1));
                                  ("type", JString "integer")])])
    None ["runner:wait"] false (ToolAnnotations true false true false);
  invoke := wait_tool |}.

Definition CancelTool : tool W := {|
  info := ToolInfo "runner:cancel" "Cancel a run by id. Returns whether a cancel hook was invoked."
    (runner_schema "run_id" [("run_id", string_type)])
    None ["runner:cancel"] false (ToolAnnotations false true false false);
  invoke := cancel_tool |}.

(** [register]. *)
Definition register_runner (e : engine W) : engine W :=
  fold_left register_tool [SpawnTool; StatusTool; WaitTool; CancelTool] e.
End RunnerTools.

(** * Theory *)

(** A scope read back from an envelope can always be nested: its patterns cover
    themselves. *)
Lemma nested_scope_Ok env :
  nested_scope env = Ok {|
    namespace := env_namespace env;
    Scope.capabilities := map grant_new (to_patterns (env_capabilities env));
    limits := limits_default;
    scope_actor := scope_actor (from_envelope env);
    depth := wrap_u64 (depth (from_envelope env) + 1) |}.
Proof.
  unfold nested_scope. apply child_scope_Ok. split; [done|]. unfold covered_by, capability_patterns.
  apply Forall_forall. intros pat Hpat. apply check_access_Ok. exists (Capability pat).
  split; [by apply list_elem_of_fmap_2|]. apply matches_refl.
Qed.

Lemma patterns_of_grants l : map g_pattern (map grant_new l) = l.
Proof. rewrite map_map. apply map_id. Qed.

Lemma to_from_patterns l : to_patterns (from_patterns l) = l.
Proof. unfold to_patterns, from_patterns. rewrite map_map. apply map_id. Qed.

Lemma from_to_patterns cs : from_patterns (to_patterns cs) = cs.
Proof.
  unfold to_patterns, from_patterns. rewrite map_map. rewrite <- (map_id cs) at 2. apply map_ext. by intros [].
Qed.

Lemma prepared_metadata {W} now render parse_uuid new_uuid (ctx : step_context (W:=W)) s outs w t env :
  prepare_step now render parse_uuid new_uuid ctx s outs w = Ok (t, env) ->
  env_metadata env = [] /\ env_namespace env = default "unknown" (meta_str ctx "namespace") /\
  env_actor_id env = default "unknown" (meta_str ctx "actor_id") /\
  to_patterns (env_capabilities env) = default (Executor.capabilities ctx) (st_grant s) /\
  (forall tl, check_access (env_capabilities env) tl = Ok tt ->
     check_tool_access tl (Executor.capabilities ctx) = Ok tt).
Proof.
  unfold prepare_step.
  destruct (resolve_inputs render outs (st_input s)) as [resolved|]; [|done]. cbn [map_err mbind result_bind].
  destruct (check_tool_access (st_tool s) (Executor.capabilities ctx)) as [[]|]; [|done].
  cbn [map_err mbind result_bind].
  destruct (Executor.registry ctx !! st_tool s) as [t'|]; [|done]. cbn [ok_or mbind result_bind].
  destruct (st_grant s) as [grant|].
  - unfold validate_grant.
    destruct (attenuate (from_patterns (Executor.capabilities ctx)) grant) as [child|] eqn:Hatt; [|done].
    cbn [map_err mbind result_bind]. intros [= <- <-]. split_and!; [done..|apply to_from_patterns|].
    intros tl Htl. cbn in Htl. apply attenuate_Ok in Hatt as Hc. destruct Hc as [-> _].
    eapply attenuate_narrows; [by exists grant|exact Htl].
  - cbn [mbind result_bind]. intros [= <- <-]. split_and!; [done..|apply to_from_patterns|]. intros tl Htl. exact Htl.
Qed.

(** C24: the scope of a run that a workflow step starts by calling a workflow
    tool: the run's namespace and actor, the step's grant or the run's patterns
    without bindings, and nothing the run itself may not use; but the role is
    that of the system, the limits are the defaults, and the depth is one
    however deep the run already is, since the envelope of a step carries no
    metadata.  Hence the depth limit never refuses such a run. *)
Theorem nested_run_scope {W} now render parse_uuid new_uuid (ctx : step_context (W:=W)) s outs w t env :
  prepare_step now render parse_uuid new_uuid ctx s outs w = Ok (t, env) ->
  exists c, nested_scope env = Ok c /\
    c = {| namespace := default "unknown" (meta_str ctx "namespace");
           Scope.capabilities := map grant_new (default (Executor.capabilities ctx) (st_grant s));
           limits := limits_default;
           scope_actor := Actor (default "unknown" (meta_str ctx "actor_id")) System;
           depth := 1 |} /\
    (forall tl, is_ok (check_tool c tl) = true -> check_tool_access tl (Executor.capabilities ctx) = Ok tt) /\
    (forall table e, validate_start c table = Err e -> e = RResourceLimit "max_active_runs_per_namespace" 20).
Proof.
  intros (Hm & Hns & Ha & Hp & Hc)%prepared_metadata. rewrite nested_scope_Ok.
  unfold from_envelope. rewrite Hm, Hns, Ha, Hp. cbn -[limits_default].
  eexists. split; [reflexivity|]. split; [reflexivity|]. split.
  - intros tl. rewrite check_tool_Ok. unfold capability_patterns. cbn [Scope.capabilities].
    rewrite patterns_of_grants, <- Hp, from_to_patterns. apply Hc.
  - intros table e. unfold validate_start. cbn. destruct (20 <=? _)%Z; [by intros [= <-]|done].
Qed.

(** A run spawned through [runner:spawn] keeps the namespace and the
    patterns of the caller, but its bindings, limits, depth and actor are lost:
    the workflow tool runs for the actor [runner:inline] with the role of the
    system, at depth one whatever the depth of the caller. *)
Theorem spawned_run_scope env spec fresh now :
  spawn_request env = Ok spec ->
  nested_scope (task_envelope fresh now spec) = Ok {|
    namespace := env_namespace env;
    Scope.capabilities := map grant_new (to_patterns (env_capabilities env));
    limits := limits_default; scope_actor := Actor "runner:inline" System; depth := 1 |} /\
  context_from_envelope (task_envelope fresh now spec) = {|
    ec_trace_id := env_trace_id env; ec_parent_interaction_id := None;
    ec_session_id := ec_session_id (reconstruct_parent_context env); ec_deadline := None;
    ec_idempotency_key := None |}.
Proof.
  unfold spawn_request. destruct (ok_or _ _) as [wf|]; [|done]. cbn [mbind result_bind]. intros [= <-]. split; [|done].
  rewrite nested_scope_Ok. unfold task_envelope, capability_patterns, reconstruct_parent_scope.
  cbn -[limits_default grant_new to_patterns from_patterns]. by rewrite to_from_patterns, patterns_of_grants.
Qed.

(** * A workflow that calls another, from deep inside *)

Module Demo.

Definition sub : tool unit := {|
  info := ToolInfo "workflow:sub" "" JNull None ["workflow:sub"] true annotations_default;
  invoke := fun w env => (w, Ok env) |}.

(** A run at depth nine, one below the limit. *)
Definition ctx : step_context (W:=unit) :=
  StepContext {["workflow:sub" := sub]} ["workflow:*"] config_default
    {["namespace" := JString "konf:a"; "actor_id" := JString "u"; "depth" := JNumber (PosInt 9)]} "w".

Definition no_render (s : string) (vars : gmap string json) : result string string := Err s.

Abbreviation prepared :=
  (prepare_step (W:=unit) (fun _ => 0%Z) no_render (fun _ => None) (fun _ _ => 0%N) ctx (step_new "n" "workflow:sub") ∅ tt).

Definition env0 : envelope json :=
  for_tool_dispatch 0%N 0%Z "workflow:sub" (JObject []) ["workflow:*"] 0%N "konf:a" "u" "unknown".

Lemma nested_run_scope_witness :
  prepared = Ok (sub, env0) /\ exists c, nested_scope env0 = Ok c /\ depth c = 1%Z /\ role (scope_actor c) = System.
Proof.
  assert (Hp : prepared = Ok (sub, env0)) by (vm_compute; reflexivity).
  split; [exact Hp|].
  destruct (nested_run_scope (fun _ => 0%Z) no_render (fun _ => None) (fun _ _ => 0%N) ctx
              (step_new "n" "workflow:sub") ∅ tt sub env0 Hp) as (c & Hc & Heq & _).
  exists c. split; [exact Hc|]. rewrite Heq. split; reflexivity.
Defined.

Definition env1 : envelope json :=
  for_tool_dispatch 0%N 0%Z "runner:spawn" (JObject [("workflow", JString "sub")]) ["workflow:*"] 7%N "konf:a" "u" "s".

Definition spec1 : workflow_spec :=
  WorkflowSpec "sub" (JObject []) (reconstruct_parent_scope env1) (reconstruct_parent_context env1).

Lemma spawned_run_scope_witness :
  exists spec, spawn_request env1 = Ok spec /\
    is_ok (nested_scope (task_envelope 0%N 0%Z spec)) = true.
Proof.
  exists spec1. split; [reflexivity|].
  pose proof (proj1 (spawned_run_scope env1 spec1 0%N 0%Z eq_refl)) as H. rewrite H. reflexivity.
Defined.

End Demo.
