(* ===== verification/Server.v ===== *)
(** The MCP server ([konf-mcp/src/lib.rs]): the engine's tools and resources
    for a client that speaks the Model Context Protocol.

    The wire is the [rmcp] crate's.  What is modelled is what the server
    answers: which tools it lists under which names, and how a call becomes a
    dispatch ([Runtime::invoke_tool]) in the scope of the session. *)

From S2P Require Import Prelude Json Error Envelope Scope Tool Guard Engine Journal Events Dispatch WorkflowTool MemoryTools Surreal.
From Stdlib Require Import Ascii.

Local Open Scope string_scope.
Local Open Scope list_scope.

(** * Sessions and names *)

(** [KonfMcpServer::new]: the capabilities of a session that asks for none. *)
Definition session_default : list string := ["*"].

Definition mcp_namespace : string := "konf:mcp:http".

Definition session_bindings : gmap string json := {["namespace" := JString mcp_namespace]}.

(** [mcp_session_scope]. *)
Definition mcp_session_scope (session_capabilities : list string) : execution_scope := {|
  namespace := mcp_namespace;
  capabilities := map (fun pattern => CapabilityGrant pattern session_bindings) session_capabilities;
  limits := limits_default;
  scope_actor := {| actor_id := "mcp-http"; role := System |};
  depth := 0 |}.

(** [kernel_to_mcp_name]. *)
Fixpoint kernel_to_mcp_name (name : string) : string :=
  match name with
  | EmptyString => EmptyString
  | String a s => String (if Ascii.eqb a ":" then "_"%char else a) (kernel_to_mcp_name s)
  end.

(** The definition of a tool as a client sees it. *)
Record listed_tool : Type := ListedTool {
  lt_name : string;
  lt_description : string;
  lt_input_schema : list (string * json);
}.

(** [tool_info_to_mcp]. *)
Definition tool_info_to_mcp (i : tool_info) : listed_tool :=
  ListedTool (kernel_to_mcp_name (ti_name i)) (ti_description i)
    (default [] (as_object (ti_input_schema i))).

(** [tool_allowed_by_session]. *)
Definition tool_allowed_by_session (tool_name : string) (session_capabilities : list string) : bool :=
  is_ok (check_tool_access tool_name session_capabilities).

(** The kinds of [ErrorData] and [CallToolResult] the server makes. *)
Inductive error_data : Type := InvalidParams (message : string) | InternalError (message : string).
Record call_result : Type := CallResult { is_error : bool; text : string }.

(** What [get_info] announces. *)
Record server_info : Type := ServerInfo {
  si_tools : bool; si_tool_list_changed : bool; si_resources : bool; si_prompts : bool;
  si_name : string; si_version : string; si_instructions : string }.

Definition get_info (version : string) : server_info :=
  ServerInfo true true true false "konf" version
    "Konf AI agent platform. Provides tools for memory, LLM, HTTP, and workflow execution.".

Section Server.
Context {W : Type}.
Context (hash_order : gmap string json -> list (string * json)).
Context (tool_order : gmap string (tool W) -> list tool_info).
Context (now : nat -> W -> datetime) (fresh : nat -> W -> uuid).
Context (state_hash : string -> W -> option (list Z)).
Context (show_uuid : uuid -> string) (show_time : datetime -> string) (show_u64 : Z -> string).
Context (resource_order : gmap string resource -> list (string * resource)).
(** [serde_json::to_string_pretty]. *)
Context (to_string_pretty : json -> string).

(** [list_tools]. *)
Definition list_tools (registry : gmap string (tool W)) (session_capabilities : list string) : list listed_tool :=
  map tool_info_to_mcp
    (List.filter (fun i => tool_allowed_by_session (ti_name i) session_capabilities) (tool_order registry)).

(** The kernel name of a call: the first registered tool with that MCP name, or
    the name itself. *)
Definition kernel_name (registry : gmap string (tool W)) (mcp_name : string) : string :=
  match List.find (fun i => String.eqb (kernel_to_mcp_name (ti_name i)) mcp_name) (tool_order registry) with
  | Some i => ti_name i
  | None => mcp_name
  end.

(** [Runtime::invoke_tool]. *)
Definition invoke_tool (guards : gmap string tool_guard_entry) (store : option (journal_store W))
    (registry : gmap string (tool W)) (tool_name : string) (input : json) (s : execution_scope)
    (ctx : execution_context) (w : W) : list run_event * W * result runtime_error json :=
  dispatch_tool hash_order now fresh state_hash show_uuid show_time show_u64
    guards store registry tool_name input s ctx w.

(** [call_tool]. *)
Definition call_tool (guards : gmap string tool_guard_entry) (store : option (journal_store W))
    (registry : gmap string (tool W)) (session_capabilities : list string)
    (mcp_name : string) (arguments : option (list (string * json))) (w : W)
  : list run_event * W * result error_data call_result :=
  let name := kernel_name registry mcp_name in
  let input := JObject (default [] arguments) in
  if negb (tool_allowed_by_session name session_capabilities) then
    ([], w, Err (InvalidParams (String.append "Tool not permitted in this session: " mcp_name)))
  else
    let '(evs, w', r) :=
      invoke_tool guards store registry name input (mcp_session_scope session_capabilities)
        (new_root (fresh 2 w) mcp_namespace) w in
    (evs, w',
     Ok match r with
        | Ok output => CallResult false (to_string_pretty output)
        | Err e => CallResult true (runtime_error_to_string show_uuid show_u64 e)
        end).

(** [list_resources]. *)
Definition list_resources (resources : gmap string resource) : list resource_info :=
  resource_list resource_order resources.

(** [read_resource]. *)
Definition read_resource (read_to_string : string -> result string string) (resources : gmap string resource)
    (uri : string)
  : result error_data (string * string) :=
  r ← ok_or (resource_get resources uri) (InvalidParams (String.append "Resource not found: " uri));
  content ← map_err (fun e => InternalError (String.append "Failed to read resource: " (resource_error_to_string e)))
              (res_read r read_to_string);
  Ok (to_string_pretty content, uri).

(** * Theory *)

Lemma mcp_name_plain name : str_count ":" (kernel_to_mcp_name name) = 0.
Proof.
  induction name as [|a s IH]; [done|]. cbn. rewrite IH.
  destruct (Ascii.eqb_spec a ":") as [->|Hne]; [done|]. by destruct (Ascii.eqb_spec a ":").
Qed.

(** The early check of the server is the check of the dispatcher, and every
    grant of the session carries the namespace. *)
Lemma session_check session_capabilities name :
  tool_allowed_by_session name session_capabilities = true ->
  check_tool (mcp_session_scope session_capabilities) name = Ok session_bindings.
Proof.
  intros Ha. assert (is_ok (check_tool (mcp_session_scope session_capabilities) name) = true) as Hok.
  { apply check_tool_Ok. unfold tool_allowed_by_session, check_tool_access in Ha.
    unfold capability_patterns, mcp_session_scope. cbn [capabilities].
    rewrite map_map. cbn. rewrite map_id. by destruct (check_access _ _) as [[]|]. }
  destruct (check_tool _ name) as [b|] eqn:Hb; [|done].
  apply check_tool_grant in Hb as (g & Hg & _ & <-). cbn [capabilities mcp_session_scope] in Hg.
  by apply list_elem_of_fmap in Hg as (c & -> & _).
Qed.

Definition answer (r : result tool_error (envelope json)) (name : string) : call_result :=
  match r with
  | Ok out => CallResult false (to_string_pretty (env_payload out))
  | Err e => CallResult true (runtime_error_to_string show_uuid show_u64
               (RTool name (tool_error_to_string show_u64 e)))
  end.

(** The envelope of a call. *)
Definition call_envelope (session_capabilities : list string) (name : string)
    (arguments : option (list (string * json))) (w : W) : envelope json :=
  dispatch_envelope now fresh name (JObject (default [] arguments))
    (mcp_session_scope session_capabilities) (new_root (fresh 2 w) mcp_namespace) w.

(** A permitted call of a registered tool invokes the wrapped tool once and
    journals it. *)
Lemma call_dispatches guards store registry session_capabilities mcp_name arguments w raw :
  let name := kernel_name registry mcp_name in
  tool_allowed_by_session name session_capabilities = true -> registry !! name = Some raw ->
  let inv := invoke (wrap hash_order guards name session_bindings raw) w
               (call_envelope session_capabilities name arguments w) in
  exists evs now' entry, je_namespace entry = mcp_namespace /\
    call_tool guards store registry session_capabilities mcp_name arguments w =
      (evs, match store with Some js => snd (store_append js now' entry (fst inv)) | None => fst inv end,
       Ok (answer (snd inv) name)).
Proof.
  intros name Ha Hraw inv. unfold call_tool. fold name. rewrite Ha. cbn [negb].
  unfold invoke_tool, dispatch_tool. rewrite (session_check _ _ Ha), Hraw. cbn [ec_deadline new_root].
  set (s := mcp_session_scope session_capabilities) in *. set (ctx := new_root _ _) in *.
  replace (cached now store name ctx w) with (@None journal_row) by done.
  pose proof (run_dispatch_spec now fresh state_hash show_uuid show_time show_u64 store name
    (JObject (default [] arguments)) s ctx session_bindings (wrap hash_order guards name session_bindings raw) w) as Hrun.
  destruct (run_dispatch _ _ _ _ _ _ _ _ _ _ _ _ _ _) as [[evs w'] r]. cbn zeta in Hrun.
  destruct Hrun as (_ & -> & ->). exists evs. do 2 eexists.
  split; [|apply f_equal2; [reflexivity|unfold inv, call_envelope; fold s ctx; by destruct (snd _)]]. done.
Qed.

(** C33: what a client of the MCP server can do.  A call either is refused
    without any effect, exactly when the session's capabilities do not admit
    the tool its name stands for; or it fails because no such tool exists; or
    the tool's guard refuses it; or the tool is invoked once, on an object
    whose [namespace] is the session's, whatever the client wrote there, and
    whose other members are the client's, under an envelope whose own
    capabilities admit the tool.  Every call that reaches a tool is journalled
    under the session's namespace. *)
Theorem mcp_call_confined guards store registry session_capabilities mcp_name arguments w :
  listing (hash_order session_bindings) session_bindings ->
  let name := kernel_name registry mcp_name in
  let '(evs, w', r) := call_tool guards store registry session_capabilities mcp_name arguments w in
  if negb (tool_allowed_by_session name session_capabilities) then
    evs = [] /\ w' = w /\
    r = Err (InvalidParams (String.append "Tool not permitted in this session: " mcp_name))
  else
    match registry !! name with
    | None => evs = [] /\ w' = w /\ exists message, r = Ok (CallResult true message)
    | Some raw => exists wi out now' entry,
        r = Ok (answer out name) /\
        w' = match store with Some js => snd (store_append js now' entry wi) | None => wi end /\
        je_namespace entry = mcp_namespace /\
        ((wi = w /\ is_ok out = false) \/
         exists env m, invoke raw w env = (wi, out) /\ env_payload env = JObject m /\
           check_access (env_capabilities env) name = Ok tt /\
           forall k, obj_get k m = if String.eqb k "namespace" then Some (JString mcp_namespace)
                                   else obj_get k (default [] arguments))
    end.
Proof.
  intros Hl name. destruct (tool_allowed_by_session name session_capabilities) eqn:Ha; cbn [negb].
  2:{ unfold call_tool. fold name. by rewrite Ha. }
  destruct (registry !! name) as [raw|] eqn:Hraw.
  2:{ unfold call_tool. fold name. rewrite Ha. unfold invoke_tool, dispatch_tool.
      rewrite (session_check _ _ Ha), Hraw. split_and!; [done..|]. by eexists. }
  destruct (call_dispatches guards store registry session_capabilities mcp_name arguments w raw Ha Hraw)
    as (evs & t & entry & He & ->). fold name.
  set (env := call_envelope session_capabilities name arguments w).
  destruct (wrap_cases hash_order guards name session_bindings raw w env) as [[e ->]|(payload & Hp & ->)];
    [by apply insert_non_empty|..].
  - exists w, (Err e), t, entry. split_and!; [done..|]. by left.
  - exists (fst (invoke raw w (set_payload env payload))), (snd (invoke raw w (set_payload env payload))), t, entry.
    split_and!; [done..|]. right. exists (set_payload env payload).
    destruct (inject_bindings_object _ _ _ _ Hl Hp) as (m & -> & Hm).
    exists m. split_and!; [by destruct (invoke raw w _)|reflexivity| |].
    + by apply check_tool_Ok; rewrite (session_check _ _ Ha).
    + intros k. rewrite Hm. unfold session_bindings.
      destruct (String.eqb_spec k "namespace") as [->|Hne]; [by rewrite lookup_singleton_eq|].
      by rewrite lookup_singleton_ne.
Qed.

Lemma kernel_name_found registry i :
  i ∈ tool_order registry ->
  exists j, j ∈ tool_order registry /\ kernel_to_mcp_name (ti_name j) = kernel_to_mcp_name (ti_name i) /\
    kernel_name registry (kernel_to_mcp_name (ti_name i)) = ti_name j.
Proof.
  intros Hi. unfold kernel_name. destruct (List.find _ _) as [j|] eqn:Hf.
  - apply find_some in Hf as [Hj Heq%String.eqb_eq]. exists j. by apply list_elem_of_In in Hj.
  - apply find_none with (x := i) in Hf; [|by apply list_elem_of_In]. by rewrite String.eqb_refl in Hf.
Qed.

Lemma listed registry session_capabilities t :
  t ∈ list_tools registry session_capabilities <->
  exists i, i ∈ tool_order registry /\ tool_allowed_by_session (ti_name i) session_capabilities = true /\
    t = tool_info_to_mcp i.
Proof.
  unfold list_tools. rewrite list_elem_of_fmap. split.
  - intros (i & -> & Hi). apply list_elem_of_In, filter_In in Hi as [Hi Ha]. apply list_elem_of_In in Hi. by exists i.
  - intros (i & Hi & Ha & ->). exists i. split; [done|].
    by apply list_elem_of_In, filter_In; split; [apply list_elem_of_In|].
Qed.

(** Listing and calling agree.  A listed name has no colon and stands for a
    registered tool; and if no two registered tools have the same MCP name, the
    name of a tool stands for that tool, and it is listed exactly when the
    session may call it.  (Without that, a call may go to another tool of the
    same MCP name, or be refused because the session may not call that one.) *)
Theorem listing_agrees_with_calls registry session_capabilities :
  registry_ok registry -> tool_order registry ≡ₚ (fun nt => info nt.2) <$> map_to_list registry ->
  (forall t, t ∈ list_tools registry session_capabilities ->
     str_count ":" (lt_name t) = 0 /\
     exists raw, registry !! kernel_name registry (lt_name t) = Some raw /\
       kernel_to_mcp_name (ti_name (info raw)) = lt_name t) /\
  ((forall m n, is_Some (registry !! m) -> is_Some (registry !! n) ->
      kernel_to_mcp_name m = kernel_to_mcp_name n -> m = n) ->
   forall n raw, registry !! n = Some raw ->
     kernel_name registry (kernel_to_mcp_name n) = n /\
     (tool_info_to_mcp (info raw) ∈ list_tools registry session_capabilities <->
      tool_allowed_by_session n session_capabilities = true)).
Proof.
  intros Hok Hord.
  assert (forall i, i ∈ tool_order registry -> exists raw, registry !! ti_name i = Some raw /\ info raw = i) as Hin.
  { intros i Hi. rewrite Hord in Hi. apply list_elem_of_fmap in Hi as ([n raw] & -> & Hn%elem_of_map_to_list).
    exists raw. cbn [snd]. by rewrite (Hok n raw Hn). }
  split.
  - intros t (i & Hi & _ & ->)%listed. split; [apply mcp_name_plain|].
    destruct (kernel_name_found registry i Hi) as (j & Hj & Heq & Hk). cbn [tool_info_to_mcp lt_name].
    rewrite Hk. destruct (Hin j Hj) as (raw & Hraw & <-). by exists raw.
  - intros Hinj n raw Hraw.
    assert (info raw ∈ tool_order registry) as Hi.
    { rewrite Hord. apply list_elem_of_fmap. exists (n, raw). by rewrite elem_of_map_to_list. }
    pose proof (Hok n raw Hraw) as Hn. split.
    + destruct (kernel_name_found registry (info raw) Hi) as (j & Hj & Heq & Hk). rewrite Hn in Hk, Heq. rewrite Hk.
      destruct (Hin j Hj) as (raw' & Hraw' & _). apply Hinj; [by exists raw'|by exists raw|done].
    + rewrite listed. split; [|intros Ha; exists (info raw); by rewrite Hn].
      intros (i & Hi' & Ha & Heq). apply (f_equal lt_name) in Heq. cbn in Heq. rewrite Hn in Heq.
      destruct (Hin i Hi') as (raw' & Hraw' & _). apply Hinj in Heq as ->; [done|by exists raw|by exists raw'].
Qed.
End Server.

(** * Memory through the MCP server *)

Section Memory.
Context {W : Type} (db_query : string -> list (string * json) -> W -> W * result string (list json)).
Context (to_lowercase : string -> string) (show_i64 : Z -> string) (json_to_string : json -> string).
Context (score_order : gmap string (f64 * json) -> list (string * (f64 * json))) (cfg : surreal_config).
Context (fresh_id : W * list statement -> uuid) (clock : W * list statement -> datetime).
Context (hash_order : gmap string json -> list (string * json)).
Context (tool_order : gmap string (tool (W * list statement)) -> list tool_info).
Context (now : nat -> W * list statement -> datetime) (fresh : nat -> W * list statement -> uuid).
Context (state_hash : string -> W * list statement -> option (list Z)).
Context (show_uuid : uuid -> string) (show_time : datetime -> string) (show_u64 : Z -> string).
Context (to_string_pretty : json -> string).

(** C34: an MCP client never reaches another tenant's memory through the memory
    tools.  Whatever it sends, under whatever guards and capabilities, a call
    that the registry maps to a memory tool of the shared database issues only
    statements bound to the session's namespace. *)
Theorem mcp_memory_isolated guards registry session_capabilities mcp_name arguments raw w log :
  let backend := surreal_backend (logged db_query) to_lowercase show_i64 json_to_string score_order cfg in
  listing (hash_order session_bindings) session_bindings ->
  registry !! kernel_name tool_order registry mcp_name = Some raw -> raw ∈ memory_tools fresh_id clock backend ->
  let '(_, w', _) := call_tool hash_order tool_order now fresh state_hash show_uuid show_time show_u64
    to_string_pretty guards None registry session_capabilities mcp_name arguments (w, log) in
  exists stmts, snd w' = log ++ stmts /\ Forall (for_namespace show_i64 mcp_namespace) stmts.
Proof.
  intros backend Hl Hraw Hmem. set (name := kernel_name tool_order registry mcp_name) in *.
  destruct (tool_allowed_by_session name session_capabilities) eqn:Ha.
  2:{ unfold call_tool. fold name. rewrite Ha. exists []. by rewrite app_nil_r. }
  destruct (call_dispatches hash_order tool_order now fresh state_hash show_uuid show_time show_u64
    to_string_pretty guards None registry session_capabilities mcp_name arguments (w, log) raw Ha Hraw)
    as (evs & t & entry & _ & ->). fold name.
  set (env := call_envelope now fresh session_capabilities name arguments (w, log)).
  destruct (wrap_cases hash_order guards name session_bindings raw (w, log) env) as [[e ->]|(payload & Hp & ->)];
    [by apply insert_non_empty|exists []; by rewrite app_nil_r|].
  destruct (memory_isolated db_query to_lowercase show_i64 json_to_string score_order cfg fresh_id clock raw
              (hash_order session_bindings) session_bindings mcp_namespace w log env Hmem Hl) as (stmts & He & Hf);
    [apply lookup_singleton_eq|].
  cbn [invoke virtualized_tool] in He. rewrite Hp in He.
  exists stmts. split; [|exact Hf]. rewrite <- He. by destruct (invoke _ _ _) as [w' res].
Qed.
End Memory.

(** * A session, concretely *)

Module Demo.
Abbreviation world := (list json).
Definition tool_named (name : string) : tool world := {|
  info := ToolInfo name "" JNull None [name] false annotations_default;
  invoke := fun w env => (w ++ [env_payload env], Ok env) |}.

Definition registry : gmap string (tool world) := {["kv:get" := tool_named "kv:get"]}.
Definition tools (r : gmap string (tool world)) : list tool_info := (fun nt => info nt.2) <$> map_to_list r.
Definition call := call_tool map_to_list tools (fun _ _ => 0%Z) (fun _ _ => 1%N) (fun _ _ => None)
  (fun _ => "id") (fun _ => "t") (fun _ => "n") (fun _ => "text").

(** The caller's namespace is overwritten. *)
Lemma mcp_call_confined_witness :
  exists env m, snd (fst (call ∅ None registry ["kv:*"] "kv_get" (Some [("namespace", JString "konf:a")]) []))
    = fst (invoke (tool_named "kv:get") [] env) /\
    env_payload env = JObject m /\ obj_get "namespace" m = Some (JString "konf:mcp:http").
Proof.
  pose proof (mcp_call_confined map_to_list tools (fun _ _ => 0%Z) (fun _ _ => 1%N) (fun _ _ => None)
    (fun _ => "id") (fun _ => "t") (fun _ => "n") (fun _ => "text") ∅ None registry ["kv:*"] "kv_get"
    (Some [("namespace", JString "konf:a")]) [] (reflexivity _)) as H.
  unfold call. destruct (call_tool _ _ _ _ _ _ _ _ _ _ _ _ _ _ _ _) as [[evs w'] r] eqn:Hcall.
  change (kernel_name tools registry "kv_get") with "kv:get" in H. cbn in H.
  destruct H as (wi & out & t & entry & Hr & -> & _ & [[_ H]|(env & m & Hinv & Hm & _ & Hk)]).
  - exfalso. assert (r = Ok (CallResult false "text")) as Hr' by (revert Hcall; vm_compute; congruence).
    rewrite Hr' in Hr. by destruct out.
  - exists env, m. cbn [fst snd]. split_and!; [by apply (f_equal fst) in Hinv|exact Hm|by rewrite Hk].
Defined.

(** Two tools of one MCP name: the client is offered the tool it may call, and
    its call is refused on behalf of the other one. *)
Definition twins : gmap string (tool world) :=
  {["a:b" := tool_named "a:b"; "a_b" := tool_named "a_b"]}.
Definition twin_tools (_ : gmap string (tool world)) : list tool_info :=
  [info (tool_named "a:b"); info (tool_named "a_b")].

Lemma listed_tool_is_refused :
  map lt_name (list_tools twin_tools twins ["a_b"]) = ["a_b"] /\
  call_tool map_to_list twin_tools (fun _ _ => 0%Z) (fun _ _ => 1%N) (fun _ _ => None)
    (fun _ => "id") (fun _ => "t") (fun _ => "n") (fun _ => "text") ∅ None twins ["a_b"] "a_b" None []
  = ([], [], Err (InvalidParams "Tool not permitted in this session: a_b")).
Proof. split; vm_compute; reflexivity. Qed.

Lemma listing_agrees_with_calls_witness :
  kernel_name tools registry (kernel_to_mcp_name "kv:get") = "kv:get" /\
  tool_info_to_mcp (info (tool_named "kv:get")) ∈ list_tools tools registry ["kv:*"].
Proof.
  assert (forall n t, registry !! n = Some t -> n = "kv:get" /\ t = tool_named "kv:get") as Honly.
  { unfold registry. intros n t [<- <-]%lookup_singleton_Some. done. }
  destruct (listing_agrees_with_calls tools registry ["kv:*"]) as [_ H].
  - intros name t [-> ->]%Honly. reflexivity.
  - reflexivity.
  - destruct (H) with (n := "kv:get") (raw := tool_named "kv:get") as [Hk Hl].
    + intros m n [t [-> _]%Honly] [t' [-> _]%Honly]. done.
    + reflexivity.
    + split; [exact Hk|]. apply Hl. reflexivity.
Defined.

(** A client asks for the session state of tenant [konf:b]. *)
Definition getter : tool (Surreal.Demo.db * list statement) :=
  StateGetTool (fun _ => 1%N) (fun _ => 0%Z) Surreal.Demo.logged_backend.
Definition memory_registry : gmap string (tool (Surreal.Demo.db * list statement)) := {["state:get" := getter]}.
Definition memory_call := call_tool map_to_list (fun r => (fun nt => info nt.2) <$> map_to_list r)
  (fun _ _ => 0%Z) (fun _ _ => 1%N) (fun _ _ => None) (fun _ => "id") (fun _ => "t") (fun _ => "n")
  (fun _ => "text") ∅ None memory_registry ["*"] "state_get"
  (Some [("key", JString "plan"); ("namespace", JString "konf:b"); ("session_id", JString "s1")])
  (Surreal.Demo.empty_db, []).

Lemma mcp_memory_isolated_witness :
  length (snd (snd (fst memory_call))) = 2 /\
  Forall (for_namespace Surreal.Demo.show "konf:mcp:http") (snd (snd (fst memory_call))).
Proof.
  split; [vm_compute; reflexivity|].
  pose proof (mcp_memory_isolated Surreal.Demo.run id Surreal.Demo.show Surreal.Demo.json_text map_to_list
    Surreal.Demo.cfg (fun _ => 1%N) (fun _ => 0%Z) map_to_list (fun r => (fun nt => info nt.2) <$> map_to_list r)
    (fun _ _ => 0%Z) (fun _ _ => 1%N) (fun _ _ => None) (fun _ => "id") (fun _ => "t") (fun _ => "n")
    (fun _ => "text") ∅ memory_registry ["*"] "state_get"
    (Some [("key", JString "plan"); ("namespace", JString "konf:b"); ("session_id", JString "s1")])
    getter Surreal.Demo.empty_db [] (reflexivity _) eq_refl) as H.
  unfold memory_call in *. destruct (call_tool _ _ _ _ _ _ _ _ _ _ _ _ _ _ _ _) as [[evs w'] r]. cbn [fst snd].
  destruct H as (stmts & -> & Hall).
  - unfold memory_tools, getter, Surreal.Demo.logged_backend. rewrite !elem_of_cons. tauto.
  - exact Hall.
Defined.
End Demo.
