(* ===== verification/Boot.v ===== *)
(** Boot and reload ([konf-init/src/lib.rs], [config.rs]): configuration, the
    interpolation of environment variables, the registration of tools, resources
    and workflows, tool guards, and [config:reload].

    Files are read through what a directory listing and [read_to_string]
    answer; YAML is deserialised by serde, a parameter. *)

From Stdlib Require Import Ascii.
From S2P Require Import Prelude Json Error Envelope Scope Tool Guard Workflow Config Schema Validator Compiler Engine Events Dispatch Builtins SystemTools Agent MemoryTools Mcp WorkflowTool.

Local Open Scope string_scope.
Local Open Scope list_scope.
Local Open Scope Z_scope.

(** * Configuration *)

(** [PlatformConfig] and its sections. *)
Record database_config : Type := DatabaseConfig { db_url : string; retention_days : Z }.
Record auth_config : Type := AuthConfig {
  supabase_url : string; jwt_audience : string; jwks_cache_ttl_secs : Z }.
Record server_config : Type := ServerConfig { server_host : string; port : Z; cors_origins : list string }.
Record journal_config : Type := JournalConfig { sweep_interval_secs : Z; subscribe_buffer : Z }.
Record platform_config : Type := PlatformConfig {
  pc_database : option database_config;
  pc_auth : auth_config;
  pc_server : server_config;
  pc_engine : engine_config;
  pc_runtime : resource_limits;
  pc_journal : journal_config;
  pc_mcp_enabled : bool;
  pc_config_dir : string;
}.

Definition platform_default : platform_config := {|
  pc_database := None;
  pc_auth := AuthConfig "http://localhost:9999" "authenticated" 600;
  pc_server := ServerConfig "0.0.0.0" 8000 [];
  pc_engine := config_default;
  pc_runtime := limits_default;
  pc_journal := JournalConfig 3600 256;
  pc_mcp_enabled := false;
  pc_config_dir := "./config" |}.

(** [PlatformConfig::validate]. *)
Definition section_error {A} (section : string) (r : result string A) : list string :=
  match r with Ok _ => [] | Err e => [String.append section (String.append ": " e)] end.
Definition platform_validate (c : platform_config) : result (list string) unit :=
  match section_error "engine" (config_validate (pc_engine c)) ++
        section_error "runtime" (limits_validate (pc_runtime c)) ++
        (if port (pc_server c) =? 0 then ["server.port must be > 0"] else []) with
  | [] => Ok tt
  | errors => Err errors
  end.

(** [ToolsConfig], [ProductConfig]; a guard's configuration has the fields of
    the runtime's entry. *)
Record memory_config : Type := MemoryConfig { mem_backend : string; mem_config : json }.
Record tools_config : Type := ToolsConfig {
  tc_memory : option memory_config;
  tc_llm : option json;
  tc_http : option json;
  tc_embed : option json;
  tc_mcp_servers : option json;
  tc_shell : option shell_config;
  tc_secret : option (list string);
}.
Record role_config : Type := RoleConfig {
  role_capabilities : list string; namespace_suffix : option string; role_limits : option resource_limits }.
Record product_config : Type := ProductConfig {
  pd_tools : tools_config;
  pd_workflows : list string;
  pd_prompts : list string;
  pd_tool_guards : gmap string tool_guard_entry;
  pd_roles : gmap string role_config;
}.
Definition product_default : product_config :=
  ProductConfig (ToolsConfig None None None None None None None) [] [] ∅ ∅.

(** [parse_db_url]. *)
Definition parse_db_url (url : string) : result string string :=
  let path := match strip_prefix "redb://" url with
              | Some rest => rest
              | None => default url (strip_prefix "file://" url)
              end in
  if String.eqb path EmptyString then Err (String.append "empty database path in URL: " url) else Ok path.

(** * Environment variables *)

Section Interpolation.
Context (env_var : string -> option string).

(** What stands for the text between the braces. *)
Definition expand (inner : string) : string :=
  match split_once ":-" inner with
  | Some (var_name, default_val) => default default_val (env_var var_name)
  | None => default EmptyString (env_var inner)
  end.

(** The loop of [interpolate_env_vars]: outside braces, or inside with the text
    read so far. *)
Fixpoint interpolate (inside : option string) (s : string) : string :=
  match inside, s with
  | None, EmptyString => EmptyString
  | None, String c s' =>
      if Ascii.eqb c "$" then
        match s' with
        | String d s'' =>
            if Ascii.eqb d "{" then interpolate (Some EmptyString) s'' else String c (interpolate None s')
        | EmptyString => String c EmptyString
        end
      else String c (interpolate None s')
  | Some inner, EmptyString => String.append "${" inner
  | Some inner, String c s' =>
      if Ascii.eqb c "}" then String.append (expand inner) (interpolate None s')
      else interpolate (Some (String.append inner (String c EmptyString))) s'
  end.

Definition interpolate_env_vars (input : string) : string := interpolate None input.
End Interpolation.

(** * Files *)

(** What [exists] and [read_to_string] say of a file, and a directory entry
    with its extension. *)
Definition file : Type := option (result string string).
Record dir_entry : Type := DirEntry {
  de_path : string; de_file_name : string; de_extension : option string; de_contents : result string string }.

(** The part of the configuration directory that is read again. *)
Record config_files : Type := ConfigFiles {
  cf_tools_yaml : file;
  cf_konf_toml : file;
  cf_workflows : option (result string (list (result string dir_entry)));
}.

(** [FileResource]: a resource that reads its file, each time it is read. *)
Definition file_resource (uri name description mime_type path : string) : resource :=
  Resource (ResourceInfo uri name description mime_type)
    (fun read_to_string =>
       content ← map_err (fun e => ReadFailed (String.append path (String.append ": " e))) (read_to_string path);
       Ok (JString content)).

(** What is outside: clocks and ids, serde and its printers, the crates behind
    the tools, and the runtime that workflow tools call. *)
Record outside (W : Type) : Type := Outside {
  x_fresh : W -> uuid;
  x_now : W -> datetime;
  x_elapsed_ms : W -> W -> Z;
  x_show_uuid : uuid -> string;
  x_show_u64 : Z -> string;
  x_env_var : string -> option string;
  x_unicode_alphanumeric : N -> bool;
  x_yaml_schema : string -> result string workflow_schema;
  x_product_of_yaml : string -> result string product_config;
  (** [Runtime::run], as workflow tools use it. *)
  x_run : workflow -> json -> execution_scope -> execution_context -> W -> W * result runtime_error json;
  x_json_to_string : json -> string;
  x_json_of_string : string -> option json;
  x_render : string -> gmap string json -> result string string;
  x_show_host : host -> string;
  x_show_utf8_error : Utf8.utf8_error -> string;
  x_url_parse : string -> result string parsed_url;
  x_send : http_request -> W -> W * result string http_response;
  x_run_process : command -> Z -> W -> W * process_outcome;
  x_json_error : string -> string;
  x_tool_call_error : string -> string;
  x_provider_error : string -> string;
  x_tool_order : gmap string (tool W) -> list tool_info;
  x_live : W -> gmap string (tool W);
  x_completion : llm_config -> list chat_message -> chat_message -> list tool_definition -> W ->
    W * result string completion_response;
  x_llm_config_of_json : json -> result string llm_config;
  x_ai_schema : json;
  x_model_embed : list string -> W -> W * embed_outcome;
  x_embed_loaded : bool;
  x_serve : string -> list string -> list (string * string) -> result string (list mcp_tool);
  x_call_tool : string -> string -> option (list (string * json)) -> W -> W * result string mcp_call_result;
  x_servers_of_json : json -> result string (list mcp_server_config);
  (** The memory backends compiled in, and their [connect]. *)
  x_memory_backends : list string;
  x_memory_connect : string -> json -> result string (memory_backend W);
  (** [KonfStorage::open]. *)
  x_open_storage : string -> Z -> result string unit;
  x_show_nat : nat -> string;
}.
Arguments x_fresh {W}.
Arguments x_now {W}.
Arguments x_elapsed_ms {W}.
Arguments x_show_uuid {W}.
Arguments x_show_u64 {W}.
Arguments x_env_var {W}.
Arguments x_unicode_alphanumeric {W}.
Arguments x_yaml_schema {W}.
Arguments x_product_of_yaml {W}.
Arguments x_run {W}.
Arguments x_json_to_string {W}.
Arguments x_json_of_string {W}.
Arguments x_render {W}.
Arguments x_show_host {W}.
Arguments x_show_utf8_error {W}.
Arguments x_url_parse {W}.
Arguments x_send {W}.
Arguments x_run_process {W}.
Arguments x_json_error {W}.
Arguments x_tool_call_error {W}.
Arguments x_provider_error {W}.
Arguments x_tool_order {W}.
Arguments x_live {W}.
Arguments x_completion {W}.
Arguments x_llm_config_of_json {W}.
Arguments x_ai_schema {W}.
Arguments x_model_embed {W}.
Arguments x_embed_loaded {W}.
Arguments x_serve {W}.
Arguments x_call_tool {W}.
Arguments x_servers_of_json {W}.
Arguments x_memory_backends {W}.
Arguments x_memory_connect {W}.
Arguments x_open_storage {W}.
Arguments x_show_nat {W}.
Arguments Outside {W}.

Section Boot.
Context {W : Type} (o : outside W).
Abbreviation fresh := (x_fresh o).
Abbreviation now := (x_now o).
Abbreviation elapsed_ms := (x_elapsed_ms o).
Abbreviation show_uuid := (x_show_uuid o).
Abbreviation show_u64 := (x_show_u64 o).
Abbreviation env_var := (x_env_var o).
Abbreviation unicode_alphanumeric := (x_unicode_alphanumeric o).
Abbreviation yaml_schema := (x_yaml_schema o).
Abbreviation product_of_yaml := (x_product_of_yaml o).
Abbreviation run := (x_run o).
Abbreviation json_to_string := (x_json_to_string o).
Abbreviation json_of_string := (x_json_of_string o).
Abbreviation render := (x_render o).
Abbreviation show_host := (x_show_host o).
Abbreviation show_utf8_error := (x_show_utf8_error o).
Abbreviation url_parse := (x_url_parse o).
Abbreviation send := (x_send o).
Abbreviation run_process := (x_run_process o).
Abbreviation json_error := (x_json_error o).
Abbreviation tool_call_error := (x_tool_call_error o).
Abbreviation provider_error := (x_provider_error o).
Abbreviation tool_order := (x_tool_order o).
Abbreviation live := (x_live o).
Abbreviation completion := (x_completion o).
Abbreviation llm_config_of_json := (x_llm_config_of_json o).
Abbreviation ai_schema := (x_ai_schema o).
Abbreviation model_embed := (x_model_embed o).
Abbreviation embed_loaded := (x_embed_loaded o).
Abbreviation serve := (x_serve o).
Abbreviation call_tool := (x_call_tool o).
Abbreviation servers_of_json := (x_servers_of_json o).
Abbreviation memory_backends := (x_memory_backends o).
Abbreviation memory_connect := (x_memory_connect o).
Abbreviation open_storage := (x_open_storage o).
Abbreviation show_nat := (x_show_nat o).

(** ** Resources and workflows *)

Definition register_file (uri name description mime_type path : string) (f : file) (e : engine W) : engine W :=
  match f with
  | Some _ => register_resource e (file_resource uri name description mime_type path)
  | None => e
  end.

Definition register_resources (files : config_files) (e : engine W) : engine W :=
  register_file "konf://config/konf.toml" "Platform Configuration" "Platform server, auth, and engine settings"
    "application/toml" "konf.toml" (cf_konf_toml files)
    (register_file "konf://config/tools.yaml" "Tools Configuration" "Product tool and backend configuration"
       "application/yaml" "tools.yaml" (cf_tools_yaml files) e).

Definition is_yaml (d : dir_entry) : bool :=
  match de_extension d with Some x => String.eqb x "yaml" || String.eqb x "yml" | None => false end.

(** One workflow file that parses. *)
Definition register_workflow (d : dir_entry) (wf : workflow) (e : engine W) : engine W :=
  let e := register_resource e (file_resource (String.append "konf://workflows/" (de_file_name d))
             (String.append "Workflow: " (wf_id wf)) (default EmptyString (wf_description wf)) "application/yaml"
             (de_path d)) in
  if wf_register_as_tool wf then register_tool e (workflow_tool show_uuid show_u64 fresh now run wf) else e.

(** The loop of [register_workflows]: the engine as it is left, and the error
    that stopped it. *)
Fixpoint register_entries (entries : list (result string dir_entry)) (e : engine W)
  : engine W * result string unit :=
  match entries with
  | [] => (e, Ok tt)
  | Err err :: _ => (e, Err err)
  | Ok d :: rest =>
      if is_yaml d then
        match de_contents d with
        | Err err => (e, Err (String.concat EmptyString ["Failed to read "; de_path d; ": "; err]))
        | Ok yaml =>
            match parse_yaml show_u64 unicode_alphanumeric yaml_schema (eng_config e) yaml with
            | Err _ => register_entries rest e
            | Ok wf => register_entries rest (register_workflow d wf e)
            end
        end
      else register_entries rest e
  end.

Definition register_workflows (dir : result string (list (result string dir_entry))) (e : engine W)
  : engine W * result string unit :=
  match dir with
  | Err err => (e, Err (String.append "Failed to read workflows directory: " err))
  | Ok entries => register_entries entries e
  end.

(** ** Guards *)

(** What a reload can change: the runtime's engine and its tool guards. *)
Record boot_state : Type := BootState {
  bs_engine : engine W;
  bs_guards : gmap string tool_guard_entry;
}.

Definition apply_tool_guards (c : product_config) (guards : gmap string tool_guard_entry)
  : gmap string tool_guard_entry :=
  if bool_decide (pd_tool_guards c = ∅) then guards else pd_tool_guards c.

(** ** [config:reload] *)

Definition is_workflow_name (name : string) : bool := starts_with name "workflow:".

Definition workflow_names (e : engine W) : list string :=
  List.filter is_workflow_name (map fst (map_to_list (eng_tools e))).

(** [tools.yaml], read, interpolated and deserialised. *)
Definition product_file (f : file) : option (result string product_config) :=
  (fun r => contents ← r; product_of_yaml (interpolate_env_vars env_var contents)) <$> f.

Definition reload_guards (f : file) (guards : gmap string tool_guard_entry) : gmap string tool_guard_entry :=
  match product_file f with
  | Some (Ok c) => apply_tool_guards c guards
  | _ => guards
  end.

Definition number (n : nat) : json := JNumber (PosInt (Z.of_nat n)).

Definition config_reload (files : config_files) (s : boot_state) : boot_state * result tool_error json :=
  match cf_workflows files with
  | None =>
      (s, Ok (JObject (obj_of_list
        [("reloaded", JBool true); ("workflows_loaded", number 0);
         ("message", JString "No workflows directory found")])))
  | Some dir =>
      let removed := workflow_names (bs_engine s) in
      let e1 := fold_left (fun e name => snd (remove_tool e name)) removed (bs_engine s) in
      match register_workflows dir e1 with
      | (e2, Err err) =>
          (BootState e2 (bs_guards s),
           Err (ExecutionFailed (String.append "Config reload failed: " err) true))
      | (e2, Ok _) =>
          (BootState (notify_tools_changed e2) (reload_guards (cf_tools_yaml files) (bs_guards s)),
           Ok (JObject (obj_of_list
             [("reloaded", JBool true); ("workflows_removed", number (length removed));
              ("workflows_registered", number (length (workflow_names e2)));
              ("total_tools", number (size (eng_tools e2)))])))
      end
  end.

(** ** [boot]

    The tools that hold the runtime are arguments: [config:reload], the schedule
    tools and the runner tools, in the order in which they are registered. *)


Definition unknown_backend (other : string) : string :=
  match memory_backends with
  | [] => String.concat EmptyString ["Unknown memory backend: '"; other;
            "'. No memory backends are compiled in. Build with `--features memory-surreal` or add a backend crate."]
  | available => String.concat EmptyString ["Unknown memory backend: '"; other; "'. Available: ";
                   String.concat ", " available]
  end.

(** [register_tools]. *)
Definition register_tools (e : engine W) (tools : tools_config) : result string (engine W) :=
  e ← match tc_memory tools with
      | None => Ok e
      | Some c =>
          if existsb (String.eqb (mem_backend c)) memory_backends then
            backend ← memory_connect (mem_backend c) (mem_config c);
            Ok (register_memory fresh now backend e)
          else Err (unknown_backend (mem_backend c))
      end;
  let e := register_http fresh now show_host show_u64 show_utf8_error url_parse send elapsed_ms json_of_string e
             (default (JObject []) (tc_http tools)) in
  e ← match tc_llm tools with
      | None => Ok e
      | Some config =>
          c ← llm_config_of_json config;
          Ok (register_tool e (AiCompleteTool fresh now elapsed_ms show_u64 json_to_string json_of_string json_error
                                 tool_call_error provider_error tool_order live completion c ai_schema))
      end;
  let e := match tc_embed tools with
           | None => e
           | Some _ => register_embed fresh now elapsed_ms model_embed embed_loaded e
           end in
  match tc_mcp_servers tools with
  | None => Ok e
  | Some config => register_mcp fresh now elapsed_ms env_var serve call_tool servers_of_json e config
  end.

(** Steps 4 to 7: the engine before the runtime exists. *)
Definition boot_engine (c : platform_config) (product : product_config) (files : config_files)
  : result string (engine W) :=
  e ← register_tools (register_builtins fresh now json_to_string render (with_config (pc_engine c)))
        (pd_tools product);
  let e := match tc_shell (pd_tools product) with
           | Some cfg => register_tool e (ShellExecTool fresh now show_u64 run_process cfg)
           | None => e
           end in
  let e := register_tool e (IntrospectTool fresh now tool_order live) in
  let e := register_tool e (ValidateWorkflowTool fresh now show_u64 unicode_alphanumeric yaml_schema live
                              (pc_engine c)) in
  let e := match tc_secret (pd_tools product) with
           | Some allowed => register_secret fresh now env_var e allowed
           | None => e
           end in
  Ok (register_resources files e).

Definition load_product (f : file) : result string product_config :=
  match f with
  | None => Ok product_default
  | Some contents =>
      text ← map_err (String.append "Failed to read tools.yaml: ") contents;
      map_err (String.append "Failed to parse tools.yaml: ") (product_of_yaml (interpolate_env_vars env_var text))
  end.

Definition boot (c : platform_config) (files : config_files) (late : list (tool W)) : result string boot_state :=
  _ ← map_err (fun errors => String.concat EmptyString
         ["Config validation failed with "; show_nat (length errors); " errors"]) (platform_validate c);
  product ← load_product (cf_tools_yaml files);
  e ← boot_engine c product files;
  _ ← match pc_database c with
      | None => Ok tt
      | Some db =>
          path ← parse_db_url (db_url db);
          map_err (fun e => String.concat EmptyString ["Failed to open storage at "; path; ": "; e])
            (open_storage path (retention_days db))
      end;
  let e := fold_left register_tool late e in
  let '(e, r) := match cf_workflows files with
                 | None => (e, Ok tt)
                 | Some dir => register_workflows dir e
                 end in
  _ ← r;
  Ok (BootState e (apply_tool_guards product ∅)).
End Boot.
Arguments BootState {W}. Arguments bs_engine {W}. Arguments bs_guards {W}.
Arguments boot_state W : clear implicits.

(** * Theory *)

(** ** Interpolation *)

(** Templates as they are meant: text, and references with or without a
    default. *)
Inductive segment : Type := Lit (s : string) | Var (name : string) (default_val : option string).

Definition print_segment (g : segment) : string :=
  match g with
  | Lit s => s
  | Var name None => String.append "${" (String.append name "}")
  | Var name (Some d) => String.concat EmptyString ["${"; name; ":-"; d; "}"]
  end.

Definition meaning (env_var : string -> option string) (g : segment) : string :=
  match g with
  | Lit s => s
  | Var name d => default (default EmptyString d) (env_var name)
  end.

Definition segment_ok (g : segment) : Prop :=
  match g with
  | Lit s => str_count "$" s = 0%nat
  | Var name d => str_count "}" name = 0%nat /\ str_count ":" name = 0%nat /\
                  match d with Some d => str_count "}" d = 0%nat | None => True end
  end.

Fixpoint concat_map (f : segment -> string) (l : list segment) : string :=
  match l with [] => EmptyString | g :: l => String.append (f g) (concat_map f l) end.

Section InterpolationTheory.
Context (env_var : string -> option string).

Lemma count_cons x c s : str_count x (String c s) = 0%nat -> Ascii.eqb c x = false /\ str_count x s = 0%nat.
Proof. cbn. by destruct (Ascii.eqb c x). Qed.

Lemma interpolate_lit s r :
  str_count "$" s = 0%nat -> interpolate env_var None (String.append s r) = String.append s (interpolate env_var None r).
Proof.
  induction s as [|c s IH]; [done|]. intros [Hc Hs]%count_cons. cbn. rewrite Hc. f_equal. by apply IH.
Qed.

Lemma interpolate_inside inner acc r :
  str_count "}" inner = 0%nat ->
  interpolate env_var (Some acc) (String.append inner (String "}" r)) =
  String.append (expand env_var (String.append acc inner)) (interpolate env_var None r).
Proof.
  revert acc. induction inner as [|c inner IH]; intros acc.
  - intros _. cbn. by rewrite app_EmptyString_r.
  - intros [Hc Hs]%count_cons. cbn. rewrite Hc, IH by done. by rewrite <- append_assoc.
Qed.

Lemma interpolate_unclosed inner acc :
  str_count "}" inner = 0%nat ->
  interpolate env_var (Some acc) inner = String.append "${" (String.append acc inner).
Proof.
  revert acc. induction inner as [|c inner IH]; intros acc.
  - intros _. cbn. by rewrite app_EmptyString_r.
  - intros [Hc Hs]%count_cons. cbn [interpolate]. rewrite Hc, IH by done. by rewrite <- append_assoc.
Qed.

Lemma interpolate_open r : interpolate env_var None (String.append "${" r) = interpolate env_var (Some EmptyString) r.
Proof. done. Qed.

(** A reference, with whatever follows it. *)
Lemma interpolate_var name d r :
  segment_ok (Var name d) ->
  interpolate env_var None (String.append (print_segment (Var name d)) r) =
  String.append (meaning env_var (Var name d)) (interpolate env_var None r).
Proof.
  intros (Hn & Hc & Hd). destruct d as [d|]; cbn [print_segment meaning].
  - assert (String.append (String.concat EmptyString ["${"; name; ":-"; d; "}"]) r =
      String.append "${" (String.append (String.append name (String.append ":-" d)) (String "}" r))) as ->.
    { cbn [String.concat]. by rewrite <- !append_assoc. }
    rewrite interpolate_open, interpolate_inside by (rewrite !str_count_append; cbn; lia).
    change (String.append EmptyString ?x) with x. unfold expand. by rewrite (split_once_first ":" "-") by done.
  - assert (String.append (String.append "${" (String.append name "}")) r =
      String.append "${" (String.append name (String "}" r))) as ->.
    { by rewrite <- !append_assoc. }
    rewrite interpolate_open, interpolate_inside by done.
    change (String.append EmptyString ?x) with x. unfold expand.
    by rewrite (split_once_None ":") by (rewrite Hc; cbn; lia).
Qed.

(** Interpolation of a printed template is its meaning: text is kept,
    [${VAR}] becomes the variable or nothing, [${VAR:-d}] the variable or [d], a
    value is never interpolated again, and an unclosed [${] at the end is left
    as it is. *)
Theorem interpolate_template segments unclosed :
  Forall segment_ok segments -> str_count "}" unclosed = 0%nat ->
  interpolate_env_vars env_var (concat_map print_segment segments) = concat_map (meaning env_var) segments /\
  interpolate_env_vars env_var (String.append (concat_map print_segment segments) (String.append "${" unclosed)) =
  String.append (concat_map (meaning env_var) segments) (String.append "${" unclosed).
Proof.
  intros Hok Hu. unfold interpolate_env_vars.
  assert (forall r, interpolate env_var None (String.append (concat_map print_segment segments) r) =
    String.append (concat_map (meaning env_var) segments) (interpolate env_var None r)) as Hall.
  { intros r. induction Hok as [|g l Hg _ IH]; [done|]. cbn [concat_map].
    rewrite <- !append_assoc. destruct g as [s|name d].
    - cbn [print_segment meaning]. by rewrite interpolate_lit, IH.
    - by rewrite interpolate_var, IH. }
  split.
  - specialize (Hall EmptyString). by rewrite !app_EmptyString_r in Hall.
  - by rewrite Hall, interpolate_open, interpolate_unclosed.
Qed.
End InterpolationTheory.

(** ** Reload *)

(** Writing a list of bindings into a map, later ones winning. *)
Definition map_of {A} (l : list (string * A)) : gmap string A := list_to_map (rev l).

Lemma insert_all_union {A} (l : list (string * A)) m :
  fold_left (fun m kv => <[kv.1 := kv.2]> m) l m = map_of l ∪ m.
Proof.
  unfold map_of. revert m. induction l as [|[k v] l IH]; intros m; cbn; [by rewrite (left_id_L ∅ (∪))|].
  rewrite IH, list_to_map_app. cbn. rewrite <- (assoc_L (∪)). f_equal.
  by rewrite insert_empty, insert_union_singleton_l.
Qed.

Lemma delete_all_lookup {A} (l : list string) (m : gmap string A) k :
  fold_left (fun m name => delete name m) l m !! k = if decide (k ∈ l) then None else m !! k.
Proof.
  revert m. induction l as [|n l IH]; intros m; cbn; [done|]. rewrite IH.
  destruct (decide (k ∈ l)) as [Hin|Hin]; [by rewrite decide_True by by right|].
  destruct (decide (k = n)) as [->|Hne].
  - rewrite lookup_delete_eq. by rewrite decide_True by by left.
  - rewrite lookup_delete_ne by done. rewrite decide_False; [done|]. by intros [?|?]%elem_of_cons.
Qed.

Section ReloadTheory.
Context {W : Type} (o : outside W).

Abbreviation parses := (parse_yaml (x_show_u64 o) (x_unicode_alphanumeric o) (x_yaml_schema o)).

(** The files a listing loads, up to its first unreadable entry, and that
    entry's error. *)
Fixpoint loaded (c : engine_config) (entries : list (result string dir_entry)) : list (dir_entry * workflow) :=
  match entries with
  | [] | Err _ :: _ => []
  | Ok d :: rest =>
      if is_yaml d then
        match de_contents d with
        | Err _ => []
        | Ok yaml => match parses c yaml with Err _ => loaded c rest | Ok wf => (d, wf) :: loaded c rest end
        end
      else loaded c rest
  end.

Fixpoint load_error (entries : list (result string dir_entry)) : option string :=
  match entries with
  | [] => None
  | Err err :: _ => Some err
  | Ok d :: rest =>
      if is_yaml d then
        match de_contents d with
        | Err err => Some (String.concat EmptyString ["Failed to read "; de_path d; ": "; err])
        | Ok _ => load_error rest
        end
      else load_error rest
  end.

(** The tools and resources of loaded files. *)
Definition workflow_tools (l : list (dir_entry * workflow)) : list (string * tool W) :=
  omap (fun dw => if wf_register_as_tool dw.2
                  then Some (String.append "workflow:" (wf_id dw.2), workflow_tool (x_show_uuid o) (x_show_u64 o) (x_fresh o) (x_now o) (x_run o) dw.2)
                  else None) l.
Definition workflow_resources (l : list (dir_entry * workflow)) : list (string * resource) :=
  map (fun dw => (String.append "konf://workflows/" (de_file_name dw.1),
    file_resource (String.append "konf://workflows/" (de_file_name dw.1))
      (String.append "Workflow: " (wf_id dw.2)) (default EmptyString (wf_description dw.2)) "application/yaml"
      (de_path dw.1))) l.

Definition with_workflows (l : list (dir_entry * workflow)) (e : engine W) : engine W :=
  Engine (map_of (workflow_tools l) ∪ eng_tools e) (map_of (workflow_resources l) ∪ eng_resources e)
    (eng_prompts e) (eng_config e) (eng_changed e).

Lemma register_workflow_config d wf e : eng_config (register_workflow o d wf e) = eng_config e.
Proof. unfold register_workflow. by destruct (wf_register_as_tool wf). Qed.

Lemma register_loaded l e :
  fold_left (fun e dw => register_workflow o dw.1 dw.2 e) l e = with_workflows l e.
Proof.
  unfold with_workflows. rewrite <- !insert_all_union. revert e.
  induction l as [|[d wf] l IH]; intros e; [by destruct e|]. cbn [fold_left]. rewrite IH. clear IH.
  unfold workflow_tools, workflow_resources, register_workflow. cbn [omap list_omap map fst snd].
  by destruct (wf_register_as_tool wf).
Qed.

Lemma register_entries_loaded entries e :
  register_entries o entries e =
  (with_workflows (loaded (eng_config e) entries) e,
   match load_error entries with None => Ok tt | Some err => Err err end).
Proof.
  rewrite <- register_loaded. revert e. induction entries as [|[d|err] entries IH]; intros e; [done| |done].
  cbn [register_entries loaded load_error]. destruct (is_yaml d); [|apply IH].
  destruct (de_contents d) as [yaml|err]; [|done]. destruct (parses (eng_config e) yaml) as [wf|err]; [|apply IH].
  rewrite IH, register_workflow_config. done.
Qed.

(** The tools a reload keeps. *)
Definition kept_tools (m : gmap string (tool W)) : gmap string (tool W) :=
  filter (fun kv => is_workflow_name kv.1 = false) m.

Lemma removed_all e :
  fold_left (fun e name => snd (remove_tool e name)) (workflow_names e) e = set_tools (kept_tools (eng_tools e)) e.
Proof.
  assert (forall l e, fold_left (fun e name => snd (remove_tool (W := W) e name)) l e =
    set_tools (fold_left (fun m name => delete name m) l (eng_tools e)) e) as Hf.
  { induction l as [|n l IH]; intros e0; [by destruct e0|]. cbn. by rewrite IH. }
  rewrite Hf. f_equal. apply map_eq. intros k. rewrite delete_all_lookup. unfold kept_tools.
  assert (k ∈ workflow_names e <-> is_workflow_name k = true /\ is_Some (eng_tools e !! k)) as Hk.
  { unfold workflow_names. rewrite list_elem_of_In, filter_In, <- list_elem_of_In.
    rewrite (list_elem_of_fmap fst). split.
    - intros [([k' t] & -> & Hin) Hw]. apply elem_of_map_to_list in Hin. split; [done|by exists t].
    - intros [Hw [t Ht]]. split; [|done]. exists (k, t). split; [done|]. by apply elem_of_map_to_list. }
  apply option_eq. intros t. rewrite map_lookup_filter_Some. cbn [fst].
  destruct (decide (k ∈ workflow_names e)) as [Hin|Hin].
  - apply Hk in Hin as [Hw _]. rewrite Hw. naive_solver.
  - split; [|by intros [? _]]. intros Ht. split; [done|]. destruct (is_workflow_name k) eqn:Hw; [|done].
    destruct Hin. apply Hk. by rewrite Ht.
Qed.

(** C30: what [config:reload] does, on every outcome.  Without a workflows
    directory it changes nothing.  Otherwise the workflow tools become exactly
    those of the files that load, the last file of an id winning, and no other
    tool changes; resources of files are added or replaced, and never removed.
    It fails exactly when the directory or an entry cannot be read, and then the
    workflow tools of the entries from there on are gone and the guards stay.
    When it succeeds the guards become those of [tools.yaml], unless the file is
    missing, does not load, or has no guards at all: then the old ones stay in
    force. *)
Theorem config_reload_spec files (s : boot_state W) :
  let '(s', res) := config_reload o files s in
  match cf_workflows files with
  | None => s' = s /\ is_ok res = true
  | Some dir =>
      let l := match dir with Ok entries => loaded (eng_config (bs_engine s)) entries | Err _ => [] end in
      eng_tools (bs_engine s') = map_of (workflow_tools l) ∪ kept_tools (eng_tools (bs_engine s)) /\
      eng_resources (bs_engine s') = map_of (workflow_resources l) ∪ eng_resources (bs_engine s) /\
      eng_config (bs_engine s') = eng_config (bs_engine s) /\
      (is_ok res = true <-> exists entries, dir = Ok entries /\ load_error entries = None) /\
      bs_guards s' =
        match res, product_file o (cf_tools_yaml files) with
        | Ok _, Some (Ok c) => if decide (pd_tool_guards c = ∅) then bs_guards s else pd_tool_guards c
        | _, _ => bs_guards s
        end
  end.
Proof.
  unfold config_reload. destruct (cf_workflows files) as [dir|]; [|done]. rewrite removed_all.
  destruct dir as [entries|err]; cbn [register_workflows].
  - rewrite register_entries_loaded. destruct (load_error entries) as [err|] eqn:He; cbn.
    + split_and!; [done..| |done]. split; [done|]. intros (l & [= <-] & Hn). by rewrite Hn in He.
    + split_and!; [done..| |].
      * split; [|done]. intros _. by exists entries.
      * unfold reload_guards, apply_tool_guards. destruct (product_file _ _) as [[c|]|]; [|done..].
        by destruct (decide (pd_tool_guards c = ∅)); [rewrite bool_decide_true|rewrite bool_decide_false].
  - cbn. unfold map_of. cbn. rewrite !(left_id_L ∅ (∪)). split_and!; [done..| |done].
    split; [done|]. by intros (l & ? & _).
Qed.

Lemma workflow_tool_names l k t : map_of (workflow_tools l) !! k = Some t -> is_workflow_name k = true.
Proof.
  unfold map_of. intros H. apply elem_of_list_to_map_2 in H. apply list_elem_of_In, in_rev, list_elem_of_In in H.
  unfold workflow_tools in H. apply list_elem_of_omap in H as ([d wf] & _ & Hx). cbn in Hx.
  destruct (wf_register_as_tool wf); [|done]. injection Hx as <- _.
  unfold is_workflow_name. apply starts_with_Some. by eexists.
Qed.

(** Loading the same files again changes nothing. *)
Lemma reload_same l (e : engine W) :
  kept_tools (eng_tools e) = eng_tools e ->
  map_of (workflow_tools l) ∪ kept_tools (eng_tools (with_workflows l e)) = eng_tools (with_workflows l e) /\
  map_of (workflow_resources l) ∪ eng_resources (with_workflows l e) = eng_resources (with_workflows l e).
Proof.
  intros He. cbn. split.
  - f_equal. apply map_eq. intros k. apply option_eq. intros t. unfold kept_tools.
    rewrite map_lookup_filter_Some, lookup_union_Some_raw. cbn [fst]. rewrite <- He at 2.
    unfold kept_tools. rewrite map_lookup_filter_Some. cbn [fst]. split; [|intros [Ht Hk]; split; [|done]].
    + intros [[Hw|[_ Ht]] Hk]; [|done]. apply workflow_tool_names in Hw. by rewrite Hw in Hk.
    + right. split; [|done]. destruct (map_of _ !! k) as [x|] eqn:Hx; [|done].
      apply workflow_tool_names in Hx. by rewrite Hx in Hk.
  - by rewrite (assoc_L (∪)), (idemp_L (∪)).
Qed.
End ReloadTheory.

(** ** Boot, then reload *)

Section BootTheory.
Context {W : Type} (o : outside W).

(** No tool of the engine is a workflow. *)
Definition plain (e : engine W) : Prop :=
  forall name, is_Some (eng_tools e !! name) -> is_workflow_name name = false.
Definition plain_tool (t : tool W) : Prop := is_workflow_name (ti_name (info t)) = false.

Lemma plain_register e t : plain e -> plain_tool t -> plain (register_tool e t).
Proof.
  intros He Ht name [t' Hin]. cbn in Hin. unfold register in Hin.
  apply lookup_insert_Some in Hin as [[<- _]|[_ Hin]]; [exact Ht|]. apply He. by eexists.
Qed.

Lemma plain_register_all l e : plain e -> Forall plain_tool l -> plain (fold_left register_tool l e).
Proof.
  intros He Hl. revert e He. induction Hl as [|t l Ht _ IH]; intros e He; [done|]. cbn.
  by apply IH, plain_register.
Qed.

Lemma plain_kept e : plain e -> kept_tools (eng_tools e) = eng_tools e.
Proof.
  intros He. unfold kept_tools. apply map_filter_id. intros name t Hin. cbn. apply He. by eexists.
Qed.

(** No configured server passes for the workflow tools. *)
Definition servers_plain : Prop := forall config servers c t,
  x_servers_of_json o config = Ok servers -> c ∈ servers -> is_workflow_name (full_name c t) = false.

Lemma plain_mcp e config e' :
  servers_plain -> plain e ->
  register_mcp (x_fresh o) (x_now o) (x_elapsed_ms o) (x_env_var o) (x_serve o) (x_call_tool o)
    (x_servers_of_json o) e config = Ok e' -> plain e'.
Proof.
  intros Hs He. unfold register_mcp. destruct (x_servers_of_json o _) as [servers|] eqn:Hj; [|done].
  intros [= <-] name [t Ht].
  apply discovered in Ht as [Ht|(c & mt & tools & Hc & _ & _ & _ & -> & _)]; [apply He; by eexists|].
  by eapply Hs.
Qed.

Lemma plain_tools e tools e' :
  servers_plain -> plain e -> register_tools o e tools = Ok e' -> plain e'.
Proof.
  intros Hs He. unfold register_tools.
  destruct (match tc_memory tools with Some _ => _ | None => _ end) as [e1|] eqn:H1; [|done].
  assert (plain e1) as He1.
  { destruct (tc_memory tools) as [c|]; [|by injection H1 as <-].
    destruct (existsb _ _); [|done]. destruct (x_memory_connect o _ _) as [b|]; [|done]. injection H1 as <-.
    apply plain_register_all; [done|]. repeat constructor. }
  clear H1. cbn [mbind result_bind].
  set (e2 := register_http _ _ _ _ _ _ _ _ _ e1 _). assert (plain e2) as He2 by (by repeat apply plain_register).
  destruct (match tc_llm tools with Some _ => _ | None => _ end) as [e3|] eqn:H3; [|done].
  assert (plain e3) as He3.
  { destruct (tc_llm tools) as [c|]; [|by injection H3 as <-].
    destruct (x_llm_config_of_json o c) as [b|]; [|done]. injection H3 as <-. by apply plain_register. }
  cbn [mbind result_bind].
  set (e4 := match tc_embed tools with Some _ => _ | None => _ end).
  assert (plain e4) as He4.
  { unfold e4, register_embed. destruct (tc_embed tools), (x_embed_loaded o); try done. by apply plain_register. }
  destruct (tc_mcp_servers tools) as [config|]; [by apply plain_mcp|by intros [= <-]].
Qed.

Lemma plain_boot_engine c product files e :
  servers_plain -> boot_engine o c product files = Ok e -> plain e.
Proof.
  intros Hs. unfold boot_engine. destruct (register_tools o _ _) as [e1|] eqn:H1; [|done].
  assert (plain e1) as He1.
  { apply (plain_tools _ _ _ Hs) in H1; [done|]. apply plain_register_all; [|repeat constructor].
    intros name [t Ht]. change ((∅ : gmap string (tool W)) !! name = Some t) in Ht. by rewrite lookup_empty in Ht. }
  cbn [mbind result_bind]. intros [= <-].
  assert (forall e f uri name d m p, plain e -> plain (register_file uri name d m p f e)) as Hf
    by (intros e f uri name d m p He; by destruct f).
  unfold register_resources. do 2 apply Hf.
  destruct (tc_secret _), (tc_shell _); by repeat apply plain_register.
Qed.

Lemma load_product_guards f product :
  load_product o f = Ok product -> reload_guards o f (apply_tool_guards product ∅) = apply_tool_guards product ∅.
Proof.
  unfold load_product, reload_guards, product_file. destruct f as [[text|]|]; cbn; [|done..].
  destruct (x_product_of_yaml o _) as [c|]; cbn; [|done]. intros [= ->].
  unfold apply_tool_guards. by case_bool_decide.
Qed.

(** C31: reloading the configuration that was booted changes nothing: after a
    boot that succeeded, [config:reload] over the same files succeeds and leaves
    tools, resources, prompts and guards as they are; only the listeners for
    changes are woken. *)
Theorem reload_after_boot c files late s :
  servers_plain -> Forall plain_tool late -> boot o c files late = Ok s ->
  exists answer, config_reload o files s =
    (BootState (match cf_workflows files with
                | None => bs_engine s
                | Some _ => notify_tools_changed (bs_engine s)
                end) (bs_guards s), Ok answer).
Proof.
  intros Hs Hlate. unfold boot. destruct (map_err _ (platform_validate c)); [|done]. cbn [mbind result_bind].
  destruct (load_product o _) as [product|] eqn:Hp; [|done]. cbn [mbind result_bind].
  destruct (boot_engine o c product files) as [e|] eqn:He; [|done]. cbn [mbind result_bind].
  destruct (match pc_database c with Some _ => _ | None => _ end); [|done]. cbn [mbind result_bind].
  apply plain_boot_engine in He; [|done]. apply (plain_register_all late) in He; [|done].
  apply load_product_guards in Hp. revert He. generalize (fold_left register_tool late e). clear e. intros e He.
  unfold config_reload. destruct (cf_workflows files) as [[entries|err]|]; cbn [register_workflows]; [|done|].
  - rewrite register_entries_loaded. destruct (load_error entries) eqn:Hl; [done|]. intros [= <-].
    cbn [bs_engine bs_guards]. rewrite removed_all, register_entries_loaded, Hl.
    set (l := loaded o (eng_config e) entries). set (e1 := with_workflows o l e).
    destruct (reload_same o l e) as [Ht Hr]; [by apply plain_kept|]. fold e1 in Ht, Hr.
    change (loaded o (eng_config (set_tools (kept_tools (eng_tools e1)) e1)) entries) with l.
    assert (with_workflows o l (set_tools (kept_tools (eng_tools e1)) e1) = e1) as ->.
    { unfold with_workflows at 1. cbn [set_tools eng_tools eng_resources eng_prompts eng_config eng_changed].
      by rewrite Ht, Hr. }
    rewrite Hp. by eexists.
  - intros [= <-]. by eexists.
Qed.
End BootTheory.

(** * A boot *)

Module Demo.

(** A file that says [bad] is no workflow; any other is one, flagged as a tool,
    under the name it contains. *)
Definition yaml_of (text : string) : result string workflow_schema :=
  if String.eqb text "bad" then Err "bad yaml"
  else let s := example_schema None in
       Ok (WorkflowSchema text (ws_version s) (ws_description s) (ws_capabilities s) (ws_input_schema s)
             (ws_output_schema s) true (ws_nodes s)).
Definition deny_echo : gmap string tool_guard_entry := {["echo" := ToolGuardEntry [] DefaultDeny None]}.
Definition product_of (text : string) : result string product_config :=
  if String.eqb text "guards" then Ok (ProductConfig (pd_tools product_default) [] [] deny_echo ∅)
  else Ok product_default.
Definition vars (name : string) : option string := if String.eqb name "MODE" then Some "guards" else None.

Definition host : outside unit := {|
  x_fresh _ := 1%N; x_now _ := 0; x_elapsed_ms _ _ := 0; x_show_uuid _ := "u"; x_show_u64 _ := "0";
  x_env_var := vars; x_unicode_alphanumeric _ := false; x_yaml_schema := yaml_of; x_product_of_yaml := product_of;
  x_run _ _ _ _ w := (w, Ok JNull); x_json_to_string _ := "{}"; x_json_of_string _ := None;
  x_render t _ := Ok t; x_show_host _ := "h"; x_show_utf8_error _ := "e"; x_url_parse _ := Err "no";
  x_send _ w := (w, Err "no"); x_run_process _ _ w := (w, SpawnFailed "no"); x_json_error e := e;
  x_tool_call_error e := e; x_provider_error e := e; x_tool_order _ := []; x_live _ := ∅;
  x_completion _ _ _ _ w := (w, Err "no"); x_llm_config_of_json _ := Err "no"; x_ai_schema := JNull;
  x_model_embed _ w := (w, EmbedFailed "no"); x_embed_loaded := false; x_serve _ _ _ := Err "no";
  x_call_tool _ _ _ w := (w, Err "no"); x_servers_of_json _ := Err "no"; x_memory_backends := [];
  x_memory_connect _ _ := Err "no"; x_open_storage _ _ := Ok tt; x_show_nat _ := "n" |}.

Definition entry (name text : string) : result string dir_entry := Ok (DirEntry name name (Some "yaml") (Ok text)).
Definition files (tools : string) (entries : list (result string dir_entry)) : config_files :=
  ConfigFiles (Some (Ok tools)) None (Some (Ok entries)).
Definition disk : config_files := files "${MODE}" [entry "a" "a"; entry "b" "bad"; entry "c" "c"].
Definition boot_result : result string (boot_state unit) := boot host platform_default disk [].
Definition booted : boot_state unit :=
  match boot_result with Ok s => s | Err _ => BootState engine_new ∅ end.

(** The workflows that load are tools; the guards come from the file the
    environment selects. *)
Example boots : workflow_names (bs_engine booted) ≡ₚ ["workflow:a"; "workflow:c"] /\ bs_guards booted = deny_echo.
Proof. split; [|vm_compute; reflexivity]. apply (bool_decide_unpack _). vm_compute. exact I. Qed.

Lemma interpolate_template_witness :
  Forall segment_ok [Lit "mode: "; Var "MODE" None; Lit ", "; Var "HOST" (Some "localhost")] /\
  interpolate_env_vars vars "mode: ${MODE}, ${HOST:-localhost}${open" = "mode: guards, localhost${open".
Proof.
  assert (Forall segment_ok [Lit "mode: "; Var "MODE" None; Lit ", "; Var "HOST" (Some "localhost")]) as Hok
    by (repeat constructor).
  split; [exact Hok|].
  exact (proj2 (interpolate_template vars [Lit "mode: "; Var "MODE" None; Lit ", "; Var "HOST" (Some "localhost")]
    "open" Hok eq_refl)).
Defined.

Lemma is_ok_default {E A} (r : result E A) d : is_ok r = true -> r = Ok (match r with Ok a => a | Err _ => d end).
Proof. by destruct r. Qed.

Lemma boots_ok : boot host platform_default disk [] = Ok booted.
Proof. unfold booted, boot_result. apply is_ok_default. vm_compute. reflexivity. Qed.

Lemma reload_after_boot_witness :
  is_ok boot_result = true /\
  exists answer, config_reload host disk booted =
    (BootState (notify_tools_changed (bs_engine booted)) (bs_guards booted), Ok answer).
Proof.
  split; [vm_compute; reflexivity|].
  refine (reload_after_boot host platform_default disk [] booted _ (Forall_nil_2 _) boots_ok).
  intros config servers c t. discriminate.
Defined.

(** A guard taken out of the file stays in force, and a file that cannot be read
    takes the workflows after it away. *)
Example guards_stay :
  bs_guards (fst (config_reload host (files "none" [entry "a" "a"]) booted)) = deny_echo /\
  workflow_names (bs_engine (fst (config_reload host
    (files "none" [entry "a" "a"; Err "permission denied"; entry "c" "c"]) booted))) = ["workflow:a"].
Proof. split; vm_compute; reflexivity. Qed.
End Demo.
