(* ===== verification/Startup.v ===== *)
(** The end of [boot] ([konf-init/src/lib.rs], from step 9 on): which journal the
    runtime gets and what is repaired in it, the sweeper, the replay of the runs
    that the last process left unfinished, and the schedules.

    The replay loop runs beside the tasks it has started and whatever those
    call: its turns are steps interleaved with the steps of [Runner]. *)

From S2P Require Import Prelude Json Error Envelope Scope Tool Table Journal Events Fanout Scheduler ScheduleTool Runtime Intents Runner Boot.

Local Open Scope string_scope.
Local Open Scope list_scope.

(** * The journal of the runtime *)

Section Wiring.
Context {P Q : Type} (prim : journal_ops P) (sec : nat -> journal_ops Q).
(** Whether the memory-surreal feature is compiled in, and the connection of
    the mirror. *)
Context (memory_surreal : bool) (connect_journal : json -> result string Q).

(** [Option<Arc<dyn JournalStore>>], as [boot] builds it. *)
Inductive wired : Type :=
  | NoJournal
  | PrimaryOnly (p : P)
  | FannedOut (f : fanout P Q).

(** The journal wiring of step 9. *)
Definition wire_journal (primary : option P) (memory : option memory_config) : wired :=
  match primary, memory with
  | Some p, Some c =>
      if String.eqb (mem_backend c) "surreal" && memory_surreal then
        match connect_journal (mem_config c) with
        | Ok secondary => FannedOut (fanout_new p [secondary])
        | Err _ => PrimaryOnly p
        end
      else PrimaryOnly p
  | Some p, None => PrimaryOnly p
  | None, _ => NoJournal
  end.

(** [reconcile_zombies] of the trait object. *)
Definition wired_reconcile (now : datetime) (j : wired) : wired * result journal_error Z :=
  match j with
  | NoJournal => (j, Ok 0%Z)
  | PrimaryOnly p => let '(r, p') := jo_reconcile_zombies prim now p in (PrimaryOnly p', r)
  | FannedOut f => let '(r, f') := jo_reconcile_zombies (fanout_ops prim) now f in (FannedOut f', r)
  end.

(** [Runtime::with_limits]. *)
Definition with_limits (now : datetime) (j : wired) : wired * result runtime_error runtime :=
  let '(j', r) := wired_reconcile now j in
  (j', _ ← map_err RJournal r; Ok runtime_new).

(** The seconds between the sweeps of the primary, when there is a sweeper. *)
Definition sweeper_interval (c : journal_config) (primary : option P) : option Z :=
  if (0 <? sweep_interval_secs c)%Z then (fun _ => sweep_interval_secs c) <$> primary else None.

(** What a journal is to the store below it. *)
Definition primary_of (j : wired) : option P :=
  match j with NoJournal => None | PrimaryOnly p => Some p | FannedOut f => Some (fo_primary f) end.
Definition mirrors_of (j : wired) : list Q :=
  match j with FannedOut f => fo_secondaries f | _ => [] end.
Definition deliveries_of (j : wired) : list (nat * journal_entry) :=
  match j with FannedOut f => fo_pending f | _ => [] end.
End Wiring.
Arguments NoJournal {P Q}. Arguments PrimaryOnly {P Q}. Arguments FannedOut {P Q}.

(** * Schedules *)

Section Schedules.
Context {T I B C : Type}.
Context `{LogTable T (Z * uuid) B} `{LogTable I uuid Z}.
Context (encode : stored_timer -> B) (decode : B -> option stored_timer).
Context (json_to_string : json -> string) (json_of_string : string -> option json).
Context (cron_parse : string -> result string C) (upcoming : C -> datetime -> option datetime).

(** Step 10c: [schedules.yaml], when there is one, over the scheduler, when
    there is one.  [None] is a failed boot. *)
Definition load_schedules (file : option (result string (list (create_env * cron_entry))))
    (scheduler : option (Scheduler.scheduler (T := T) (I := I))) : option (option (Scheduler.scheduler (T := T) (I := I))) :=
  match file, scheduler with
  | Some contents, Some db =>
      entries ← to_option contents;
      Some <$> register_schedules encode decode json_to_string json_of_string cron_parse upcoming entries db
  | _, _ => Some scheduler
  end.
End Schedules.

(** * The replay of unfinished runs *)

Section Replay.
Context {T W : Type} `{IntentOps T}.
Context (show_u64 : Z -> string) (registry : gmap string (tool W)).
Context (good : runner_intent -> Prop).

Abbreviation state := (runner (T := T)).
Abbreviation step := (rn_step show_u64 registry true good).

(** The loop of step 10b2: the intents to go, the one whose spawn is under way,
    the events sent. *)
Record replay_loop : Type := ReplayLoop {
  rl_left : list runner_intent;
  rl_current : option runner_intent;
  rl_events : list run_event;
}.

(** The head of the loop; a store that cannot be listed has nothing replayed. *)
Definition replay_start (store : T) : replay_loop := ReplayLoop (default [] (is_unterminated store)) None [].

Definition next_count (i : runner_intent) : Z := wrap_u32 (ri_replay_count i + 1).

(** One call of [replay], up to the first await of its spawn; an error is
    logged and passed over. *)
Definition replay_next (fresh : uuid) (now : datetime) (kept : bool) (b : replay_loop) (st : state)
  : option (replay_loop * state) :=
  match rl_current b, rl_left b with
  | None, i :: rest =>
      let '(r, st1) := replay registry true fresh now kept i st in
      Some match r with
           | Ok st2 => (ReplayLoop rest (Some i) (rl_events b), st2)
           | Err _ => (ReplayLoop rest None (rl_events b), st1)
           end
  | _, _ => None
  end.

Definition replayed_event (i : runner_intent) : run_event :=
  EvIntentReplayed (ri_run_id i) (ri_workflow i) (next_count i).

(** The return of the call, when its spawn is over. *)
Definition replay_returns (b : replay_loop) (st : state) : option replay_loop :=
  i ← rl_current b;
  match rn_spawning st !! ri_run_id i with
  | None => Some (ReplayLoop (rl_left b) None (rl_events b ++ [replayed_event i]))
  | Some _ => None
  end.

Definition loop_over (b : replay_loop) : Prop := rl_left b = [] /\ rl_current b = None.

(** What goes on beside the loop: no other replays, and new runs have ids of
    their own. *)
Definition beside (ids : list string) (l : rn_label) : Prop :=
  match l with RnReplays _ => False | RnSpawns id => id ∉ ids | _ => True end.

(** The loop and the rest of the process, interleaved.  [kept] and the flags of
    [step] say which writes to the store succeed. *)
Inductive boot_step (ids : list string) : replay_loop * state -> replay_loop * state -> Prop :=
  | BNext fresh now kept b st b' st' :
      (forall i, head (rl_left b) = Some i -> kept = true -> good (with_replay_count (next_count i) i)) ->
      replay_next fresh now kept b st = Some (b', st') -> boot_step ids (b, st) (b', st')
  | BReturns b b' st : replay_returns b st = Some b' -> boot_step ids (b, st) (b', st)
  | BBeside l b st st' : step l st st' -> beside ids l -> boot_step ids (b, st) (b, st').

(** ** What becomes of an intent *)

Definition over_limit (i : runner_intent) : bool := (10 <? next_count i)%Z.
Definition runnable (i : runner_intent) : bool :=
  negb (over_limit i) && is_some_b (registry !! tool_name (ri_workflow i)).

(** The same work under the same authority. *)
Definition same_work (i j : runner_intent) : Prop :=
  ri_run_id j = ri_run_id i /\ ri_workflow j = ri_workflow i /\ ri_input j = ri_input i /\
  ri_namespace j = ri_namespace i /\ ri_capabilities j = ri_capabilities i /\
  ri_actor j = ri_actor i /\ ri_session_id j = ri_session_id i.

(** The specification a run was or will be started with. *)
Definition run_spec (st : state) (id : string) : option workflow_spec :=
  match rn_spawning st !! id with
  | Some (SpPersist spec) | Some (SpStart spec) => Some spec
  | _ => tk_spec <$> rn_tasks st !! id
  end.

(** * Theory *)

Context (rep : T -> gmap string runner_intent -> Prop) {laws : IntentLaws T rep good}.

Lemma same_work_refl i : same_work i i.
Proof. by repeat split. Qed.

Lemma same_work_terminal s i j : same_work i j -> same_work i (with_terminal s j).
Proof. done. Qed.

(** A replayed spawn persists the intent it was replayed from. *)
Lemma same_work_spawn now fresh i :
  same_work i (truncated (spawn_intent now (ri_run_id i) (replay_spec fresh i))).
Proof.
  unfold same_work. cbn. repeat split. unfold capability_patterns. cbn. rewrite map_map. cbn. apply map_id.
Qed.

(** ** Single steps *)

(** A run keeps its specification. *)
Lemma run_spec_stable l st st' id spec : rn_invariant rep st -> step l st st' ->
  is_Some (rn_runs st !! id) -> run_spec st id = Some spec -> run_spec st' id = Some spec.
Proof.
  intros HI Hs Hr Hspec. unfold run_spec in *.
  assert (Halter : forall f id0, (forall t, tk_spec (f t) = tk_spec t) ->
      tk_spec <$> alter f id0 (rn_tasks st) !! id = tk_spec <$> rn_tasks st !! id).
  { intros f id0 Hf. rewrite lookup_alter. case_decide as Hd; [subst|done].
    destruct (rn_tasks st !! id); cbn; [by rewrite Hf|done]. }
  assert (Hnew : forall id0 ph, rn_runs st !! id0 = None ->
      <[id0 := ph]> (rn_spawning st) !! id = rn_spawning st !! id).
  { intros id0 ph Hn. rewrite lookup_insert_ne; [done|]. intros ->. rewrite Hn in Hr. by destruct Hr. }
  destruct Hs; try exact Hspec; try (cbn; rewrite Halter by done; exact Hspec).
  - apply spawn_Ok in H1 as ->. cbn. by rewrite Hnew.
  - destruct (replay_store registry true good fresh now kept i st H1) as (t & _ & _ & Hsp).
    apply Hsp, spawn_Ok in H2 as ->. cbn. by rewrite Hnew.
  - destruct (replay_store registry true good fresh now kept i st H1) as (t & _ & -> & _). exact Hspec.
  - cbn. rewrite lookup_insert. case_decide as Hd; [|exact Hspec]. subst id0. by rewrite H0 in Hspec.
  - cbn. rewrite lookup_insert. case_decide as Hd; [subst id0|].
    + rewrite lookup_insert_eq. by rewrite H0 in Hspec.
    + by rewrite lookup_insert_ne.
  - cbn. rewrite lookup_delete. case_decide as Hd; [subst id0|exact Hspec]. by rewrite H0 in Hspec.
  - destruct (marks_state show_u64 true id0 r written st) as (_ & -> & _ & _ & b & ->). by rewrite Halter.
  - cbn. destruct (has_hook _ _); [by rewrite Halter|exact Hspec].
Qed.

(** A task that has marked its intent stays so. *)
Lemma marked_stable l st st' id : rn_invariant rep st -> step l st st' -> marked id st -> marked id st'.
Proof.
  intros HI Hs (t & Ht & Hd). unfold marked.
  assert (Halter : forall f id0, (id0 = id -> tk_phase (f t) = TkDone true) ->
      exists t', alter f id0 (rn_tasks st) !! id = Some t' /\ tk_phase t' = TkDone true).
  { intros f id0 Hf. rewrite lookup_alter. case_decide as He; [subst|by exists t]. rewrite Ht. eauto. }
  destruct Hs; try (by exists t); try (apply Halter; intros ->; congruence).
  - apply spawn_Ok in H1 as ->. by exists t.
  - destruct (replay_store registry true good fresh now kept i st H1) as (t' & _ & _ & Hsp).
    apply Hsp, spawn_Ok in H2 as ->. by exists t.
  - destruct (replay_store registry true good fresh now kept i st H1) as (t' & _ & -> & _). by exists t.
  - cbn. rewrite lookup_insert_ne; [by exists t|]. intros ->.
    destruct (rn_spawns rep _ HI _ _ H0) as [_ Hn]. congruence.
  - destruct (marks_state show_u64 true id0 r written st) as (_ & _ & _ & _ & b & ->).
    apply Halter. intros ->. congruence.
  - cbn. destruct (has_hook _ _); [|by exists t]. by apply Halter.
Qed.

(** What a step beside the loop does to the intents: nothing, or it persists
    the intent of a spawn, or it marks the intent of a task. *)
Lemma step_intents l st st' m : step l st st' -> (forall id, l <> RnReplays id) -> rep (rn_store st) m ->
  exists m', rep (rn_store st') m' /\ forall id,
    m' !! id = m !! id \/
    (exists now spec, rn_spawning st !! id = Some (SpPersist spec) /\
       m' !! id = Some (truncated (spawn_intent now id spec))) \/
    (exists s, is_Some (rn_tasks st !! id) /\ m' !! id = with_terminal (Some s) <$> m !! id /\ marked id st').
Proof.
  intros Hs Hl Hm.
  assert (Hsame : rn_store st' = rn_store st -> exists m', rep (rn_store st') m' /\ forall id, m' !! id = m !! id)
    by (intros ->; by exists m).
  destruct Hs; try (destruct (Hsame eq_refl) as (m' & Hm' & He); exists m'; split; [exact Hm'|]; by left).
  - apply spawn_Ok in H1 as ->. exists m. split; [exact Hm|]. by left.
  - by destruct (Hl (ri_run_id i)).
  - by destruct (Hl (ri_run_id i)).
  - destruct written; [|exists m; split; [exact Hm|by left]].
    exists (<[id := truncated (spawn_intent now id spec)]> m). split; [exact (is_insert_rep _ _ _ Hm (H1 eq_refl))|].
    intros id'. rewrite lookup_insert. case_decide as Hd; [subst id'|by left]. right. left. by exists now, spec.
  - destruct (is_mark_rep _ _ id (intent_status show_u64 r) Hm) as (t' & Hmk & Hm').
    unfold task_marks in *. cbn in *. rewrite Hmk in *. destruct written; [|exists m; split; [exact Hm|by left]].
    exists (alter (with_terminal (Some (intent_status show_u64 r))) id m). split; [exact Hm'|]. intros id'.
    rewrite lookup_alter. case_decide as Hd; [subst id'|by left]. right. right. eexists. split; [by eexists|].
    split; [done|]. unfold marked. cbn. rewrite lookup_alter_eq, H0. eexists. split; [reflexivity|done].
Qed.

(** A run with an id nobody takes does not appear. *)
Lemma no_run_stable ids l st st' id : step l st st' -> beside ids l -> id ∈ ids ->
  rn_runs st !! id = None -> rn_runs st' !! id = None.
Proof.
  intros Hs Hb Hid Hn.
  assert (Halter : forall f id0, alter f id0 (rn_runs st) !! id = None) by (intros; by apply alter_None).
  destruct Hs; try done; try (cbn; apply Halter).
  - apply spawn_Ok in H1 as ->. cbn. unfold insert_pending. rewrite lookup_insert_ne; [done|]. by intros ->.
  - destruct (marks_state show_u64 true id0 r written st) as (-> & _). exact Hn.
Qed.

(** ** The intents of the last process *)

(** An intent of the same work is stored, and open unless its task has marked
    it. *)
Definition kept_safe (m : gmap string runner_intent) (st : state) (i : runner_intent) : Prop :=
  exists j, m !! ri_run_id i = Some j /\ same_work i j /\ (ri_terminal j = None \/ marked (ri_run_id i) st).

Definition waiting (m : gmap string runner_intent) (st : state) (i : runner_intent) : Prop :=
  rn_runs st !! ri_run_id i = None /\ m !! ri_run_id i = Some i /\ ri_terminal i = None.

Definition handled (m : gmap string runner_intent) (st : state) (i : runner_intent) : Prop :=
  if runnable i then
    is_Some (rn_runs st !! ri_run_id i) /\
    (exists fresh, run_spec st (ri_run_id i) = Some (replay_spec fresh i)) /\ kept_safe m st i
  else rn_runs st !! ri_run_id i = None /\ (over_limit i = true \/ kept_safe m st i).

Lemma waiting_safe m st i : waiting m st i -> kept_safe m st i.
Proof. intros (_ & Hm & Ht). exists i. split_and!; [done|apply same_work_refl|by left]. Qed.

Lemma handled_safe m st i : handled m st i -> over_limit i = true \/ kept_safe m st i.
Proof. unfold handled. destruct (runnable i); tauto. Qed.

(** The spawn or the task of an id belongs to a run. *)
Lemma no_run_no_work st id : rn_invariant rep st -> rn_runs st !! id = None ->
  rn_spawning st !! id = None /\ rn_tasks st !! id = None.
Proof.
  intros HI Hn. split; [|by eapply no_task]. apply eq_None_not_Some. intros [ph Hph].
  destruct (rn_spawns rep _ HI _ _ Hph) as [[s Hs] _]. congruence.
Qed.

Lemma beside_intents ids l st st' m : rn_invariant rep st -> step l st st' -> beside ids l -> rep (rn_store st) m ->
  exists m', rep (rn_store st') m' /\ forall i, ri_run_id i ∈ ids ->
    (waiting m st i -> waiting m' st' i) /\ (handled m st i -> handled m' st' i).
Proof.
  intros HI Hs Hb Hm. destruct (step_intents _ _ _ _ Hs ltac:(by intros id ->) Hm) as (m' & Hm' & Hch).
  exists m'. split; [exact Hm'|]. intros i Hid.
  pose proof (no_run_stable _ _ _ _ _ Hs Hb Hid) as Hno. specialize (Hch (ri_run_id i)).
  assert (Hquiet : rn_runs st !! ri_run_id i = None -> m' !! ri_run_id i = m !! ri_run_id i).
  { intros Hn. destruct (no_run_no_work _ _ HI Hn) as [Hsp Ht].
    destruct Hch as [->|[(now & spec & Hx & _)|(s & [t Hx] & _)]]; [done|congruence|congruence]. }
  pose proof (marked_stable _ _ _ (ri_run_id i) HI Hs) as Hmk.
  split; [intros (Hn & Hi & Ht); split_and!; [auto|by rewrite Hquiet|done]|].
  unfold handled. destruct (runnable i).
  - intros (Hr & (fresh & Hspec) & j & Hj & Hsame & Ht).
    split; [destruct Hr as [x Hr]; destruct (step_grow _ _ _ _ _ _ _ Hs _ _ Hr) as (x' & -> & _); by eexists|].
    pose proof (run_spec_stable _ _ _ _ _ HI Hs Hr Hspec) as Hspec'.
    split; [by exists fresh|]. unfold kept_safe. destruct Hch as [->|[(now & spec & Hsp & ->)|(s & _ & -> & Hmk')]].
    + exists j. split_and!; [done|done|]. destruct Ht; auto.
    + unfold run_spec in Hspec. rewrite Hsp in Hspec. injection Hspec as ->.
      eexists. split_and!; [done|apply same_work_spawn|by left].
    + rewrite Hj. eexists. split_and!; [done|by apply same_work_terminal|by right].
  - intros (Hn & Hk). split; [auto|]. destruct Hk as [Hk|(j & Hj & Hsame & Ht)]; [by left|right].
    exists j. rewrite Hquiet by done. split_and!; [done|done|]. destruct Ht; auto.
Qed.

(** ** A turn of the loop *)

Lemma replay_next_step fresh now kept b st b' st' i rest :
  rl_current b = None -> rl_left b = i :: rest -> rn_runs st !! ri_run_id i = None ->
  (kept = true -> good (with_replay_count (next_count i) i)) ->
  replay_next fresh now kept b st = Some (b', st') ->
  step (RnReplays (ri_run_id i)) st st'.
Proof.
  intros Hc Hl Hn Hg. unfold replay_next. rewrite Hc, Hl.
  destruct (replay registry true fresh now kept i st) as [[st2|e] st1] eqn:Hr; intros [= _ <-].
  - by eapply SReplay; [done|exact Hg|rewrite Hr].
  - replace st1 with (snd (replay registry true fresh now kept i st)) by by rewrite Hr.
    by eapply SRefuse; [done|exact Hg|rewrite Hr].
Qed.

(** A turn handles its intent and touches no other. *)
Lemma replay_next_intents fresh now kept b st b' st' i rest m :
  rn_invariant rep st -> rl_current b = None -> rl_left b = i :: rest -> waiting m st i ->
  (kept = true -> good (with_replay_count (next_count i) i)) -> rep (rn_store st) m ->
  replay_next fresh now kept b st = Some (b', st') ->
  b' = ReplayLoop rest (if runnable i then Some i else None) (rl_events b) /\
  exists m', rep (rn_store st') m' /\ handled m' st' i /\
    forall j, ri_run_id j <> ri_run_id i ->
      (waiting m st j -> waiting m' st' j) /\ (handled m st j -> handled m' st' j).
Proof.
  intros HI Hc Hl (Hn & Hi & Ht) Hg Hm. unfold replay_next. rewrite Hc, Hl. unfold replay. fold (next_count i).
  destruct (10 <? next_count i)%Z eqn:Hlim.
  { intros [= <- <-]. assert (Hrun : runnable i = false) by (unfold runnable, over_limit; by rewrite Hlim).
    rewrite Hrun. split; [done|].
    destruct (is_mark_rep _ _ (ri_run_id i) (TsFailed replay_limit_error) Hm) as (t & -> & Hm'). eexists.
    split; [exact Hm'|]. split; [unfold handled; rewrite Hrun; split; [done|by left]|]. intros j Hj.
    unfold waiting, handled, kept_safe. rewrite lookup_alter_ne by done. by split. }
  set (t := if kept then _ else _).
  assert (Hm' : exists m', rep (rn_store t) m' /\ (forall k, k <> ri_run_id i -> m' !! k = m !! k) /\
            exists i', m' !! ri_run_id i = Some i' /\ same_work i i' /\ ri_terminal i' = None).
  { unfold t. destruct kept; [|exists m; split_and!; [done|done|by exists i]].
    exists (<[ri_run_id i := truncated (with_replay_count (next_count i) i)]> m). split_and!.
    - exact (is_insert_rep _ _ _ Hm (Hg eq_refl)).
    - intros k Hk. by rewrite lookup_insert_ne.
    - eexists. split; [by rewrite lookup_insert_eq|]. split; [by repeat split|exact Ht]. }
  destruct Hm' as (m' & Hm' & Hother & i' & Hi' & Hsame & Hti').
  assert (Hlive : runnable i = is_some_b (registry !! tool_name (ri_workflow i)))
    by (unfold runnable, over_limit; by rewrite Hlim).
  assert (Hstate : rn_runs t = rn_runs st /\ rn_spawning t = rn_spawning st /\ rn_tasks t = rn_tasks st)
    by (unfold t; by destruct kept).
  destruct Hstate as (Hruns & Hspawn & Htasks).
  unfold spawn_with_id. cbn [ws_workflow replay_spec]. destruct (is_some_b _) eqn:Hreg; intros [= <- <-]; rewrite Hlive;
    (split; [done|]); exists m'; (split; [exact Hm'|]).
  - split.
    + unfold handled. rewrite Hlive. split; [cbn; unfold insert_pending; rewrite lookup_insert_eq; by eexists|].
      split; [exists fresh; unfold run_spec; cbn; by rewrite lookup_insert_eq|].
      exists i'. split_and!; [done|done|by left].
    + intros j Hj. unfold waiting, handled, kept_safe, run_spec, marked. cbn. unfold insert_pending.
      rewrite !lookup_insert_ne by congruence. rewrite Hruns, Hspawn, Htasks, (Hother _ Hj). by split.
  - split.
    + unfold handled. rewrite Hlive, Hruns. split; [done|]. right. exists i'. split_and!; [done|done|by left].
    + intros j Hj. unfold waiting, handled, kept_safe, run_spec, marked.
      rewrite Hruns, Hspawn, Htasks, (Hother _ Hj). by split.
Qed.

(** ** The loop *)

(** [done] are the intents the loop is through with. *)
Record boot_inv (store : T) (L done : list runner_intent) (b : replay_loop) (st : state) : Prop := {
  bi_reach : rtc (rn_step_any show_u64 registry true good) (runner_new store) st;
  bi_split : L = done ++ option_list (rl_current b) ++ rl_left b;
  bi_current i : rl_current b = Some i -> runnable i = true;
  bi_events : rl_events b = map replayed_event (List.filter runnable done);
  bi_started i : i ∈ done -> runnable i = true -> is_Some (rn_tasks st !! ri_run_id i);
  bi_intents : exists m, rep (rn_store st) m /\
    (forall i, i ∈ rl_left b -> waiting m st i) /\
    (forall i, i ∈ done ++ option_list (rl_current b) -> handled m st i);
}.

Lemma boot_inv_start store m L : rep store m -> is_unterminated store = Some L ->
  boot_inv store L [] (replay_start store) (runner_new store).
Proof.
  intros Hm HL. destruct (is_unterminated_rep _ _ Hm) as (L' & HL' & _ & Hin).
  unfold replay_start. rewrite HL in HL' |- *. injection HL' as <-.
  split; cbn; [done|done|done|done|by intros i ?%elem_of_nil|]. exists m. split; [done|]. split.
  - intros i Hi. apply Hin in Hi as [??]. by repeat split.
  - by intros i ?%elem_of_nil.
Qed.

Lemma boot_inv_next store m0 L done b st fresh now kept b' st' :
  rep store m0 -> NoDup (ri_run_id <$> L) -> boot_inv store L done b st ->
  (forall i, head (rl_left b) = Some i -> kept = true -> good (with_replay_count (next_count i) i)) ->
  replay_next fresh now kept b st = Some (b', st') -> exists done', boot_inv store L done' b' st'.
Proof.
  intros Hm0 Hnd [Hr Hs Hc He Ht (m & Hm & Hw & Hh)] Hg Hnext.
  pose proof (runner_reachable show_u64 registry true good rep _ _ _ Hm0 Hr) as HI.
  destruct (rl_current b) as [i|] eqn:Hcur; [unfold replay_next in Hnext; by rewrite Hcur in Hnext|].
  destruct (rl_left b) as [|i rest] eqn:Hleft; [unfold replay_next in Hnext; by rewrite Hcur, Hleft in Hnext|].
  specialize (Hg i eq_refl). pose proof (Hw i ltac:(by left)) as Hwi.
  pose proof (replay_next_step _ _ _ _ _ _ _ _ _ Hcur Hleft (proj1 Hwi) Hg Hnext) as Hstep.
  destruct (replay_next_intents _ _ _ _ _ _ _ _ _ _ HI Hcur Hleft Hwi Hg Hm Hnext) as (-> & m' & Hm' & Hi & Hother).
  cbn in Hs. rewrite Hs, fmap_app, fmap_cons in Hnd. apply NoDup_app in Hnd as (_ & Hdi & [Hri _]%NoDup_cons).
  assert (Hne : forall j, j ∈ done ++ rest -> ri_run_id j <> ri_run_id i).
  { intros j [Hj|Hj]%elem_of_app Heq.
    - apply (Hdi (ri_run_id j)); [by apply list_elem_of_fmap_2|]. rewrite Heq. by left.
    - apply Hri. rewrite <- Heq. by apply list_elem_of_fmap_2. }
  exists (if runnable i then done else done ++ [i]).
  assert (Hreach : rtc (rn_step_any show_u64 registry true good) (runner_new store) st')
    by (eapply rtc_r; [exact Hr|by eexists]).
  assert (Hwait : forall j, j ∈ rest -> waiting m' st' j).
  { intros j Hj. apply Hother; [apply Hne, elem_of_app; by right|]. apply Hw. by right. }
  assert (Hdone : forall j, j ∈ done ++ [i] -> handled m' st' j).
  { intros j [Hj| ->%list_elem_of_singleton]%elem_of_app; [|exact Hi].
    apply Hother; [apply Hne, elem_of_app; by left|]. apply Hh. by rewrite app_nil_r. }
  assert (Hstart : forall j, j ∈ done -> runnable j = true -> is_Some (rn_tasks st' !! ri_run_id j))
    by (intros j Hj Hrj; eapply step_tasks; [exact Hstep|by apply Ht]).
  destruct (runnable i) eqn:Hrun; split; cbn; try done.
  - intros j [= <-]. exact Hrun.
  - by exists m'.
  - by rewrite Hs, <- app_assoc.
  - rewrite List.filter_app. cbn. by rewrite Hrun, app_nil_r.
  - intros j [Hj| ->%list_elem_of_singleton]%elem_of_app; [auto|congruence].
  - exists m'. split; [done|]. split; [done|]. by rewrite app_nil_r.
Qed.

Lemma boot_inv_step store m0 L done b st b' st' : rep store m0 -> NoDup (ri_run_id <$> L) ->
  boot_inv store L done b st -> boot_step (ri_run_id <$> L) (b, st) (b', st') ->
  exists done', boot_inv store L done' b' st'.
Proof.
  intros Hm0 Hnd Hinv Hstep.
  inversion Hstep as [fresh now kept b0 st0 b1 st1 Hg Hnext|b0 b1 st0 Hret|l b0 st0 st1 Hl Hb]; subst.
  - by eapply boot_inv_next.
  - destruct Hinv as [Hr Hs Hc He Ht (m & Hm & Hw & Hh)]. unfold replay_returns in Hret.
    destruct (rl_current b) as [i|] eqn:Hcur; [|done]. cbn in Hret, Hs, Hh.
    destruct (rn_spawning st' !! ri_run_id i) eqn:Hsp; [done|]. injection Hret as <-.
    pose proof (Hc i eq_refl) as Hrun. exists (done ++ [i]). split; cbn; try done.
    + by rewrite Hs, <- app_assoc.
    + rewrite He, List.filter_app, map_app. cbn. by rewrite Hrun.
    + intros j [Hj| ->%list_elem_of_singleton]%elem_of_app; [auto|intros _].
      assert (Hi : handled m st' i) by (apply Hh, elem_of_app; right; by left).
      unfold handled in Hi. rewrite Hrun in Hi. destruct Hi as (_ & (fresh & Hspec) & _).
      unfold run_spec in Hspec. rewrite Hsp in Hspec. destruct (rn_tasks st' !! ri_run_id i); [by eexists|done].
    + exists m. rewrite app_nil_r. by split_and!.
  - destruct Hinv as [Hr Hs Hc He Ht (m & Hm & Hw & Hh)].
    pose proof (runner_reachable show_u64 registry true good rep _ _ _ Hm0 Hr) as HI.
    destruct (beside_intents _ _ _ _ _ HI Hl Hb Hm) as (m' & Hm' & Hall).
    assert (Hin : forall i, i ∈ L -> ri_run_id i ∈ ri_run_id <$> L) by (intros; by apply list_elem_of_fmap_2).
    exists done. split; try done.
    + eapply rtc_r; [exact Hr|by eexists].
    + intros i Hi Hrun. eapply step_tasks; [exact Hl|auto].
    + exists m'. split; [done|]. split; intros i Hi; apply Hall; auto; apply Hin; rewrite Hs.
      * apply elem_of_app; right. apply elem_of_app. by right.
      * rewrite app_assoc. apply elem_of_app. by left.
Qed.

Lemma boot_inv_reachable store m0 L b st : rep store m0 -> is_unterminated store = Some L ->
  rtc (boot_step (ri_run_id <$> L)) (replay_start store, runner_new store) (b, st) ->
  exists done, boot_inv store L done b st.
Proof.
  intros Hm0 HL Hr. destruct (is_unterminated_rep _ _ Hm0) as (L' & HL' & HndL & Hin).
  rewrite HL in HL'. injection HL' as <-.
  assert (Hnd : NoDup (ri_run_id <$> L)).
  { apply NoDup_fmap_2_strong; [|done]. intros i j [Hi _]%Hin [Hj _]%Hin Heq. congruence. }
  remember (replay_start store, runner_new store) as s0 eqn:Hs0. remember (b, st) as s1 eqn:Hs1.
  assert (Hgen : forall s s', rtc (boot_step (ri_run_id <$> L)) s s' -> forall done,
      boot_inv store L done s.1 s.2 -> exists done', boot_inv store L done' s'.1 s'.2).
  { induction 1 as [s|[b1 st1] [b2 st2] s3 Hs _ IH]; intros done Hd; [by exists done|].
    destruct (boot_inv_step _ _ _ _ _ _ _ _ Hm0 Hnd Hd Hs) as [done' Hd']. exact (IH done' Hd'). }
  destruct (Hgen _ _ Hr []) as [done Hd]; subst; [by eapply boot_inv_start|]. by exists done.
Qed.

(** A spawn under way can be finished, and with it the loop. *)
Lemma spawn_can_end ids b st id :
  exists st', rtc (boot_step ids) (b, st) (b, st') /\ rn_spawning st' !! id = None.
Proof.
  assert (Hhook : forall s, rn_spawning s !! id = Some SpHook ->
      exists s', rtc (boot_step ids) (b, s) (b, s') /\ rn_spawning s' !! id = None).
  { intros s Hs. exists (register_hook id s). split; [|cbn; apply lookup_delete_eq].
    apply rtc_once. by eapply BBeside; [by apply SHook|]. }
  assert (Hstart : forall spec s, rn_spawning s !! id = Some (SpStart spec) ->
      exists s', rtc (boot_step ids) (b, s) (b, s') /\ rn_spawning s' !! id = None).
  { intros spec s Hs. destruct (Hhook (start_task id spec s)) as (s' & Hr & Hn); [cbn; apply lookup_insert_eq|].
    exists s'. split; [|done]. eapply rtc_l; [|exact Hr]. by eapply BBeside; [by apply SStart|]. }
  destruct (rn_spawning st !! id) as [[spec|spec|]|] eqn:Hs; [|by eapply Hstart|by apply Hhook|by exists st].
  destruct (Hstart spec (persist 0 id spec false st)) as (s' & Hr & Hn); [cbn; apply lookup_insert_eq|].
  exists s'. split; [|done]. eapply rtc_l; [|exact Hr]. by eapply BBeside; [by apply SPersist|].
Qed.

Lemma loop_can_end ids b st :
  exists b' st', rtc (boot_step ids) (b, st) (b', st') /\ loop_over b'.
Proof.
  destruct b as [todo cur evs]. revert cur evs st. induction todo as [|i rest IH]; intros cur evs st.
  - destruct cur as [i|]; [|by eexists _, st].
    destruct (spawn_can_end ids (ReplayLoop [] (Some i) evs) st (ri_run_id i)) as (st' & Hr & Hn).
    exists (ReplayLoop [] None (evs ++ [replayed_event i])), st'. split; [|done].
    eapply rtc_r; [exact Hr|]. apply BReturns. unfold replay_returns. cbn. by rewrite Hn.
  - assert (Hnone : forall evs st, exists b' st',
        rtc (boot_step ids) (ReplayLoop (i :: rest) None evs, st) (b', st') /\ loop_over b').
    { clear evs st. intros evs st.
      destruct (replay registry true 0 0 false i st) as [[st2|e] st1] eqn:Hrep.
      - destruct (IH (Some i) evs st2) as (b' & st' & Hr & Ho). exists b', st'. split; [|done].
        eapply rtc_l; [|exact Hr]. apply (BNext ids 0 0 false); [done|]. unfold replay_next. cbn -[replay].
        by rewrite Hrep.
      - destruct (IH None evs st1) as (b' & st' & Hr & Ho). exists b', st'. split; [|done].
        eapply rtc_l; [|exact Hr]. apply (BNext ids 0 0 false); [done|]. unfold replay_next. cbn -[replay].
        by rewrite Hrep. }
    destruct cur as [j|]; [|apply Hnone].
    destruct (spawn_can_end ids (ReplayLoop (i :: rest) (Some j) evs) st (ri_run_id j)) as (st1 & Hr & Hn).
    destruct (Hnone (evs ++ [replayed_event j]) st1) as (b' & st' & Hr' & Ho). exists b', st'. split; [|done].
    etransitivity; [exact Hr|]. eapply rtc_l; [|exact Hr']. apply BReturns. unfold replay_returns. cbn. by rewrite Hn.
Qed.

(** * Properties *)

(** C37: a process that dies while it replays loses nothing.  At whatever point
    of the boot, and of whatever the replayed runs have done so far, the next
    boot finds for every intent that was to be replayed an open intent of the
    same work: the same run, workflow, input, namespace, capabilities, actor and
    session; unless the run has ended and its task has marked it, or the intent
    was over the limit of replays. *)
Theorem boot_loses_no_intent store m L b st :
  rep store m -> is_unterminated store = Some L ->
  rtc (boot_step (ri_run_id <$> L)) (replay_start store, runner_new store) (b, st) ->
  exists next, is_unterminated (rn_store st) = Some next /\
    forall i, i ∈ L ->
      (exists j, j ∈ next /\ same_work i j) \/ marked (ri_run_id i) st \/ over_limit i = true.
Proof.
  intros Hm HL Hr. destruct (boot_inv_reachable _ _ _ _ _ Hm HL Hr) as [done [_ Hs _ _ _ (m' & Hm' & Hw & Hh)]].
  destruct (is_unterminated_rep _ _ Hm') as (next & Hnext & _ & Hin). exists next. split; [done|]. intros i Hi.
  assert (Hsafe : over_limit i = true \/ kept_safe m' st i).
  { rewrite Hs, app_assoc in Hi. apply elem_of_app in Hi as [Hi|Hi]; [by apply handled_safe, Hh|].
    right. by apply waiting_safe, Hw. }
  destruct Hsafe as [Ho|(j & Hj & Hsame & [Ht|Hmk])]; [by right; right| |by right; left].
  left. exists j. split; [|done]. apply Hin. destruct Hsame as (Hid & _). by rewrite Hid.
Qed.

(** C38: what a finished boot has resumed.  The replay loop can always be brought
    to its end, whichever writes fail.  When it has ended, each intent whose
    workflow is registered and which is not over the limit has a task of its own
    id, under exactly the stored namespace, capabilities and actor, and one
    event was sent for each of these, in order; the other intents have no run. *)
Theorem boot_resumes store m L b st :
  rep store m -> is_unterminated store = Some L ->
  rtc (boot_step (ri_run_id <$> L)) (replay_start store, runner_new store) (b, st) ->
  (exists b' st', rtc (boot_step (ri_run_id <$> L)) (b, st) (b', st') /\ loop_over b') /\
  (loop_over b ->
     rl_events b = map replayed_event (List.filter runnable L) /\
     forall i, i ∈ L ->
       if runnable i then
         exists fresh t, rn_tasks st !! ri_run_id i = Some t /\ tk_spec t = replay_spec fresh i
       else rn_runs st !! ri_run_id i = None).
Proof.
  intros Hm HL Hr. split; [apply loop_can_end|]. intros [Hleft Hcur].
  destruct (boot_inv_reachable _ _ _ _ _ Hm HL Hr) as [done [Hreach Hs _ He Ht (m' & Hm' & Hw & Hh)]].
  rewrite Hleft, Hcur in Hs. cbn in Hs. rewrite app_nil_r in Hs. subst done. split; [exact He|].
  intros i Hi. specialize (Hh i ltac:(rewrite Hcur; cbn; by rewrite app_nil_r)). unfold handled in Hh.
  destruct (runnable i) eqn:Hrun; [|tauto]. destruct Hh as (_ & (fresh & Hspec) & _).
  destruct (Ht i Hi Hrun) as [t Htask]. exists fresh, t. split; [done|]. unfold run_spec in Hspec.
  pose proof (runner_reachable show_u64 registry true good rep _ _ _ Hm Hreach) as HI.
  destruct (rn_spawning st !! ri_run_id i) as [ph|] eqn:Hsp; [|rewrite Htask in Hspec; by injection Hspec].
  destruct (rn_spawns rep _ HI _ _ Hsp) as [_ Hph].
  destruct ph; [congruence|congruence|]. rewrite Htask in Hspec. by injection Hspec.
Qed.
End Replay.

(** * The repaired journal *)

Section Repair.
Context {E R S X B Q : Type}.
Context `{LogTable E Z B} `{IndexTable R uuid} `{IndexTable S string} `{IndexTable X Z}.
Context (encode : stored_entry -> B) (decode : B -> option stored_entry).
Context (json_to_string : json -> string) (json_of_string : string -> option json).
Context (show_uuid : uuid -> string).
Context (hash_order : gmap uuid (string * string) -> list (uuid * (string * string))).
Context (bad_value bad_window : string).
Context (codec : forall s, decode (encode s) = Some s).
Context `{!LogTableLaws E Z B Z.lt}.
Context `{!IndexTableLaws R uuid} `{!IndexTableLaws S string} `{!IndexTableLaws X Z}.
Context (memory_surreal : bool) (connect_journal : json -> result string Q).

Abbreviation redb := (journal (E := E) (R := R) (S := S) (X := X)).
Abbreviation ops :=
  (redb_ops encode decode json_to_string json_of_string show_uuid hash_order bad_value bad_window).
Abbreviation journal_rows := (rows decode json_of_string).

(** Whatever the memory backend, the runtime that boots over a consistent redb
    journal has no interrupted run in it: one failure was appended per run that
    was.  A mirror that is connected starts without them: nothing is delivered
    to it. *)
Theorem startup_repairs now (j : redb) memory :
  (forall m, hash_order m ≡ₚ map_to_list m) ->
  json_of_string (json_to_string zombie_payload) = Some zombie_payload ->
  consistent decode json_of_string j ->
  (forall n j', reconcile_zombies encode decode json_to_string hash_order now j = Some (n, j') -> has_room n j) ->
  let w0 := wire_journal memory_surreal connect_journal (Some j) memory in
  exists w j' l news, with_limits ops now w0 = (w, Ok runtime_new) /\
    primary_of w = Some j' /\ consistent decode json_of_string j' /\
    NoDup l /\ (forall r, r ∈ l <-> interrupted r (journal_rows j) = true) /\
    journal_rows j' = journal_rows j ++ news /\
    Forall2 (fun r row => exists id sess ns, row = appended now id (zombie_entry r sess ns)) l news /\
    (forall r, interrupted r (journal_rows j') = false) /\
    mirrors_of w = mirrors_of w0 /\ deliveries_of w = [].
Proof.
  intros Ho Hz Hc Hroom. cbn zeta.
  destruct (reconcile_zombies_spec encode decode json_to_string json_of_string hash_order codec now j Ho Hz Hc Hroom)
    as (j' & l & news & Hj & Hc' & Hnd & Hl & Hrows & Hnews & Hno & _).
  assert (Hops : jo_reconcile_zombies ops now j = (Ok (Z.of_nat (length l)), j')) by (cbn; by rewrite Hj).
  assert (Hw : exists w, with_limits ops now (wire_journal memory_surreal connect_journal (Some j) memory)
      = (w, Ok runtime_new) /\ primary_of w = Some j' /\ deliveries_of w = [] /\
      mirrors_of w = mirrors_of (wire_journal memory_surreal connect_journal (Some j) memory)).
  { unfold with_limits.
    assert (Hp : wired_reconcile ops now (PrimaryOnly (Q := Q) j) = (PrimaryOnly j', Ok (Z.of_nat (length l))))
      by (unfold wired_reconcile; by rewrite Hops).
    assert (Hf : forall q : Q, wired_reconcile ops now (FannedOut (fanout_new j [q]))
        = (FannedOut (fanout_new j' [q]), Ok (Z.of_nat (length l)))).
    { intros q. unfold wired_reconcile. cbn -[redb_ops]. unfold on_primary. cbn -[redb_ops]. by rewrite Hops. }
    cbn [wire_journal]. destruct memory as [c|]; [|rewrite Hp; by eexists].
    destruct (_ && _); [|rewrite Hp; by eexists].
    destruct (connect_journal _) as [q|e]; [rewrite Hf; by eexists|rewrite Hp; by eexists]. }
  destruct Hw as (w & Hw & Hpr & Hd & Hmi). by exists w, j', l, news.
Qed.
End Repair.

(** * A boot, concretely *)

Module Demo.
Import Runner.Demo.

(** Two intents: one to be replayed, one whose workflow is gone. *)
Definition intent (id workflow : string) (at_ : datetime) : runner_intent :=
  RunnerIntent id None workflow JNull "konf:a" ["memory_search"] (Actor "u" User) "s" at_ None 0.
Definition left_over : intent_store (B := stored_intent) :=
  insert_intent id Intents.Demo.to_text (intent "r2" "gone" 2000)
    (insert_intent id Intents.Demo.to_text (intent "r1" "brief" 1000) store_open).
Definition found : list runner_intent := [intent "r1" "brief" 1000; intent "r2" "gone" 2000].

Abbreviation good := (printable Intents.Demo.to_text Intents.Demo.of_text).
Abbreviation bsteps := (rtc (boot_step show registry good ["r1"; "r2"])).

Definition loop0 : replay_loop := replay_start left_over.
Definition turn (b : replay_loop) (st : state) : replay_loop * state :=
  default (b, st) (replay_next registry 7 3000 true b st).

(** The first turn, the spawn it starts, its return, and the second turn. *)
Definition spec1 : workflow_spec := replay_spec 7 (intent "r1" "brief" 1000).
Definition b1 : replay_loop := (turn loop0 (runner_new left_over)).1.
Definition p1 : state := (turn loop0 (runner_new left_over)).2.
Definition p2 : state := persist 3000 "r1" spec1 true p1.
Definition p3 : state := start_task "r1" spec1 p2.
Definition p4 : state := register_hook "r1" p3.
Definition b2 : replay_loop := default b1 (replay_returns b1 p4).
Definition b3 : replay_loop := (turn b2 p4).1.
Definition p5 : state := (turn b2 p4).2.

Lemma stored : represents id Intents.Demo.to_text Intents.Demo.of_text left_over
  {["r2" := intent "r2" "gone" 2000; "r1" := intent "r1" "brief" 1000]}.
Proof.
  apply (represents_insert id _ _ _ {["r1" := intent "r1" "brief" 1000]} (intent "r2" "gone" 2000)); [|done].
  apply (represents_insert id _ _ _ ∅ (intent "r1" "brief" 1000)); [apply represents_open|done].
Qed.

Lemma to_p1 : bsteps (loop0, runner_new left_over) (b1, p1).
Proof. apply rtc_once, (BNext _ _ _ _ 7 3000 true); [by intros i [= <-]|vm_compute; reflexivity]. Qed.

Lemma to_p5 : bsteps (loop0, runner_new left_over) (b3, p5).
Proof.
  transitivity (b1, p1); [exact to_p1|].
  transitivity (b1, p2);
    [apply rtc_once, (BBeside _ _ _ _ RnQuiet); [|done]; apply SPersist; [vm_compute; reflexivity|done]|].
  transitivity (b1, p3); [apply rtc_once, (BBeside _ _ _ _ RnQuiet); [|done]; apply SStart; vm_compute; reflexivity|].
  transitivity (b1, p4); [apply rtc_once, (BBeside _ _ _ _ RnQuiet); [|done]; apply SHook; vm_compute; reflexivity|].
  transitivity (b2, p4); [apply rtc_once, BReturns; vm_compute; reflexivity|].
  apply rtc_once, (BNext _ _ _ _ 7 3000 true); [|vm_compute; reflexivity].
  intros i Hi. assert (Hh : head (rl_left b2) = Some (intent "r2" "gone" 2000)) by (vm_compute; reflexivity).
  rewrite Hh in Hi. by injection Hi as <-.
Qed.

(** A crash between the call of the first replay and the write of its intent:
    the next boot finds both intents again. *)
Lemma boot_loses_no_intent_witness :
  exists next, is_unterminated (rn_store p1) = Some next /\ map ri_run_id next = ["r1"; "r2"] /\
    exists j, j ∈ next /\ same_work (intent "r1" "brief" 1000) j.
Proof.
  destruct (boot_loses_no_intent show registry good _ left_over _ found b1 p1 stored) as (next & Hn & Hall);
    [vm_compute; reflexivity|exact to_p1|].
  exists next. split; [exact Hn|]. split.
  - assert (Hc : map ri_run_id <$> is_unterminated (rn_store p1) = Some ["r1"; "r2"]) by (vm_compute; reflexivity).
    rewrite Hn in Hc. by injection Hc.
  - destruct (Hall (intent "r1" "brief" 1000)) as [Hj|[(t & Ht & _)|Ho]]; [by left|exact Hj| |discriminate Ho].
    vm_compute in Ht. discriminate Ht.
Defined.

(** The first is resumed under its own authority, the second has no run. *)
Lemma boot_resumes_witness :
  rl_events b3 = [EvIntentReplayed "r1" "brief" 1] /\
  (exists t, rn_tasks p5 !! "r1" = Some t /\ capability_patterns (ws_parent_scope (tk_spec t)) = ["memory_search"]) /\
  rn_runs p5 !! "r2" = None.
Proof.
  destruct (boot_resumes show registry good _ left_over _ found b3 p5 stored) as [_ Hover];
    [vm_compute; reflexivity|exact to_p5|].
  destruct Hover as [He Hall]; [split; vm_compute; reflexivity|].
  pose proof (Hall (intent "r1" "brief" 1000) ltac:(by left)) as H1.
  pose proof (Hall (intent "r2" "gone" 2000) ltac:(by right; left)) as H2.
  split; [rewrite He; reflexivity|]. split; [|exact H2].
  destruct H1 as (fresh & t & Ht & Hspec). exists t. split; [exact Ht|]. rewrite Hspec. reflexivity.
Defined.
End Demo.
