(* ===== verification/Auth.v ===== *)
(** Who a request to the backend comes from ([konf-backend/src/auth/jwt.rs] and
    [middleware.rs]).

    Decoding and checking a token are the [jsonwebtoken] crate's, the fetch of
    the key set [reqwest]'s: parameters.  The model is what the code makes of
    them: which key, which algorithm and which audience a token is checked
    against, how long a key set is trusted, and who passes. *)

From S2P Require Import Prelude Json Boot.

Local Open Scope string_scope.
Local Open Scope list_scope.
Local Open Scope Z_scope.

(** * Data *)

(** [Claims]. *)
Record claims : Type := Claims {
  sub : string;
  aud : option string;
  iss : option string;
  exp : Z;
  cl_role : option string;
}.

(** [AuthError]. *)
Inductive auth_error : Type :=
  | InvalidHeaderFormat
  | MissingKid
  | KeyNotFound (kid : string)
  | VerificationFailed (message : string)
  | JwksFetchFailed (message : string)
  | Expired.

Definition auth_error_to_string (e : auth_error) : string :=
  match e with
  | InvalidHeaderFormat => "invalid Authorization header format (expected 'Bearer <token>')"
  | MissingKid => "missing 'kid' in JWT header"
  | KeyNotFound k => String.concat EmptyString ["key not found in JWKS for kid '"; k; "'"]
  | VerificationFailed m => String.append "JWT verification failed: " m
  | JwksFetchFailed m => String.append "failed to fetch JWKS: " m
  | Expired => "token expired"
  end.

(** The algorithms a header may name: the two the code accepts, and the rest by
    their debug name. *)
Inductive algorithm : Type := RS256 | ES256 | OtherAlgorithm (name : string).
Record jwt_header : Type := JwtHeader { alg : algorithm; kid : option string }.

(** What the code sets of a [Validation]. *)
Record validation : Type := Validation { v_algorithm : algorithm; v_audience : option (list string) }.

(** What decoding says: expired, or any other error with its text. *)
Inductive decode_error : Type := ExpiredSignature | DecodeError (message : string).

(** [JwtVerifier]; the cache is a state of its own. *)
Record jwt_verifier : Type := JwtVerifier { jwks_url : string; audience : string; cache_ttl_secs : Z }.

(** [JwtVerifier::new]. *)
Definition verifier_new (c : auth_config) : jwt_verifier :=
  JwtVerifier (String.append (supabase_url c) "/auth/v1/.well-known/jwks.json") (jwt_audience c)
    (jwks_cache_ttl_secs c).

(** [extract_token]. *)
Definition extract_token (auth_header : string) : result auth_error string :=
  ok_or (strip_prefix "Bearer " auth_header) InvalidHeaderFormat.

Section Auth.
Context {W jwk decoding_key response : Type}.
(** The [jsonwebtoken] crate.  Decoding reads the clock. *)
Context (decode_header : string -> result string jwt_header).
Context (key_id : jwk -> option string) (from_jwk : jwk -> result string decoding_key).
Context (decode : W -> string -> decoding_key -> validation -> result decode_error claims).
(** The [reqwest] crate: a request with its time limit in seconds, the check of
    its status, its body as a key set.  The monotonic clock, in nanoseconds. *)
Context (http_get : string -> Z -> W -> W * result string response).
Context (error_for_status : response -> result string response).
Context (json_body : response -> W -> W * result string (list jwk)).
Context (instant : W -> Z).

(** [CachedJwks]. *)
Record cached_jwks : Type := CachedJwks { cj_keys : list jwk; fetched_at : Z }.

(** The part of [get_or_refresh_jwks] that reads the cache. *)
Definition fresh_keys (v : jwt_verifier) (cache : option cached_jwks) (w : W) : option (list jwk) :=
  match cache with
  | Some c => if Z.max 0 (instant w - fetched_at c) <? cache_ttl_secs v * 1000000000
              then Some (cj_keys c) else None
  | None => None
  end.

(** The part that fetches. *)
Definition fetch_jwks (v : jwt_verifier) (w : W) : W * result auth_error (list jwk) :=
  let '(w1, r) := http_get (jwks_url v) 10 w in
  match map_err JwksFetchFailed (r ≫= error_for_status) with
  | Err e => (w1, Err e)
  | Ok response =>
      let '(w2, keys) := json_body response w1 in
      (w2, map_err (fun e => JwksFetchFailed (String.append "invalid JWKS JSON: " e)) keys)
  end.

(** [get_or_refresh_jwks]. *)
Definition get_or_refresh_jwks (v : jwt_verifier) (cache : option cached_jwks) (w : W)
  : option cached_jwks * W * result auth_error (list jwk) :=
  match fresh_keys v cache w with
  | Some keys => (cache, w, Ok keys)
  | None =>
      let '(w', r) := fetch_jwks v w in
      match r with
      | Ok keys => (Some (CachedJwks keys (instant w')), w', Ok keys)
      | Err e => (cache, w', Err e)
      end
  end.

(** The key of a token: the first of the set with its id. *)
Definition find_key (keys : list jwk) (k : string) : option jwk :=
  List.find (fun j => bool_decide (key_id j = Some k)) keys.

(** The end of [verify], with the key set. *)
Definition verify_with (v : jwt_verifier) (token : string) (header : jwt_header) (k : string)
    (keys : list jwk) (w : W) : result auth_error claims :=
  key ← ok_or (find_key keys k) (KeyNotFound k);
  decoding_key ← map_err (fun e => VerificationFailed (String.append "invalid JWK: " e)) (from_jwk key);
  algorithm ←
    match alg header with
    | RS256 => Ok RS256
    | ES256 => Ok ES256
    | OtherAlgorithm name => Err (VerificationFailed (String.append "unsupported algorithm: " name))
    end;
  map_err (fun e => match e with ExpiredSignature => Expired | DecodeError m => VerificationFailed m end)
    (decode w token decoding_key
       (Validation algorithm (if String.eqb (audience v) EmptyString then None else Some [audience v]))).

(** [verify]. *)
Definition verify (v : jwt_verifier) (token : string) (cache : option cached_jwks) (w : W)
  : option cached_jwks * W * result auth_error claims :=
  match map_err VerificationFailed (decode_header token) ≫= (fun h => pair h <$> ok_or (kid h) MissingKid) with
  | Err e => (cache, w, Err e)
  | Ok (header, k) =>
      let '(cache', w', r) := get_or_refresh_jwks v cache w in
      (cache', w', keys ← r; verify_with v token header k keys w')
  end.

(** * The middleware *)

(** The environment variable that turns authentication off. *)
Definition dev_mode (KONF_DEV_MODE : option string) : bool :=
  match KONF_DEV_MODE with
  | Some v => String.eqb v "1" || String.eqb (to_ascii_lowercase v) "true"
  | None => false
  end.

Definition dev_claims : claims := Claims "dev_user" None None i64_max (Some "user").

(** [auth_middleware] up to [next]: the claims the handler finds, or the text of
    the refusal.  [header] is the header's value when it is text. *)
Definition auth_middleware (v : jwt_verifier) (KONF_DEV_MODE header : option string)
    (cache : option cached_jwks) (w : W) : option cached_jwks * W * result string claims :=
  if dev_mode KONF_DEV_MODE then (cache, w, Ok dev_claims)
  else
    match header with
    | None => (cache, w, Err "Missing Authorization header")
    | Some h =>
        match map_err auth_error_to_string (extract_token h) with
        | Err e => (cache, w, Err e)
        | Ok token =>
            let '(cache', w', r) := verify v token cache w in
            (cache', w', map_err auth_error_to_string r)
        end
    end.

(** * Theory *)

(** The key sets a request may be checked against: the cached one while it is
    younger than the limit, else the one just fetched, which is then cached. *)
Inductive trusted (v : jwt_verifier) (cache : option cached_jwks) (w : W)
  : list jwk -> option cached_jwks -> W -> Prop :=
  | trusted_cached keys f :
      cache = Some (CachedJwks keys f) -> Z.max 0 (instant w - f) < cache_ttl_secs v * 1000000000 ->
      trusted v cache w keys cache w
  | trusted_fetched keys w' :
      fresh_keys v cache w = None -> fetch_jwks v w = (w', Ok keys) ->
      trusted v cache w keys (Some (CachedJwks keys (instant w'))) w'.

(** A token is accepted with a key set: it names a key of the set and one of
    two signature algorithms, and decodes under that key, for exactly that
    algorithm and, when one is configured, for the audience. *)
Inductive accepted (v : jwt_verifier) (keys : list jwk) (w : W) (token : string) (c : claims) : Prop :=
  | accepted_with header k key dk :
      decode_header token = Ok header -> kid header = Some k ->
      (alg header = RS256 \/ alg header = ES256) ->
      find_key keys k = Some key -> from_jwk key = Ok dk ->
      decode w token dk
        (Validation (alg header) (if String.eqb (audience v) EmptyString then None else Some [audience v])) = Ok c ->
      accepted v keys w token c.

Lemma fresh_keys_Some v cache w keys :
  fresh_keys v cache w = Some keys -> trusted v cache w keys cache w.
Proof.
  unfold fresh_keys. destruct cache as [[ks f]|]; [|done]. cbn.
  destruct (Z.ltb_spec (Z.max 0 (instant w - f)) (cache_ttl_secs v * 1000000000)); [|done].
  intros [= ->]. by eapply trusted_cached.
Qed.

Lemma trusted_fresh v cache w keys cache' w' :
  trusted v cache w keys cache' w' ->
  (fresh_keys v cache w = Some keys /\ cache' = cache /\ w' = w) \/
  (fresh_keys v cache w = None /\ fetch_jwks v w = (w', Ok keys) /\ cache' = Some (CachedJwks keys (instant w'))).
Proof.
  intros [ks f -> Hage|ks w2 Hn Hf]; [left|by right]. unfold fresh_keys. cbn.
  destruct (Z.ltb_spec (Z.max 0 (instant w - f)) (cache_ttl_secs v * 1000000000)); [done|lia].
Qed.

(** [get_or_refresh_jwks] answers the trusted key set, if there is one. *)
Lemma refresh_spec v cache w :
  match get_or_refresh_jwks v cache w with
  | (cache', w', Ok keys) => trusted v cache w keys cache' w'
  | (cache', w', Err e) => cache' = cache /\ fresh_keys v cache w = None /\ fetch_jwks v w = (w', Err e)
  end.
Proof.
  unfold get_or_refresh_jwks. destruct (fresh_keys v cache w) as [keys|] eqn:Hf; [by apply fresh_keys_Some|].
  destruct (fetch_jwks v w) as [w' [keys|e]] eqn:Hr; [by apply trusted_fetched|done].
Qed.

Lemma trusted_unique v cache w keys cache' w' keys2 cache2 w2 :
  trusted v cache w keys cache' w' -> trusted v cache w keys2 cache2 w2 ->
  keys2 = keys /\ cache2 = cache' /\ w2 = w'.
Proof.
  intros [(Hf & -> & ->)|(Hf & Hr & ->)]%trusted_fresh [(Hf2 & -> & ->)|(Hf2 & Hr2 & ->)]%trusted_fresh;
    rewrite Hf in Hf2; try done; [by injection Hf2|]. rewrite Hr in Hr2. by injection Hr2 as -> ->.
Qed.

Lemma verify_with_Ok v token header k keys w c :
  decode_header token = Ok header -> kid header = Some k ->
  verify_with v token header k keys w = Ok c <-> accepted v keys w token c.
Proof.
  intros Hh Hk. unfold verify_with. split.
  - destruct (find_key keys k) as [key|] eqn:Hf; [|done]. cbn.
    destruct (from_jwk key) as [dk|] eqn:Hj; [|done]. cbn.
    destruct (alg header) as [| |name] eqn:Ha; cbn; try done;
      (destruct (decode _ _ _ _) as [c'|[]] eqn:Hd; [|done..]); intros [= ->];
      eapply accepted_with with (header := header); eauto; rewrite Ha; auto.
  - intros [header' k' key dk Hh' Hk' Ha Hf Hj Hd]. rewrite Hh in Hh'. injection Hh' as <-.
    rewrite Hk in Hk'. injection Hk' as <-. rewrite Hf. cbn. rewrite Hj. cbn.
    destruct Ha as [Ha|Ha]; rewrite Ha in *; cbn; by rewrite Hd.
Qed.

(** What [verify] accepts, exactly. *)
Lemma verify_spec v token cache w :
  match verify v token cache w with
  | (cache', w', Ok c) => exists keys, trusted v cache w keys cache' w' /\ accepted v keys w' token c
  | (cache', w', Err _) =>
      (cache' = cache \/ exists keys, fetch_jwks v w = (w', Ok keys) /\ cache' = Some (CachedJwks keys (instant w'))) /\
      forall keys cache2 w2 c, trusted v cache w keys cache2 w2 -> ~ accepted v keys w2 token c
  end.
Proof.
  unfold verify. destruct (decode_header token) as [header|e] eqn:Hh; cbn.
  2:{ split; [by left|]. intros keys cache2 w2 c _ [header]. congruence. }
  destruct (kid header) as [k|] eqn:Hk; cbn.
  2:{ split; [by left|]. intros keys cache2 w2 c _ [header']. congruence. }
  pose proof (refresh_spec v cache w) as Hr. destruct (get_or_refresh_jwks v cache w) as [[cache' w'] [keys|e]]; cbn.
  - destruct (verify_with v token header k keys w') as [c|e] eqn:Hv.
    + exists keys. split; [done|]. by apply (verify_with_Ok v token header k).
    + split.
      * apply trusted_fresh in Hr as [(_ & -> & _)|(_ & Hf & ->)]; [by left|right]. by exists keys.
      * intros keys2 cache2 w2 c Ht Ha. destruct (trusted_unique _ _ _ _ _ _ _ _ _ Hr Ht) as (-> & _ & ->).
        apply (verify_with_Ok v token header k) in Ha; [congruence|done..].
  - destruct Hr as (-> & Hn & Hf). split; [by left|].
    intros keys2 cache2 w2 c [(Hf2 & _)|(_ & Hf2 & _)]%trusted_fresh; congruence.
Qed.

(** C35: who gets past the middleware.  Outside of dev mode a request passes
    exactly when its [Authorization] header is [Bearer] and a token that the
    trusted key set accepts: a key set fetched from the configured address and
    younger than the limit, the key the token names, the algorithm the token
    names, which is one of two signature algorithms, and the configured
    audience; the handler then sees the claims that decoding returned.  In dev
    mode everybody passes as one fixed user, and nothing is fetched. *)
Theorem auth_gate v KONF_DEV_MODE header cache w :
  let '(cache', w', r) := auth_middleware v KONF_DEV_MODE header cache w in
  if dev_mode KONF_DEV_MODE then cache' = cache /\ w' = w /\ r = Ok dev_claims
  else
    match r with
    | Ok c => exists token keys, header = Some (String.append "Bearer " token) /\
        trusted v cache w keys cache' w' /\ accepted v keys w' token c
    | Err _ =>
        (cache' = cache \/
         exists keys, fetch_jwks v w = (w', Ok keys) /\ cache' = Some (CachedJwks keys (instant w'))) /\
        forall token keys cache2 w2 c, header = Some (String.append "Bearer " token) ->
          trusted v cache w keys cache2 w2 -> ~ accepted v keys w2 token c
    end.
Proof.
  unfold auth_middleware. destruct (dev_mode KONF_DEV_MODE); [done|].
  destruct header as [h|]; [|split; [by left|done]].
  unfold extract_token. destruct (strip_prefix "Bearer " h) as [token|] eqn:Hs; cbn.
  2:{ split; [by left|]. intros token keys cache2 w2 c Heq%(inj Some) _. change (h = String.append "Bearer " token) in Heq.
      subst h. by rewrite strip_prefix_append in Hs. }
  apply strip_prefix_Some in Hs as ->. pose proof (verify_spec v token cache w) as Hv.
  destruct (verify v token cache w) as [[cache' w'] [c|e]]; cbn.
  - destruct Hv as (keys & Ht & Ha). by exists token, keys.
  - destruct Hv as [Hc Hv]. split; [done|]. intros token' keys cache2 w2 c Heq.
    apply (inj Some) in Heq. change (String.append "Bearer " token = String.append "Bearer " token') in Heq.
    apply append_inv_l in Heq as <-. apply Hv.
Qed.

(** ** The cache over time *)

(** Requests, and whatever happens between them. *)
Inductive auth_step (v : jwt_verifier) : option cached_jwks * W -> option cached_jwks * W -> Prop :=
  | as_request token cache w cache' w' r : verify v token cache w = (cache', w', r) -> auth_step v (cache, w) (cache', w')
  | as_other cache w w' : auth_step v (cache, w) (cache, w').

(** A cached key set is the answer of a fetch, at the time it records. *)
Definition cache_sound (v : jwt_verifier) (cache : option cached_jwks) : Prop :=
  forall c, cache = Some c -> exists w w', fetch_jwks v w = (w', Ok (cj_keys c)) /\ fetched_at c = instant w'.

Lemma trusted_sound v cache w keys cache' w' :
  cache_sound v cache -> trusted v cache w keys cache' w' -> cache_sound v cache'.
Proof.
  intros Hc [(_ & -> & _)|(_ & Hf & ->)]%trusted_fresh; [done|]. intros c [= <-]. by exists w, w'.
Qed.

Lemma auth_steps_sound v st st' : rtc (auth_step v) st st' -> cache_sound v st.1 -> cache_sound v st'.1.
Proof.
  induction 1 as [|x y z [token cache w cache' w' r Hv|cache w w'] _ IH]; [done| |done].
  intros Hc. apply IH. cbn in *. pose proof (verify_spec v token cache w) as Hs. rewrite Hv in Hs.
  destruct r as [c|e]; [destruct Hs as (keys & Ht & _); by eapply trusted_sound|].
  destruct Hs as [[->|(keys & Hf & ->)] _]; [done|]. intros c [= <-]. by exists w, w'.
Qed.

(** No request is checked against stale keys.  After any sequence of
    requests, the keys the next one is checked against are what the configured
    address answered to a fetch: the one this request made, or one completed
    less than the limit ago.  A fetch that fails is never papered over with
    older keys. *)
Theorem keys_are_recent v w0 cache w keys cache' w' :
  rtc (auth_step v) (None, w0) (cache, w) -> trusted v cache w keys cache' w' ->
  exists w1 w2, fetch_jwks v w1 = (w2, Ok keys) /\
    (w2 = w' \/ instant w - instant w2 < cache_ttl_secs v * 1000000000).
Proof.
  intros Hrun Ht. assert (cache_sound v cache) as Hc by (by apply (auth_steps_sound v _ _ Hrun)).
  destruct Ht as [ks f -> Hage|ks w2 Hn Hf].
  - destruct (Hc _ eq_refl) as (w1 & w2 & Hf & Heq). cbn in *. exists w1, w2. split; [done|]. right. lia.
  - exists w, w2. split; [done|]. by left.
Qed.
End Auth.
Arguments CachedJwks {jwk}. Arguments cj_keys {jwk}. Arguments fetched_at {jwk}.

(** * A verifier, concretely *)

Module Demo.
(** The world is the clock; a fetch takes a second and answers one key. *)
Definition second : Z := 1000000000.
Definition get_keys (_ : string) (_ : Z) (w : Z) : Z * result string unit := (w + second, Ok tt).
Definition body (_ : unit) (w : Z) : Z * result string (list string) := (w, Ok ["key-1"]).
Definition header_of (token : string) : result string jwt_header :=
  if String.eqb token "none" then Ok (JwtHeader (OtherAlgorithm "HS256") (Some "key-1"))
  else Ok (JwtHeader RS256 (Some "key-1")).
Definition alice : claims := Claims "alice" (Some "authenticated") None 0 None.
Definition check_token (_ : Z) (token key : string) (v : validation) : result decode_error claims :=
  if String.eqb token "good" then Ok alice else Err (DecodeError "InvalidSignature").
Definition v : jwt_verifier := verifier_new (AuthConfig "http://localhost:9999" "authenticated" 600).

Abbreviation gate := (auth_middleware header_of Some Ok check_token get_keys Ok body id v).

(** A good token, a forged one, an algorithm that is not accepted, no token. *)
Example gate_good : gate None (Some "Bearer good") None 0 =
  (Some (CachedJwks ["key-1"] second), second, Ok alice).
Proof. reflexivity. Qed.
Example gate_forged : (gate None (Some "Bearer bad") None 0).2 = Err "JWT verification failed: InvalidSignature".
Proof. reflexivity. Qed.
Example gate_algorithm : (gate None (Some "Bearer none") None 0).2 =
  Err "JWT verification failed: unsupported algorithm: HS256".
Proof. reflexivity. Qed.
Example gate_dev : (gate (Some "TRUE") None None 0).2 = Ok dev_claims /\ (gate (Some "0") None None 0).2 =
  Err "Missing Authorization header".
Proof. split; reflexivity. Qed.

Lemma keys_are_recent_witness :
  exists w1 w2, fetch_jwks get_keys Ok body v w1 = (w2, Ok ["key-1"]) /\
    (w2 = 300 * second \/ 300 * second - w2 < 600 * 1000000000).
Proof.
  apply (keys_are_recent header_of Some Ok check_token get_keys Ok body id v 0
    (Some (CachedJwks ["key-1"] second)) (300 * second) ["key-1"] (Some (CachedJwks ["key-1"] second))).
  - eapply rtc_l; [by apply as_request with (token := "good") (r := Ok alice)|].
    eapply rtc_l; [by apply as_other with (w' := 300 * second)|]. apply rtc_refl.
  - eapply trusted_cached; [reflexivity|]. vm_compute. reflexivity.
Defined.
End Demo.
