(* ===== verification/Backend.v ===== *)
(** The HTTP backend ([konf-backend/src]): its errors ([error.rs]), the chat,
    monitor and admin endpoints ([api/]), the routes and the state of
    [main.rs].

    The HTTP server is the [axum] crate's.  A handler is a function of the
    claims the middleware found, the request and the runtime; a stream is the
    list of frames its client is sent. *)

From S2P Require Import Prelude Json Error Envelope Scope Tool Guard Config Schema Workflow Stream Engine Journal Fanout Events Interactions Dispatch Runtime Monitor WorkflowTool Agent MemoryTools Surreal Boot Auth.
From Stdlib Require Import Ascii.

Local Open Scope string_scope.
Local Open Scope list_scope.
Local Open Scope Z_scope.

(** * Errors *)

(** [AppError]. *)
Inductive app_error : Type :=
  | NotFound (message : string)
  | Unauthorized (message : string)
  | BadRequest (message : string)
  | Internal (message : string)
  | Storage (message : string)
  | ConfigError (message : string).

(** A response: a status with a body, or a stream that goes on. *)
Inductive response : Type :=
  | Reply (status : Z) (body : json)
  | ChatStream (run_id : uuid)
  | MonitorStream (filter : option string).

(** [AppError::into_response]. *)
Definition into_response (e : app_error) : response :=
  let '(status, message) :=
    match e with
    | NotFound m => (404, m)
    | Unauthorized m => (401, m)
    | BadRequest m => (400, m)
    | Internal _ => (500, "Internal server error")
    | Storage _ => (500, "Storage error")
    | ConfigError _ => (500, "Configuration error")
    end in
  Reply status (JObject [("error", JString message); ("status", JNumber (PosInt status))]).

(** [str::replace] of a pattern that is not empty. *)
Fixpoint replace_from (skip : nat) (pattern by_ s : string) : string :=
  match s with
  | EmptyString => EmptyString
  | String c s' =>
      match skip with
      | S k => replace_from k pattern by_ s'
      | O => if starts_with s pattern
             then String.append by_ (replace_from (Nat.pred (String.length pattern)) pattern by_ s')
             else String c (replace_from O pattern by_ s')
      end
  end.
Definition str_replace (pattern by_ s : string) : string := replace_from O pattern by_ s.

(** * Application state *)

(** [AppState]; the runtime is a state of its own. *)
Record app_state : Type := AppState {
  default_workflow_yaml : string;
  default_capabilities : list capability_grant;
  default_limits : resource_limits;
  namespace_template : string;
}.

(** The chat workflow of [main]: [chat.yaml] of the configuration, or the first
    YAML file of the workflows directory, or the embedded template. *)
Definition choose_workflow (CHAT_WORKFLOW : string) (chat_yaml : file)
    (workflows : option (result string (list (result string dir_entry)))) : string :=
  match chat_yaml with
  | Some contents => default CHAT_WORKFLOW (to_option contents)
  | None =>
      match workflows with
      | Some (Ok entries) =>
          let is_yaml (e : dir_entry) :=
            bool_decide (de_extension e = Some "yaml") || bool_decide (de_extension e = Some "yml") in
          default CHAT_WORKFLOW
            (List.find is_yaml (omap to_option entries) ≫= (fun e => to_option (de_contents e)))
      | _ => CHAT_WORKFLOW
      end
  end.

Definition main_state (CHAT_WORKFLOW : string) (c : platform_config) (chat_yaml : file)
    (workflows : option (result string (list (result string dir_entry)))) : app_state := {|
  default_workflow_yaml := choose_workflow CHAT_WORKFLOW chat_yaml workflows;
  default_capabilities := [grant_new "*"];
  default_limits := pc_runtime c;
  namespace_template := "konf:default:${user_id}" |}.

(** The origins [main] allows; [None] is any. *)
Definition cors (valid_header : string -> bool) (c : platform_config) : option (list string) :=
  match cors_origins (pc_server c) with
  | [] => None
  | origins => Some (List.filter valid_header origins)
  end.

(** * Chat *)

(** The role a claim names: [serde_json::from_value] of an [ActorRole]. *)
Definition role_of_claim (r : string) : option actor_role := role_of_json (JString r).

(** The scope of a chat run. *)
Definition chat_scope (st : app_state) (c : claims) : execution_scope := {|
  namespace := str_replace "${user_id}" (sub c) (namespace_template st);
  capabilities := default_capabilities st;
  limits := default_limits st;
  scope_actor := {| actor_id := sub c; role := default User (cl_role c ≫= role_of_claim) |};
  depth := 0 |}.

(** A server-sent event. *)
Record sse_event : Type := SseEvent { sse_name : string; sse_data : string }.

(** * Requests *)

Inductive endpoint : Type :=
  | Health
  | Me
  | Chat (message session_id : string)
  | ListRuns
  | GetRun (id : string)
  | CancelRun (id : string)
  | GetTree (id : string)
  | Metrics
  | MonitorEvents (namespace : option string)
  | GetConfig
  | GetAudit.

(** The routes of [main] that sit under the middleware. *)
Definition is_protected (e : endpoint) : bool := match e with Health => false | _ => true end.

Section Backend.
Context {W : Type}.
Context (map_order : process_table -> list (uuid * workflow_run)).
Context (tool_order : gmap string (tool W) -> list tool_info).
Context (resource_order : gmap string resource -> list (string * resource)).
Context (show_uuid : uuid -> string) (show_time : datetime -> string) (show_u64 : Z -> string).
Context (parse_uuid : string -> option uuid).
Context (json_to_string : json -> string) (version : string).
Context (unicode_alphanumeric : N -> bool) (yaml_schema : string -> result string workflow_schema).
(** [JournalStore::recent], when there is a journal. *)
Context (recent : option (nat -> result journal_error (list journal_row))).

(** [chat] up to its stream: the run it starts, under a fresh id.  [appended]
    says whether the journal took the start entry. *)
Definition chat (st : app_state) (e : engine W) (c : claims) (session_id : string)
    (trace_id id : uuid) (now : datetime) (appended : bool) (rt : runtime) : runtime * result app_error uuid :=
  match parse_yaml show_u64 unicode_alphanumeric yaml_schema (eng_config e) (default_workflow_yaml st) with
  | Err err => (rt, Err (BadRequest (String.append "Invalid workflow: "
                       (runtime_error_to_string show_uuid show_u64 (REngine err)))))
  | Ok wf =>
      let failed m := Err (Internal (String.append "Failed to start workflow: " m)) in
      let s := chat_scope st c in
      let ctx := new_root trace_id session_id in
      match start id now (wf_id wf) (wf_capabilities wf) s ctx true rt with
      | Err err => (rt, failed (runtime_error_to_string show_uuid show_u64 err))
      | Ok rt1 =>
          let granted := validate_grant (wf_capabilities wf) (capability_patterns s) in
          (spawn_run id appended (StartingRun (started_entry id (wf_id wf) s ctx true)
                                    (admits true (wf_capabilities wf) s)) rt1,
           match granted with
           | Ok _ => Ok id
           | Err m => failed (runtime_error_to_string show_uuid show_u64 (REngine (ECapabilityDenied m)))
           end)
      end
  end.

(** The input of the run. *)
Definition chat_input (c : claims) (message session_id : string) : json :=
  JObject (obj_of_list [("message", JString message); ("user_id", JString (sub c)); ("session_id", JString session_id)]).

Definition sse (name : string) (members : list (string * json)) : sse_event :=
  SseEvent name (json_to_string (JObject (obj_of_list members))).

(** One event of the engine as a frame. *)
Definition frame_of (run_id : uuid) (ev : stream_event) : sse_event :=
  match ev with
  | Stream.Start workflow_id => sse "workflow_start" [("workflow_id", JString workflow_id)]
  | Progress node_id t data =>
      sse (match t with TextDelta => "text_delta" | ToolStart => "tool_start"
                      | ToolEnd => "tool_end" | Status => "status" end)
        [("node_id", JString node_id); ("data", data)]
  | Done output => sse "done" [("run_id", JString (show_uuid run_id)); ("output", output)]
  | Error code message retryable =>
      sse "error" [("code", JString code); ("message", JString message); ("retryable", JBool retryable)]
  end.

(** The loop of the stream over what the receiver gets before it closes. *)
Fixpoint forward (run_id : uuid) (l : list stream_event) : list sse_event :=
  match l with
  | [] => []
  | ev :: l' => frame_of run_id ev :: if is_terminal_event ev then [] else forward run_id l'
  end.

Definition chat_stream (run_id : uuid) (l : list stream_event) : list sse_event :=
  sse "start" [("run_id", JString (show_uuid run_id))] :: forward run_id l.

(** * Monitoring and administration *)

(** What a broadcast receiver says. *)
Inductive received : Type := Received (ev : run_event) | Lagged (n : Z) | Closed.

(** The filter of [stream]. *)
Definition passes (filter : option string) (ev : run_event) : bool :=
  match filter with
  | Some prefix =>
      let ns := event_namespace ev in
      String.eqb ns EmptyString || starts_with ns prefix
  | None => true
  end.

Fixpoint monitor_loop (filter : option string) (l : list received) : list sse_event :=
  match l with
  | [] | Closed :: _ => []
  | Lagged n :: l' => SseEvent "lagged" (show_u64 n) :: monitor_loop filter l'
  | Received ev :: l' =>
      if passes filter ev
      then SseEvent (kind ev) (json_to_string (JObject (event_members show_uuid show_time ev))) :: monitor_loop filter l'
      else monitor_loop filter l'
  end.

Definition hello_data : string :=
  let quoted s := String (Ascii.ascii_of_nat 34) (String.append s (String (Ascii.ascii_of_nat 34) EmptyString)) in
  String.concat EmptyString ["{"; quoted "status"; ":"; quoted "connected"; "}"].

(** [stream]. *)
Definition monitor_stream (filter : option string) (l : list received) : list sse_event :=
  SseEvent "hello" hello_data :: monitor_loop filter l.

(** [JournalRow], serialized as a value. *)
Definition row_to_json (r : journal_row) : json :=
  JObject (obj_of_list
    [("id", JNumber (PosInt (jr_id r))); ("run_id", opt_json (fun i => JString (show_uuid i)) (jr_run_id r));
     ("session_id", JString (jr_session_id r)); ("namespace", JString (jr_namespace r));
     ("event_type", JString (jr_event_type r)); ("payload", jr_payload r);
     ("created_at", JString (show_time (jr_created_at r)));
     ("valid_to", opt_json (fun t => JString (show_time t)) (jr_valid_to r));
     ("idempotency_key", opt_json JString (jr_idempotency_key r))]).

(** [get_audit]. *)
Definition get_audit : result app_error json :=
  match recent with
  | Some recent =>
      events ← map_err (fun e => Internal (String.append "Journal query failed: " (journal_error_to_string e)))
                 (recent 100%nat);
      Ok (JObject [("events", JArray (map row_to_json events))])
  | None =>
      Ok (JObject [("events", JArray []);
                   ("note", JString "Event journal is not available (no database configured)")])
  end.

(** [get_config]. *)
Definition get_config (e : engine W) : json :=
  let c := eng_config e in
  JObject (obj_of_list
    [("engine", JObject (obj_of_list
       [("max_steps", JNumber (PosInt (Config.max_steps c)));
        ("default_timeout_ms", JNumber (PosInt (default_timeout_ms c)));
        ("max_workflow_timeout_ms", JNumber (PosInt (Config.max_workflow_timeout_ms c)));
        ("stream_buffer", JNumber (PosInt (stream_buffer c)));
        ("max_concurrent_nodes", JNumber (PosInt (Config.max_concurrent_nodes c)))]));
     ("tools", JArray (map (fun t => JObject (obj_of_list
        [("name", JString (ti_name t)); ("description", JString (ti_description t));
         ("annotations", annotations_json (ti_annotations t))])) (tool_order (eng_tools e))));
     ("resources", JArray (map (fun r => JObject (obj_of_list
        [("uri", JString (res_uri r)); ("name", JString (res_name r)); ("mime_type", JString (res_mime_type r))]))
        (resource_list resource_order (eng_resources e))))]).

(** The id of a path. *)
Definition run_id_of (id : string) : result app_error uuid :=
  ok_or (parse_uuid id) (BadRequest "Invalid run ID").

Definition reply {A} (f : A -> json) (r : result app_error A) : response :=
  match r with Ok a => Reply 200 (f a) | Err e => into_response e end.

Definition no_run (id : string) : app_error :=
  NotFound (String.concat EmptyString ["Run "; id; " not found"]).

(** [cancel_run]. *)
Definition cancel_run (id : string) (rt : runtime) : runtime * response :=
  match run_id_of id with
  | Err e => (rt, into_response e)
  | Ok run_id =>
      let '(r, t) := cancel map_order (S (size (rt_table rt))) run_id (rt_table rt) in
      (with_table t rt,
       reply (fun _ => JObject [("cancelled", JBool true); ("run_id", JString id)])
         (map_err (fun e => Internal (runtime_error_to_string show_uuid show_u64 e)) r))
  end.

(** [me]. *)
Definition me (c : claims) : json :=
  JObject [("role", opt_json JString (cl_role c)); ("user_id", JString (sub c))].

(** The monitor's [list_runs], [get_run], [get_tree] and [metrics]. *)
Definition monitor_runs (rt : runtime) : json :=
  JObject [("runs", JArray (map (summary_to_json show_uuid show_time) (list_runs map_order (rt_table rt) None)))].
Definition monitor_run (id : string) (rt : runtime) : result app_error json :=
  run_id ← run_id_of id;
  detail_to_json show_uuid show_time <$> ok_or (get_run map_order (rt_table rt) run_id) (no_run id).
Definition monitor_tree (id : string) (rt : runtime) : result app_error json :=
  run_id ← run_id_of id;
  tree_to_json show_uuid show_time <$> ok_or (get_tree map_order (rt_table rt) run_id) (no_run id).
Definition monitor_metrics (uptime : Z) (rt : runtime) : json := metrics_to_json (metrics uptime rt).

(** [health]. *)
Definition health : response := Reply 200 (JObject [("status", JString "ok"); ("version", JString version)]).

(** ** The router *)

(** A handler behind the middleware. *)
Definition handle (st : app_state) (e : engine W) (uptime : Z) (trace_id id : uuid) (now : datetime)
    (appended : bool) (c : claims) (ep : endpoint) (rt : runtime) : runtime * response :=
  match ep with
  | Health => (rt, health)
  | Me => (rt, Reply 200 (me c))
  | Chat _ session_id =>
      let '(rt', r) := chat st e c session_id trace_id id now appended rt in
      (rt', match r with Ok run_id => ChatStream run_id | Err err => into_response err end)
  | ListRuns => (rt, Reply 200 (monitor_runs rt))
  | GetRun i => (rt, reply (fun v => v) (monitor_run i rt))
  | GetTree i => (rt, reply (fun v => v) (monitor_tree i rt))
  | CancelRun i => cancel_run i rt
  | Metrics => (rt, Reply 200 (monitor_metrics uptime rt))
  | MonitorEvents filter => (rt, MonitorStream filter)
  | GetConfig => (rt, Reply 200 (get_config e))
  | GetAudit => (rt, reply (fun v => v) get_audit)
  end.

(** A request from the outside: the middleware, then the handler. *)
Section Serve.
Context {V jwk decoding_key http_response : Type}.
Context (decode_header : string -> result string jwt_header).
Context (key_id : jwk -> option string) (from_jwk : jwk -> result string decoding_key).
Context (decode : V -> string -> decoding_key -> validation -> result decode_error claims).
Context (http_get : string -> Z -> V -> V * result string http_response).
Context (error_for_status : http_response -> result string http_response).
Context (json_body : http_response -> V -> V * result string (list jwk)).
Context (instant : V -> Z).

Abbreviation middleware :=
  (auth_middleware decode_header key_id from_jwk decode http_get error_for_status json_body instant).

Definition unauthorized (message : string) : response := Reply 401 (JObject [("error", JString message)]).

Definition serve (v : jwt_verifier) (KONF_DEV_MODE : option string) (st : app_state) (e : engine W)
    (uptime : Z) (trace_id id : uuid) (now : datetime) (appended : bool)
    (header : option string) (ep : endpoint) (cache : option (cached_jwks (jwk := jwk))) (w : V) (rt : runtime)
  : option (cached_jwks (jwk := jwk)) * V * (runtime * response) :=
  if is_protected ep then
    let '(cache', w', r) := middleware v KONF_DEV_MODE header cache w in
    (cache', w', match r with
                 | Ok c => handle st e uptime trace_id id now appended c ep rt
                 | Err m => (rt, unauthorized m)
                 end)
  else (cache, w, (rt, health)).

(** * Theory *)

(** What a caller of the HTTP API can reach.  Every endpoint but the health
    check answers 401 and changes nothing unless the middleware lets the
    request through, and then runs once, with the middleware's claims.  Only
    starting a chat and cancelling a run change the runtime.  Apart from the
    caller's own profile and chat, nothing depends on who asks: every
    authenticated caller lists, reads and cancels the runs of every tenant, and
    reads the configuration and the audit log. *)
Theorem api_authority v KONF_DEV_MODE st e uptime trace_id id now appended header ep cache w rt :
  let '(cache', w', (rt', answer)) :=
    serve v KONF_DEV_MODE st e uptime trace_id id now appended header ep cache w rt in
  (ep = Health /\ cache' = cache /\ w' = w /\ rt' = rt /\ answer = health) \/
  (exists m, middleware v KONF_DEV_MODE header cache w = (cache', w', Err m) /\ rt' = rt /\ answer = unauthorized m) \/
  (exists c, middleware v KONF_DEV_MODE header cache w = (cache', w', Ok c) /\
     (rt', answer) = handle st e uptime trace_id id now appended c ep rt /\
     match ep with Chat _ _ | CancelRun _ => True | _ => rt' = rt end /\
     match ep with
     | Me | Chat _ _ => True
     | _ => forall c', handle st e uptime trace_id id now appended c' ep rt =
                       handle st e uptime trace_id id now appended c ep rt
     end).
Proof.
  unfold serve. destruct (is_protected ep) eqn:Hp; [|left; by destruct ep].
  destruct (middleware v KONF_DEV_MODE header cache w) as [[cache' w'] [c|m]]; [|right; left; by exists m].
  destruct (handle st e uptime trace_id id now appended c ep rt) as [rt' answer] eqn:Hh.
  right. right. exists c. split; [done|]. split; [done|].
  destruct ep; cbn in Hh; (split; [first [done|by injection Hh as <- <-]|first [done|by intros ?; cbn; rewrite <- Hh]]).
Qed.
End Serve.

(** The stream of a chat.  Whatever the run's channel carries, the client
    gets a [start] frame with the id of the run, then one frame per event up to
    and including the first terminal one, and nothing after it.  Over what the
    engine streams, that is every progress event followed by exactly one [done]
    frame with the output when the run succeeds, and one [error] frame when it
    fails. *)
Theorem chat_stream_spec run_id l progress res :
  quiet progress ->
  (exists l1 l2, l = l1 ++ l2 /\
     chat_stream run_id l = sse "start" [("run_id", JString (show_uuid run_id))] :: map (frame_of run_id) l1 /\
     ((quiet l1 /\ l2 = []) \/
      exists l0 ev, l1 = l0 ++ [ev] /\ quiet l0 /\ is_terminal_event ev = true)) /\
  chat_stream run_id (streamed_events show_u64 progress res) =
    sse "start" [("run_id", JString (show_uuid run_id))] :: map (frame_of run_id) progress ++
    [frame_of run_id match res with
                     | Ok output => Done output
                     | Err err => Error "execution_error" (konflux_error_to_string show_u64 err) false
                     end].
Proof.
  intros Hq. split.
  - unfold chat_stream. induction l as [|ev l IH].
    { exists [], []. split_and!; [done..|]. by left. }
    cbn [forward]. destruct (is_terminal_event ev) eqn:Hev.
    + exists [ev], l. split_and!; [done..|]. right. by exists [], ev.
    + destruct IH as (l1 & l2 & -> & [= ->] & Hl). exists (ev :: l1), l2. split_and!; [done..|].
      destruct Hl as [[Hl1 ->]|(l0 & ev' & -> & Hl0 & Hev')]; [left|right].
      * split; [|done]. by apply quiet_cons.
      * exists (ev :: l0), ev'. split_and!; [done| |done]. by apply quiet_cons.
  - unfold chat_stream, streamed_events, execution_events.
    assert (forall ev, is_terminal_event ev = true ->
      forward run_id (progress ++ [ev]) = map (frame_of run_id) progress ++ [frame_of run_id ev]) as Hf.
    { intros ev Hev. induction progress as [|a p IH]; cbn; [by rewrite Hev|].
      apply quiet_cons in Hq as [-> Hq]. by rewrite IH. }
    destruct res; [rewrite app_nil_r|]; by rewrite Hf.
Qed.

(** The monitor's stream.  Until the bus closes, a client gets [hello], one
    [lagged] frame for each gap, and one frame for each event its filter lets
    pass, in order.  The filter holds back only events that carry a namespace
    of another prefix: starts and ends of nodes, text deltas and ends of runs
    carry none, so they reach every subscriber, whatever its filter and whoever
    it is. *)
Theorem monitor_stream_spec filter l rest :
  Closed ∉ l ->
  monitor_stream filter (l ++ Closed :: rest) =
    SseEvent "hello" hello_data ::
    omap (fun r => match r with
                   | Received ev =>
                       if passes filter ev
                       then Some (SseEvent (kind ev) (json_to_string (JObject (event_members show_uuid show_time ev))))
                       else None
                   | Lagged n => Some (SseEvent "lagged" (show_u64 n))
                   | Closed => None
                   end) l /\
  (forall ev, passes filter ev = false <->
     exists prefix, filter = Some prefix /\ event_namespace ev <> EmptyString /\
       starts_with (event_namespace ev) prefix = false) /\
  (forall run_id node_id text tool st t ms why,
     passes filter (EvTextDelta run_id node_id text) = true /\
     passes filter (EvNodeStart run_id node_id tool t) = true /\
     passes filter (EvNodeEnd run_id node_id st t) = true /\
     passes filter (EvRunCompleted run_id ms) = true /\
     passes filter (EvRunFailed run_id ms why) = true).
Proof.
  intros Hl. split_and!.
  - unfold monitor_stream. f_equal. induction l as [|r l IH]; [done|].
    apply not_elem_of_cons in Hl as [Hr Hl]. specialize (IH Hl).
    destruct r as [ev|n|]; [|cbn; by rewrite IH|done]. cbn. destruct (passes filter ev); by rewrite IH.
  - intros ev. unfold passes. destruct filter as [p|]; [|split; [done|by intros (? & ? & _)]].
    rewrite orb_false_iff. split.
    + intros [Hne Hs]. exists p. split_and!; [done| |done]. by apply String.eqb_neq.
    + intros (p' & [= ->] & Hne & Hs). split; [by apply String.eqb_neq|done].
  - intros. by destruct filter.
Qed.
End Backend.

(** * The chat of [main] *)

Section Chats.
Context {W : Type} (show_uuid : uuid -> string) (show_u64 : Z -> string).
Context (unicode_alphanumeric : N -> bool) (yaml_schema : string -> result string workflow_schema).
Context (template : string) (config : platform_config) (chat_yaml : file).
Context (workflows : option (result string (list (result string dir_entry)))).

Abbreviation state := (main_state template config chat_yaml workflows).

Lemma chat_namespace c : namespace (chat_scope state c) = String.append "konf:default:" (sub c).
Proof. cbn. by rewrite app_EmptyString_r. Qed.

Lemma chat_check_tool c name : check_tool (chat_scope state c) name = Ok ∅.
Proof. reflexivity. Qed.

(** What a chat request does.  A workflow that does not parse is the
    client's error, and a namespace at its limit the server's; neither changes
    the runtime.  Otherwise the run is started under the fresh id: it is running
    in the caller's own namespace, for the caller, with the full wildcard, its
    start is journalled when the journal takes it, and the engine never refuses
    it afterwards. *)
Theorem chat_spec (e : engine W) c session_id trace_id id now appended rt :
  let '(rt', r) := chat show_uuid show_u64 unicode_alphanumeric yaml_schema state e c session_id
                     trace_id id now appended rt in
  match parse_yaml show_u64 unicode_alphanumeric yaml_schema (eng_config e) (default_workflow_yaml state) with
  | Err _ => rt' = rt /\ exists m, r = Err (BadRequest m)
  | Ok wf =>
      match validate_start (chat_scope state c) (rt_table rt) with
      | Err _ => rt' = rt /\ exists m, r = Err (Internal m)
      | Ok _ =>
          r = Ok id /\ id ∈ rt_live rt' /\
          (exists run, rt_table rt' !! id = Some run /\ wr_status run = RsRunning /\
             wr_namespace run = String.append "konf:default:" (sub c) /\
             actor_id (wr_actor run) = sub c /\ wr_capabilities run = ["*"]) /\
          (forall i, i <> id -> rt_table rt' !! i = rt_table rt !! i) /\
          exists entry, je_run_id entry = Some id /\ je_event_type entry = "workflow_started" /\
            rt_journal rt' = if appended then rt_journal rt ++ [entry] else rt_journal rt
      end
  end.
Proof.
  unfold chat. destruct (parse_yaml _ _ _ _ _) as [wf|err]; [|split; [done|by eexists]].
  unfold start. destruct (validate_start _ _) as [[]|err]; [|split; [done|by eexists]].
  cbn [mbind result_bind].
  assert (validate_grant (wf_capabilities wf) (capability_patterns (chat_scope state c)) = Ok tt) as Hg
    by apply validate_grant_star.
  rewrite Hg. cbn [spawn_run enter rt_table rt_live rt_journal sr_admitted].
  unfold admits. rewrite Hg. split_and!; [done|by apply elem_of_union_l, elem_of_singleton| | |].
  - eexists. split; [apply lookup_insert_eq|]. split_and!; [done|apply chat_namespace|done..].
  - intros i Hi. by rewrite lookup_insert_ne.
  - by exists (started_entry id (wf_id wf) (chat_scope state c) (new_root trace_id session_id) true).
Qed.

(** Every chat run has the tools of the process, each behind its guard and with
    nothing bound. *)
Lemma chat_registry hash_order tool_order guards (source : gmap string (tool W)) c name :
  registry_ok source -> tool_order source ≡ₚ (fun nt => info nt.2) <$> map_to_list source ->
  (forall n, guards !! n ≫= tg_alias = None) ->
  scoped_registry hash_order tool_order guards source (chat_scope state c) !! name =
    wrap hash_order guards name ∅ <$> source !! name.
Proof.
  intros Hok Hord Hal. rewrite scoped_registry_plain by done. unfold granted_tool. rewrite chat_check_tool.
  by destruct (source !! name).
Qed.

Lemma chat_tool_invoke hash_order guards name (raw : tool W) w env :
  invoke (wrap hash_order guards name ∅ raw) w env =
    match dispatch_denial guards name raw (env_payload env) with
    | Some message => (w, Err (ToolCapabilityDenied (String.append "guard denied: " message)))
    | None => invoke raw w env
    end.
Proof.
  unfold wrap, dispatch_denial. rewrite bool_decide_true by done.
  destruct (guards !! name) as [g|]; [|done]. destruct (tg_rules g) as [|r rs]; [done|].
  cbn [invoke guarded_tool]. rewrite evaluate_denial. by destruct (guard_denial _ _ _ _).
Qed.
End Chats.

(** * The memory of a chat *)

Section ChatMemory.
Context {W : Type} (db_query : string -> list (string * json) -> W -> W * result string (list json)).
Context (to_lowercase : string -> string) (show_i64 : Z -> string) (json_to_string : json -> string).
Context (score_order : gmap string (f64 * json) -> list (string * (f64 * json))) (cfg : surreal_config).
Context (view : W -> session) (db_now : W -> Z) `{!SessionDb db_query show_i64 view db_now}.
Context (fresh : W -> uuid) (now : W -> datetime).
Context (template : string) (config : platform_config) (chat_yaml : file).
Context (workflows : option (result string (list (result string dir_entry)))).

Abbreviation chat_scope_of := (chat_scope (main_state template config chat_yaml workflows)).
Abbreviation memory := (surreal_backend db_query to_lowercase show_i64 json_to_string score_order cfg).

(** What a session slot holds at time [t]: the value, unless it has expired. *)
Definition live_value (t : Z) (slot : string * string * string) (m : session) : json :=
  match m !! slot with
  | Some (v, Some expiry) => if expiry <? t then JNull else v
  | Some (v, None) => v
  | None => JNull
  end.

Lemma pruned_value (t : Z) (ns sid key : string) (m : session) :
  from_option fst JNull (prune t ns sid m !! (ns, sid, key)) = live_value t (ns, sid, key) m.
Proof.
  unfold live_value, prune. rewrite map_lookup_filter. destruct (m !! _) as [[v [e|]]|]; [..|done];
    cbn; case_guard as Hg; unfold in_session, expired in Hg; cbn in Hg; [| |done|naive_solver].
  - destruct (Z.ltb_spec e t); [by destruct Hg|done].
  - destruct (Z.ltb_spec e t); [done|]. destruct Hg. by intros [_ He%Zlt_not_le].
Qed.

(** A payload that names a slot of a session. *)
Definition names_slot (slot : string * string * string) (payload : json) : Prop :=
  str_field "namespace" payload = Some slot.1.1 /\ str_field "session_id" payload = Some slot.1.2 /\
  str_field "key" payload = Some slot.2.

Lemma getter_reads slot w env w' answer :
  names_slot slot (env_payload env) ->
  invoke (StateGetTool fresh now memory) w env = (w', Ok answer) ->
  get "value" (env_payload answer) = Some (live_value (db_now w) slot (view w)).
Proof.
  destruct slot as [[ns sid] key]. intros (Hn & Hs & Hk). cbn [invoke StateGetTool memory_tool].
  unfold memory_invoke, get_request, required_str. cbn in Hn, Hs, Hk. rewrite Hn, Hs, Hk.
  cbn [ok_or mbind result_bind mb_call surreal_backend surreal_call].
  destruct (state_get db_query key sid (Some ns) w) as [w1 r] eqn:Hc. intros [= _ Hr].
  eapply state_get_step in Hc; [|done]. destruct r as [v|]; [|done]. injection Hr as <-.
  inversion Hc; subst. cbn [respond env_payload]. rewrite <- pruned_value. done.
Qed.

Lemma setter_writes slot w env w' answer :
  names_slot slot (env_payload env) ->
  invoke (StateSetTool fresh now memory) w env = (w', Ok answer) ->
  exists v expiry, get "value" (env_payload env) = Some v /\ view w' = <[slot := (v, expiry)]> (view w).
Proof.
  destruct slot as [[ns sid] key]. intros (Hn & Hs & Hk). cbn [invoke StateSetTool memory_tool].
  unfold memory_invoke, set_request, required_str. cbn in Hn, Hs, Hk. rewrite Hn, Hs, Hk.
  destruct (get "value" (env_payload env)) as [v|]; [|done].
  cbn [ok_or mbind result_bind mb_call surreal_backend surreal_call].
  destruct (state_set _ _ key v sid (Some ns) _ w) as [w1 r] eqn:Hc. intros [= <- Hr].
  eapply state_set_step in Hc; [|done]. destruct r; [|done].
  inversion Hc; subst. by eexists _, _.
Qed.

(** C36: the chat does not keep its users apart.  The namespace of a chat run
    names its user, but the one grant of every chat run binds no parameter.
    When no guard gives a tool an alias, all users get the same registry, in
    which a call is either denied by the tool's guard or reaches the tool with
    the payload as the workflow or the model wrote it.  So when the process has
    the session tools of a SurrealDB memory and no guard on them, the run of
    any user reads and overwrites the memory of any other: a payload that names
    the other's namespace makes [state:get] answer the live value stored there,
    and [state:set] replace it. *)
Theorem chat_tools_unbound hash_order tool_order guards (source : gmap string (tool W)) user other :
  registry_ok source -> tool_order source ≡ₚ (fun nt => info nt.2) <$> map_to_list source ->
  (forall n, guards !! n ≫= tg_alias = None) ->
  let registry c := scoped_registry hash_order tool_order guards source (chat_scope_of c) in
  (namespace (chat_scope_of user) = namespace (chat_scope_of other) -> sub user = sub other) /\
  registry user = registry other /\
  (forall name raw, source !! name = Some raw ->
    exists t, registry user !! name = Some t /\
      forall w env, invoke t w env =
        match dispatch_denial guards name raw (env_payload env) with
        | Some message => (w, Err (ToolCapabilityDenied (String.append "guard denied: " message)))
        | None => invoke raw w env
        end) /\
  (source !! "state:get" = Some (StateGetTool fresh now memory) ->
   source !! "state:set" = Some (StateSetTool fresh now memory) ->
   guards !! "state:get" = None -> guards !! "state:set" = None ->
   exists getter setter, registry user !! "state:get" = Some getter /\ registry user !! "state:set" = Some setter /\
     forall sid key w env w' answer,
       let slot := (namespace (chat_scope_of other), sid, key) in
       names_slot slot (env_payload env) ->
       (invoke getter w env = (w', Ok answer) ->
        get "value" (env_payload answer) = Some (live_value (db_now w) slot (view w))) /\
       (invoke setter w env = (w', Ok answer) ->
        exists v expiry, get "value" (env_payload env) = Some v /\ view w' = <[slot := (v, expiry)]> (view w))).
Proof.
  intros Hok Hord Hal registry.
  assert (forall c name, registry c !! name = wrap hash_order guards name ∅ <$> source !! name) as Hreg
    by (intros; by apply chat_registry).
  split_and!.
  - rewrite !chat_namespace. apply append_inv_l.
  - apply map_eq. intros name. by rewrite !Hreg.
  - intros name raw Hraw. rewrite Hreg, Hraw. eexists. split; [reflexivity|]. intros. apply chat_tool_invoke.
  - intros Hget Hset Hg1 Hg2. do 2 eexists. rewrite !Hreg, Hget, Hset. split_and!; [reflexivity..|].
    intros sid key w env w' answer slot Hslot. rewrite !chat_tool_invoke. unfold dispatch_denial. rewrite Hg1, Hg2.
    split; [by apply getter_reads|by apply setter_writes].
Qed.
End ChatMemory.

(** * A backend, concretely *)

Module Demo.
Definition show_id (_ : uuid) : string := "7".
Definition show_t (_ : datetime) : string := "t".
Definition show_n (_ : Z) : string := "n".
Definition print (v : json) : string := default "object" (as_str v).

Definition state : app_state := main_state "workflow: chat" platform_default None None.
Definition alice : claims := Claims "alice" None None 0 None.
Definition mallory : claims := Claims "mallory" None None 0 (Some "authenticated").

Example choose_first : choose_workflow "embedded" None
  (Some (Ok [Err "unreadable"; Ok (DirEntry "w/a.txt" "a.txt" (Some "txt") (Ok "text"));
             Ok (DirEntry "w/b.yml" "b.yml" (Some "yml") (Ok "workflow: b"))])) = "workflow: b".
Proof. reflexivity. Qed.

Definition progress : list stream_event := [Stream.Start "chat"; Progress "reply" TextDelta (JString "Hi")].

Lemma chat_stream_spec_witness :
  quiet progress /\
  map sse_name (chat_stream show_id print 7 (streamed_events show_n progress (Ok (JString "Hi"))))
    = ["start"; "workflow_start"; "text_delta"; "done"].
Proof.
  split; [reflexivity|].
  destruct (chat_stream_spec show_id show_n print 7 [] progress (Ok (JString "Hi")) (eq_refl _)) as [_ ->].
  reflexivity.
Defined.

(** A subscriber to the namespace of one tenant sees the text of another. *)
Lemma monitor_stream_spec_witness :
  map sse_name (monitor_stream show_id show_t show_n print (Some "konf:default:mallory")
    ([Received (EvRunStarted 7 "chat" "konf:default:alice" None 0); Received (EvTextDelta 7 "reply" "secret"); Lagged 3]
     ++ Closed :: [])) = ["hello"; "text_delta"; "lagged"].
Proof.
  destruct (monitor_stream_spec show_id show_t show_n print (Some "konf:default:mallory")
    [Received (EvRunStarted 7 "chat" "konf:default:alice" None 0); Received (EvTextDelta 7 "reply" "secret"); Lagged 3]
    []) as [-> _].
  - rewrite !not_elem_of_cons. by split_and!; [..|apply not_elem_of_nil].
  - reflexivity.
Defined.

(** Two users of one memory. *)
Abbreviation db := Surreal.Demo.db.
Definition memory : memory_backend db :=
  surreal_backend Surreal.Demo.run id Surreal.Demo.show Surreal.Demo.json_text map_to_list Surreal.Demo.cfg.
Definition getter : tool db := StateGetTool (fun _ => 1%N) (fun _ => 0) memory.
Definition setter : tool db := StateSetTool (fun _ => 1%N) (fun _ => 0) memory.
Definition registry : gmap string (tool db) := {["state:get" := getter; "state:set" := setter]}.
Definition tools (r : gmap string (tool db)) : list tool_info := (fun nt => info nt.2) <$> map_to_list r.
Definition registry_of (c : claims) : gmap string (tool db) :=
  scoped_registry map_to_list tools ∅ registry (chat_scope state c).

(** Alice stores a plan in her session; a run of Mallory's reads it by naming
    her namespace, and then replaces it. *)
Definition payload (value : json) : json := JObject [("key", JString "plan");
  ("namespace", JString (namespace (chat_scope state alice))); ("session_id", JString "s1"); ("value", value)].
Definition call_of (c : claims) (name : string) (value : json) : envelope json :=
  for_tool_dispatch 0%N 0 name (payload value) ["*"] 7%N (namespace (chat_scope state c)) (sub c) "s".
Definition use (c : claims) (name : string) (value : json) (w : db) : db * result tool_error (envelope json) :=
  match registry_of c !! name with
  | Some t => invoke t w (call_of c name value)
  | None => (w, Err (ToolNotFound name))
  end.
Definition stored : db := (use alice "state:set" (JString "secret") Surreal.Demo.empty_db).1.
Definition replaced : db := (use mallory "state:set" (JString "changed") stored).1.

Example mallory_reads_alice :
  (to_option (use mallory "state:get" JNull stored).2 ≫= fun e => get "value" (env_payload e)) = Some (JString "secret").
Proof. vm_compute. reflexivity. Qed.

Lemma chat_tools_unbound_witness :
  registry_of mallory = registry_of alice /\
  namespace (chat_scope state mallory) = "konf:default:mallory" /\
  exists getter setter, registry_of mallory !! "state:get" = Some getter /\ registry_of mallory !! "state:set" = Some setter /\
    (forall w' answer, invoke getter stored (call_of mallory "state:get" JNull) = (w', Ok answer) ->
       get "value" (env_payload answer) = Some (JString "secret")) /\
    is_Some (to_option (invoke getter stored (call_of mallory "state:get" JNull)).2) /\
    is_Some (to_option (invoke setter stored (call_of mallory "state:set" (JString "changed"))).2) /\
    exists expiry, fst replaced !! ("konf:default:alice", "s1", "plan") = Some (JString "changed", expiry).
Proof.
  assert (forall n t, registry !! n = Some t -> n = ti_name (info t)) as Honly.
  { unfold registry. intros n t [[<- <-]|[_ [<- <-]%lookup_singleton_Some]]%lookup_insert_Some; reflexivity. }
  pose proof Surreal.Demo.db_laws as Hlaws.
  destruct (chat_tools_unbound Surreal.Demo.run id Surreal.Demo.show Surreal.Demo.json_text map_to_list Surreal.Demo.cfg
              fst snd (fun _ => 1%N) (fun _ => 0) "workflow: chat" platform_default None None map_to_list tools ∅ registry
              mallory alice) as (_ & Heq & _ & Hmem).
  - intros n t H. symmetry. exact (Honly n t H).
  - reflexivity.
  - intros n. reflexivity.
  - split; [exact Heq|]. split; [reflexivity|].
    destruct Hmem as (g & s & Hg & Hs & Hall); [reflexivity..|].
    change (registry_of mallory !! "state:get" = Some g) in Hg.
    change (registry_of mallory !! "state:set" = Some s) in Hs.
    exists g, s. split; [exact Hg|]. split; [exact Hs|].
    assert (use mallory "state:get" JNull stored = invoke g stored (call_of mallory "state:get" JNull)) as Hr.
    { unfold use. rewrite Hg. reflexivity. }
    assert (use mallory "state:set" (JString "changed") stored
              = invoke s stored (call_of mallory "state:set" (JString "changed"))) as Hw.
    { unfold use. rewrite Hs. reflexivity. }
    split; [|split; [|split]].
    + intros w' answer Hi. destruct (Hall "s1" "plan" stored (call_of mallory "state:get" JNull) w' answer) as [Hread _].
      * vm_compute. split_and!; reflexivity.
      * rewrite (Hread Hi). vm_compute. reflexivity.
    + rewrite <- Hr. vm_compute. eexists. reflexivity.
    + rewrite <- Hw. vm_compute. eexists. reflexivity.
    + assert (is_Some (to_option (use mallory "state:set" (JString "changed") stored).2)) as Hok
        by (vm_compute; eexists; reflexivity).
      unfold replaced. rewrite Hw in Hok |- *.
      destruct (invoke s stored _) as [w' [answer|e]] eqn:Ha; [|destruct Hok as [? [=]]].
      destruct (Hall "s1" "plan" stored (call_of mallory "state:set" (JString "changed")) w' answer) as [_ Hwrite].
      * vm_compute. split_and!; reflexivity.
      * destruct (Hwrite Ha) as (v & expiry & Hv & Hview). exists expiry.
        assert (v = JString "changed") as -> by (vm_compute in Hv; injection Hv as <-; reflexivity).
        cbn [fst]. rewrite Hview. apply lookup_insert_eq.
Defined.
End Demo.
