(* ===== verification/Isolation.v ===== *)
(** Tenants that share a process: workflow runs of several scopes, interleaved,
    over one memory database.

    Composes what other files show piecewise: how a run gets its engine and its
    context from a scope ([Runtime::start], [konf-runtime/src/runtime.rs], with
    [Engine::run] and [spawn_node] of the substrate), the scheduler ([Dag]), the
    scoped registry ([Dispatch]), the memory tools ([MemoryTools]) and their
    backend ([Surreal]).  A system is any number of runs, started at any time,
    whose tasks, main loops and tool attempts take steps in any order. *)

From S2P Require Import Prelude Json Error Envelope Scope Tool Guard Expr Workflow Config Schema Validator Compiler Executor Dag Events Dispatch WorkflowTool MemoryTools Surreal.

Local Open Scope string_scope.
Local Open Scope list_scope.

(** * The context of a run *)

Section Start.
Context {W : Type}.
Context (hash_order : gmap string json -> list (string * json)).
Context (tool_order : gmap string (tool W) -> list tool_info).
Context (show_uuid : uuid -> string).

(** What [Runtime::start] hands to [Engine::run], and [spawn_node] to every
    task of the run: the scoped engine, the patterns of the scope, the metadata
    of the execution. *)
Definition run_context (guards : gmap string tool_guard_entry) (c : engine_config)
    (source : gmap string (tool W)) (s : execution_scope) (ctx : execution_context) (wf : workflow)
  : step_context (W:=W) :=
  let '(config, registry) := build_scoped_engine hash_order tool_order guards c source s in
  StepContext registry (capability_patterns s) config (build_execution_metadata show_uuid s ctx) (wf_id wf).

(** [Engine::run] checks the capabilities of the workflow before it executes. *)
Definition may_run (s : execution_scope) (wf : workflow) : bool :=
  is_ok (validate_grant (wf_capabilities wf) (capability_patterns s)).
End Start.

(** * Attempts of one run *)

Section Invoking.
Context {W : Type}.
Context (now : W -> datetime).
Context (show_u64 : Z -> string) (show_expr_error : expr_error -> string).
Context (render : string -> gmap string json -> result string string).
Context (parse_uuid : string -> option uuid) (new_uuid : nat -> W -> uuid).
Context (ctx : step_context (W:=W)) (wf : workflow).

#[local] Abbreviation reaches := (reaches now show_u64 show_expr_error render parse_uuid new_uuid ctx wf).
#[local] Abbreviation exec := (exec now show_u64 show_expr_error render parse_uuid new_uuid ctx wf).

(** A task of the workflow that, while its tool runs, runs it within the
    authority of the run. *)
Definition task_ok (t : task) : Prop :=
  tk_step t ∈ wf_steps wf /\
  match tk_phase t with PhInvoke env => authorised ctx wf (tk_step t) env | _ => True end.

Abbreviation tasks_ok c := (Forall task_ok (tasks c)).

Lemma task_step_ok b w r outs errs t outs' errs' t' tr :
  task_ok t ->
  task_step now show_u64 show_expr_error render parse_uuid new_uuid ctx wf b w r outs errs t
    = Some (outs', errs', t', tr) ->
  task_ok t'.
Proof.
  intros [Hin _] Hstep. split.
  { apply task_step_facts in Hstep as [_ H _ _]. by apply H. }
  revert Hstep. unfold task_step. destruct (tk_phase t) as [| |env|[v|e]|v|v|msgs res|res]; try done.
  - by destruct b; intros [= <- <- <- <-].
  - destruct (prepare_step _ _ _ _ _ _ _ _) as [[tl env]|e] eqn:Hp; intros [= <- <- <- <-]; [|done].
    by eapply prepare_step_authorised.
  - by intros [= <- <- <- <-].
  - by intros [= <- <- <- <-].
  - unfold on_error. destruct (st_on_error (tk_step t)) as [| |v|g]; [| | |destruct (get_step wf g)];
      by intros [= <- <- <- <-].
  - intros [= <- <- <- <-]. unfold after_success.
    destruct (st_repeat _) as [rp|]; [|done]. destruct (evaluate_as_bool _ _) as [[]|]; [done| |done].
    cbn. by destruct (_ <? _)%Z.
  - intros [= <- <- <- <-]. unfold follow_edges.
    destruct (evaluate_edges_targets _ _ _ _) as [[|[id|] [|]]|]; try done.
    destruct (get_step wf id) as [next|]; [|done]. by destruct (Nat.leb _ 1).
Qed.

Lemma spawn_ok c id s : tasks_ok c -> get_step wf id = Some s -> tasks_ok (spawn s c).
Proof.
  intros Hc [Hs _]%get_step_Some. cbn. apply Forall_app. split; [done|]. by apply Forall_singleton.
Qed.

Lemma try_spawn_ok c id : tasks_ok c -> tasks_ok (try_spawn wf id c).
Proof. intros Hc. unfold try_spawn. repeat case_match; try done. by eapply spawn_ok. Qed.

Lemma spawn_reachable_ok order c : tasks_ok c -> tasks_ok (spawn_reachable ctx wf order c).
Proof.
  revert c. induction order as [|id order IH]; intros c Hc; [done|]. cbn.
  destruct (at_capacity ctx c); [done|]. by apply IH, try_spawn_ok.
Qed.

Lemma end_check_tasks c : tasks (end_check c) = tasks c.
Proof. unfold end_check. by repeat case_match. Qed.

Lemma exec_tasks_ok c a c' : tasks_ok c -> exec c a = Some c' -> tasks_ok c'.
Proof.
  intros Hc. unfold Dag.exec. destruct (status c); [done|].
  destruct a as [i w r|i|i|order| |].
  - destruct (tasks c !! i) as [t|] eqn:Ht; [|done]. cbn [mbind option_bind].
    destruct (task_step _ _ _ _ _ _ _ _ _ _ _ _ _ t) as [[[[outs errs] t'] tr]|] eqn:E; [|done].
    cbn [mbind option_bind]. intros [= <-]. cbn. apply Forall_insert; [done|].
    eapply task_step_ok; [|exact E]. by eapply Forall_lookup_1.
  - destruct (tasks c !! i) as [t|] eqn:Ht; [|done]. cbn [mbind option_bind].
    pose proof (Forall_lookup_1 _ _ _ _ Hc Ht) as [Hin _].
    repeat case_match; try done; intros [= <-]; cbn; by apply Forall_insert.
  - destruct (tasks c !! i) as [t|] eqn:Ht; [|done]. cbn [mbind option_bind].
    case_match; try done. intros [= <-]. unfold join_task.
    assert (Forall task_ok (delete i (tasks c))) by by apply Forall_delete.
    repeat case_match; try rewrite end_check_tasks; done.
  - repeat case_match; try done. intros [= <-].
    match goal with |- context [recv_message _ _ ?m] => destruct m end; cbn [recv_message];
      rewrite end_check_tasks; [by apply spawn_reachable_ok|].
    case_match; [done|by apply try_spawn_ok].
  - case_match; [|done]. by intros [= <-].
  - by intros [= <-].
Qed.

Lemma init_tasks_ok input c : init wf input = Some c -> tasks_ok c.
Proof.
  unfold init. intros (entry & [Hin _]%get_step_Some & ->)%fmap_Some. by apply Forall_singleton.
Qed.

(** Whatever the interleaving, a tool that is running runs for a dispatch the
    run may make. *)
Lemma invoking_authorised input c t env :
  reaches input c -> t ∈ tasks c -> tk_phase t = PhInvoke env -> authorised ctx wf (tk_step t) env.
Proof.
  intros Hr Ht Hph. assert (tasks_ok c) as Hc.
  { clear Ht. induction Hr as [c Hc|c c' _ IH [a Ha]]; [by eapply init_tasks_ok|by eapply exec_tasks_ok]. }
  rewrite Forall_forall in Hc. destruct (Hc t Ht) as [_ H]. by rewrite Hph in H.
Qed.
End Invoking.

(** * Runs side by side *)

(** A run: the scope and context it was started with, its workflow, where it
    stands. *)
Record job : Type := Job {
  jb_scope : execution_scope;
  jb_exec_context : execution_context;
  jb_workflow : workflow;
  jb_state : config_state;
}.

(** What one attempt of a tool asked of the database. *)
Record attempt : Type := Attempt {
  at_job : nat;
  at_step : step;
  at_envelope : envelope json;
  at_statements : list statement;
}.

Record system : Type := System { sy_jobs : list job; sy_attempts : list attempt }.

Section System.
Context {W : Type}.
Abbreviation db_world := (W * list statement)%type.
Context (hash_order : gmap string json -> list (string * json)).
Context (tool_order : gmap string (tool db_world) -> list tool_info).
Context (show_uuid : uuid -> string) (now : db_world -> datetime).
Context (show_u64 : Z -> string) (show_expr_error : expr_error -> string).
Context (render : string -> gmap string json -> result string string).
Context (parse_uuid : string -> option uuid) (new_uuid : nat -> db_world -> uuid).
Context (guards : gmap string tool_guard_entry) (config : engine_config) (source : gmap string (tool db_world)).

Definition job_context (j : job) : step_context (W:=db_world) :=
  run_context hash_order tool_order show_uuid guards config source (jb_scope j) (jb_exec_context j) (jb_workflow j).

Definition scheduled (j : job) (c : config_state) : job :=
  Job (jb_scope j) (jb_exec_context j) (jb_workflow j) c.

(** The statements of an attempt that its time limit, or the end of the run, may
    cut short; it starts in whatever world the others have left. *)
Definition attempt_of (t : tool db_world) (env : envelope json) (stmts : list statement) : Prop :=
  exists w n, stmts = take n (snd (fst (invoke t (w, []) env))).

#[local] Abbreviation exec_step j :=
  (exec_step now show_u64 show_expr_error render parse_uuid new_uuid (job_context j) (jb_workflow j)).
#[local] Abbreviation reaches j :=
  (reaches now show_u64 show_expr_error render parse_uuid new_uuid (job_context j) (jb_workflow j)).

(** Somebody starts a run the engine lets in, under any scope; a run takes a step of its
    scheduler; a task whose tool is running attempts it once, or once more. *)
Inductive sys_step (sys : system) : system -> Prop :=
  | StartJob s ctx wf input c :
      may_run s wf = true -> init wf input = Some c ->
      sys_step sys (System (sy_jobs sys ++ [Job s ctx wf c]) (sy_attempts sys))
  | Schedule i j c :
      sy_jobs sys !! i = Some j -> exec_step j (jb_state j) c ->
      sys_step sys (System (<[i := scheduled j c]> (sy_jobs sys)) (sy_attempts sys))
  | Try i j t env tl stmts :
      sy_jobs sys !! i = Some j -> t ∈ tasks (jb_state j) -> tk_phase t = PhInvoke env ->
      registry (job_context j) !! st_tool (tk_step t) = Some tl -> attempt_of tl env stmts ->
      sys_step sys (System (sy_jobs sys) (sy_attempts sys ++ [Attempt i (tk_step t) env stmts])).

Inductive sys_reaches : system -> Prop :=
  | sys_init : sys_reaches (System [] [])
  | sys_next sys sys' : sys_reaches sys -> sys_step sys sys' -> sys_reaches sys'.

(** ** What holds of every attempt *)

(** An attempt of a run [j]: of a dispatch the run may make, on the tool its
    registry has under the step's name. *)
Definition attempt_ok (j : job) (a : attempt) : Prop :=
  authorised (job_context j) (jb_workflow j) (at_step a) (at_envelope a) /\
  exists tl, registry (job_context j) !! st_tool (at_step a) = Some tl /\
    attempt_of tl (at_envelope a) (at_statements a).

Record sys_ok (sys : system) : Prop := {
  so_jobs : forall i j, sy_jobs sys !! i = Some j -> exists input, reaches j input (jb_state j);
  so_attempts : forall a, a ∈ sy_attempts sys -> exists j, sy_jobs sys !! at_job a = Some j /\ attempt_ok j a;
}.

Lemma sys_step_ok sys sys' : sys_ok sys -> sys_step sys sys' -> sys_ok sys'.
Proof.
  intros [Hj Ha] [s ctx wf input c _ Hinit|i j c Hi Hc|i j t env tl stmts Hi Ht Hph Htl Hst].
  - split; cbn.
    + intros i j [Hi|[_ Hi]]%lookup_app_Some; [by apply (Hj i)|].
      apply list_lookup_singleton_Some in Hi as [_ <-]. exists input. by constructor.
    + intros a (j & Hi & Hok)%Ha. exists j. by rewrite lookup_app_l_Some with (x := j).
  - split; cbn.
    + intros k j' [(<- & <- & _)|[_ Hk]]%list_lookup_insert_Some; [|by apply (Hj k)].
      destruct (Hj _ _ Hi) as [input Hr]. exists input. by eapply reaches_step.
    + intros a (j' & Hk & Hok)%Ha. destruct (decide (i = at_job a)) as [->|Hne].
      * exists (scheduled j c). rewrite list_lookup_insert_eq by (by eapply lookup_lt_Some).
        split; [done|]. by replace j with j' by congruence.
      * exists j'. by rewrite list_lookup_insert_ne.
  - split; cbn; [done|]. intros a [Hin| ->%list_elem_of_singleton]%elem_of_app; [by apply Ha|].
    exists j. split; [done|]. destruct (Hj _ _ Hi) as [input Hr]. split; [|by exists tl].
    by eapply invoking_authorised.
Qed.

Lemma sys_reaches_ok sys : sys_reaches sys -> sys_ok sys.
Proof.
  induction 1 as [|sys sys' _ IH Hs]; [|by eapply sys_step_ok].
  split; cbn; [intros i j Hi; by rewrite lookup_nil in Hi|intros a Ha; by apply elem_of_nil in Ha].
Qed.

(** The run started last takes a step. *)
Lemma schedule_last jobs tries j c :
  sys_reaches (System (jobs ++ [j]) tries) -> exec_step j (jb_state j) c ->
  sys_reaches (System (jobs ++ [scheduled j c]) tries).
Proof.
  intros Hr Hs. eapply sys_next; [exact Hr|].
  replace (jobs ++ [scheduled j c]) with (<[length jobs := scheduled j c]> (jobs ++ [j])).
  - apply (Schedule (System (jobs ++ [j]) tries) (length jobs) j c); [by apply list_lookup_middle|exact Hs].
  - by rewrite insert_app_r_alt, Nat.sub_diag.
Qed.
End System.

(** ** Retries are attempts

    [invoke_with_retry] asks the database only what a sequence of attempts asks,
    when a timed invocation runs its tool up to some point and sleeping asks
    nothing. *)

Section Retries.
Context {W : Type}.
Abbreviation db_world := (W * list statement)%type.
Context (timed_invoke : duration -> tool db_world -> db_world -> envelope json -> db_world * attempt_outcome).
Context (cancelled : db_world -> bool) (now : db_world -> datetime) (sleep : duration -> db_world -> db_world).
Context (show_u64 : Z -> string).
Hypothesis timed_attempt : forall d t w env,
  exists stmts, attempt_of t env stmts /\ snd (fst (timed_invoke d t w env)) = snd w ++ stmts.
Hypothesis sleep_silent : forall d w, snd (sleep d w) = snd w.

Lemma retries_are_attempts ctx t env s max remaining attempt last r :
  exists tries, Forall (attempt_of t env) tries /\ length tries <= remaining /\
    snd (world (fst (retry_loop timed_invoke cancelled now sleep show_u64 ctx t env s max remaining attempt last r)))
    = snd (world r) ++ concat tries.
Proof.
  revert attempt last r. induction remaining as [|remaining IH]; intros attempt last r; cbn [retry_loop].
  { exists []. cbn. rewrite app_nil_r. by split_and!. }
  assert (forall out : option (result konflux_error (envelope json)), exists tries,
    Forall (attempt_of t env) tries /\ length tries <= S remaining /\
    snd (world (fst (r, out))) = snd (world r) ++ concat tries) as Hstop.
  { intros out. exists []. cbn. rewrite app_nil_r. split_and!; [done|lia|done]. }
  destruct (cancelled (world r)); [apply Hstop|].
  destruct (match env_deadline env with Some d => _ | None => false end); [apply Hstop|].
  set (slept := if (1 <? attempt)%Z then _ else _).
  assert (forall r', slept = Some r' -> snd (world r') = snd (world r)) as Hslept.
  { intros r'. unfold slept. destruct (1 <? attempt)%Z; [|by intros [= <-]].
    intros (d & _ & ->)%fmap_Some. apply sleep_silent. }
  destruct slept as [r1|]; [|apply Hstop]. rewrite <- (Hslept r1 eq_refl).
  cbn [emit world]. set (dur := attempt_duration now ctx s env (world r1)).
  destruct (timed_attempt dur t (world r1) env) as (stmts & Hst & Hlog).
  destruct (timed_invoke dur t (world r1) env) as [w outcome]. cbn [fst] in Hlog.
  assert (forall e (out : option (result konflux_error (envelope json))), exists tries,
    Forall (attempt_of t env) tries /\ length tries <= S remaining /\
    snd (world (fst (Run w e, out))) = snd (world r1) ++ concat tries) as Hone.
  { intros e out. exists [stmts]. cbn. rewrite Hlog, app_nil_r. split_and!; [by apply Forall_singleton|lia|done]. }
  assert (forall e last', exists tries, Forall (attempt_of t env) tries /\ length tries <= S remaining /\
    snd (world (fst (retry_loop timed_invoke cancelled now sleep show_u64 ctx t env s max remaining
      (attempt + 1) last' (Run w e)))) = snd (world r1) ++ concat tries) as Hmore.
  { intros e last'. destruct (IH (attempt + 1)%Z last' (Run w e)) as (tries & Hf & Hn & ->).
    exists (stmts :: tries). cbn [world concat length]. rewrite Hlog, app_assoc.
    split_and!; [by constructor|lia|done]. }
  destruct outcome as [[out|e]| |]; try apply Hone; cbn [emit world report];
    (destruct (_ || _)%bool; [apply Hone|apply Hmore]).
Qed.
End Retries.

(** * Tenants *)

Section Tenants.
Context {W : Type} (db_query : string -> list (string * json) -> W -> W * result string (list json)).
Abbreviation db_world := (W * list statement)%type.
Context (to_lowercase : string -> string) (show_i64 : Z -> string) (json_to_string : json -> string).
Context (score_order : gmap string (f64 * json) -> list (string * (f64 * json))) (cfg : surreal_config).
Context (fresh_id : db_world -> uuid) (clock : db_world -> datetime).
Context (hash_order : gmap string json -> list (string * json)).
Context (tool_order : gmap string (tool db_world) -> list tool_info).
Context (show_uuid : uuid -> string) (now : db_world -> datetime).
Context (show_u64 : Z -> string) (show_expr_error : expr_error -> string).
Context (render : string -> gmap string json -> result string string).
Context (parse_uuid : string -> option uuid) (new_uuid : nat -> db_world -> uuid).
Context (guards : gmap string tool_guard_entry) (config : engine_config) (source : gmap string (tool db_world)).

(** The one backend of the process. *)
Definition shared : memory_backend db_world :=
  surreal_backend (logged db_query) to_lowercase show_i64 json_to_string score_order cfg.

Definition is_memory (t : tool db_world) : Prop := t ∈ memory_tools fresh_id clock shared.

(** A tool that does not use the memory database itself; it may start runs. *)
Definition silent (t : tool db_world) : Prop := forall w env, snd (fst (invoke t w env)) = snd w.

(** The registry of the process: memory tools and others; an alias hides no
    memory tool from the bindings. *)
Record sound_source : Prop := {
  ss_ok : registry_ok source;
  ss_order : forall m, listing (hash_order m) m;
  ss_tools : forall name t, source !! name = Some t -> is_memory t \/ silent t;
  ss_aliases : forall n a t, guards !! n ≫= tg_alias = Some a -> source !! a = Some t -> silent t;
}.

(** A scope whose grants bind the namespace of the memory tools they cover. *)
Definition bound_to (ns : string) (s : execution_scope) : Prop :=
  forall name t bindings, source !! name = Some t -> is_memory t -> check_tool s name = Ok bindings ->
    bindings !! "namespace" = Some (JString ns).

Lemma wrap_silent name bindings raw : silent raw -> silent (wrap hash_order guards name bindings raw).
Proof.
  intros Hs. unfold wrap. set (inner := if bool_decide _ then raw else _).
  assert (silent inner) as Hi.
  { unfold inner. destruct (bool_decide _); [done|]. intros w env. cbn. destruct (inject_bindings _ _); [apply Hs|done]. }
  destruct (guards !! name) as [g|]; [|done]. destruct (tg_rules g) as [|r rs]; [done|].
  intros w env. cbn [invoke guarded_tool]. destruct (Guard.evaluate _ _ _ _); [apply Hi|done].
Qed.

Lemma wrap_memory name bindings raw ns w env :
  (forall m, listing (hash_order m) m) -> is_memory raw -> bindings !! "namespace" = Some (JString ns) ->
  Forall (for_namespace show_i64 ns) (snd (fst (invoke (wrap hash_order guards name bindings raw) (w, []) env))).
Proof.
  intros Hl Hm Hb. assert (bindings <> ∅) as Hne by (intros ->; by rewrite lookup_empty in Hb).
  destruct (wrap_cases hash_order guards name bindings raw (w, []) env Hne) as [[e ->]|(payload & Hp & ->)]; [done|].
  destruct (memory_isolated db_query to_lowercase show_i64 json_to_string score_order cfg fresh_id clock raw
              (hash_order bindings) bindings ns w [] env Hm (Hl _) Hb) as (stmts & He & Hf).
  cbn [invoke virtualized_tool] in He. rewrite Hp in He. by rewrite He.
Qed.

(** Whatever tool the registry of a bound scope has under a name, an attempt of
    it asks for the bound namespace only. *)
Lemma registered_for_namespace s ns name t env stmts :
  sound_source -> bound_to ns s -> scoped_registry hash_order tool_order guards source s !! name = Some t ->
  attempt_of t env stmts -> Forall (for_namespace show_i64 ns) stmts.
Proof.
  intros [Hok Hl Hk Ha] Hb Ht (w & n & ->). apply Forall_take.
  assert (forall u, silent u -> Forall (for_namespace show_i64 ns) (snd (fst (invoke u (w, []) env)))) as Hsil
    by (intros u Hu; by rewrite Hu).
  apply scoped_registry_sound in Ht as [(b & raw & Hc & Hraw & -> & _)|(m & _ & Hm & Hraw)]; [|by eapply Hsil, Ha|done].
  destruct (Hk _ _ Hraw) as [Hmem|Hs]; [|by apply Hsil, wrap_silent].
  apply wrap_memory; [done|done|]. by eapply Hb.
Qed.

(** C40: tenants are isolated.  In any interleaving of any number of runs over
    one memory database, started at any time under any scopes, every attempt of
    a tool by a run whose scope binds the namespace of its memory tools is of a
    step of its workflow, on a tool its scope grants, in an envelope that grants
    no more; and however often it is retried, wherever it is cut short, whatever
    the workflow and its inputs say, it asks the database only for that
    namespace. *)
Theorem tenants_isolated sys a j ns :
  sound_source ->
  sys_reaches hash_order tool_order show_uuid now show_u64 show_expr_error render parse_uuid new_uuid
    guards config source sys ->
  a ∈ sy_attempts sys -> sy_jobs sys !! at_job a = Some j -> bound_to ns (jb_scope j) ->
  at_step a ∈ wf_steps (jb_workflow j) /\
  is_ok (check_tool (jb_scope j) (st_tool (at_step a))) = true /\
  env_target (at_envelope a) = st_tool (at_step a) /\
  (forall tl, check_access (env_capabilities (at_envelope a)) tl = Ok tt -> is_ok (check_tool (jb_scope j) tl) = true) /\
  Forall (for_namespace show_i64 ns) (at_statements a).
Proof.
  intros Hs Hr%sys_reaches_ok Ha Hj Hb.
  destruct (so_attempts _ _ _ _ _ _ _ _ _ _ _ _ _ Hr a Ha) as (j' & Hj' & [Hst Htool _ Htgt Hcaps] & tl & Htl & Hat).
  rewrite Hj in Hj'. injection Hj' as <-. split_and!; [done| |done| |].
  - by apply check_tool_Ok.
  - intros u Hu. by apply check_tool_Ok, Hcaps.
  - by eapply registered_for_namespace.
Qed.

(** The scope a workflow tool runs its workflow in binds nothing: without a guard
    the run has the tools of the process themselves, and the premise of the
    theorem fails for it. *)
Lemma nested_runs_unbound env s name raw :
  sound_source -> tool_order source ≡ₚ (fun nt => info nt.2) <$> map_to_list source ->
  (forall n, guards !! n ≫= tg_alias = None) -> guards !! name = None ->
  nested_scope env = Ok s -> is_ok (check_tool s name) = true -> source !! name = Some raw ->
  scoped_registry hash_order tool_order guards source s !! name = Some raw.
Proof.
  intros Hs Ho Ha Hg Hn Hc Hr. rewrite scoped_registry_plain by (apply Hs || done).
  unfold granted_tool. rewrite Hr. destruct (check_tool s name) as [b|] eqn:Hb; [|done].
  rewrite nested_scope_Ok in Hn. injection Hn as <-.
  apply check_tool_grant in Hb as (g & Hin & _ & <-).
  apply list_elem_of_fmap in Hin as (p & -> & _). unfold wrap. by rewrite Hg.
Qed.
End Tenants.

(** * Two tenants and a nested run *)

Module Demo.

Abbreviation db_world := (Surreal.Demo.db * list statement)%type.

Definition getter : tool db_world := StateGetTool (fun _ => 1%N) (fun _ => 0%Z) Surreal.Demo.logged_backend.
Definition caller : tool db_world := {|
  info := ToolInfo "workflow:sub" "" JNull None ["workflow:sub"] true annotations_default;
  invoke := fun w env => (w, Ok env) |}.
Definition tools_in_process : gmap string (tool db_world) := {["state:get" := getter; "workflow:sub" := caller]}.
Definition infos (r : gmap string (tool db_world)) : list tool_info := (fun nt => info nt.2) <$> map_to_list r.

Definition tenant (ns : string) : execution_scope :=
  ExecutionScope ns [CapabilityGrant "state:*" {["namespace" := JString ns]}; grant_new "workflow:*"]
    limits_default (Actor "u" User) 0.
Definition context0 : execution_context := ExecutionContext 9 None "s" None None.

(** A step that asks for the plan of tenant [konf:b], and one that calls a
    workflow. *)
Definition read_step : step := {|
  st_id := "read"; st_tool := "state:get";
  st_input := {["key" := Literal "plan"; "namespace" := Literal "konf:b"; "session_id" := Literal "s1"]};
  st_edges := []; st_depends_on := []; st_join := JoinAll; st_on_error := ActFail; st_retry := None;
  st_timeout := None; st_credentials := ∅; st_grant := None; st_pipe := []; st_stream := StreamDefault;
  st_repeat := None |}.
Definition reader : workflow := with_steps (workflow_new "reader" "reader" "read") [read_step].
Definition outer : workflow :=
  with_steps (workflow_new "outer" "outer" "ask") [step_new "ask" "workflow:sub"].

Abbreviation reachable :=
  (sys_reaches map_to_list infos (fun _ => "id") (fun _ => 0%Z) (fun _ => EmptyString) (fun _ => EmptyString)
    Dag.Runs.no_render (fun _ => None) (fun _ _ => 0%N) ∅ config_default tools_in_process).
Definition context_of (s : execution_scope) (wf : workflow) : step_context (W:=db_world) :=
  run_context map_to_list infos (fun _ => "id") ∅ config_default tools_in_process s context0 wf.

(** A run up to the call of its first tool. *)
Definition started (wf : workflow) : config_state := default (Config ∅ ∅ [] [] ∅ ∅ 0 0 0 JNull false None []) (init wf JNull).
Definition resolving (s : execution_scope) (wf : workflow) (n : nat) : config_state :=
  default (started wf)
    (exec_list (fun _ => 0%Z) (fun _ => EmptyString) (fun _ => EmptyString) Dag.Runs.no_render (fun _ => None)
       (fun _ _ => 0%N) (context_of s wf) wf (started wf)
       (replicate n (ATask 0 (Surreal.Demo.empty_db, []) (Ok JNull)))).
Definition running (s : execution_scope) (wf : workflow) : job := Job s context0 wf (resolving s wf 2).

(** Starting a run and running it up to its first tool. *)
Lemma start_and_run jobs tries s wf :
  may_run s wf = true -> init wf JNull = Some (started wf) ->
  exec (fun _ => 0%Z) (fun _ => EmptyString) (fun _ => EmptyString) Dag.Runs.no_render (fun _ => None) (fun _ _ => 0%N)
    (context_of s wf) wf (started wf) (ATask 0 (Surreal.Demo.empty_db, []) (Ok JNull)) = Some (resolving s wf 1) ->
  exec (fun _ => 0%Z) (fun _ => EmptyString) (fun _ => EmptyString) Dag.Runs.no_render (fun _ => None) (fun _ _ => 0%N)
    (context_of s wf) wf (resolving s wf 1) (ATask 0 (Surreal.Demo.empty_db, []) (Ok JNull)) = Some (resolving s wf 2) ->
  reachable (System jobs tries) -> reachable (System (jobs ++ [running s wf]) tries).
Proof.
  intros Ha Hi H1 H2 Hr. set (j0 := Job s context0 wf (started wf)).
  change (running s wf) with (scheduled (scheduled j0 (resolving s wf 1)) (resolving s wf 2)).
  apply schedule_last; [apply schedule_last|by eexists]; [|by eexists].
  eapply sys_next; [exact Hr|]. exact (StartJob _ _ _ _ _ _ _ _ _ _ _ _ (System jobs tries) s context0 wf JNull (started wf) Ha Hi).
Qed.


(** The call a run is waiting for, and what the wrapped getter asks for it. *)
Definition waiting_env (j : job) : envelope json :=
  match tk_phase <$> head (tasks (jb_state j)) with
  | Some (PhInvoke env) => env
  | _ => for_tool_dispatch 0%N 0%Z "" JNull [] 0%N "" "" ""
  end.
Definition asked (tl : tool db_world) (env : envelope json) : list statement :=
  snd (fst (invoke tl (Surreal.Demo.empty_db, []) env)).
Definition bound_getter (ns : string) : tool db_world :=
  wrap map_to_list ∅ "state:get" {["namespace" := JString ns]} getter.

Definition tenant_a : job := running (tenant "konf:a") reader.
Definition tenant_b : job := running (tenant "konf:b") reader.
Definition both : system :=
  System [tenant_a; tenant_b]
    [Attempt 0 read_step (waiting_env tenant_a) (asked (bound_getter "konf:a") (waiting_env tenant_a))].

Lemma process_sound :
  sound_source Surreal.Demo.run id Surreal.Demo.show Surreal.Demo.json_text map_to_list Surreal.Demo.cfg
    (fun _ => 1%N) (fun _ => 0%Z) map_to_list ∅ tools_in_process.
Proof.
  assert (forall name t, tools_in_process !! name = Some t ->
    (name = "state:get" /\ t = getter) \/ (name = "workflow:sub" /\ t = caller)) as Honly.
  { intros name t. unfold tools_in_process. rewrite lookup_insert_Some, lookup_singleton_Some.
    intros [[<- <-]|(_ & <- & <-)]; [by left|by right]. }
  split.
  - intros name t Ht. by destruct (Honly name t Ht) as [[-> ->]|[-> ->]].
  - intros m. unfold listing. reflexivity.
  - intros name t Ht. destruct (Honly name t Ht) as [[-> ->]|[-> ->]]; [left|by right].
    unfold is_memory, memory_tools, getter, shared, Surreal.Demo.logged_backend. rewrite !elem_of_cons. tauto.
  - intros n a t H. by rewrite lookup_empty in H.
Qed.

Lemma tenant_bound ns :
  bound_to Surreal.Demo.run id Surreal.Demo.show Surreal.Demo.json_text map_to_list Surreal.Demo.cfg
    (fun _ => 1%N) (fun _ => 0%Z) tools_in_process ns (tenant ns).
Proof.
  intros name t b Ht Hm Hc. unfold tools_in_process in Ht.
  rewrite lookup_insert_Some, lookup_singleton_Some in Ht. destruct Ht as [[<- <-]|(_ & <- & <-)].
  - vm_compute in Hc. by injection Hc as <-.
  - exfalso. unfold is_memory, memory_tools in Hm. rewrite !elem_of_cons, elem_of_nil in Hm.
    by destruct_or! Hm.
Qed.

Lemma getter_registered j b :
  check_tool (jb_scope j) "state:get" = Ok b ->
  registry (job_context map_to_list infos (fun _ => "id") ∅ config_default tools_in_process j) !! "state:get"
    = Some (wrap map_to_list ∅ "state:get" b getter).
Proof.
  intros Hb. change (scoped_registry map_to_list infos ∅ tools_in_process (jb_scope j) !! "state:get"
    = Some (wrap map_to_list ∅ "state:get" b getter)).
  rewrite scoped_registry_plain; [|apply process_sound|reflexivity|by intros n; rewrite lookup_empty].
  unfold granted_tool. rewrite Hb. by replace (tools_in_process !! "state:get") with (Some getter).
Qed.

Lemma head_in {A} (l : list A) x : head l = Some x -> x ∈ l.
Proof. destruct l as [|y l]; [done|]. intros [= ->]. by left. Qed.

(** Starting at a getter that is waiting, one attempt. *)
Lemma attempt_now jobs i j t tl :
  reachable (System jobs []) -> jobs !! i = Some j -> head (tasks (jb_state j)) = Some t ->
  tk_phase t = PhInvoke (waiting_env j) ->
  registry (job_context map_to_list infos (fun _ => "id") ∅ config_default tools_in_process j)
    !! st_tool (tk_step t) = Some tl ->
  reachable (System jobs [Attempt i (tk_step t) (waiting_env j) (asked tl (waiting_env j))]).
Proof.
  intros Hr Hj Ht Hph Htl. eapply sys_next; [exact Hr|].
  apply (Try _ _ _ _ _ _ _ _ _ _ _ _ (System jobs []) i j t (waiting_env j) tl); [exact Hj|by apply head_in|exact Hph|exact Htl|].
  exists Surreal.Demo.empty_db, (length (asked tl (waiting_env j))). symmetry.
  apply take_ge, Nat.le_refl.
Qed.

Lemma both_reachable : reachable both.
Proof.
  apply (attempt_now [tenant_a; tenant_b] 0 tenant_a (Task read_step 0 1 (PhInvoke (waiting_env tenant_a))));
    [|reflexivity|vm_compute; reflexivity|reflexivity|cbn [tk_step read_step st_tool]; unfold bound_getter; apply getter_registered;
     vm_compute; reflexivity].
  apply (start_and_run [tenant_a]); [vm_compute; reflexivity..|].
  apply (start_and_run []); [vm_compute; reflexivity..|]. apply sys_init.
Qed.

(** The first tenant's run asks for the second tenant's plan, and gets its own. *)
Lemma tenants_isolated_witness :
  length (asked (bound_getter "konf:a") (waiting_env tenant_a)) = 2 /\
  Forall (for_namespace Surreal.Demo.show "konf:a") (asked (bound_getter "konf:a") (waiting_env tenant_a)).
Proof.
  split; [vm_compute; reflexivity|].
  refine (proj2 (proj2 (proj2 (proj2 (tenants_isolated Surreal.Demo.run id Surreal.Demo.show Surreal.Demo.json_text
    map_to_list Surreal.Demo.cfg (fun _ => 1%N) (fun _ => 0%Z) map_to_list infos (fun _ => "id") (fun _ => 0%Z)
    (fun _ => EmptyString) (fun _ => EmptyString) Dag.Runs.no_render (fun _ => None) (fun _ _ => 0%N)
    ∅ config_default tools_in_process both
    (Attempt 0 read_step (waiting_env tenant_a) (asked (bound_getter "konf:a") (waiting_env tenant_a))) tenant_a "konf:a"
    process_sound both_reachable _ _ (tenant_bound "konf:a")))))).
  - by left.
  - reflexivity.
Defined.

(** A step of the first tenant calls a workflow, whose run reads the plan of the
    second. *)
Definition nested : execution_scope :=
  match nested_scope (waiting_env (running (tenant "konf:a") outer)) with Ok s => s | Err _ => tenant "" end.
Definition nested_job : job := running nested reader.
Definition escaped : system :=
  System [running (tenant "konf:a") outer; nested_job]
    [Attempt 1 read_step (waiting_env nested_job) (asked getter (waiting_env nested_job))].

Lemma nested_run_escapes :
  reachable escaped /\
  nested_scope (waiting_env (running (tenant "konf:a") outer)) = Ok nested /\
  length (asked getter (waiting_env nested_job)) = 2 /\
  Forall (fun stmt => obj_get "ns" stmt.2 = Some (JString "konf:b")) (asked getter (waiting_env nested_job)).
Proof.
  assert (nested_scope (waiting_env (running (tenant "konf:a") outer)) = Ok nested) as Hn by (vm_compute; reflexivity).
  split_and!; [|exact Hn|vm_compute; reflexivity|vm_compute; by repeat constructor].
  apply (attempt_now [running (tenant "konf:a") outer; nested_job] 1 nested_job
           (Task read_step 0 1 (PhInvoke (waiting_env nested_job))));
    [|reflexivity|vm_compute; reflexivity|reflexivity|].
  - apply (start_and_run [running (tenant "konf:a") outer]); [vm_compute; reflexivity..|].
    apply (start_and_run []); [vm_compute; reflexivity..|]. apply sys_init.
  - change (scoped_registry map_to_list infos ∅ tools_in_process nested !! "state:get" = Some getter).
    eapply nested_runs_unbound with (env := waiting_env (running (tenant "konf:a") outer)) (name := "state:get");
      [apply process_sound|reflexivity|by intros n; rewrite lookup_empty|reflexivity|exact Hn|vm_compute; reflexivity|reflexivity].
Qed.
End Demo.
